(* ===== verification/_CoqProject ===== *)
-Q . S2P
Prelude.v
ServerLogger.v
ConsoleText.v
Protocol.v
RingBuffer.v
MessageParser.v
DiskMap.v
BlockProcessor.v
Server.v
ServerSpec.v
ServerInv.v
NetworkClient.v
ClientServer.v
EndToEnd.v
ConcurrentBackups.v
BlockHasher.v
DataCompressor.v
CbtDriver.v
CbtClient.v
BlockStateManager.v
Crc32.v
StateFile.v
StateInv.v
Pipeline.v
PipelineInv.v
PipelineSpec.v
PipelineResult.v
PipelineLive.v
PipelineRace.v
PipelineSaves.v
PipelineEndToEnd.v
PipelineNetwork.v
DiskParser.v
DiskParserSpec.v
VolumeMapper.v
VssManager.v
BackupEngine.v
BackupEngineSpec.v
BackupEndToEnd.v
InterruptedBackup.v
CbtCtl.v
CbtCtlConsole.v
DiskScanner.v
ClientMain.v
ClientConsole.v
ServerMain.v
ServerProgram.v
IncrementalEndToEnd.v
DriverProgram.v
ClientLogger.v
TestSuite.v
Handles.v
