(* ===== verification/Prelude.v ===== *)
(** * go2cbt: block-level disk backup

    go2cbt copies the disks of a Windows machine to backing files on a Linux
    server.  Its parts, and where they are modelled:

    - A kernel driver ([src/go2cbt/]) keeps, per disk, a bitmap of the 1 MiB
      blocks written since the last reset.  It replaces the write routine of
      the disk drivers by a hook that marks the blocks of a request and calls
      the original routine, and answers two control requests, query and reset.
      [CbtDriver]: the state is the table of disks with their bitmaps and the
      table of hooked drivers; the kernel's bitmap routines, allocator and
      device queries are the classes [RtlBitmap] and [Kernel].
    - The client ([src/client/]) reads a disk block by block, hashes and
      compresses each block, sends it and records the server's answer.
      [CbtClient] asks the driver for the changed blocks.  [BlockHasher] builds
      and compares manifests of hashes.  [DataCompressor] makes zlib streams,
      with [Compress] of the Windows API as the class [CompressApi].
      [NetworkClient] assembles the messages and runs the loops around [send]
      and [recv] over the class [Socket]; its receiver thread turns
      acknowledgements into calls of a callback.  [BlockStateManager] keeps the
      state of every block and the table of versions, [StateFile] and [Crc32]
      its file.  [Pipeline] is [PipelineTransferBlocks] of [BackupEngine.cpp]:
      the window of blocks in flight, the loop that fills it and the callback
      that empties it, as steps of two threads on one state.
    - The server ([src/server/]) is a single-threaded [epoll] loop.
      [Protocol]: the packed structures and their bytes.  [RingBuffer]: the
      buffers of a connection.  [MessageParser]: cutting a message out of a
      buffer.  [DiskMap]: the table from device number to backing file.
      [BlockProcessor]: inflate, hash, compare, write.  [Server]: connections
      and handlers, with [recv], [send] and [accept] as the class [Kernel].

    How the definitions correspond to the code.  A structure is a record with
    its fields, an operation a function with the code's tests in the code's
    order, named like the code.  A machine integer is a [Z] with [u8] to [u64],
    [s32], [s64] at the places where the code's arithmetic wraps; bytes are
    [list Z].  A copy that may leave its buffer and a use of a destroyed object
    give [None], [OutOfBounds] or [Undefined], never a made-up value.  Code
    outside the repository (the operating systems, zlib, SHA-256) is a class of
    operations, and a second class holds the documented laws that are used;
    each has an instance in the examples.  A loop over [send], [recv] or a
    buffer takes as fuel the bytes that are left (plus one), and a theorem says
    that this is enough ([ServerInv.handlers_terminate], the [exists] of
    [NetworkClient.client_server_framing], [DataCompressor.Compress_Decompress]);
    the loops that serve events for as long as the process lives take the
    events as a list.

    What the theorems show.
    - Wire format and framing: [MessageParser] (round trip, independence of how
      the stream is cut, reads within the buffer) and [RingBuffer] (a byte
      queue), used through the interface [ByteQueue].
    - Server: [ServerSpec] refines the message handlers to a session that
      serves one message at a time; [ServerInv] has the invariants of every
      state the event loop reaches and the termination of its loops.  A
      handler may use the connection it has itself destroyed; the loop has a
      switch ([Server.survive]) that either ends the run there, as undefined, or
      takes the freed memory to hold what it held, and both are covered;
      [BlockProcessor.Process_correct] every branch of a block.
    - Client and server: [NetworkClient], [ClientServer], [EndToEnd]: what the
      client sends is what the server's parser sees, the acknowledgements come
      back field by field, and a backup of an image leaves the image on the
      server.
    - The pipelined transfer: [PipelineInv] (the window as pairs of a flag and
      an index), [PipelineSpec] (reachable states, counts), [PipelineResult]
      (payload, block states, end of a run), [PipelineLive] (the theorems:
      result, termination by a decreasing rank, and two ways to break it),
      [PipelineRace] (clearing and releasing a slot as steps with a beginning and
      an end: the one undefined step of any interleaving is their overlap on the
      slot of the block just sent, and it can be reached; the runs of [Pipeline]
      are those without it), [PipelineSaves] (the saves of the state after
      every hundred blocks: a save of a block overruns its record buffer by four
      bytes; where the memory behind it takes them the saves change nothing of a
      run, and nothing can be resumed from them) and [PipelineEndToEnd] (a finished transfer and the
      server together).
    - Change tracking: [CbtDriver] (every write since the reset is marked, the
      hooks change no request) and [CbtClient] (the client reads the bits of a
      byte in the other order).
    - Client data: [BlockHasher], [DataCompressor], [BlockStateManager],
      [StateFile], [Crc32], round trips, invariants and equivalences with the
      standards, and where the code departs from them.  Of the Windows
      compression API only one law is used, that it undoes its own compression;
      what it answers is otherwise arbitrary, and [Compress_Decompress] says what
      the zlib stream is for each answer.
      [StateInv]: every operation keeps the block states well formed; what is
      still missing for a save is memory.
    - Disks and shadow copies ([src/client/]): [DiskParser] reads the partition
      tables of a disk and finds its free space ([DiskParserSpec]: the tables
      come back, the free ranges are the complement of the partitions);
      [VolumeMapper] matches volumes with partitions; [VssManager] drives the
      shadow copy service, which answers every call from the history of calls,
      so the protocol theorem holds for every service.
    - The backup engine: [BackupEngine] puts the client together: the run over
      the disks, the full backup (snapshot, version, greeting, pipelined
      transfer) and the incremental one (query, snapshot, greeting, block by
      block, reset), with every early return; [BackupEngineSpec]: nothing of the
      shadow copy service is left held on any path, each pending block is sent as
      often as its outcome says, and an incremental backup forgets the changes it
      was asked to save.

    - From the engine to the server's file: [PipelineNetwork] lets the two
      threads of the transfer run over a connection (every interleaving, and a
      schedule that can be executed) and says what is on the wire;
      [BackupEndToEnd] composes this with [FullBackup] and the server's session:
      a full backup that returns true has put exactly the blocks it counts on
      the server.  [InterruptedBackup] is the same for a client that stops
      anywhere: the points of a backup's connection, a prefix of the bytes sent
      until then, and what the server has on its disk, which the next complete
      backup repairs.  [ConcurrentBackups] is the same for several clients at
      once: the rounds of the event loop on their connections in any order, the
      answers of each, and who wrote which block of a shared disk.
      [IncrementalEndToEnd] composes the driver, the incremental backup and the
      server: one that succeeds has left every file of the
      server as it was and forgotten the changes.
    - The programs: [DiskScanner] (a disk described from the answers of the
      device, and that its unallocated ranges are the free ranges of the disk
      parser), [CbtCtl] (the tool that queries, dumps and resets the bitmap:
      when a dump ends, what it counts, and that it shows what the client would
      transfer), [ClientMain] (the options and commands of the client, with
      the test for administrator rights), [ServerMain] (the options of the
      server up to its event loop) and [ServerProgram] (the same to the exit,
      with the signal: no exception, consistent files, no open descriptor
      after serving; a server that could not start leaves its socket open).
      [DriverProgram] is the driver's life around the tables of [CbtDriver]:
      loading, the control device, the partition query, unloading with the pool
      memory of the bitmaps.
    - What surrounds them: [Handles] (the devices, the hash provider and the
      socket a client object holds, and the path of the state file: nothing
      leaks unless [Connect] is called twice), [ServerLogger] and
      [ClientLogger] (what the logs hold, and that the texts of hashes and
      version types can be read back).
    - What the programs print: [ConsoleText] (numbers, columns and [double]s of
      [printf], with [double] as binary64 of [SpecFloat]), [ClientConsole] (the
      text of the client's reports; the regions of a disk can be read back from
      it) and [CbtCtlConsole] (the dump, its statistics and density map; the
      bitmap can be read back from the rows).
    - [TestSuite] runs the project's tests of the block states, the manifests,
      the compression and the log levels on these definitions.

    Not modelled: threads other than the two of the pipelined transfer; a
    signal in the middle of a handler of the server, after which the rest of the
    handler uses destroyed objects ([ServerProgram.signal_in_handler]); in
    [BackupEngine.FullBackup] the two threads are an argument, of which
    [BackupEndToEnd] assumes that it is a run of the steps of [Pipeline]; the
    creation of the state directory; the clock, the format directives and the
    character encoding of the logs and of the console, and the messages on the
    standard error stream; the class declarations of the headers beyond the
    fields the records have; the tests that only check sizes and constants or
    that nothing crashes, and those that need a real disk or the system's own
    compressor.  What stays open beyond this: the two threads of a transfer on a
    weaker memory model than one step at a time; flags and counters that one
    thread writes and the other reads without a lock are read and written at
    once here, and two vectors are cleared at the same time only in
    [PipelineRace]. *)

From Stdlib Require Export ZArith Lia.
From stdpp Require Export base tactics numbers list list_numbers gmap.

Declare Scope cbt_scope.
Delimit Scope cbt_scope with cbt.
#[global] Open Scope cbt_scope.
#[global] Open Scope Z_scope.

(** ** Machine integers and byte strings *)

Abbreviation zlen l := (Z.of_nat (length l)).

(** An unsigned [w]-bit value, and the reduction a C conversion to such a
    type performs. *)
Definition in_width (w x : Z) : Prop := 0 <= x < 2 ^ w.
Definition wrap (w x : Z) : Z := x mod 2 ^ w.
Abbreviation u8 := (wrap 8).
Abbreviation u16 := (wrap 16).
Abbreviation u32 := (wrap 32).
Abbreviation u64 := (wrap 64).

(** Conversion of a 64-bit pattern to a signed 64-bit integer ([off_t],
    [LONGLONG]), and of a 32-bit one to [int]. *)
Definition signed (w x : Z) : Z :=
  let u := wrap w x in if u <? 2 ^ (w - 1) then u else u - 2 ^ w.
Abbreviation s64 := (signed 64).
Abbreviation s32 := (signed 32).

(** Bytes are 8-bit values; a memory range is a list of them. *)
Definition bytes_ok (l : list Z) : Prop := Forall (in_width 8) l.

#[global] Instance in_width_dec w x : Decision (in_width w x).
Proof. unfold in_width. apply _. Defined.
#[global] Instance bytes_ok_dec l : Decision (bytes_ok l).
Proof. unfold bytes_ok. apply _. Defined.

(** The little-endian layout of an [n]-byte integer, and its inverse. *)
Fixpoint le_enc (n : nat) (x : Z) : list Z :=
  match n with
  | O => []
  | S n' => x mod 256 :: le_enc n' (x / 256)
  end.

Definition le_dec (l : list Z) : Z := foldr (fun b acc => b + 256 * acc) 0 l.

(** [sub off n l]: the [n] bytes at offset [off]; [rd_le off n l]: the
    little-endian integer stored there. *)
Definition sub (off n : Z) (l : list Z) : list Z :=
  take (Z.to_nat n) (drop (Z.to_nat off) l).
Definition rd_le (off n : Z) (l : list Z) : Z := le_dec (sub off n l).

Definition zeros (n : Z) : list Z := replicate (Z.to_nat n) 0.

(** [memcpy(buf + off, src, |src|)] into a block of memory: [None] when the
    destination range leaves the block. *)
Definition memcpy_to (off : Z) (src buf : list Z) : option (list Z) :=
  if (0 <=? off) && (off + zlen src <=? zlen buf) then
    Some (take (Z.to_nat off) buf ++ src ++ drop (Z.to_nat (off + zlen src)) buf)
  else None.

(** [memcpy(dst, buf + off, n)] out of a block of memory: [None] when the
    source range leaves the block. *)
Definition memcpy_from (off n : Z) (buf : list Z) : option (list Z) :=
  if (0 <=? off) && (0 <=? n) && (off + n <=? zlen buf) then Some (sub off n buf)
  else None.

(** The characters of a string before its terminator. *)
Fixpoint c_str (u : list Z) : list Z :=
  match u with [] => [] | x :: u' => if x =? 0 then [] else x :: c_str u' end.

(** ** Tactics *)

(** Case analysis on the boolean tests of a goal or hypothesis, with the
    integer comparisons they decide as propositions. *)
Ltac reflect_Z :=
  repeat match goal with
  | H : (_ && _) = true |- _ => apply andb_true_iff in H; destruct H
  | H : (_ && _) = false |- _ => apply andb_false_iff in H
  | H : (_ || _) = true |- _ => apply orb_true_iff in H
  | H : (_ || _) = false |- _ => apply orb_false_iff in H; destruct H
  | H : negb _ = true |- _ => apply negb_true_iff in H
  | H : negb _ = false |- _ => apply negb_false_iff in H
  | H : (_ <? _) = true |- _ => apply Z.ltb_lt in H
  | H : (_ <? _) = false |- _ => apply Z.ltb_ge in H
  | H : (_ <=? _) = true |- _ => apply Z.leb_le in H
  | H : (_ <=? _) = false |- _ => apply Z.leb_gt in H
  | H : (_ =? _) = true |- _ => apply Z.eqb_eq in H
  | H : (_ =? _) = false |- _ => apply Z.eqb_neq in H
  end.

Ltac case_if :=
  match goal with
  | |- context [if ?b then _ else _] =>
      lazymatch b with context [if _ then _ else _] => fail | _ => idtac end;
      let E := fresh "E" in destruct b eqn:E; reflect_Z
  end.

Ltac case_if_in H :=
  match type of H with
  | context [if ?b then _ else _] =>
      lazymatch b with context [if _ then _ else _] => fail | _ => idtac end;
      let E := fresh "E" in destruct b eqn:E; reflect_Z
  end.

(** Lengths of concatenations, prefixes and suffixes, then linear
    arithmetic. *)
Ltac len_solve :=
  unfold zeros, sub in *;
  rewrite ?length_app, ?length_take, ?length_drop, ?length_replicate in *;
  cbn [length] in *; lia.

(** Decides an integer test of the goal by arithmetic on lengths. *)
Ltac test_false b :=
  replace b with false by
    (symmetry; first [apply Z.ltb_ge | apply Z.leb_gt | apply Z.eqb_neq]; len_solve).
Ltac test_true b :=
  replace b with true by
    (symmetry; first [apply Z.ltb_lt | apply Z.leb_le | apply Z.eqb_eq]; len_solve).

(** A decidable proposition without variables, by evaluation. *)
Ltac evaluate := apply (bool_decide_unpack _); vm_compute; exact I.

Create HintDb cbt.
Create Rewrite HintDb cbt_len.

(** ** Lemmas *)

Lemma wrap_small w x : in_width w x -> wrap w x = x.
Proof. intros H. unfold wrap. apply Z.mod_small, H. Qed.

Lemma signed_small w x : 1 <= w -> 0 <= x < 2 ^ (w - 1) -> signed w x = x.
Proof.
  intros Hw Hx. assert (2 ^ w = 2 * 2 ^ (w - 1)) as E.
  { replace w with (1 + (w - 1)) at 1 by lia. rewrite Z.pow_add_r by lia. lia. }
  unfold signed. rewrite wrap_small by (unfold in_width; lia).
  by replace (x <? 2 ^ (w - 1)) with true by lia.
Qed.

Lemma s64_small x : 0 <= x < 2 ^ 63 -> s64 x = x.
Proof. intros. by apply signed_small. Qed.

Lemma wrap_range w x : 0 <= w -> in_width w (wrap w x).
Proof. intros H. apply Z.mod_pos_bound. lia. Qed.

Lemma bytes_ok_app l1 l2 : bytes_ok (l1 ++ l2) <-> bytes_ok l1 /\ bytes_ok l2.
Proof. apply Forall_app. Qed.

Lemma bytes_ok_take n l : bytes_ok l -> bytes_ok (take n l).
Proof. apply Forall_take. Qed.

Lemma bytes_ok_drop n l : bytes_ok l -> bytes_ok (drop n l).
Proof. apply Forall_drop. Qed.

Lemma bytes_ok_sub off n l : bytes_ok l -> bytes_ok (sub off n l).
Proof. intros H. by apply bytes_ok_take, bytes_ok_drop. Qed.

Lemma le_enc_length n x : length (le_enc n x) = n.
Proof. revert x. induction n as [|n IH]; intros x; cbn; [done|]. by rewrite IH. Qed.

Lemma le_enc_ok n x : bytes_ok (le_enc n x).
Proof.
  revert x. induction n as [|n IH]; intros x; cbn; constructor; [|apply IH].
  apply Z.mod_pos_bound. lia.
Qed.

Lemma le_dec_enc_wrap n x : le_dec (le_enc n x) = x mod 2 ^ (8 * Z.of_nat n).
Proof.
  revert x. induction n as [|n IH]; intros x.
  { cbn. by rewrite Z.mod_1_r. }
  change (le_dec (le_enc (S n) x)) with (x mod 256 + 256 * le_dec (le_enc n (x / 256))).
  rewrite IH. replace (8 * Z.of_nat (S n)) with (8 + 8 * Z.of_nat n) by lia.
  rewrite Z.pow_add_r by lia. change (2 ^ 8) with 256.
  rewrite Z.rem_mul_r; lia.
Qed.

Lemma le_dec_enc n x : in_width (8 * Z.of_nat n) x -> le_dec (le_enc n x) = x.
Proof. intros H. rewrite le_dec_enc_wrap. by apply Z.mod_small. Qed.

Lemma le_dec_bound l : bytes_ok l -> in_width (8 * zlen l) (le_dec l).
Proof.
  unfold in_width. induction 1 as [|b l Hb Hl IH]; [cbn; lia|].
  change (le_dec (b :: l)) with (b + 256 * le_dec l). cbn [length].
  replace (8 * Z.of_nat (S (length l))) with (8 + 8 * zlen l) by lia.
  rewrite Z.pow_add_r by lia. change (2 ^ 8) with 256. unfold in_width in Hb. lia.
Qed.

Lemma le_enc_dec l : bytes_ok l -> le_enc (length l) (le_dec l) = l.
Proof.
  induction 1 as [|b l Hb Hl IH]; [done|].
  change (le_dec (b :: l)) with (b + 256 * le_dec l). cbn [length le_enc].
  unfold in_width in Hb. change (2 ^ 8) with 256 in Hb.
  replace ((b + 256 * le_dec l) mod 256) with b.
  2:{ rewrite Z.mul_comm, Z.mod_add by lia. symmetry. apply Z.mod_small. lia. }
  replace ((b + 256 * le_dec l) / 256) with (le_dec l).
  2:{ rewrite Z.mul_comm, Z.div_add by lia. rewrite Z.div_small; lia. }
  by rewrite IH.
Qed.

Lemma sub_length off n l :
  0 <= off -> 0 <= n -> off + n <= zlen l -> length (sub off n l) = Z.to_nat n.
Proof. intros. len_solve. Qed.

Lemma sub_here n a r : zlen a = n -> sub 0 n (a ++ r) = a.
Proof.
  intros H. unfold sub. change (Z.to_nat 0) with 0%nat. rewrite drop_0.
  rewrite take_app_length'; [done|lia].
Qed.

Lemma sub_skip off n a r :
  zlen a <= off -> sub off n (a ++ r) = sub (off - zlen a) n r.
Proof.
  intros H. unfold sub. rewrite drop_app_ge by lia. do 2 f_equal. lia.
Qed.

Lemma sub_all n l : zlen l = n -> sub 0 n l = l.
Proof.
  intros <-. unfold sub. change (Z.to_nat 0) with 0%nat. rewrite drop_0, Nat2Z.id.
  apply firstn_all.
Qed.

Lemma sub_prefix off n l k :
  0 <= off -> 0 <= n -> off + n <= k -> sub off n (take (Z.to_nat k) l) = sub off n l.
Proof.
  intros. unfold sub. rewrite skipn_firstn_comm, take_take. f_equal. lia.
Qed.

(** A suffix starts with the range at its front. *)
Lemma drop_sub off n l :
  0 <= off -> 0 <= n ->
  drop (Z.to_nat off) l = sub off n l ++ drop (Z.to_nat (off + n)) l.
Proof.
  intros. rewrite <- (take_drop (Z.to_nat n) (drop (Z.to_nat off) l)) at 1.
  rewrite drop_drop. unfold sub. do 2 f_equal. lia.
Qed.

(** Adjacent ranges. *)
Lemma sub_app off n m l :
  0 <= off -> 0 <= n -> 0 <= m -> sub off (n + m) l = sub off n l ++ sub (off + n) m l.
Proof.
  intros. unfold sub. rewrite <- (take_drop (Z.to_nat n) (drop (Z.to_nat off) l)) at 1.
  rewrite drop_drop. destruct (Z.le_gt_cases n (zlen (drop (Z.to_nat off) l))).
  - rewrite take_app_ge by len_solve. f_equal; f_equal; [len_solve|f_equal; lia].
  - rewrite (drop_ge l (_ + _)) by len_solve. rewrite app_nil_r, (drop_ge l (Z.to_nat (off + n)))
      by len_solve. rewrite take_nil, app_nil_r, take_take. f_equal. lia.
Qed.

Lemma rd_le_here (n : nat) x r :
  in_width (8 * Z.of_nat n) x -> rd_le 0 (Z.of_nat n) (le_enc n x ++ r) = x.
Proof.
  intros H. unfold rd_le. rewrite sub_here by (rewrite le_enc_length; lia).
  by apply le_dec_enc.
Qed.

Lemma rd_le_skip off n a r :
  zlen a <= off -> rd_le off n (a ++ r) = rd_le (off - zlen a) n r.
Proof. intros H. unfold rd_le. by rewrite sub_skip. Qed.

Lemma rd_le_bound off n l :
  0 <= n -> bytes_ok l -> in_width (8 * n) (rd_le off n l).
Proof.
  intros Hn H. unfold rd_le.
  pose proof (le_dec_bound (sub off n l) (bytes_ok_sub off n l H)) as [? Hb].
  split; [done|]. eapply Z.lt_le_trans; [exact Hb|].
  apply Z.pow_le_mono_r; [lia|]. unfold sub. rewrite length_take. lia.
Qed.

Lemma sub_enc off (n : nat) l :
  0 <= off -> off + Z.of_nat n <= zlen l -> bytes_ok l ->
  le_enc n (rd_le off (Z.of_nat n) l) = sub off (Z.of_nat n) l.
Proof.
  intros. unfold rd_le.
  replace n with (length (sub off (Z.of_nat n) l)) at 1
    by (rewrite sub_length; lia).
  apply le_enc_dec. by apply bytes_ok_sub.
Qed.

Lemma fold_left_map {A B C} (f : A -> B -> A) (g : C -> B) l a :
  fold_left f (map g l) a = fold_left (fun a c => f a (g c)) l a.
Proof. revert a. induction l as [|c l IH]; intros a; cbn; [done|apply IH]. Qed.

Lemma list_insert_alter {A} (f : A -> A) (k : nat) (l : list A) x :
  l !! k = Some x -> <[k := f x]> l = alter f k l.
Proof.
  revert k. induction l as [|y l IH]; intros [|k]; cbn; [done|done|by intros [= ->]|].
  intros Hx. f_equal. by apply IH.
Qed.

Lemma list_alter_none {A} (f : A -> A) (k : nat) (l : list A) : l !! k = None -> alter f k l = l.
Proof.
  revert k. induction l as [|y l IH]; intros [|k]; cbn; [done|done|done|].
  intros Hx. f_equal. by apply IH.
Qed.

Lemma zeros_length n : 0 <= n -> zlen (zeros n) = n.
Proof. intros. unfold zeros. rewrite length_replicate. lia. Qed.

Lemma zeros_ok n : bytes_ok (zeros n).
Proof.
  unfold zeros, bytes_ok. apply Forall_replicate. unfold in_width. lia.
Qed.

Lemma memcpy_to_Some off src buf :
  0 <= off -> off + zlen src <= zlen buf ->
  memcpy_to off src buf
  = Some (take (Z.to_nat off) buf ++ src ++ drop (Z.to_nat (off + zlen src)) buf).
Proof. intros. unfold memcpy_to. case_if; [done|]. lia. Qed.

Lemma memcpy_to_length off src buf buf' :
  memcpy_to off src buf = Some buf' -> length buf' = length buf.
Proof.
  unfold memcpy_to. intros H. case_if_in H; [|done]. injection H as <-. len_solve.
Qed.

#[global] Arguments le_enc : simpl never.
#[global] Arguments le_dec : simpl never.
#[global] Arguments sub : simpl never.
#[global] Arguments rd_le : simpl never.
#[global] Arguments zeros : simpl never.
#[global] Arguments wrap : simpl never.
#[global] Arguments signed : simpl never.

#[export] Hint Resolve bytes_ok_take bytes_ok_drop bytes_ok_sub le_enc_ok zeros_ok
  le_dec_bound rd_le_bound : cbt.
#[export] Hint Rewrite le_enc_length : cbt_len.
