(* ===== verification/ServerLogger.v ===== *)
(** * The server's logger

    [server/Logger.{h,cpp}]: the level, one line of the log, and the texts the
    server logs - hashes in hexadecimal ([HashToHex], with the digits the client
    uses for the same) and the version type of a greeting in UTF-8 - with
    decoders to read these texts back. *)

From Stdlib Require Import Ascii String.
From stdpp Require Import pretty.
From S2P Require Import Prelude.

Local Open Scope list_scope.

(** ** Definitions *)

Definition text (s : string) : list Z := map (fun a => Z.of_nat (nat_of_ascii a)) (list_ascii_of_string s).
Definition NEWLINE : Z := 10.

(** *** Hashes *)

(** [kHex] of the server, and the digits of the client's [%02X]. *)
Definition kHex : list Z := text "0123456789abcdef".
Definition upperHex : list Z := text "0123456789ABCDEF".

Definition hex_byte (digits : list Z) (b : Z) : list Z :=
  [nth (Z.to_nat (Z.land (Z.shiftr b 4) 0xF)) digits 0; nth (Z.to_nat (Z.land b 0xF)) digits 0].

Definition HashToHex (hash : list Z) : list Z := concat (map (hex_byte kHex) hash).

(** One code unit of [Utf16leToUtf8]. *)
Definition utf8_unit (cp : Z) : list Z :=
  if cp <? 0x80 then [u8 cp]
  else if cp <? 0x800 then
    [u8 (Z.lor 0xC0 (Z.shiftr cp 6)); u8 (Z.lor 0x80 (Z.land cp 0x3F))]
  else
    [u8 (Z.lor 0xE0 (Z.shiftr cp 12)); u8 (Z.lor 0x80 (Z.land (Z.shiftr cp 6) 0x3F));
     u8 (Z.lor 0x80 (Z.land cp 0x3F))].

Fixpoint Utf16leToUtf8 (data : list Z) : list Z :=
  match data with
  | [] => []
  | cp :: data' => if cp =? 0 then [] else utf8_unit cp ++ Utf16leToUtf8 data'
  end.

Inductive Level := DEBUG | INFO | WARNING | ERROR.
Definition level_Z (l : Level) : Z := match l with DEBUG => 0 | INFO => 1 | WARNING => 2 | ERROR => 3 end.
Definition LevelTag (l : Level) : list Z :=
  text match l with DEBUG => "DEBUG" | INFO => "INFO " | WARNING => "WARN " | ERROR => "ERROR" end.

(** The level and what was printed. *)
Record Logger := { g_minLevel : Level; g_stream : list Z }.

Definition SetLevel (l : Level) (s : Logger) : Logger := {| g_minLevel := l; g_stream := g_stream s |}.
Definition Init : Level -> Logger -> Logger := SetLevel.

Definition decimal (n : Z) : list Z := text (pretty n).
Definition padded (width : nat) (n : Z) : list Z :=
  let d := decimal n in replicate (width - length d) 48 ++ d.

(** [time]: the answer of [strftime]; [nsec]: the nanoseconds of the clock;
    [message]: the text [vsnprintf] formats, of which it keeps 1023 bytes. *)
Definition LogRaw (level : Level) (time : list Z) (nsec tid : Z) (message : list Z) (s : Logger) : Logger :=
  if level_Z level <? level_Z (g_minLevel s) then s
  else
    {| g_minLevel := g_minLevel s;
       g_stream := g_stream s ++ text "[" ++ time ++ text "." ++ padded 3 (nsec / 1000000) ++ text "] ["
         ++ LevelTag level ++ text "] [tid=" ++ decimal tid ++ text "] " ++ take 1023 message ++ [NEWLINE] |}.

(** ** Reference decoders *)

(** A hexadecimal digit of either case, and a string of pairs of them. *)
Definition unhex_digit (c : Z) : option Z :=
  if (48 <=? c) && (c <=? 57) then Some (c - 48)
  else if (97 <=? c) && (c <=? 102) then Some (c - 87)
  else if (65 <=? c) && (c <=? 70) then Some (c - 55) else None.
Fixpoint unhex (s : list Z) : option (list Z) :=
  match s with
  | [] => Some []
  | h :: l :: s' => x ← unhex_digit h; y ← unhex_digit l; cons (16 * x + y) <$> unhex s'
  | [_] => None
  end.

(** UTF-8 of RFC 3629, without overlong forms and surrogates. *)
Definition surrogate (cp : Z) : bool := (0xD800 <=? cp) && (cp <? 0xE000).
Definition continuation (b : Z) : bool := (0x80 <=? b) && (b <? 0xC0).
Fixpoint utf8_decode (l : list Z) : option (list Z) :=
  match l with
  | [] => Some []
  | a :: r =>
      if a <? 0x80 then cons a <$> utf8_decode r
      else if (0xC2 <=? a) && (a <? 0xE0) then
        match r with
        | b :: r' =>
            if continuation b then cons ((a - 0xC0) * 64 + (b - 0x80)) <$> utf8_decode r' else None
        | _ => None
        end
      else if (0xE0 <=? a) && (a <? 0xF0) then
        match r with
        | b :: c :: r' =>
            let cp := (a - 0xE0) * 4096 + (b - 0x80) * 64 + (c - 0x80) in
            if continuation b && continuation c && negb (cp <? 0x800) && negb (surrogate cp)
            then cons cp <$> utf8_decode r' else None
        | _ => None
        end
      else if (0xF0 <=? a) && (a <? 0xF5) then
        match r with
        | b :: c :: d :: r' =>
            let cp := (a - 0xF0) * 262144 + (b - 0x80) * 4096 + (c - 0x80) * 64 + (d - 0x80) in
            if continuation b && continuation c && continuation d && negb (cp <? 0x10000) && (cp <? 0x110000)
            then cons cp <$> utf8_decode r' else None
        | _ => None
        end
      else None
  end.

(** The characters in front of the first zero. *)
Fixpoint c_text (l : list Z) : list Z :=
  match l with
  | c :: l' => if c =? 0 then [] else c :: c_text l'
  | [] => []
  end.

(** ** Lemmas *)

(** A test of all numbers below a bound. *)
Lemma check_below (P : Z -> Prop) `{forall x, Decision (P x)} n x :
  forallb (fun x => bool_decide (P x)) (seqZ 0 n) = true -> 0 <= x < n -> P x.
Proof.
  intros Ha Hx. rewrite forallb_forall in Ha. apply (bool_decide_eq_true_1 (P x)), Ha, list_elem_of_In, elem_of_seqZ. lia.
Qed.

Lemma hex_byte_read digits b s :
  digits = kHex \/ digits = upperHex -> in_width 8 b ->
  unhex (hex_byte digits b ++ s) = cons b <$> unhex s.
Proof.
  intros Hd Hb. unfold hex_byte. cbn [app unhex].
  assert (forall x, 0 <= x < 16 -> unhex_digit (nth (Z.to_nat x) digits 0) = Some x) as Hx.
  { intros x Hx. apply (check_below (fun x => unhex_digit (nth (Z.to_nat x) digits 0) = Some x) 16); [|done].
    by destruct Hd as [->| ->]; vm_compute. }
  change 0xF with (Z.ones 4). rewrite !Z.land_ones, Z.shiftr_div_pow2 by lia. unfold in_width in Hb.
  rewrite !Hx by (Z.to_euclidean_division_equations; lia). cbn [mbind option_bind].
  destruct (unhex s); [|done]. cbn. do 2 f_equal. Z.to_euclidean_division_equations; lia.
Qed.

Lemma hash_text digits hash :
  digits = kHex \/ digits = upperHex -> bytes_ok hash ->
  unhex (concat (map (hex_byte digits) hash)) = Some hash /\
  zlen (concat (map (hex_byte digits) hash)) = 2 * zlen hash.
Proof.
  intros Hd. induction 1 as [|b hash Hb _ [IH1 IH2]]; [done|]. cbn [map concat].
  rewrite hex_byte_read, IH1, length_app by done. split; [done|]. cbn [hex_byte length]. lia.
Qed.

(** The marked bits of a byte of UTF-8. *)
Lemma lor_marks x :
  0 <= x < 64 -> Z.lor 0x80 x = 0x80 + x /\ (x < 32 -> Z.lor 0xC0 x = 0xC0 + x) /\ (x < 16 -> Z.lor 0xE0 x = 0xE0 + x).
Proof.
  intros Hx. apply (check_below (fun x => Z.lor 0x80 x = 0x80 + x /\ (x < 32 -> Z.lor 0xC0 x = 0xC0 + x) /\
    (x < 16 -> Z.lor 0xE0 x = 0xE0 + x)) 64); [by vm_compute|done].
Qed.

Lemma utf8_unit_bytes cp :
  in_width 16 cp ->
  utf8_unit cp =
    if cp <? 0x80 then [cp]
    else if cp <? 0x800 then [0xC0 + cp / 64; 0x80 + cp mod 64]
    else [0xE0 + cp / 4096; 0x80 + cp / 64 mod 64; 0x80 + cp mod 64].
Proof.
  intros Hc. unfold in_width in Hc. unfold utf8_unit. change 0x3F with (Z.ones 6).
  rewrite !Z.land_ones, !Z.shiftr_div_pow2 by lia. change (2 ^ 6) with 64. change (2 ^ 12) with 4096.
  assert (0 <= cp mod 64 < 64 /\ 0 <= cp / 64 mod 64 < 64) as [H1 H2]
    by (Z.to_euclidean_division_equations; lia).
  destruct (lor_marks _ H1) as [-> _]. destruct (lor_marks _ H2) as [-> _].
  destruct (cp <? 0x80) eqn:E1; [|destruct (cp <? 0x800) eqn:E2]; reflect_Z.
  - by rewrite wrap_small by (unfold in_width; lia).
  - assert (0 <= cp / 64 < 32) as H3 by (Z.to_euclidean_division_equations; lia).
    destruct (lor_marks (cp / 64) ltac:(lia)) as (_ & Hl & _). rewrite Hl by lia. by rewrite !wrap_small by (unfold in_width; lia).
  - assert (0 <= cp / 4096 < 16) as H3 by (Z.to_euclidean_division_equations; lia).
    destruct (lor_marks (cp / 4096) ltac:(lia)) as (_ & _ & Hl). rewrite Hl by lia. by rewrite !wrap_small by (unfold in_width; lia).
Qed.

Lemma decode_unit cp rest :
  in_width 16 cp ->
  utf8_decode (utf8_unit cp ++ rest) = if surrogate cp then None else cons cp <$> utf8_decode rest.
Proof.
  intros Hc. rewrite utf8_unit_bytes by done. unfold in_width in Hc.
  destruct (cp <? 0x80) eqn:E1; [|destruct (cp <? 0x800) eqn:E2]; reflect_Z; cbn [app utf8_decode].
  - test_true (cp <? 0x80). replace (surrogate cp) with false by (unfold surrogate; lia). done.
  - assert (2 <= cp / 64 < 32 /\ 0 <= cp mod 64 < 64) as [H1 H2] by (Z.to_euclidean_division_equations; lia).
    test_false (0xC0 + cp / 64 <? 0x80). replace (_ && _) with true by lia.
    unfold continuation. replace ((0x80 <=? 0x80 + cp mod 64) && (0x80 + cp mod 64 <? 0xC0)) with true by lia.
    replace (surrogate cp) with false by (unfold surrogate; lia).
    replace ((0xC0 + cp / 64 - 0xC0) * 64 + (0x80 + cp mod 64 - 0x80)) with cp; [done|].
    Z.to_euclidean_division_equations; lia.
  - assert (0 <= cp / 4096 < 16 /\ 0 <= cp mod 64 < 64 /\ 0 <= cp / 64 mod 64 < 64) as (H1 & H2 & H3)
      by (Z.to_euclidean_division_equations; lia).
    test_false (0xE0 + cp / 4096 <? 0x80). test_false (0xE0 + cp / 4096 <? 0xE0). rewrite andb_false_r.
    test_true (0xE0 <=? 0xE0 + cp / 4096). test_true (0xE0 + cp / 4096 <? 0xF0). cbv zeta. cbn [andb].
    replace ((0xE0 + cp / 4096 - 0xE0) * 4096 + (0x80 + cp / 64 mod 64 - 0x80) * 64 + (0x80 + cp mod 64 - 0x80))
      with cp by (Z.to_euclidean_division_equations; lia).
    unfold continuation. test_false (cp <? 0x800).
    replace ((0x80 <=? 0x80 + cp / 64 mod 64) && (0x80 + cp / 64 mod 64 <? 0xC0)) with true by lia.
    replace ((0x80 <=? 0x80 + cp mod 64) && (0x80 + cp mod 64 <? 0xC0)) with true by lia.
    cbn [andb negb]. by destruct (surrogate cp).
Qed.

(** ** Examples *)

(** A character outside the basic plane, as the two units of UTF-16. *)
Example surrogates_are_no_utf8 : utf8_decode (Utf16leToUtf8 [0x46; 0xD83E; 0xDDEA]) = None.
Proof. by vm_compute. Qed.
Example server_log_line :
  g_stream (LogRaw WARNING (text "2026-07-13 14:30:05") 5000000 17 (text "stopping")
    {| g_minLevel := INFO; g_stream := [] |})
  = text "[2026-07-13 14:30:05.005] [WARN ] [tid=17] stopping" ++ [NEWLINE].
Proof. by vm_compute. Qed.
