(* ===== verification/ConsoleText.v ===== *)
(** * Formatted text

    What the programs use of [printf]: decimal and hexadecimal numbers with
    their widths, strings padded to a column, and [double]s with a fixed number
    of digits ([SpecFloat]: binary64, printed from their exact value, halves to
    even).  Numbers can be read back. *)

From Stdlib Require Import Ascii String SpecFloat.
From S2P Require Import Prelude.
From S2P Require Import ServerLogger.

Local Open Scope list_scope.

(** A line of text. *)
Definition ln (s : string) : list Z := text s ++ [NEWLINE].

(** ** Numbers *)

(** The digits of a number, the highest first. *)
Fixpoint to_digits (fuel : nat) (b z : Z) : list Z :=
  match fuel with
  | O => []
  | S fuel' => if z <? b then [z] else to_digits fuel' b (z / b) ++ [z mod b]
  end.

(** The digits of a number of up to 64 bits, with zeros to a width. *)
Definition number (b : Z) (chars : list Z) (width : nat) (z : Z) : list Z :=
  let s := map (fun d => nth (Z.to_nat d) chars 0) (to_digits 64 b z) in replicate (width - length s) 48 ++ s.

(** [%u] and [%llu]; [%d]; [%llx] and [%llX] with a width. *)
Definition dec (z : Z) : list Z := number 10 kHex 1 z.
Definition dec_int (z : Z) : list Z := if z <? 0 then 45 :: dec (- z) else dec z.
Definition hex (width : nat) (z : Z) : list Z := number 16 kHex width z.
Definition HEX (width : nat) (z : Z) : list Z := number 16 upperHex width z.

(** [%-Ns] and [%Ns]. *)
Definition left (width : nat) (s : list Z) : list Z := s ++ replicate (width - length s) 32.
Definition right (width : nat) (s : list Z) : list Z := replicate (width - length s) 32 ++ s.

(** ** [double] *)

Definition of_u64 (x : Z) : spec_float := binary_normalize 53 1024 x 0 false.
Definition fdiv : spec_float -> spec_float -> spec_float := SFdiv 53 1024.
Definition fmul : spec_float -> spec_float -> spec_float := SFmul 53 1024.
Definition fsub : spec_float -> spec_float -> spec_float := SFsub 53 1024.

(** The integer next to a quotient, of two the even one. *)
Definition nearest_even (num den : Z) : Z :=
  let q := num / den in
  let r := num mod den in
  if 2 * r <? den then q else if den <? 2 * r then q + 1 else if Z.even q then q else q + 1.

(** [%.Nf] *)
Definition fixed_abs (prec : nat) (m e : Z) : list Z :=
  let p := 10 ^ Z.of_nat prec in
  let n := if 0 <=? e then m * 2 ^ e * p else nearest_even (m * p) (2 ^ (- e)) in
  dec (n / p) ++ text "." ++ number 10 kHex prec (n mod p).
Definition fixed (prec : nat) (f : spec_float) : list Z :=
  match f with
  | S754_zero s => (if s then [45] else []) ++ fixed_abs prec 0 0
  | S754_infinity s => (if s then [45] else []) ++ text "inf"
  | S754_nan => text "nan"
  | S754_finite s m e => (if s then [45] else []) ++ fixed_abs prec (Z.pos m) e
  end.

(** ** Reading numbers back *)

Definition read_digit (b c : Z) : option Z :=
  match unhex_digit c with Some d => if d <? b then Some d else None | None => None end.
Fixpoint read_digits (b : Z) (s : list Z) (acc : Z) : Z * list Z :=
  match s with
  | c :: s' => match read_digit b c with Some d => read_digits b s' (acc * b + d) | None => (acc, s) end
  | [] => (acc, [])
  end.
Definition read_number (b : Z) (s : list Z) : Z * list Z := read_digits b s 0.

(** The text behind [w]. *)
Fixpoint expect (w s : list Z) : option (list Z) :=
  match w, s with
  | [], _ => Some s
  | c :: w', d :: s' => if c =? d then expect w' s' else None
  | _ :: _, [] => None
  end.

Definition value (b : Z) (ds : list Z) (acc : Z) : Z := fold_left (fun a d => a * b + d) ds acc.

Lemma value_app b l1 l2 acc : value b (l1 ++ l2) acc = value b l2 (value b l1 acc).
Proof. apply fold_left_app. Qed.

Lemma to_digits_value fuel b z : 2 <= b -> 0 <= z < b ^ Z.of_nat fuel -> value b (to_digits fuel b z) 0 = z.
Proof.
  intros Hb. revert z. induction fuel as [|fuel IH]; intros z Hz; [cbn in *; lia|]. cbn [to_digits].
  case_if; [done|]. rewrite Nat2Z.inj_succ, Z.pow_succ_r in Hz by lia.
  rewrite value_app, IH by (split; [apply Z.div_pos; lia|apply Z.div_lt_upper_bound; lia]).
  cbn. pose proof (Z.div_mod z b ltac:(lia)). lia.
Qed.

Lemma to_digits_range fuel b z : 2 <= b -> 0 <= z -> Forall (fun d => 0 <= d < b) (to_digits fuel b z).
Proof.
  intros Hb. revert z. induction fuel as [|fuel IH]; intros z Hz; [constructor|]. cbn [to_digits].
  case_if; [by repeat constructor|]. apply Forall_app. split; [apply IH, Z.div_pos; lia|].
  constructor; [apply Z.mod_pos_bound; lia|constructor].
Qed.

Lemma digit_read b chars d :
  chars = kHex \/ chars = upperHex -> b <= 16 -> 0 <= d < b -> read_digit b (nth (Z.to_nat d) chars 0) = Some d.
Proof.
  intros Hc Hb Hd. unfold read_digit.
  assert (unhex_digit (nth (Z.to_nat d) chars 0) = Some d) as ->.
  { apply (check_below (fun x => unhex_digit (nth (Z.to_nat x) chars 0) = Some x) 16); [|lia].
    by destruct Hc as [->| ->]. }
  by test_true (d <? b).
Qed.

Lemma read_digits_map b chars ds s acc :
  chars = kHex \/ chars = upperHex -> b <= 16 -> Forall (fun d => 0 <= d < b) ds ->
  read_digits b (map (fun d => nth (Z.to_nat d) chars 0) ds ++ s) acc = read_digits b s (value b ds acc).
Proof.
  intros Hc Hb Hd. revert acc. induction Hd as [|d ds Hd _ IH]; intros acc; [done|].
  cbn [map app read_digits]. by rewrite digit_read.
Qed.

Lemma read_digits_zeros b n s : 0 < b -> read_digits b (replicate n 48 ++ s) 0 = read_digits b s 0.
Proof.
  intros Hb. induction n as [|n IH]; [done|]. cbn [replicate app read_digits].
  change (read_digit b 48) with (if 0 <? b then Some 0 else None). by test_true (0 <? b).
Qed.

(** A number is followed by something else. *)
Definition no_digit (b : Z) (s : list Z) : Prop := match s with [] => True | c :: _ => read_digit b c = None end.

Lemma read_number_ok b chars width z s :
  chars = kHex \/ chars = upperHex -> 2 <= b <= 16 -> in_width 64 z -> no_digit b s ->
  read_number b (number b chars width z ++ s) = (z, s).
Proof.
  intros Hc Hb Hz Hs. unfold read_number, number.
  rewrite <- app_assoc, read_digits_zeros, read_digits_map, to_digits_value; try done; try lia.
  - destruct s as [|c s]; [done|]. cbn in Hs |- *. by rewrite Hs.
  - unfold in_width in Hz. pose proof (Z.pow_le_mono_l 2 b 64). lia.
  - apply to_digits_range; [lia|apply Hz].
Qed.

Lemma expect_ok w s : expect w (w ++ s) = Some s.
Proof. induction w as [|c w IH]; [done|]. cbn. by rewrite Z.eqb_refl. Qed.

(** The characters of a number. *)
Definition plain (c : Z) : Prop := 45 <= c <= 122.

Lemma number_plain b chars width z :
  chars = kHex \/ chars = upperHex -> 2 <= b <= 16 -> 0 <= z -> Forall plain (number b chars width z).
Proof.
  intros Hc Hb Hz. unfold number. apply Forall_app. split; [by apply Forall_replicate|].
  apply Forall_map. eapply Forall_impl; [apply (to_digits_range 64 b z); [apply Hb|done]|]. intros d Hd. cbv beta in *.
  apply (check_below (fun x => 45 <= nth (Z.to_nat x) chars 0 <= 122) 16); [|lia].
  by destruct Hc as [->| ->].
Qed.

Lemma nearest_even_nonneg n d : 0 <= n -> 0 < d -> 0 <= nearest_even n d.
Proof. intros Hn Hd. unfold nearest_even. pose proof (Z.div_pos n d Hn Hd). repeat case_if; lia. Qed.

#[local] Instance plain_dec c : Decision (plain c).
Proof. unfold plain. apply _. Defined.

Lemma fixed_plain prec f : Forall plain (fixed prec f).
Proof.
  assert (forall m e, 0 <= m -> Forall plain (fixed_abs prec m e)) as Ha.
  { intros m e Hm. unfold fixed_abs. cbv zeta. set (p := 10 ^ Z.of_nat prec). assert (0 < p) by (apply Z.pow_pos_nonneg; lia).
    match goal with |- context [if _ then ?a else ?b] => set (n := if 0 <=? e then a else b) end.
    assert (0 <= n).
    { subst n. case_if; [pose proof (Z.pow_pos_nonneg 2 e ltac:(lia) ltac:(done)); nia|].
      apply nearest_even_nonneg; [nia|apply Z.pow_pos_nonneg; lia]. }
    apply Forall_app. split; [apply number_plain; [by left|lia|apply Z.div_pos; lia]|].
    apply Forall_app. split; [evaluate|]. apply number_plain; [by left|lia|]. by apply Z.mod_pos_bound. }
  assert (forall s : bool, Forall plain (if s then [45] else [])) as Hs by (intros []; evaluate).
  destruct f as [s|s| |s m e]; cbn [fixed]; [apply Forall_app; split..|evaluate|apply Forall_app; split];
    (done || apply Ha || evaluate || idtac); lia.
Qed.

(** The difference between a number and the quotient it stands for is at most a
    half. *)
Lemma nearest_even_error n d : 0 < d -> 2 * Z.abs (n - nearest_even n d * d) <= d.
Proof.
  intros Hd. unfold nearest_even. pose proof (Z.div_mod n d ltac:(lia)). pose proof (Z.mod_pos_bound n d Hd).
  repeat case_if; nia.
Qed.

(** ** Examples *)

Example fixed_half : fixed 2 (fdiv (of_u64 1) (of_u64 8)) = text "0.12".
Proof. by vm_compute. Qed.
Example fixed_tenth : fixed 2 (fdiv (of_u64 1) (of_u64 10)) = text "0.10".
Proof. by vm_compute. Qed.
Example fixed_large : fixed 2 (of_u64 (2 ^ 64 - 1)) = text "18446744073709551616.00".
Proof. by vm_compute. Qed.
Example numbers :
  hex 10 0x1ABCD = text "000001abcd" /\ HEX 8 0xFE = text "000000FE" /\ dec_int (-12) = text "-12" /\ dec 0 = text "0".
Proof. by vm_compute. Qed.
