(* ===== verification/Protocol.v ===== *)
(** * Wire protocol

    [server/Protocol.h] and the structures of [client/NetworkClient.h]: the
    constants, the message and status enumerations and the four packed
    structures.  [enc_X] is the memory image of a packed structure (what
    [send] of [&x, sizeof x] transmits on a little-endian host), [dec_X] is
    the [memcpy] that fills the structure from a buffer. *)

From S2P Require Import Prelude.

Definition PROTOCOL_MAGIC : Z := 0x474F3243.
Definition HEADER_SIZE : Z := 16.
Definition BLOCK_HEADER_SIZE : Z := 52.
Definition ACK_BODY_SIZE : Z := 48.
Definition HELLO_BODY_SIZE : Z := 88.
Definition BLOCK_SIZE : Z := 1024 * 1024.

(** [enum class MessageType : uint32_t]. *)
Inductive MessageType := DATA_BLOCK | ACK | HELLO | BYE | ERROR.

Definition MessageType_to_Z (t : MessageType) : Z :=
  match t with DATA_BLOCK => 1 | ACK => 2 | HELLO => 3 | BYE => 4 | ERROR => 5 end.

(** The [switch (static_cast<MessageType>(v))] of the code: [None] is its
    [default] case. *)
Definition MessageType_of_Z (v : Z) : option MessageType :=
  if v =? 1 then Some DATA_BLOCK else if v =? 2 then Some ACK
  else if v =? 3 then Some HELLO else if v =? 4 then Some BYE
  else if v =? 5 then Some ERROR else None.

(** [enum class AckStatus : uint32_t] of the protocol. *)
Inductive AckStatus :=
  | OK | HASH_MISMATCH | DECOMPRESS_ERROR | WRITE_ERROR | INVALID_DEV | OUT_OF_RANGE.

Definition AckStatus_to_Z (s : AckStatus) : Z :=
  match s with
  | OK => 0 | HASH_MISMATCH => 1 | DECOMPRESS_ERROR => 2 | WRITE_ERROR => 3
  | INVALID_DEV => 4 | OUT_OF_RANGE => 5
  end.

#[global] Instance MessageType_eq_dec : EqDecision MessageType.
Proof. solve_decision. Defined.
#[global] Instance AckStatus_eq_dec : EqDecision AckStatus.
Proof. solve_decision. Defined.

(** [struct MsgHeader] (16 bytes). *)
Record MsgHeader := { mh_Magic : Z; mh_Type : Z; mh_DevNo : Z; mh_Reserved : Z }.

(** [struct BlockHeader] (52 bytes). *)
Record BlockHeader := {
  bh_BlockIndex : Z; bh_DataSize : Z; bh_CompressedSize : Z;
  bh_Hash : list Z; bh_VersionId : Z }.

(** [struct AckBody] (48 bytes). *)
Record AckBody := {
  ack_BlockIndex : Z; ack_Status : Z; ack_DevNo : Z; ack_Hash : list Z }.

(** [struct HelloBody] (88 bytes); [VersionType] is kept as its 64 bytes. *)
Record HelloBody := {
  hb_VersionId : Z; hb_DevNo : Z; hb_TotalBlocks : Z; hb_TotalSize : Z;
  hb_VersionType : list Z }.

Definition enc_MsgHeader (h : MsgHeader) : list Z :=
  le_enc 4 (mh_Magic h) ++ le_enc 4 (mh_Type h) ++ le_enc 4 (mh_DevNo h)
  ++ le_enc 4 (mh_Reserved h).

Definition dec_MsgHeader (l : list Z) : MsgHeader :=
  {| mh_Magic := rd_le 0 4 l; mh_Type := rd_le 4 4 l; mh_DevNo := rd_le 8 4 l;
     mh_Reserved := rd_le 12 4 l |}.

Definition enc_BlockHeader (b : BlockHeader) : list Z :=
  le_enc 8 (bh_BlockIndex b) ++ le_enc 4 (bh_DataSize b)
  ++ le_enc 4 (bh_CompressedSize b) ++ bh_Hash b ++ le_enc 4 (bh_VersionId b).

Definition dec_BlockHeader (l : list Z) : BlockHeader :=
  {| bh_BlockIndex := rd_le 0 8 l; bh_DataSize := rd_le 8 4 l;
     bh_CompressedSize := rd_le 12 4 l; bh_Hash := sub 16 32 l;
     bh_VersionId := rd_le 48 4 l |}.

Definition enc_AckBody (a : AckBody) : list Z :=
  le_enc 8 (ack_BlockIndex a) ++ le_enc 4 (ack_Status a) ++ le_enc 4 (ack_DevNo a)
  ++ ack_Hash a.

Definition dec_AckBody (l : list Z) : AckBody :=
  {| ack_BlockIndex := rd_le 0 8 l; ack_Status := rd_le 8 4 l;
     ack_DevNo := rd_le 12 4 l; ack_Hash := sub 16 32 l |}.

Definition enc_HelloBody (b : HelloBody) : list Z :=
  le_enc 4 (hb_VersionId b) ++ le_enc 4 (hb_DevNo b) ++ le_enc 8 (hb_TotalBlocks b)
  ++ le_enc 8 (hb_TotalSize b) ++ hb_VersionType b.

Definition dec_HelloBody (l : list Z) : HelloBody :=
  {| hb_VersionId := rd_le 0 4 l; hb_DevNo := rd_le 4 4 l;
     hb_TotalBlocks := rd_le 8 8 l; hb_TotalSize := rd_le 16 8 l;
     hb_VersionType := sub 24 64 l |}.

(** ** Well-formed structures: every field in the range of its C type *)

Definition MsgHeader_wf (h : MsgHeader) : Prop :=
  in_width 32 (mh_Magic h) /\ in_width 32 (mh_Type h) /\ in_width 32 (mh_DevNo h)
  /\ in_width 32 (mh_Reserved h).

Definition BlockHeader_wf (b : BlockHeader) : Prop :=
  in_width 64 (bh_BlockIndex b) /\ in_width 32 (bh_DataSize b)
  /\ in_width 32 (bh_CompressedSize b) /\ zlen (bh_Hash b) = 32
  /\ in_width 32 (bh_VersionId b).

Definition AckBody_wf (a : AckBody) : Prop :=
  in_width 64 (ack_BlockIndex a) /\ in_width 32 (ack_Status a)
  /\ in_width 32 (ack_DevNo a) /\ zlen (ack_Hash a) = 32.

Definition HelloBody_wf (b : HelloBody) : Prop :=
  in_width 32 (hb_VersionId b) /\ in_width 32 (hb_DevNo b)
  /\ in_width 64 (hb_TotalBlocks b) /\ in_width 64 (hb_TotalSize b)
  /\ zlen (hb_VersionType b) = 64.

(** ** Layout lemmas *)

(** Reads a field of a memory image: skips the fields before it, then
    decodes the one at the front. *)
Ltac rd_fields :=
  repeat first
    [ rewrite rd_le_skip by (rewrite ?le_enc_length; lia)
    | rewrite sub_skip by (rewrite ?le_enc_length; lia) ];
  rewrite ?le_enc_length.

Lemma enc_MsgHeader_length h : zlen (enc_MsgHeader h) = HEADER_SIZE.
Proof. unfold enc_MsgHeader. rewrite !length_app, !le_enc_length. done. Qed.

Lemma enc_BlockHeader_length b :
  zlen (bh_Hash b) = 32 -> zlen (enc_BlockHeader b) = BLOCK_HEADER_SIZE.
Proof.
  intros. unfold enc_BlockHeader, BLOCK_HEADER_SIZE.
  rewrite !length_app, !le_enc_length. lia.
Qed.

Lemma enc_AckBody_length a :
  zlen (ack_Hash a) = 32 -> zlen (enc_AckBody a) = ACK_BODY_SIZE.
Proof.
  intros. unfold enc_AckBody, ACK_BODY_SIZE. rewrite !length_app, !le_enc_length. lia.
Qed.

Lemma enc_HelloBody_length b :
  zlen (hb_VersionType b) = 64 -> zlen (enc_HelloBody b) = HELLO_BODY_SIZE.
Proof.
  intros. unfold enc_HelloBody, HELLO_BODY_SIZE. rewrite !length_app, !le_enc_length. lia.
Qed.

(** Closes the goal left for one field by [rd_fields]. *)
Ltac field_solve :=
  rd_fields;
  match goal with
  | |- rd_le ?o _ _ = _ => replace o with 0 by lia
  | |- sub ?o _ _ = _ => replace o with 0 by lia
  end;
  first [ by apply (rd_le_here 4) | by apply (rd_le_here 8)
        | apply sub_here; lia ].

Ltac roundtrip_solve :=
  rewrite <- ?app_assoc; f_equal; field_solve.

Lemma MsgHeader_roundtrip h r :
  MsgHeader_wf h -> dec_MsgHeader (enc_MsgHeader h ++ r) = h.
Proof.
  intros (H1 & H2 & H3 & H4). destruct h as [a b c d]; cbn in *.
  unfold dec_MsgHeader, enc_MsgHeader; cbn. roundtrip_solve.
Qed.

Lemma BlockHeader_roundtrip b r :
  BlockHeader_wf b -> dec_BlockHeader (enc_BlockHeader b ++ r) = b.
Proof.
  intros (H1 & H2 & H3 & H4 & H5). destruct b as [i d c h v]; cbn in *.
  unfold dec_BlockHeader, enc_BlockHeader; cbn. roundtrip_solve.
Qed.

Lemma AckBody_roundtrip a r :
  AckBody_wf a -> dec_AckBody (enc_AckBody a ++ r) = a.
Proof.
  intros (H1 & H2 & H3 & H4). destruct a as [i s d h]; cbn in *.
  unfold dec_AckBody, enc_AckBody; cbn. roundtrip_solve.
Qed.

Lemma HelloBody_roundtrip b r :
  HelloBody_wf b -> dec_HelloBody (enc_HelloBody b ++ r) = b.
Proof.
  intros (H1 & H2 & H3 & H4 & H5). destruct b as [v d n s t]; cbn in *.
  unfold dec_HelloBody, enc_HelloBody; cbn. roundtrip_solve.
Qed.

Lemma MessageType_of_to t : MessageType_of_Z (MessageType_to_Z t) = Some t.
Proof. by destruct t. Qed.

Lemma MessageType_of_Some v t : MessageType_of_Z v = Some t <-> v = MessageType_to_Z t.
Proof.
  split; [|intros ->; apply MessageType_of_to].
  unfold MessageType_of_Z. intros H. repeat case_if_in H; by simplify_eq.
Qed.

(** Decoding only looks at the bytes of the structure. *)
Lemma dec_BlockHeader_prefix k l :
  BLOCK_HEADER_SIZE <= k -> dec_BlockHeader (take (Z.to_nat k) l) = dec_BlockHeader l.
Proof.
  unfold BLOCK_HEADER_SIZE. intros H. unfold dec_BlockHeader, rd_le.
  f_equal; [f_equal|f_equal|f_equal| |f_equal]; apply sub_prefix; lia.
Qed.

Lemma dec_MsgHeader_prefix k l :
  HEADER_SIZE <= k -> dec_MsgHeader (take (Z.to_nat k) l) = dec_MsgHeader l.
Proof.
  unfold HEADER_SIZE. intros H. unfold dec_MsgHeader, rd_le.
  f_equal; f_equal; apply sub_prefix; lia.
Qed.

Lemma dec_MsgHeader_wf l : bytes_ok l -> MsgHeader_wf (dec_MsgHeader l).
Proof. intros H. repeat split; by apply (rd_le_bound _ 4). Qed.

Lemma dec_BlockHeader_wf l :
  bytes_ok l -> BLOCK_HEADER_SIZE <= zlen l -> BlockHeader_wf (dec_BlockHeader l).
Proof.
  unfold BLOCK_HEADER_SIZE. intros H Hl. unfold BlockHeader_wf, dec_BlockHeader; cbn.
  rewrite sub_length by lia.
  repeat split; first [by apply (rd_le_bound _ 4) | by apply (rd_le_bound _ 8)].
Qed.

#[export] Hint Resolve dec_MsgHeader_wf dec_BlockHeader_wf : cbt.
