(* ===== verification/RingBuffer.v ===== *)
(** * Receive and send buffers

    [server/RingBuffer.{h,cpp}]: a linear buffer with a read and a write
    position.  The abstract view is a byte queue: [contents] is what has been
    written and not consumed.  [ByteQueue] is that promise as an interface;
    the server's loops are verified against it, and the lemmas below
    discharge it for the concrete buffer. *)

From S2P Require Import Prelude.

(** ** The interface: a queue of bytes *)

Class ByteQueue (Q : Type) := {
  bq_ok : Q -> Prop;
  bq_contents : Q -> list Z;
  bq_append : list Z -> Q -> Q;
  bq_consume : Z -> Q -> Q;
  bq_compact : Q -> Q;
}.

Class ByteQueueLaws (Q : Type) `{ByteQueue Q} := {
  bq_append_ok q d : bq_ok q -> bq_ok (bq_append d q);
  bq_append_contents q d :
    bq_ok q -> bq_contents (bq_append d q) = bq_contents q ++ d;
  bq_consume_ok q n : bq_ok q -> 0 <= n -> bq_ok (bq_consume n q);
  bq_consume_contents q n :
    bq_ok q -> 0 <= n -> bq_contents (bq_consume n q) = drop (Z.to_nat n) (bq_contents q);
  bq_compact_ok q : bq_ok q -> bq_ok (bq_compact q);
  bq_compact_contents q : bq_ok q -> bq_contents (bq_compact q) = bq_contents q;
}.

(** ** The buffer *)

Record RingBuffer := { rb_buf : list Z; read_pos : Z; write_pos : Z }.

Definition RingBuffer_new (capacity : Z) : RingBuffer :=
  {| rb_buf := zeros capacity; read_pos := 0; write_pos := 0 |}.

(** The memory that starts at [buf_.data() + read_pos_], up to the end of the
    vector: a reader that stays within [ReadableBytes] sees a prefix of it. *)
Definition ReadPtr (rb : RingBuffer) : list Z := drop (Z.to_nat (read_pos rb)) (rb_buf rb).
Definition ReadableBytes (rb : RingBuffer) : Z := write_pos rb - read_pos rb.
Definition WritableBytes (rb : RingBuffer) : Z := zlen (rb_buf rb) - write_pos rb.

Definition Consume (bytes : Z) (rb : RingBuffer) : RingBuffer :=
  let bytes := if ReadableBytes rb <? bytes then ReadableBytes rb else bytes in
  {| rb_buf := rb_buf rb; read_pos := read_pos rb + bytes; write_pos := write_pos rb |}.

Definition Compact (rb : RingBuffer) : RingBuffer :=
  if read_pos rb =? 0 then rb
  else
    let keep := ReadableBytes rb in
    {| rb_buf := if 0 <? keep
                 then sub (read_pos rb) keep (rb_buf rb) ++ drop (Z.to_nat keep) (rb_buf rb)
                 else rb_buf rb;
       read_pos := 0; write_pos := keep |}.

Definition Reset (rb : RingBuffer) : RingBuffer :=
  {| rb_buf := rb_buf rb; read_pos := 0; write_pos := 0 |}.

(** [std::copy] of [data] to offset [off] of a vector that is long enough. *)
Definition copy_at (off : Z) (data buf : list Z) : list Z :=
  take (Z.to_nat off) buf ++ data ++ drop (Z.to_nat (off + zlen data)) buf.

Definition WriteFrom (data : list Z) (rb : RingBuffer) : RingBuffer :=
  let need := write_pos rb + zlen data in
  let buf := if zlen (rb_buf rb) <? need
             then rb_buf rb ++ zeros (need - zlen (rb_buf rb)) else rb_buf rb in
  {| rb_buf := copy_at (write_pos rb) data buf; read_pos := read_pos rb;
     write_pos := need |}.

Definition Append (data : list Z) (rb : RingBuffer) : RingBuffer := WriteFrom data rb.

(** The outcome of [recv]: bytes, end of stream ([0]), or [-1] with [errno]. *)
Inductive RecvResult := RecvData (d : list Z) | RecvClosed | RecvError (errno : Z).

Definition EAGAIN : Z := 11.
Definition ENOBUFS : Z := 105.

(** [recv] is the operating system's answer to a request for at most [len]
    bytes. *)
Definition WriteFromFd (recv : Z -> RecvResult) (rb : RingBuffer) : RecvResult * RingBuffer :=
  let rb := if write_pos rb =? zlen (rb_buf rb) then Compact rb else rb in
  if write_pos rb =? zlen (rb_buf rb) then (RecvError ENOBUFS, rb)
  else
    match recv (zlen (rb_buf rb) - write_pos rb) with
    | RecvData d =>
        (RecvData d,
         {| rb_buf := copy_at (write_pos rb) d (rb_buf rb); read_pos := read_pos rb;
            write_pos := write_pos rb + zlen d |})
    | r => (r, rb)
    end.

(** ** Invariant and abstraction *)

Definition RingBuffer_ok (rb : RingBuffer) : Prop :=
  0 <= read_pos rb /\ read_pos rb <= write_pos rb /\ write_pos rb <= zlen (rb_buf rb).

Definition contents (rb : RingBuffer) : list Z :=
  sub (read_pos rb) (ReadableBytes rb) (rb_buf rb).

(** Documented behaviour of [recv]: it delivers between one and [len] bytes. *)
Definition recv_ok (recv : Z -> RecvResult) : Prop :=
  forall len d, recv len = RecvData d -> 0 < zlen d <= len /\ bytes_ok d.

Lemma RingBuffer_new_ok c : 0 <= c -> RingBuffer_ok (RingBuffer_new c).
Proof. intros. unfold RingBuffer_ok; cbn. rewrite zeros_length; lia. Qed.

Lemma RingBuffer_new_contents c : contents (RingBuffer_new c) = [].
Proof. reflexivity. Qed.

Lemma contents_length rb : RingBuffer_ok rb -> zlen (contents rb) = ReadableBytes rb.
Proof.
  intros (? & ? & ?). unfold contents, ReadableBytes. rewrite sub_length; lia.
Qed.

(** What a reader of [ReadPtr] sees within [ReadableBytes] is [contents]. *)
Lemma ReadPtr_contents rb :
  RingBuffer_ok rb -> take (Z.to_nat (ReadableBytes rb)) (ReadPtr rb) = contents rb.
Proof. reflexivity. Qed.

Lemma copy_at_length off d buf :
  0 <= off -> off + zlen d <= zlen buf -> length (copy_at off d buf) = length buf.
Proof. intros. unfold copy_at. len_solve. Qed.

(** Copying at the write position appends to the window that ends there. *)
Lemma sub_copy_at r w d buf :
  0 <= r -> r <= w -> w + zlen d <= zlen buf ->
  sub r (w + zlen d - r) (copy_at w d buf) = sub r (w - r) buf ++ d.
Proof.
  intros. unfold sub, copy_at.
  rewrite drop_app_le by len_solve. rewrite skipn_firstn_comm.
  rewrite app_assoc, take_app_le by len_solve.
  rewrite take_app_ge by len_solve.
  rewrite length_take, length_drop.
  rewrite (take_ge d) by lia.
  f_equal. f_equal. lia.
Qed.

Lemma Consume_ok n rb : RingBuffer_ok rb -> 0 <= n -> RingBuffer_ok (Consume n rb).
Proof.
  unfold RingBuffer_ok, Consume, ReadableBytes. cbn. intros. case_if; lia.
Qed.

Lemma Consume_contents n rb :
  RingBuffer_ok rb -> 0 <= n -> contents (Consume n rb) = drop (Z.to_nat n) (contents rb).
Proof.
  unfold RingBuffer_ok, contents, Consume, ReadableBytes, sub. cbn. intros (? & ? & ?) ?.
  rewrite skipn_firstn_comm, drop_drop. case_if.
  - rewrite !(proj2 (Nat.sub_0_le _ _)) by lia.
    replace (Z.to_nat (write_pos rb - (read_pos rb + (write_pos rb - read_pos rb)))) with 0%nat
      by lia. by rewrite !take_0.
  - f_equal; [lia|]. f_equal. lia.
Qed.

Lemma Compact_ok rb : RingBuffer_ok rb -> RingBuffer_ok (Compact rb).
Proof.
  unfold RingBuffer_ok, Compact, ReadableBytes. intros (? & ? & ?).
  case_if; [lia|]. cbn. case_if; len_solve.
Qed.

Lemma Compact_length rb :
  RingBuffer_ok rb -> length (rb_buf (Compact rb)) = length (rb_buf rb).
Proof.
  unfold RingBuffer_ok, Compact, ReadableBytes. intros (? & ? & ?).
  case_if; [done|]. cbn. case_if; [len_solve|done].
Qed.

Lemma Compact_contents rb : RingBuffer_ok rb -> contents (Compact rb) = contents rb.
Proof.
  unfold RingBuffer_ok, Compact, contents, ReadableBytes. intros (? & ? & ?).
  case_if; [done|]. cbn. rewrite Z.sub_0_r. case_if.
  - apply sub_here. rewrite sub_length; lia.
  - unfold sub. replace (Z.to_nat (write_pos rb - read_pos rb)) with 0%nat by lia.
    by rewrite !take_0.
Qed.

(** After [Compact] the free space is everything that is not readable. *)
Lemma Compact_writable rb :
  RingBuffer_ok rb -> WritableBytes (Compact rb) = zlen (rb_buf rb) - ReadableBytes rb.
Proof.
  intros Hok. pose proof (Compact_length rb Hok) as Hl.
  unfold WritableBytes. rewrite Hl. unfold Compact, ReadableBytes. case_if; cbn; lia.
Qed.

Lemma WriteFrom_ok d rb : RingBuffer_ok rb -> RingBuffer_ok (WriteFrom d rb).
Proof.
  unfold RingBuffer_ok, WriteFrom. intros (? & ? & ?). cbn. case_if.
  - rewrite copy_at_length by len_solve. len_solve.
  - rewrite copy_at_length by len_solve. lia.
Qed.

Lemma WriteFrom_contents d rb :
  RingBuffer_ok rb -> contents (WriteFrom d rb) = contents rb ++ d.
Proof.
  unfold RingBuffer_ok, WriteFrom, contents, ReadableBytes. intros (? & ? & ?). cbn.
  case_if.
  - rewrite sub_copy_at by len_solve. f_equal.
    unfold sub. rewrite drop_app_le by lia. rewrite take_app_le by len_solve. done.
  - by rewrite sub_copy_at by lia.
Qed.

Lemma Reset_contents rb : contents (Reset rb) = [].
Proof. reflexivity. Qed.

Lemma Compact_read_write rb :
  RingBuffer_ok rb -> write_pos (Compact rb) = ReadableBytes rb /\ read_pos (Compact rb) = 0.
Proof. unfold Compact, ReadableBytes. intros. case_if; cbn; lia. Qed.

(** [WriteFromFd] answers [ENOBUFS] exactly when the whole capacity is unread. *)
Lemma WriteFromFd_full recv rb :
  RingBuffer_ok rb -> ReadableBytes rb = zlen (rb_buf rb) ->
  WriteFromFd recv rb = (RecvError ENOBUFS, rb).
Proof.
  intros Hok H. unfold WriteFromFd. unfold RingBuffer_ok, ReadableBytes in *.
  assert (Compact rb = rb) as E by (unfold Compact; case_if; [done|lia]).
  rewrite E. replace (write_pos rb =? zlen (rb_buf rb)) with true by lia.
  cbv zeta iota. by replace (write_pos rb =? zlen (rb_buf rb)) with true by lia.
Qed.

(** Otherwise it asks for the free space, which is not empty, and appends
    what arrives; the capacity never changes. *)
Lemma WriteFromFd_room recv rb :
  RingBuffer_ok rb -> recv_ok recv -> ReadableBytes rb < zlen (rb_buf rb) ->
  exists len, 0 < len /\
    let '(r, rb') := WriteFromFd recv rb in
    r = recv len /\ RingBuffer_ok rb' /\ length (rb_buf rb') = length (rb_buf rb) /\
    contents rb' = contents rb ++ (match r with RecvData d => d | _ => [] end).
Proof.
  intros Hok Hr Hroom. unfold WriteFromFd.
  set (rb1 := if write_pos rb =? zlen (rb_buf rb) then Compact rb else rb).
  assert (RingBuffer_ok rb1 /\ contents rb1 = contents rb /\
          length (rb_buf rb1) = length (rb_buf rb) /\ write_pos rb1 < zlen (rb_buf rb))
    as (Hok1 & Hc1 & Hl1 & Hw1).
  { unfold rb1. case_if.
    - pose proof (Compact_read_write rb Hok). rewrite Compact_contents by done.
      rewrite Compact_length by done. split_and!; [by apply Compact_ok|done|done|lia].
    - unfold RingBuffer_ok in Hok. split_and!; [done|done|done|lia]. }
  clearbody rb1. rewrite <- Hc1, <- Hl1 in *. clear Hc1 Hl1 Hok Hroom.
  exists (zlen (rb_buf rb1) - write_pos rb1). split; [lia|].
  destruct (write_pos rb1 =? zlen (rb_buf rb1)) eqn:E; reflect_Z; [lia|].
  destruct (recv _) as [d| |] eqn:Er; rewrite ?app_nil_r; try done.
  pose proof (Hr _ _ Er) as [? _]. destruct Hok1 as (? & ? & ?).
  unfold RingBuffer_ok, contents, ReadableBytes; cbn.
  rewrite copy_at_length by lia. rewrite sub_copy_at by lia. split_and!; done || lia.
Qed.

(** The bytes of the buffer stay bytes. *)
Lemma Consume_bytes_ok n rb : bytes_ok (rb_buf rb) -> bytes_ok (rb_buf (Consume n rb)).
Proof. done. Qed.

Lemma Compact_bytes_ok rb : bytes_ok (rb_buf rb) -> bytes_ok (rb_buf (Compact rb)).
Proof.
  intros H. unfold Compact. case_if; [done|]. cbn. case_if; [|done].
  apply bytes_ok_app. auto with cbt.
Qed.

Lemma copy_at_bytes_ok off d buf : bytes_ok d -> bytes_ok buf -> bytes_ok (copy_at off d buf).
Proof. intros. unfold copy_at. rewrite !bytes_ok_app. auto with cbt. Qed.

Lemma WriteFromFd_bytes_ok recv rb :
  recv_ok recv -> bytes_ok (rb_buf rb) -> bytes_ok (rb_buf (WriteFromFd recv rb).2).
Proof.
  intros Hr Hb. unfold WriteFromFd.
  set (rb1 := if write_pos rb =? zlen (rb_buf rb) then Compact rb else rb).
  assert (bytes_ok (rb_buf rb1)) as H1 by (unfold rb1; case_if; auto using Compact_bytes_ok).
  clearbody rb1.
  destruct (_ =? _); [done|]. destruct (recv _) as [d| |] eqn:E; [|done|done].
  apply copy_at_bytes_ok; [by eapply Hr|done].
Qed.

#[export] Hint Resolve Consume_bytes_ok Compact_bytes_ok WriteFromFd_bytes_ok : cbt.

#[export] Instance RingBuffer_queue : ByteQueue RingBuffer := {
  bq_ok := RingBuffer_ok; bq_contents := contents; bq_append := Append;
  bq_consume := Consume; bq_compact := Compact }.

#[export] Instance RingBuffer_queue_laws : ByteQueueLaws RingBuffer.
Proof.
  constructor; cbn; intros.
  - by apply WriteFrom_ok.
  - by apply WriteFrom_contents.
  - by apply Consume_ok.
  - by apply Consume_contents.
  - by apply Compact_ok.
  - by apply Compact_contents.
Qed.

#[export] Hint Resolve Consume_ok Compact_ok WriteFrom_ok RingBuffer_new_ok : cbt.

(** ** Refinement: the buffer is a byte queue *)

(** The calls a client of the class makes, and their effect on the abstract
    queue.  [recv] answers are recorded as the bytes delivered. *)
Inductive rb_call :=
  | CallWriteFrom (d : list Z) | CallConsume (n : Z) | CallCompact | CallReset.

Definition rb_exec (c : rb_call) (rb : RingBuffer) : RingBuffer :=
  match c with
  | CallWriteFrom d => WriteFrom d rb
  | CallConsume n => Consume n rb
  | CallCompact => Compact rb
  | CallReset => Reset rb
  end.

Definition queue_exec (c : rb_call) (q : list Z) : list Z :=
  match c with
  | CallWriteFrom d => q ++ d
  | CallConsume n => drop (Z.to_nat n) q
  | CallCompact => q
  | CallReset => []
  end.

(** [size_t] arguments are not negative. *)
Definition rb_call_ok (c : rb_call) : Prop :=
  match c with CallConsume n => 0 <= n | _ => True end.

Lemma rb_exec_refines c rb :
  RingBuffer_ok rb -> rb_call_ok c ->
  RingBuffer_ok (rb_exec c rb) /\ contents (rb_exec c rb) = queue_exec c (contents rb).
Proof.
  intros Hok Hc. destruct c as [d|n| |]; cbn in *.
  - split; [by apply WriteFrom_ok|by apply WriteFrom_contents].
  - split; [by apply Consume_ok|by apply Consume_contents].
  - split; [by apply Compact_ok|by apply Compact_contents].
  - split; [unfold RingBuffer_ok; cbn; lia|apply Reset_contents].
Qed.

(** C19: refinement.  Starting from an empty buffer of any capacity, every
    sequence of [WriteFrom]/[Consume]/[Compact]/[Reset] calls leaves a
    well-formed buffer whose readable bytes are those of a byte queue that
    was given the same calls. *)
Theorem ring_buffer_refines_queue (capacity : Z) (calls : list rb_call) :
  0 <= capacity -> Forall rb_call_ok calls ->
  let rb := foldl (fun b c => rb_exec c b) (RingBuffer_new capacity) calls in
  RingBuffer_ok rb /\ contents rb = foldl (fun q c => queue_exec c q) [] calls.
Proof.
  intros Hc Hcalls. pose proof (RingBuffer_new_ok capacity Hc) as Hok.
  change [] with (contents (RingBuffer_new capacity)).
  generalize dependent (RingBuffer_new capacity).
  induction Hcalls as [|c calls Hcall _ IH]; intros rb Hok; cbn; [done|].
  destruct (rb_exec_refines c rb Hok Hcall) as [Hok' <-]. by apply IH.
Qed.

Lemma ring_buffer_refines_queue_witness :
  let calls := [CallWriteFrom [1; 2; 3; 4; 5]; CallConsume 2; CallCompact;
                CallWriteFrom [6; 7]; CallConsume 1] in
  let rb := foldl (fun b c => rb_exec c b) (RingBuffer_new 4) calls in
  RingBuffer_ok rb /\ contents rb = [4; 5; 6; 7].
Proof.
  apply (ring_buffer_refines_queue 4
    [CallWriteFrom [1; 2; 3; 4; 5]; CallConsume 2; CallCompact;
     CallWriteFrom [6; 7]; CallConsume 1]); [lia|].
  repeat constructor; cbn; lia.
Defined.
