(* ===== verification/MessageParser.v ===== *)
(** * Message framing

    [server/MessageParser.{h,cpp}]: cutting one message out of the readable
    bytes of a receive buffer.  [TryParse_at] is the body of the function on
    what it reads (the readable count and the memory behind [ReadPtr]);
    [stream] is the specification of the loop that calls it: the messages a
    byte stream contains, with the resynchronisation after bad bytes. *)

From S2P Require Import Prelude Protocol RingBuffer.

(** ** Data *)

Inductive ParseResult := kNeedMore | kOk | kBadMagic | kInvalidType | kOversizeBlock.

#[global] Instance ParseResult_eq_dec : EqDecision ParseResult.
Proof. solve_decision. Defined.

Record ParsedMessage := { pm_header : MsgHeader; pm_body : list Z }.

Record ParseDiag := {
  gotMagic : Z; gotType : Z; claimedCompSz : Z; claimedBlkIdx : Z }.

Definition ParseDiag_zero : ParseDiag :=
  {| gotMagic := 0; gotType := 0; claimedCompSz := 0; claimedBlkIdx := 0 |}.

(** ** TryParse *)

(** [readable] bytes may be read at [p]; [parsed] is the out-parameter, which
    only a complete message overwrites. *)
Definition TryParse_at (readable : Z) (p : list Z) (parsed : ParsedMessage)
    : ParseResult * ParsedMessage * ParseDiag :=
  let diag := ParseDiag_zero in
  if readable <? HEADER_SIZE then (kNeedMore, parsed, diag)
  else
    let hdr := dec_MsgHeader p in
    if negb (mh_Magic hdr =? PROTOCOL_MAGIC) then
      (kBadMagic, parsed,
       {| gotMagic := mh_Magic hdr; gotType := 0; claimedCompSz := 0; claimedBlkIdx := 0 |})
    else
      let finish (bodyLen : Z) :=
        if readable <? HEADER_SIZE + bodyLen then (kNeedMore, parsed, diag)
        else (kOk, {| pm_header := hdr; pm_body := sub HEADER_SIZE bodyLen p |}, diag) in
      match MessageType_of_Z (mh_Type hdr) with
      | Some HELLO => finish HELLO_BODY_SIZE
      | Some DATA_BLOCK =>
          if readable <? HEADER_SIZE + BLOCK_HEADER_SIZE then (kNeedMore, parsed, diag)
          else
            let bh := dec_BlockHeader (drop (Z.to_nat HEADER_SIZE) p) in
            if BLOCK_SIZE * 2 <? bh_CompressedSize bh then
              (kOversizeBlock, parsed,
               {| gotMagic := 0; gotType := mh_Type hdr;
                  claimedCompSz := bh_CompressedSize bh;
                  claimedBlkIdx := bh_BlockIndex bh |})
            else finish (BLOCK_HEADER_SIZE + bh_CompressedSize bh)
      | Some BYE => finish 0
      | Some ACK => finish ACK_BODY_SIZE
      | Some ERROR => finish 0
      | None =>
          (kInvalidType, parsed,
           {| gotMagic := 0; gotType := mh_Type hdr; claimedCompSz := 0; claimedBlkIdx := 0 |})
      end.

Definition TryParse (buf : RingBuffer) (parsed : ParsedMessage)
    : ParseResult * ParsedMessage * ParseDiag :=
  TryParse_at (ReadableBytes buf) (ReadPtr buf) parsed.

(** ** Specification of the message stream *)

Definition no_msg : ParsedMessage :=
  {| pm_header := {| mh_Magic := 0; mh_Type := 0; mh_DevNo := 0; mh_Reserved := 0 |};
     pm_body := [] |}.

(** One step of the stream: what the front of [l] is. *)
Inductive FrameStep := NeedMore | Message (m : ParsedMessage) | Skip | Oversize.

Definition frame_step (l : list Z) : FrameStep :=
  match TryParse_at (zlen l) l no_msg with
  | (kNeedMore, _, _) => NeedMore
  | (kOk, m, _) => Message m
  | (kBadMagic, _, _) | (kInvalidType, _, _) => Skip
  | (kOversizeBlock, _, _) => Oversize
  end.

Definition msg_total (m : ParsedMessage) : Z := HEADER_SIZE + zlen (pm_body m).

(** The messages of a byte stream, the bytes left over, and whether an
    oversize block stops it. *)
Fixpoint scan (fuel : nat) (l : list Z) : list ParsedMessage * list Z * bool :=
  match fuel with
  | O => ([], l, false)
  | S f =>
      match frame_step l with
      | NeedMore => ([], l, false)
      | Oversize => ([], l, true)
      | Skip => scan f (drop 1 l)
      | Message m =>
          let '(ms, r, c) := scan f (drop (Z.to_nat (msg_total m)) l) in (m :: ms, r, c)
      end
  end.

Definition stream (l : list Z) : list ParsedMessage * list Z * bool :=
  scan (S (length l)) l.

(** The bytes of a message on the wire, and the messages a peer may send. *)
Definition msg_bytes (m : ParsedMessage) : list Z :=
  enc_MsgHeader (pm_header m) ++ pm_body m.

Definition body_len_ok (t : MessageType) (body : list Z) : Prop :=
  match t with
  | HELLO => zlen body = HELLO_BODY_SIZE
  | ACK => zlen body = ACK_BODY_SIZE
  | BYE | ERROR => zlen body = 0
  | DATA_BLOCK =>
      BLOCK_HEADER_SIZE <= zlen body /\
      bh_CompressedSize (dec_BlockHeader body) = zlen body - BLOCK_HEADER_SIZE /\
      zlen body - BLOCK_HEADER_SIZE <= BLOCK_SIZE * 2
  end.

Definition msg_wf (m : ParsedMessage) : Prop :=
  MsgHeader_wf (pm_header m) /\ mh_Magic (pm_header m) = PROTOCOL_MAGIC /\
  bytes_ok (pm_body m) /\
  exists t, MessageType_of_Z (mh_Type (pm_header m)) = Some t /\ body_len_ok t (pm_body m).

(** ** Lemmas on one parse *)

Ltac sizes := unfold HEADER_SIZE, BLOCK_HEADER_SIZE, ACK_BODY_SIZE, HELLO_BODY_SIZE,
  BLOCK_SIZE, msg_total in *.

Lemma sub_take off n k l :
  0 <= off -> 0 <= n -> off + n <= k -> sub off n (take (Z.to_nat k) l) = sub off n l.
Proof. apply sub_prefix. Qed.

Lemma dec_BlockHeader_at k l :
  HEADER_SIZE + BLOCK_HEADER_SIZE <= k ->
  dec_BlockHeader (drop (Z.to_nat HEADER_SIZE) (take (Z.to_nat k) l))
  = dec_BlockHeader (drop (Z.to_nat HEADER_SIZE) l).
Proof.
  intros. rewrite skipn_firstn_comm. replace (Z.to_nat k - Z.to_nat HEADER_SIZE)%nat
    with (Z.to_nat (k - HEADER_SIZE)) by (sizes; lia).
  apply dec_BlockHeader_prefix. sizes. lia.
Qed.

(** The parse reads nothing beyond the readable bytes. *)
Lemma TryParse_at_local k p parsed :
  bytes_ok p -> 0 <= k ->
  TryParse_at k (take (Z.to_nat k) p) parsed = TryParse_at k p parsed.
Proof.
  intros Hp Hk. unfold TryParse_at.
  destruct (k <? HEADER_SIZE) eqn:E; reflect_Z; [done|].
  rewrite dec_MsgHeader_prefix by done.
  destruct (negb _); [done|].
  destruct (MessageType_of_Z _) as [[]|]; try done;
    [ destruct (k <? HEADER_SIZE + BLOCK_HEADER_SIZE) eqn:E2; reflect_Z; [done|];
      rewrite dec_BlockHeader_at by done; destruct (BLOCK_SIZE * 2 <? _); [done|] | ..];
    case_if; try done;
    (rewrite sub_prefix; [done|sizes; lia| |lia]);
    [ pose proof (rd_le_bound 12 4 (drop (Z.to_nat HEADER_SIZE) p)) as B;
      unfold in_width in B; cbn [bh_CompressedSize dec_BlockHeader] in *;
      sizes; specialize (B ltac:(lia) ltac:(auto with cbt)); lia
    | sizes; lia ..].
Qed.

(** The out-parameter is written by a complete message only. *)
Lemma TryParse_at_out k p o o' :
  let '(r, m, _) := TryParse_at k p o in
  let '(r', m', _) := TryParse_at k p o' in
  r = r' /\ match r with kOk => m = m' | _ => m = o /\ m' = o' end.
Proof.
  unfold TryParse_at. destruct (k <? HEADER_SIZE); [done|]. destruct (negb _); [done|].
  destruct (MessageType_of_Z _) as [[]|]; repeat case_if; done.
Qed.

Lemma ReadPtr_ok rb : bytes_ok (rb_buf rb) -> bytes_ok (ReadPtr rb).
Proof. apply bytes_ok_drop. Qed.

(** A buffer's parse is the parse of its contents. *)
Lemma TryParse_contents rb parsed :
  RingBuffer_ok rb -> bytes_ok (rb_buf rb) ->
  TryParse rb parsed = TryParse_at (zlen (contents rb)) (contents rb) parsed.
Proof.
  intros Hok Hb. unfold TryParse. rewrite contents_length by done.
  rewrite <- (ReadPtr_contents rb Hok). symmetry. apply TryParse_at_local.
  - by apply ReadPtr_ok.
  - unfold RingBuffer_ok, ReadableBytes in *. lia.
Qed.

(** More readable bytes do not change a verdict. *)
Lemma TryParse_at_mono k k' p parsed :
  k <= k' -> (TryParse_at k p parsed).1.1 <> kNeedMore ->
  TryParse_at k' p parsed = TryParse_at k p parsed.
Proof.
  intros Hk. unfold TryParse_at.
  destruct (k <? HEADER_SIZE) eqn:E; reflect_Z; [done|].
  replace (k' <? HEADER_SIZE) with false by lia.
  destruct (negb _); [done|].
  destruct (MessageType_of_Z _) as [[]|]; try done;
    [ destruct (k <? HEADER_SIZE + BLOCK_HEADER_SIZE) eqn:E2; reflect_Z; [done|];
      replace (k' <? HEADER_SIZE + BLOCK_HEADER_SIZE) with false by lia;
      destruct (BLOCK_SIZE * 2 <? _); [done|] | ..];
    match goal with
    | |- context [k <? ?b] => destruct (k <? b) eqn:E3; reflect_Z; [done|];
        replace (k' <? b) with false by lia; done
    end.
Qed.

Lemma frame_step_app l x :
  bytes_ok (l ++ x) -> frame_step l <> NeedMore -> frame_step (l ++ x) = frame_step l.
Proof.
  intros Hb Hne. unfold frame_step.
  assert (TryParse_at (zlen l) l no_msg = TryParse_at (zlen l) (l ++ x) no_msg) as E.
  { rewrite <- (TryParse_at_local _ (l ++ x)) by (done || lia).
    by rewrite Nat2Z.id, take_app_length. }
  rewrite (TryParse_at_mono (zlen l) (zlen (l ++ x))).
  - by rewrite <- E.
  - len_solve.
  - rewrite <- E. unfold frame_step in Hne.
    destruct (TryParse_at (zlen l) l no_msg) as [[[] ?] ?]; done.
Qed.

(** What a [Message] verdict says about the bytes. *)
Lemma frame_step_Message l m :
  bytes_ok l -> frame_step l = Message m ->
  l = msg_bytes m ++ drop (Z.to_nat (msg_total m)) l /\
  HEADER_SIZE <= msg_total m <= zlen l /\ msg_wf m.
Proof.
  intros Hb. unfold frame_step, TryParse_at.
  destruct (zlen l <? HEADER_SIZE) eqn:E; reflect_Z; [done|].
  destruct (negb _) eqn:Em; reflect_Z; [done|].
  assert (forall n t, 0 <= n -> MessageType_of_Z (mh_Type (dec_MsgHeader l)) = Some t ->
    (HEADER_SIZE + n <= zlen l ->
     body_len_ok t (sub HEADER_SIZE n l)) ->
    match (if zlen l <? HEADER_SIZE + n then (kNeedMore, no_msg, ParseDiag_zero)
           else (kOk, {| pm_header := dec_MsgHeader l; pm_body := sub HEADER_SIZE n l |},
                 ParseDiag_zero)) with
    | (kNeedMore, _, _) => NeedMore | (kOk, m, _) => Message m
    | (kBadMagic, _, _) | (kInvalidType, _, _) => Skip | (kOversizeBlock, _, _) => Oversize
    end = Message m ->
    l = msg_bytes m ++ drop (Z.to_nat (msg_total m)) l /\
    HEADER_SIZE <= msg_total m <= zlen l /\ msg_wf m) as Hfin.
  { intros n t Hn Ht Hlen Hm. case_if_in Hm; [done|]. injection Hm as <-.
    specialize (Hlen E0). unfold msg_bytes, msg_wf, msg_total;
    cbn [pm_header pm_body]. rewrite sub_length by (sizes; lia). rewrite Z2Nat.id by lia.
    split_and!; [|sizes; lia|lia|by apply dec_MsgHeader_wf|done|by apply bytes_ok_sub|by exists t].
    unfold enc_MsgHeader. cbn.
    rewrite !(sub_enc _ 4) by (sizes; done || lia).
    rewrite <- !app_assoc, <- !drop_sub by (sizes; lia). done. }
  destruct (MessageType_of_Z _) as [[]|] eqn:Et; intros Hm; try done.
  - case_if_in Hm; [done|]. case_if_in Hm; [done|].
    pose proof (rd_le_bound 12 4 (drop (Z.to_nat HEADER_SIZE) l) ltac:(lia)
      ltac:(auto with cbt)) as B. unfold in_width in B.
    cbn [bh_CompressedSize dec_BlockHeader] in *.
    apply (Hfin _ DATA_BLOCK) in Hm; [done|sizes; lia|done|].
    intros Hl. unfold body_len_ok. rewrite sub_length by (sizes; lia).
    rewrite Z2Nat.id by (sizes; lia). split_and!; [sizes; lia| |sizes; lia].
    unfold sub. rewrite dec_BlockHeader_prefix by (sizes; lia). cbn. lia.
  - apply (Hfin _ ACK) in Hm; [done|done|done|].
    intros Hl. cbn. rewrite sub_length; sizes; lia.
  - apply (Hfin _ HELLO) in Hm; [done|done|done|].
    intros Hl. cbn. rewrite sub_length; sizes; lia.
  - apply (Hfin 0 BYE) in Hm; [done|done|done|].
    intros Hl. cbn. rewrite sub_length; sizes; lia.
  - apply (Hfin 0 ERROR) in Hm; [done|done|done|].
    intros Hl. cbn. rewrite sub_length; sizes; lia.
Qed.

Lemma frame_step_NeedMore l :
  bytes_ok l -> frame_step l = NeedMore ->
  zlen l < HEADER_SIZE + BLOCK_HEADER_SIZE + BLOCK_SIZE * 2.
Proof.
  intros Hb. unfold frame_step, TryParse_at.
  destruct (zlen l <? HEADER_SIZE) eqn:E; reflect_Z; [sizes; lia|].
  destruct (negb _); [done|].
  destruct (MessageType_of_Z _) as [[]|]; try done;
    repeat case_if; intros; try done; sizes; lia.
Qed.

Lemma frame_step_Skip_pos l : frame_step l = Skip -> HEADER_SIZE <= zlen l.
Proof.
  unfold frame_step, TryParse_at. destruct (zlen l <? HEADER_SIZE) eqn:E; [done|].
  reflect_Z. lia.
Qed.

Lemma msg_bytes_length m : zlen (msg_bytes m) = msg_total m.
Proof.
  unfold msg_bytes, msg_total. pose proof (enc_MsgHeader_length (pm_header m)). len_solve.
Qed.

Lemma msg_bytes_ok m : msg_wf m -> bytes_ok (msg_bytes m).
Proof.
  intros (? & ? & Hb & _). unfold msg_bytes, enc_MsgHeader.
  rewrite !bytes_ok_app. auto with cbt.
Qed.

(** A message on the wire is recognised, whatever follows it. *)
Lemma frame_step_bytes m r :
  msg_wf m -> frame_step (msg_bytes m ++ r) = Message m.
Proof.
  destruct m as [h body]. intros (Hh & Hm & Hb & t & Ht & Hlen).
  cbn [pm_header pm_body] in *.
  pose proof (enc_MsgHeader_length h) as HL. change HEADER_SIZE with 16 in HL.
  unfold frame_step, TryParse_at, msg_bytes; cbn [pm_header pm_body].
  rewrite <- app_assoc, MsgHeader_roundtrip, Hm, Ht by done. cbn [negb Z.eqb].
  change HEADER_SIZE with 16.
  test_false (zlen (enc_MsgHeader h ++ body ++ r) <? 16).
  rewrite Z.eqb_refl. cbn [negb].
  assert (forall n, zlen body = n ->
    (if zlen (enc_MsgHeader h ++ body ++ r) <? 16 + n
     then (kNeedMore, no_msg, ParseDiag_zero)
     else (kOk, {| pm_header := h; pm_body := sub 16 n (enc_MsgHeader h ++ body ++ r) |},
           ParseDiag_zero)) = (kOk, {| pm_header := h; pm_body := body |}, ParseDiag_zero)) as Hfin.
  { intros n Hn. test_false (zlen (enc_MsgHeader h ++ body ++ r) <? 16 + n).
    rewrite sub_skip, HL by lia. change (16 - 16) with 0. by rewrite sub_here. }
  destruct t; cbn [body_len_ok] in Hlen; try by rewrite Hfin.
  destruct Hlen as (H1 & H2 & H3). unfold BLOCK_HEADER_SIZE in *.
  test_false (zlen (enc_MsgHeader h ++ body ++ r) <? 16 + 52).
  rewrite drop_app_length' by lia.
  assert (dec_BlockHeader (body ++ r) = dec_BlockHeader body) as ->.
  { rewrite <- (dec_BlockHeader_prefix (zlen body) (body ++ r)) by done.
    by rewrite Nat2Z.id, take_app_length. }
  rewrite H2. test_false (BLOCK_SIZE * 2 <? zlen body - 52).
  rewrite Hfin; [done|lia].
Qed.

(** A message that is not complete yet is waited for. *)
Lemma frame_step_partial m l :
  msg_wf m -> l `prefix_of` msg_bytes m -> zlen l < msg_total m ->
  frame_step l = NeedMore.
Proof.
  intros Hwf [r Hr] Hlt. pose proof (msg_bytes_ok m Hwf) as Hb. rewrite Hr in Hb.
  destruct (frame_step l) eqn:E; [done|..]; exfalso;
    pose proof (frame_step_app l r Hb ltac:(congruence)) as Ha;
    pose proof (frame_step_bytes m [] Hwf) as Hf; rewrite app_nil_r, Hr in Hf;
    [| congruence | congruence].
  assert (m0 = m) as -> by congruence.
  apply bytes_ok_app in Hb as [Hb _].
  pose proof (frame_step_Message l m Hb E) as (_ & ? & _). lia.
Qed.

(** ** Lemmas on the stream *)

(** The fuel of [stream] is enough: a step consumes at least one byte. *)
Lemma scan_enough f g l :
  bytes_ok l -> (length l < f)%nat -> (length l < g)%nat -> scan f l = scan g l.
Proof.
  revert g l. induction f as [|f IH]; intros g l Hb Hf Hg; [lia|].
  destruct g as [|g]; [lia|]. cbn.
  destruct (frame_step l) eqn:E; [done| | |done].
  - pose proof (frame_step_Message l m Hb E) as (_ & ? & _).
    rewrite (IH g); [done|by apply bytes_ok_drop|sizes; len_solve..].
  - pose proof (frame_step_Skip_pos l E). apply IH; [by apply bytes_ok_drop|sizes; len_solve..].
Qed.

#[global] Arguments stream : simpl never.

Lemma stream_unfold l :
  bytes_ok l ->
  stream l = match frame_step l with
             | NeedMore => ([], l, false)
             | Oversize => ([], l, true)
             | Skip => stream (drop 1 l)
             | Message m =>
                 let '(ms, r, c) := stream (drop (Z.to_nat (msg_total m)) l) in (m :: ms, r, c)
             end.
Proof.
  intros Hb. unfold stream at 1. cbn [scan].
  destruct (frame_step l) eqn:E; [done| | |done].
  - pose proof (frame_step_Message l m Hb E) as (_ & ? & _). unfold stream.
    rewrite (scan_enough (length l) (S (length (drop (Z.to_nat (msg_total m)) l)))); [done|..];
      [by apply bytes_ok_drop|sizes; len_solve..].
  - pose proof (frame_step_Skip_pos l E). unfold stream.
    apply scan_enough; [by apply bytes_ok_drop|sizes; len_solve..].
Qed.

(** Induction along the steps of the stream. *)
Lemma stream_ind (P : list Z -> Prop) :
  (forall l, bytes_ok l ->
    (forall m, frame_step l = Message m -> P (drop (Z.to_nat (msg_total m)) l)) ->
    (frame_step l = Skip -> P (drop 1 l)) -> P l) ->
  forall l, bytes_ok l -> P l.
Proof.
  intros Hstep l. remember (length l) as n eqn:Hn. revert l Hn.
  induction n as [n IH] using lt_wf_ind. intros l -> Hb. apply Hstep; [done|..].
  - intros m E. pose proof (frame_step_Message l m Hb E) as (_ & ? & _).
    eapply IH; [|done|by apply bytes_ok_drop]. sizes; len_solve.
  - intros E. pose proof (frame_step_Skip_pos l E).
    eapply IH; [|done|by apply bytes_ok_drop]. sizes; len_solve.
Qed.

Lemma stream_leftover_ok l : bytes_ok l -> bytes_ok (stream l).1.2.
Proof.
  intros Hb. pattern l. revert l Hb. apply stream_ind. intros l Hb IHm IHs.
  rewrite stream_unfold by done. destruct (frame_step l) as [|m| |]; try done.
  - specialize (IHm m eq_refl).
    by destruct (stream (drop (Z.to_nat (msg_total m)) l)) as [[ms r] c].
  - by apply IHs.
Qed.

(** Bytes that arrive later continue from what was left over. *)
Lemma stream_app a b :
  bytes_ok (a ++ b) ->
  stream (a ++ b) =
    let '(ms, r, stop) := stream a in
    if stop then (ms, r ++ b, true)
    else let '(ms', r', stop') := stream (r ++ b) in (ms ++ ms', r', stop').
Proof.
  intros Hab. pose proof (proj1 (proj1 (bytes_ok_app _ _) Hab)) as Ha.
  revert Hab. pattern a. revert a Ha. apply stream_ind. intros a Ha IHm IHs Hab.
  rewrite (stream_unfold a) by done.
  destruct (frame_step a) as [|m| |] eqn:E.
  - by destruct (stream (a ++ b)) as [[ms r] c].
  - pose proof (frame_step_Message a m Ha E) as (_ & Hl & _).
    rewrite (stream_unfold (a ++ b)), frame_step_app, E by (done || by rewrite E).
    rewrite drop_app_le by lia. rewrite IHm; [|done|].
    + destruct (stream (drop (Z.to_nat (msg_total m)) a)) as [[ms r] []]; [done|].
      by destruct (stream (r ++ b)) as [[ms' r'] c].
    + apply bytes_ok_app in Hab as []. apply bytes_ok_app; auto with cbt.
  - pose proof (frame_step_Skip_pos a E).
    rewrite (stream_unfold (a ++ b)), frame_step_app, E by (done || by rewrite E).
    rewrite drop_app_le by (sizes; lia). apply IHs; [done|].
    apply bytes_ok_app in Hab as []. apply bytes_ok_app; auto with cbt.
  - by rewrite (stream_unfold (a ++ b)), frame_step_app, E by (done || by rewrite E).
Qed.

Lemma stream_message m r :
  msg_wf m -> bytes_ok r ->
  stream (msg_bytes m ++ r) = let '(ms, r', c) := stream r in (m :: ms, r', c).
Proof.
  intros Hm Hr. rewrite stream_unfold.
  - rewrite frame_step_bytes by done.
    pose proof (msg_bytes_length m). by rewrite drop_app_length' by lia.
  - apply bytes_ok_app; auto using msg_bytes_ok.
Qed.

Lemma concat_msg_bytes_ok ms :
  Forall msg_wf ms -> bytes_ok (concat (map msg_bytes ms)).
Proof.
  induction 1; cbn; [constructor|]. apply bytes_ok_app; auto using msg_bytes_ok.
Qed.

Lemma stream_messages ms r :
  Forall msg_wf ms -> bytes_ok r ->
  stream (concat (map msg_bytes ms) ++ r)
  = let '(ms', r', c) := stream r in (ms ++ ms', r', c).
Proof.
  intros Hms Hr. induction Hms as [|m ms Hm Hms IH]; cbn.
  - by destruct (stream r) as [[??]?].
  - rewrite <- app_assoc, stream_message, IH; [|done|].
    + by destruct (stream r) as [[??]?].
    + apply bytes_ok_app. auto using concat_msg_bytes_ok.
Qed.

Lemma stream_wf l : bytes_ok l -> Forall msg_wf (stream l).1.1.
Proof.
  intros Hb. pattern l. revert l Hb. apply stream_ind. intros l Hb IHm IHs.
  rewrite stream_unfold by done. destruct (frame_step l) as [|m| |] eqn:E; try by constructor.
  - specialize (IHm m eq_refl). pose proof (frame_step_Message l m Hb E) as (_ & _ & Hw).
    destruct (stream (drop (Z.to_nat (msg_total m)) l)) as [[ms r] c]. by constructor.
  - by apply IHs.
Qed.

Lemma stream_rest_needs_more l :
  bytes_ok l -> (stream l).2 = false -> frame_step (stream l).1.2 = NeedMore.
Proof.
  intros Hb. pattern l. revert l Hb. apply stream_ind. intros l Hb IHm IHs.
  rewrite stream_unfold by done. destruct (frame_step l) as [|m| |] eqn:E; try done.
  - specialize (IHm m eq_refl).
    by destruct (stream (drop (Z.to_nat (msg_total m)) l)) as [[ms r] c].
  - by apply IHs.
Qed.

(** ** The properties *)

(** Receiving the stream in pieces: what the server keeps between two calls
    of [recv] is the left-over of the bytes so far. *)
Definition feed (st : list ParsedMessage * list Z * bool) (chunk : list Z)
    : list ParsedMessage * list Z * bool :=
  let '(ms, r, stop) := st in
  if stop then (ms, r ++ chunk, true)
  else let '(ms', r', stop') := stream (r ++ chunk) in (ms ++ ms', r', stop').

(** C17: framing is independent of how the network splits the bytes.  Whatever
    the pieces in which a byte stream arrives, the messages cut out of it,
    the bytes left over and the oversize verdict are those of the whole
    stream parsed at once. *)
Theorem framing_chunking_independent (chunks : list (list Z)) :
  bytes_ok (concat chunks) ->
  foldl feed ([], [], false) chunks = stream (concat chunks).
Proof.
  intros Hb. change ([], [], false) with (stream []). revert Hb.
  induction chunks as [|c chunks IH] using rev_ind; intros Hb; [done|].
  rewrite foldl_app, concat_app. cbn [foldl concat]. rewrite app_nil_r.
  rewrite concat_app in Hb. cbn [concat] in Hb. rewrite app_nil_r in Hb.
  rewrite IH by (by apply bytes_ok_app in Hb as []).
  rewrite stream_app by done. by destruct (stream (concat chunks)) as [[ms r] []].
Qed.

Definition bye_msg : ParsedMessage :=
  {| pm_header := {| mh_Magic := PROTOCOL_MAGIC; mh_Type := 4; mh_DevNo := 7;
                     mh_Reserved := 0 |}; pm_body := [] |}.

Lemma framing_chunking_independent_witness :
  let b := msg_bytes bye_msg in
  foldl feed ([], [], false) [[9]; take 5 b; drop 5 b ++ take 3 b; drop 3 b]
  = ([bye_msg; bye_msg], [], false).
Proof.
  apply (framing_chunking_independent
    [[9]; take 5 (msg_bytes bye_msg); drop 5 (msg_bytes bye_msg) ++ take 3 (msg_bytes bye_msg);
     drop 3 (msg_bytes bye_msg)]).
  apply (bool_decide_unpack _). vm_compute. exact I.
Defined.

(** round trip.  Every sequence of well-formed messages, put on the wire
    back to back, is cut into exactly those messages; what follows them is
    parsed as if it came first, and a message whose last bytes are missing is
    waited for, never reported nor skipped. *)
Theorem framing_roundtrip (ms : list ParsedMessage) (m : ParsedMessage) (part : list Z) :
  Forall msg_wf ms -> msg_wf m -> part `prefix_of` msg_bytes m ->
  zlen part < msg_total m ->
  stream (concat (map msg_bytes ms) ++ part) = (ms, part, false).
Proof.
  intros Hms Hm Hp Hlt.
  assert (bytes_ok part) as Hb.
  { destruct Hp as [r Hr]. pose proof (msg_bytes_ok m Hm) as H. rewrite Hr in H.
    by apply bytes_ok_app in H as []. }
  rewrite stream_messages, stream_unfold, (frame_step_partial m) by done.
  by rewrite app_nil_r.
Qed.

Lemma bye_msg_wf : msg_wf bye_msg.
Proof.
  unfold msg_wf, MsgHeader_wf, in_width; cbn. split_and!; try (done || lia).
  - constructor.
  - by exists BYE.
Qed.

Lemma framing_roundtrip_witness :
  stream (msg_bytes bye_msg ++ msg_bytes bye_msg ++ take 7 (msg_bytes bye_msg))
  = ([bye_msg; bye_msg], take 7 (msg_bytes bye_msg), false).
Proof.
  apply (framing_roundtrip [bye_msg; bye_msg] bye_msg (take 7 (msg_bytes bye_msg))).
  - repeat constructor; apply bye_msg_wf.
  - apply bye_msg_wf.
  - apply prefix_take.
  - vm_compute. reflexivity.
Defined.

(** C18: memory safety of the parser and bounds.  The verdict, the message and
    the diagnostics depend only on the readable bytes of the buffer (the
    parser never looks at stale bytes behind [write_pos_]); a message handed
    out is exactly the front of those bytes, with a body of the length its
    type prescribes; and a parser that asks for more holds less than
    [16 + 52 + 2 * BLOCK_SIZE] bytes, so a receive buffer of 4 MiB always has
    room for the rest. *)
Theorem TryParse_safe (rb : RingBuffer) (parsed : ParsedMessage) :
  RingBuffer_ok rb -> bytes_ok (rb_buf rb) ->
  let '(r, m, _) := TryParse rb parsed in
  TryParse rb parsed = TryParse_at (zlen (contents rb)) (contents rb) parsed /\
  match r with
  | kNeedMore => m = parsed /\ ReadableBytes rb < HEADER_SIZE + BLOCK_HEADER_SIZE + BLOCK_SIZE * 2
  | kOk => msg_wf m /\ contents rb = msg_bytes m ++ contents (Consume (msg_total m) rb)
  | _ => m = parsed
  end.
Proof.
  intros Hok Hb. pose proof (TryParse_contents rb parsed Hok Hb) as E. rewrite E.
  assert (bytes_ok (contents rb)) as Hc by (by apply bytes_ok_sub).
  pose proof (frame_step_Message (contents rb)) as HM.
  pose proof (frame_step_NeedMore (contents rb) Hc) as HN.
  rewrite (contents_length rb Hok) in *.
  pose proof (TryParse_at_out (ReadableBytes rb) (contents rb) parsed no_msg) as HO.
  unfold frame_step in HM, HN. rewrite (contents_length rb Hok) in *.
  destruct (TryParse_at (ReadableBytes rb) (contents rb) parsed) as [[r m] d].
  destruct (TryParse_at (ReadableBytes rb) (contents rb) no_msg) as [[r' m'] d'].
  destruct HO as [<- HO]. split; [done|].
  destruct r; try (split; [by destruct HO | by apply HN]); try by destruct HO.
  subst m'. destruct (HM m Hc eq_refl) as (Hl & Ht & Hw). split; [done|].
  rewrite Consume_contents; [done|done|sizes; lia].
Qed.

Lemma TryParse_safe_witness :
  let rb := {| rb_buf := 255 :: msg_bytes bye_msg ++ [1; 2; 3]; read_pos := 1; write_pos := 18 |} in
  TryParse rb no_msg = TryParse_at 17 (msg_bytes bye_msg ++ [1]) no_msg /\
  msg_wf bye_msg /\ contents rb = msg_bytes bye_msg ++ contents (Consume 16 rb).
Proof.
  apply (TryParse_safe
    {| rb_buf := 255 :: msg_bytes bye_msg ++ [1; 2; 3]; read_pos := 1; write_pos := 18 |} no_msg).
  - unfold RingBuffer_ok. vm_compute. by repeat split.
  - apply (bool_decide_unpack _). vm_compute. exact I.
Defined.
