(* ===== verification/DiskMap.v ===== *)
(** * Backing files

    [server/DiskMap.{h,cpp}]: the table from device number to backing file,
    and the descriptors it owns.  [open] and [fstat] are the operating
    system's; the descriptors of the process that are open are part of the
    state, so that a leak is a statement about it. *)

From S2P Require Import Prelude.

(** ** Data *)

Record BackingFile := { bf_fd : Z; bf_size_bytes : Z; bf_path : list Z }.

(** The fields of [struct stat] the code reads. *)
Record Stat := { st_isreg : bool; st_size : Z }.

Record DiskState := { map_ : gmap Z BackingFile; open_fds : gset Z }.

#[global] Instance BackingFile_eq_dec : EqDecision BackingFile.
Proof. solve_decision. Defined.

(** ** Operations *)

Section ops.
(** [open(path, O_WRONLY | O_CLOEXEC)] with the descriptors in use ([None]
    is a negative result), and [fstat(fd)] ([None] is [-1]). *)
Context (os_open : gset Z -> list Z -> option Z) (os_fstat : Z -> option Stat).

Definition Add (devno : Z) (path : list Z) (st : DiskState) : bool * DiskState :=
  match os_open (open_fds st) path with
  | None => (false, st)
  | Some fd =>
      let opened := {| map_ := map_ st; open_fds := {[fd]} ∪ open_fds st |} in
      let closed := {| map_ := map_ st; open_fds := open_fds opened ∖ {[fd]} |} in
      match os_fstat fd with
      | None => (false, closed)
      | Some s =>
          if negb (st_isreg s) then (false, closed)
          else if st_size s <=? 0 then (false, closed)
          else
            let bf := {| bf_fd := fd; bf_size_bytes := u64 (st_size s); bf_path := path |} in
            (true, {| map_ := <[devno := bf]> (map_ st); open_fds := open_fds opened |})
      end
  end.

(** The loop of [main] over the [--disk] arguments. *)
Fixpoint AddDisks (disks : list (Z * list Z)) (st : DiskState) : bool * DiskState :=
  match disks with
  | [] => (true, st)
  | (devno, path) :: disks' =>
      let '(ok, st') := Add devno path st in
      if ok then AddDisks disks' st' else (false, st')
  end.
End ops.

Definition Get (devno : Z) (m : gmap Z BackingFile) : option BackingFile := m !! devno.
Definition Contains (devno : Z) (m : gmap Z BackingFile) : bool :=
  bool_decide (is_Some (m !! devno)).
Definition GetFd (devno : Z) (m : gmap Z BackingFile) : Z :=
  match m !! devno with None => -1 | Some bf => bf_fd bf end.
Definition GetSize (devno : Z) (m : gmap Z BackingFile) : Z :=
  match m !! devno with None => 0 | Some bf => bf_size_bytes bf end.

Definition close_entry (fds : gset Z) (e : Z * BackingFile) : gset Z :=
  if 0 <=? bf_fd (e.2) then fds ∖ {[bf_fd (e.2)]} else fds.

Definition CloseAll (st : DiskState) : DiskState :=
  {| map_ := ∅; open_fds := foldl close_entry (open_fds st) (map_to_list (map_ st)) |}.

(** ** Invariant *)

(** [open] answers with a descriptor that is not in use. *)
Definition os_open_ok (os_open : gset Z -> list Z -> option Z) : Prop :=
  forall fds path fd, os_open fds path = Some fd -> 0 <= fd /\ fd ∉ fds.

(** [base] are the descriptors open before the table, [lost] those the table
    no longer knows. *)
Record DiskMap_inv (base lost : gset Z) (st : DiskState) : Prop := {
  inv_entry d bf : map_ st !! d = Some bf ->
    0 <= bf_fd bf /\ (bf_fd bf ∉ base ∪ lost) /\ 0 < bf_size_bytes bf;
  inv_inj d d' bf bf' : map_ st !! d = Some bf -> map_ st !! d' = Some bf' ->
    bf_fd bf = bf_fd bf' -> d = d';
  inv_open fd : fd ∈ open_fds st <->
    fd ∈ (base ∪ lost) \/ exists d bf, map_ st !! d = Some bf /\ bf_fd bf = fd }.

Lemma elem_of_close_entries fd fds l :
  (forall e, e ∈ l -> 0 <= bf_fd (e.2)) ->
  fd ∈ foldl close_entry fds l <-> fd ∈ fds /\ ~ (exists e, e ∈ l /\ bf_fd (e.2) = fd).
Proof.
  revert fds. induction l as [|e l IH]; intros fds Hpos; cbn [foldl].
  - set_solver.
  - rewrite IH by set_solver. unfold close_entry.
    assert (0 <= bf_fd (e.2)) by set_solver. test_true (0 <=? bf_fd (e.2)). set_solver.
Qed.

Lemma CloseAll_inv base lost st :
  DiskMap_inv base lost st -> open_fds (CloseAll st) = base ∪ lost /\ map_ (CloseAll st) = ∅.
Proof.
  intros [He Hi Ho]. split; [|done]. apply set_eq. intros fd. unfold CloseAll; cbn.
  assert (forall e, e ∈ map_to_list (map_ st) <-> map_ st !! e.1 = Some e.2) as Hl.
  { intros [d bf]. apply elem_of_map_to_list. }
  rewrite elem_of_close_entries.
  - rewrite Ho. split.
    + intros [[?|(d & bf & Hd & <-)] Hn]; [done|]. exfalso. apply Hn.
      exists (d, bf). by rewrite Hl.
    + intros Hb. split; [by left|]. intros (e & Hin & <-). apply Hl in Hin.
      by apply He in Hin as (_ & ? & _).
  - intros e Hin. apply Hl in Hin. by apply He in Hin as (? & _ & _).
Qed.

Section inv.
Context (os_open : gset Z -> list Z -> option Z) (os_fstat : Z -> option Stat).
Hypothesis open_law : os_open_ok os_open.
Hypothesis fstat_law : forall fd s, os_fstat fd = Some s -> st_size s < 2 ^ 63.

(** The descriptor of an entry that [Add] replaces is lost. *)
Definition displaced (devno : Z) (st : DiskState) : gset Z :=
  match map_ st !! devno with Some bf => {[bf_fd bf]} | None => ∅ end.

Lemma Add_failed devno path st st' :
  Add os_open os_fstat devno path st = (false, st') -> st' = st.
Proof.
  unfold Add. destruct (os_open _ path) as [fd|] eqn:Eo; [|congruence].
  apply open_law in Eo as [_ Hfresh].
  assert ({| map_ := map_ st; open_fds := ({[fd]} ∪ open_fds st) ∖ {[fd]} |} = st) as E.
  { destruct st as [m f]; cbn in *. f_equal. set_solver. }
  destruct (os_fstat fd) as [s|]; [|cbn; congruence].
  destruct (negb _); [cbn; congruence|].
  destruct (_ <=? _); cbn; congruence.
Qed.

Lemma Add_inv base lost devno path st st' :
  DiskMap_inv base lost st -> Add os_open os_fstat devno path st = (true, st') ->
  DiskMap_inv base (lost ∪ displaced devno st) st' /\
  exists bf, map_ st' = <[devno := bf]> (map_ st) /\ bf_path bf = path.
Proof.
  intros [He Hi Ho]. unfold Add. destruct (os_open _ path) as [fd|] eqn:Eo; [|done].
  apply open_law in Eo as [Hpos Hfresh]. destruct (os_fstat fd) as [s|] eqn:Es; [|done].
  apply fstat_law in Es. destruct (negb _); [done|].
  destruct (_ <=? _) eqn:Esz; [done|]. reflect_Z. intros [= <-]. cbn.
  rewrite Ho in Hfresh. split; [|by eexists].
  assert (forall d bf, map_ st !! d = Some bf -> bf_fd bf <> fd) as Hne.
  { intros d bf Hd <-. apply Hfresh. right. by exists d, bf. }
  assert (forall d bf, d <> devno -> map_ st !! d = Some bf -> bf_fd bf ∉ displaced devno st)
    as Hdis.
  { intros d bf Hdn Hd Hin. unfold displaced in Hin.
    destruct (map_ st !! devno) as [b|] eqn:Eb; [|set_solver].
    apply elem_of_singleton in Hin. apply Hdn. by apply (Hi d devno bf b). }
  constructor; cbn.
  - intros d bf. rewrite lookup_insert_Some. intros [[<- <-]|[Hd Hb]]; cbn.
    + rewrite wrap_small by (unfold in_width; lia). split_and!; [done| |lia].
      unfold displaced. destruct (map_ st !! devno) as [b|] eqn:Eb; [|set_solver].
      specialize (Hne _ _ Eb). set_solver.
    + destruct (He d bf Hb) as (? & ? & ?). split_and!; [done| |done].
      specialize (Hdis d bf ltac:(done) Hb). set_solver.
  - intros d d' bf bf'. rewrite !lookup_insert_Some.
    intros [[<- <-]|[Hd Hb]] [[<- <-]|[Hd' Hb']]; cbn; [done|..].
    + intros E. by destruct (Hne _ _ Hb').
    + intros E. by destruct (Hne _ _ Hb).
    + by apply Hi.
  - intros x. setoid_rewrite lookup_insert_Some. unfold displaced.
    rewrite !elem_of_union, elem_of_singleton, Ho. split.
    + intros [->|[?|(d & bf & Hd & <-)]]; [right; eauto 10|set_solver|].
      destruct (decide (devno = d)) as [<-|]; [rewrite Hd; set_solver|eauto 10].
    + intros [Hx|(d & bf & [[<- <-]|[Hd Hb]] & <-)]; [|by left|right; eauto 10].
      destruct (map_ st !! devno) as [b|] eqn:Eb; [|set_solver].
      destruct (decide (x = bf_fd b)) as [->|]; [eauto 10|set_solver].
Qed.

(** The table after the loop of [main]: nothing is lost when the device
    numbers are distinct, and a failed [Add] ends the loop. *)
Lemma AddDisks_inv base disks st ok st' :
  DiskMap_inv base ∅ st -> NoDup (map fst disks) ->
  (forall d, d ∈ map fst disks -> map_ st !! d = None) ->
  AddDisks os_open os_fstat disks st = (ok, st') ->
  DiskMap_inv base ∅ st' /\
  (forall d, d ∉ map fst disks -> map_ st' !! d = map_ st !! d) /\
  (ok = true -> forall d p, (d, p) ∈ disks ->
    exists bf, map_ st' !! d = Some bf /\ bf_path bf = p).
Proof.
  revert st. induction disks as [|[d p] disks IH]; intros st Hinv Hnd Hnone; cbn.
  { intros [= <- <-]. split_and!; [done|done|set_solver]. }
  cbn in Hnd. apply NoDup_cons in Hnd as [Hd Hnd].
  destruct (Add os_open os_fstat d p st) as [[] st1] eqn:E.
  2:{ apply Add_failed in E as ->. intros [= <- <-]. done. }
  destruct (Add_inv base ∅ d p st st1 Hinv E) as [Hinv1 (bf & Hm & Hp)].
  unfold displaced in Hinv1. rewrite Hnone in Hinv1 by set_solver.
  rewrite union_empty_r_L in Hinv1. intros Hrest.
  destruct (IH st1 Hinv1 Hnd) as (Hinv2 & Hsame & Hall); [|done|].
  - intros d' Hd'. rewrite Hm, lookup_insert_ne by set_solver. apply Hnone. set_solver.
  - split_and!; [done| |].
    + intros d' Hd'. rewrite Hsame, Hm by set_solver. by rewrite lookup_insert_ne by set_solver.
    + intros Hok d' p' Hin. apply elem_of_cons in Hin as [[= -> ->]|Hin]; [|by apply Hall].
      exists bf. by rewrite Hsame, Hm, lookup_insert_eq by done.
Qed.

(** An entry records the size its descriptor had. *)
Definition sizes_read (m : gmap Z BackingFile) : Prop :=
  forall d bf, m !! d = Some bf -> exists s, os_fstat (bf_fd bf) = Some s /\ bf_size_bytes bf = st_size s.

Lemma AddDisks_sizes disks st :
  sizes_read (map_ st) -> sizes_read (map_ (AddDisks os_open os_fstat disks st).2).
Proof.
  revert st. induction disks as [|[devno path] disks IH]; intros st Hst; cbn [AddDisks]; [done|].
  destruct (Add os_open os_fstat devno path st) as [[] st'] eqn:E; [|by apply Add_failed in E as ->].
  apply IH. unfold Add in E. destruct (os_open _ path) as [fd|]; [|done].
  destruct (os_fstat fd) as [s|] eqn:Es; [|done]. destruct (negb _); [done|].
  destruct (_ <=? _) eqn:Esz; [done|]. reflect_Z. pose proof (fstat_law _ _ Es).
  injection E as <-. intros d bf. cbn. rewrite lookup_insert_Some. intros [[<- <-]|[_ Hd]]; [|exact (Hst d bf Hd)].
  exists s. split; [done|]. cbn. apply wrap_small. unfold in_width. lia.
Qed.
End inv.

Lemma DiskMap_inv_empty base :
  DiskMap_inv base ∅ {| map_ := ∅; open_fds := base |}.
Proof.
  constructor; cbn.
  - intros d bf. by rewrite lookup_empty.
  - intros d d' bf bf'. by rewrite lookup_empty.
  - intros fd. setoid_rewrite lookup_empty. set_solver.
Qed.

(** ** A small operating system, for the examples *)

(** The descriptor above the highest one in use; the empty path fails. *)
Definition demo_open (fds : gset Z) (path : list Z) : option Z :=
  if decide (path = []) then None else Some (set_fold Z.max 2 fds + 1).
Definition demo_fstat (fd : Z) : option Stat :=
  if 100 <? fd then None else Some {| st_isreg := true; st_size := 4096 * fd |}.
Definition demo_start : DiskState := {| map_ := ∅; open_fds := {[0; 1; 2]} |}.

Lemma set_fold_max_ge (s : gset Z) :
  2 <= set_fold Z.max 2 s /\ forall x, x ∈ s -> x <= set_fold Z.max 2 s.
Proof.
  unfold set_fold; cbn. setoid_rewrite <- elem_of_elements.
  induction (elements s) as [|y l [IH1 IH2]]; cbn; [set_solver by lia|].
  split; [lia|]. intros x. rewrite elem_of_cons. intros [->|H]; [lia|]. apply IH2 in H. lia.
Qed.

Lemma demo_open_ok : os_open_ok demo_open.
Proof.
  intros fds path fd. unfold demo_open. destruct (decide _); [done|]. intros [= <-].
  destruct (set_fold_max_ge fds) as [H1 H2]. split; [lia|]. intros Hin. apply H2 in Hin. lia.
Qed.

Lemma demo_fstat_ok fd s : demo_fstat fd = Some s -> st_size s < 2 ^ 63.
Proof. unfold demo_fstat. intros H. case_if_in H; [done|]. injection H as <-. cbn. lia. Qed.

(** ** The properties *)

(** life cycle of the backing files.  With distinct device numbers, the
    start-up loop either registers every disk with an open descriptor and a
    positive size under the device number it was given, or stops at a failed
    [Add], which leaves the table as it was; either way the descriptors of
    the entries are distinct from each other and from the rest of the
    process, and [CloseAll] leaves open exactly what was open before. *)
Theorem disk_map_lifecycle os_open os_fstat base disks ok st :
  os_open_ok os_open -> (forall fd s, os_fstat fd = Some s -> st_size s < 2 ^ 63) ->
  NoDup (map fst disks) ->
  AddDisks os_open os_fstat disks {| map_ := ∅; open_fds := base |} = (ok, st) ->
  open_fds (CloseAll st) = base /\ map_ (CloseAll st) = ∅ /\
  (forall d d' bf bf', Get d (map_ st) = Some bf -> Get d' (map_ st) = Some bf' ->
    (bf_fd bf ∉ base) /\ (bf_fd bf = bf_fd bf' -> d = d')) /\
  (ok = true -> forall d p, (d, p) ∈ disks ->
    exists bf, Get d (map_ st) = Some bf /\ bf_path bf = p /\ Contains d (map_ st) = true /\
      0 <= GetFd d (map_ st) /\ 0 < GetSize d (map_ st)).
Proof.
  intros Hopen Hstat Hnd HA.
  apply (AddDisks_inv os_open os_fstat Hopen Hstat base) in HA as (Hinv & _ & Hall);
    [|apply DiskMap_inv_empty|done|intros; apply lookup_empty].
  destruct (CloseAll_inv _ _ _ Hinv) as [Hc ->]. rewrite union_empty_r_L in Hc.
  unfold Get, Contains, GetFd, GetSize. split_and!; [done|done| |].
  - intros d d' bf bf' Hd Hd'. split; [|by apply (inv_inj _ _ _ Hinv)].
    apply (inv_entry _ _ _ Hinv) in Hd as (_ & ? & _). set_solver.
  - intros Hok d p Hin. destruct (Hall Hok d p Hin) as (bf & Hd & Hp). exists bf.
    rewrite Hd. destruct (inv_entry _ _ _ Hinv d bf Hd) as (? & _ & ?).
    split_and!; done.
Qed.

Lemma disk_map_lifecycle_witness :
  let st := (AddDisks demo_open demo_fstat [(0, [97]); (7, [98])] demo_start).2 in
  open_fds (CloseAll st) = {[0; 1; 2]} /\
  exists bf, Get 7 (map_ st) = Some bf /\ bf_path bf = [98].
Proof.
  destruct (disk_map_lifecycle demo_open demo_fstat {[0; 1; 2]} [(0, [97]); (7, [98])] true
    (AddDisks demo_open demo_fstat [(0, [97]); (7, [98])] demo_start).2) as (H1 & _ & _ & H2).
  - apply demo_open_ok.
  - apply demo_fstat_ok.
  - apply (bool_decide_unpack _). vm_compute. exact I.
  - vm_compute. reflexivity.
  - split; [exact H1|]. destruct (H2 eq_refl 7 [98]) as (bf & ? & ? & _); [set_solver|].
    by exists bf.
Defined.

(** A second [Add] for a registered device number loses the first
    descriptor: it stays open after [CloseAll]. *)
Theorem readd_leaks_descriptor os_open os_fstat base lost st st' d p bf :
  os_open_ok os_open -> (forall fd s, os_fstat fd = Some s -> st_size s < 2 ^ 63) ->
  DiskMap_inv base lost st -> Get d (map_ st) = Some bf ->
  Add os_open os_fstat d p st = (true, st') ->
  bf_fd bf ∈ open_fds (CloseAll st') /\ bf_fd bf ∉ open_fds (CloseAll st).
Proof.
  intros Hopen Hstat Hinv Hd HA.
  destruct (Add_inv os_open os_fstat Hopen Hstat base lost d p st st' Hinv HA) as [Hinv' _].
  destruct (CloseAll_inv _ _ _ Hinv) as [-> _]. destruct (CloseAll_inv _ _ _ Hinv') as [-> _].
  unfold displaced. unfold Get in Hd. rewrite Hd. split; [set_solver|].
  by apply (inv_entry _ _ _ Hinv) in Hd as (_ & ? & _).
Qed.

Lemma readd_leaks_descriptor_witness :
  let st := (AddDisks demo_open demo_fstat [(0, [97])] demo_start).2 in
  let st' := (Add demo_open demo_fstat 0 [98] st).2 in
  3 ∈ open_fds (CloseAll st').
Proof.
  destruct (readd_leaks_descriptor demo_open demo_fstat {[0; 1; 2]} (∅ : gset Z)
    (AddDisks demo_open demo_fstat [(0, [97])] demo_start).2
    (Add demo_open demo_fstat 0 [98] (AddDisks demo_open demo_fstat [(0, [97])] demo_start).2).2
    0 [98] {| bf_fd := 3; bf_size_bytes := 12288; bf_path := [97] |}) as [H _].
  - apply demo_open_ok.
  - apply demo_fstat_ok.
  - eapply (AddDisks_inv demo_open demo_fstat demo_open_ok demo_fstat_ok {[0; 1; 2]} [(0, [97])]
      demo_start true).
    + apply DiskMap_inv_empty.
    + apply NoDup_singleton.
    + intros d _. apply lookup_empty.
    + vm_compute. reflexivity.
  - vm_compute. reflexivity.
  - vm_compute. reflexivity.
  - exact H.
Defined.
