(* ===== verification/BlockProcessor.v ===== *)
(** * Block processing

    [server/BlockProcessor.{h,cpp}]: a received block is inflated, hashed,
    compared and written to its backing file.  [uncompress2], [SHA256] and
    [pwrite] are parameters. *)

From S2P Require Import Prelude Protocol DiskMap.

(** ** Data *)

(** The backing files by descriptor. *)
Abbreviation Files := (gmap Z (list Z)).

Definition Z_OK : Z := 0.
Definition RAW_BUF_SIZE : Z := BLOCK_SIZE + 64.

(** What the code uses of zlib, of OpenSSL and of the operating system:
    [uncompress2 cap src] is the result code and the bytes written to a
    destination of [cap] bytes, [pwrite fd data off files] the count (negative
    on error) and the files afterwards. *)
Class Library := {
  uncompress2 : Z -> list Z -> Z * list Z;
  SHA256 : list Z -> list Z;
  pwrite : Z -> list Z -> Z -> Files -> Z * Files;
}.

(** The bytes [d] stored at offset [off] of a file, which grows when they
    reach beyond its end. *)
Definition overwrite (off : Z) (d f : list Z) : list Z :=
  take (Z.to_nat off) f ++ zeros (off - zlen f) ++ d ++ drop (Z.to_nat (off + zlen d)) f.

(** Documented behaviour: the hash has 32 bytes, inflating stays within the
    destination, and [pwrite] writes the first [w] bytes at the offset, to
    this descriptor only; a negative offset is an error ([EINVAL]). *)
Class LibraryLaws `{Library} := {
  SHA256_length d : zlen (SHA256 d) = 32;
  uncompress2_fits cap src : 0 <= cap -> zlen (uncompress2 cap src).2 <= cap;
  pwrite_bound fd d off fs : (pwrite fd d off fs).1 <= zlen d;
  pwrite_writes fd d off fs f :
    fs !! fd = Some f -> 0 <= off -> 0 <= (pwrite fd d off fs).1 ->
    (pwrite fd d off fs).2
    = <[fd := overwrite off (take (Z.to_nat (pwrite fd d off fs).1) d) f]> fs;
  pwrite_negative fd d off fs : off < 0 -> (pwrite fd d off fs).1 < 0;
  pwrite_error fd d off fs : (pwrite fd d off fs).1 < 0 -> (pwrite fd d off fs).2 = fs;
}.

(** ** The operation *)

Section process.
Context `{Library}.

Definition init_ack (devno : Z) (bh : BlockHeader) : AckBody :=
  {| ack_BlockIndex := bh_BlockIndex bh; ack_Status := 0; ack_DevNo := devno;
     ack_Hash := bh_Hash bh |}.
Definition with_status (a : AckBody) (s : AckStatus) : AckBody :=
  {| ack_BlockIndex := ack_BlockIndex a; ack_Status := AckStatus_to_Z s;
     ack_DevNo := ack_DevNo a; ack_Hash := ack_Hash a |}.

(** [compressedData] is the memory behind the pointer: [None] when
    [CompressedSize] bytes cannot be read there. *)
Definition Process (disks : gmap Z BackingFile) (devno : Z) (bh : BlockHeader)
    (compressedData : list Z) (files : Files) : option (AckStatus * AckBody * Files) :=
  let ackOut := init_ack devno bh in
  let fail s fs := Some (s, with_status ackOut s, fs) in
  match Get devno disks with
  | None => fail INVALID_DEV files
  | Some bf =>
      if (bh_DataSize bh =? 0) || (BLOCK_SIZE <? bh_DataSize bh) then fail OUT_OF_RANGE files
      else
        let offset := u64 (bh_BlockIndex bh * BLOCK_SIZE) in
        if bf_size_bytes bf <? u64 (offset + bh_DataSize bh) then fail OUT_OF_RANGE files
        else
          match memcpy_from 0 (bh_CompressedSize bh) compressedData with
          | None => None
          | Some src =>
              let '(zret, raw) := uncompress2 RAW_BUF_SIZE src in
              if negb (zret =? Z_OK) || negb (zlen raw =? bh_DataSize bh) then
                fail DECOMPRESS_ERROR files
              else if negb (bool_decide (SHA256 raw = bh_Hash bh)) then
                fail HASH_MISMATCH files
              else
                let '(w, files') := pwrite (bf_fd bf) raw (s64 offset) files in
                if (w <? 0) || negb (u64 w =? zlen raw) then fail WRITE_ERROR files'
                else fail OK files'
          end
  end.
End process.

(** ** Specification *)

(** The table describes the files: every registered disk is an open file of
    the recorded size, no two share a descriptor. *)
Definition disks_match (disks : gmap Z BackingFile) (files : Files) : Prop :=
  (forall d bf, disks !! d = Some bf ->
    exists f, files !! bf_fd bf = Some f /\ zlen f = bf_size_bytes bf /\ zlen f < 2 ^ 63) /\
  (forall d d' bf bf', disks !! d = Some bf -> disks !! d' = Some bf' ->
    bf_fd bf = bf_fd bf' -> d = d').

(** The bytes of a disk. *)
Definition disk_bytes (disks : gmap Z BackingFile) (files : Files) (d : Z) : option (list Z) :=
  bf ← disks !! d; files !! bf_fd bf.

Lemma overwrite_length off d f :
  0 <= off -> off + zlen d <= zlen f -> length (overwrite off d f) = length f.
Proof. intros. unfold overwrite. len_solve. Qed.

(** An in-range write changes the range and nothing else. *)
Lemma overwrite_range off d f :
  0 <= off -> off + zlen d <= zlen f ->
  sub off (zlen d) (overwrite off d f) = d /\
  take (Z.to_nat off) (overwrite off d f) = take (Z.to_nat off) f /\
  drop (Z.to_nat (off + zlen d)) (overwrite off d f) = drop (Z.to_nat (off + zlen d)) f.
Proof.
  intros. unfold overwrite.
  replace (zeros (off - zlen f)) with (@nil Z)
    by (unfold zeros; replace (Z.to_nat (off - zlen f)) with 0%nat by lia; done).
  cbn [app]. rewrite sub_skip by len_solve. split_and!.
  - replace (off - zlen (take (Z.to_nat off) f)) with 0 by len_solve. by apply sub_here.
  - by rewrite take_app_length' by len_solve.
  - rewrite drop_app_ge, drop_app_ge by len_solve.
    rewrite length_take. replace (_ - _)%nat with 0%nat by lia. done.
Qed.

Section lemmas.
Context `{LibraryLaws}.

(** A write to an open file keeps the table valid as long as it stays in
    range, and never touches another file. *)
Lemma disks_match_insert disks files d bf f f' :
  disks_match disks files -> disks !! d = Some bf -> files !! bf_fd bf = Some f ->
  length f' = length f -> disks_match disks (<[bf_fd bf := f']> files).
Proof.
  intros [Hf Hi] Hd Hfile Hl. split; [|done]. intros d' bf' Hd'.
  destruct (Hf d' bf' Hd') as (g & Hg & Hs).
  destruct (decide (bf_fd bf' = bf_fd bf)) as [E|E].
  - rewrite E, lookup_insert_eq. rewrite E in Hg. exists f'. rewrite Hl.
    assert (g = f) as -> by congruence. done.
  - rewrite lookup_insert_ne by done. by exists g.
Qed.

Lemma disk_bytes_insert_ne disks files d d' bf f' :
  disks_match disks files -> disks !! d = Some bf -> d' <> d ->
  disk_bytes disks (<[bf_fd bf := f']> files) d' = disk_bytes disks files d'.
Proof.
  intros [_ Hi] Hd Hne. unfold disk_bytes.
  destruct (disks !! d') as [bf'|] eqn:E; [cbn|done].
  rewrite lookup_insert_ne; [done|]. intros E'. apply Hne. symmetry. by eapply Hi.
Qed.

(** The outcome of [pwrite] on a registered disk. *)
Lemma pwrite_cases fd raw off files f :
  files !! fd = Some f -> 0 <= off ->
  (pwrite fd raw off files).1 < 0 /\ (pwrite fd raw off files).2 = files \/
  exists n, 0 <= n <= zlen raw /\ (pwrite fd raw off files).1 = n /\
    (pwrite fd raw off files).2 = <[fd := overwrite off (take (Z.to_nat n) raw) f]> files.
Proof.
  intros Hf Ho. destruct (Z.lt_ge_cases (pwrite fd raw off files).1 0) as [Hw|Hw].
  - left. split; [done|by apply pwrite_error].
  - right. exists (pwrite fd raw off files).1. pose proof (pwrite_bound fd raw off files).
    split_and!; [done|done|done|by apply pwrite_writes].
Qed.
End lemmas.

(** [Process] returns whenever the payload can be read. *)
Lemma Process_total `{Library} disks devno bh compressed files :
  0 <= bh_CompressedSize bh <= zlen compressed ->
  exists s ack files', Process disks devno bh compressed files = Some (s, ack, files').
Proof.
  intros Hl. unfold Process, memcpy_from.
  test_true (0 <=? 0). test_true (0 <=? bh_CompressedSize bh).
  test_true (0 + bh_CompressedSize bh <=? zlen compressed). cbn [andb].
  destruct (Get devno disks) as [bf|]; [|by eauto].
  destruct (_ || _); [by eauto|]. destruct (_ <? _); [by eauto|].
  destruct (uncompress2 _ _) as [zret raw].
  destruct (_ || _); [by eauto|]. destruct (negb _); [by eauto|].
  destruct (pwrite _ _ _ _) as [w files']. destruct (_ || _); by eauto.
Qed.

(** The branch that stores: a block whose data inflates, has the announced
    size and hash and lies inside the file, on a file that takes writes
    whole. *)
Lemma Process_stores `{LibraryLaws} disks devno bh compressed files bf f raw :
  disks !! devno = Some bf -> files !! bf_fd bf = Some f ->
  zlen f = bf_size_bytes bf -> zlen f < 2 ^ 63 ->
  0 <= bh_BlockIndex bh -> bh_BlockIndex bh * BLOCK_SIZE + zlen raw <= zlen f ->
  0 < zlen raw <= BLOCK_SIZE -> bh_DataSize bh = zlen raw ->
  bh_CompressedSize bh = zlen compressed ->
  uncompress2 RAW_BUF_SIZE compressed = (Z_OK, raw) -> bh_Hash bh = SHA256 raw ->
  (pwrite (bf_fd bf) raw (bh_BlockIndex bh * BLOCK_SIZE) files).1 = zlen raw ->
  Process disks devno bh compressed files
  = Some (OK, with_status (init_ack devno bh) OK,
          <[bf_fd bf := overwrite (bh_BlockIndex bh * BLOCK_SIZE) raw f]> files).
Proof.
  intros Hd Hf Hsz Hmax Hi Hin Hraw Hds Hcs Hu Hh Hw. unfold Process, Get. rewrite Hd, Hds.
  set (off := bh_BlockIndex bh * BLOCK_SIZE) in *.
  assert (0 <= off) by (unfold off, BLOCK_SIZE; lia).
  test_false (zlen raw =? 0). test_false (BLOCK_SIZE <? zlen raw). cbn [orb].
  rewrite !(wrap_small 64 off) by (unfold in_width; lia).
  rewrite (wrap_small 64 (off + _)) by (unfold in_width; lia).
  test_false (bf_size_bytes bf <? off + zlen raw).
  unfold memcpy_from. rewrite Hcs. test_true (0 <=? 0). test_true (0 <=? zlen compressed).
  test_true (0 + zlen compressed <=? zlen compressed). cbn [andb].
  rewrite sub_all, Hu by done. rewrite !Z.eqb_refl. cbn [negb orb].
  rewrite bool_decide_true by done. cbn [negb]. rewrite s64_small by lia.
  pose proof (pwrite_writes (bf_fd bf) raw off files f Hf) as Hp.
  destruct (pwrite _ _ _ _) as [w files']. cbn [fst snd] in *. subst w.
  rewrite Hp, Nat2Z.id, firstn_all by lia. test_false (zlen raw <? 0). cbn [orb].
  rewrite wrap_small by (unfold in_width; lia). by rewrite Z.eqb_refl.
Qed.

(** ** A small library, for the examples

    The compressed form is the data itself, the hash its first 32 bytes, and
    writes succeed. *)
Definition pad32 (d : list Z) : list Z := take 32 (d ++ zeros 32).

Lemma pad32_length d : zlen (pad32 d) = 32.
Proof. unfold pad32. rewrite length_take, length_app. pose proof (zeros_length 32). lia. Qed.

Definition demo_library : Library := {|
  uncompress2 cap src := if cap <? zlen src then (-5, []) else (0, src);
  SHA256 d := pad32 d;
  pwrite fd d off fs :=
    match fs !! fd with
    | Some f => if off <? 0 then (-1, fs) else (zlen d, <[fd := overwrite off d f]> fs)
    | None => (-1, fs)
    end |}.

Lemma demo_library_laws : @LibraryLaws demo_library.
Proof.
  constructor; cbn; intros.
  - apply pad32_length.
  - case_if; cbn; lia.
  - destruct (fs !! fd); [case_if|]; cbn; lia.
  - rewrite H in *. case_if; [cbn in *; lia|]. cbn. by rewrite Nat2Z.id, firstn_all.
  - destruct (fs !! fd); [case_if|]; cbn in *; lia.
  - destruct (fs !! fd); [case_if|]; cbn in *; [done|lia|done].
Qed.

(** One disk of four bytes, and a block for it. *)
Definition demo_disks : gmap Z BackingFile :=
  {[ 7 := {| bf_fd := 3; bf_size_bytes := 4; bf_path := [] |} ]}.
Definition demo_files : Files := {[ 3 := [1; 2; 3; 4] ]}.
Definition demo_block (idx : Z) (data : list Z) : BlockHeader :=
  {| bh_BlockIndex := idx; bh_DataSize := zlen data; bh_CompressedSize := zlen data;
     bh_Hash := pad32 data; bh_VersionId := 1 |}.

Lemma demo_disks_match : disks_match demo_disks demo_files.
Proof.
  unfold disks_match, demo_disks. split.
  - intros d bf. rewrite lookup_singleton_Some. intros [<- <-]. exists [1; 2; 3; 4].
    split_and!; [vm_compute; reflexivity|done|done].
  - intros d d' bf bf'. rewrite !lookup_singleton_Some. intros [<- _] [<- _]. done.
Qed.

Lemma demo_block_wf idx data :
  in_width 64 idx -> zlen data < 1000 -> BlockHeader_wf (demo_block idx data).
Proof.
  intros Hi Hl. unfold BlockHeader_wf, in_width in *; cbn. split_and!; try lia. apply pad32_length.
Qed.

(** ** The properties *)

(** What a status promises about the files. *)
Definition Process_post `{Library} (disks : gmap Z BackingFile) (devno : Z)
    (bh : BlockHeader) (src : list Z) (files : Files) (s : AckStatus) (files' : Files) : Prop :=
  let off := bh_BlockIndex bh * BLOCK_SIZE in
  match s with
  | INVALID_DEV => disks !! devno = None /\ files' = files
  | OUT_OF_RANGE =>
      exists bf, disks !! devno = Some bf /\ files' = files /\
        ~ (0 < bh_DataSize bh <= BLOCK_SIZE /\ off + bh_DataSize bh <= bf_size_bytes bf)
  | DECOMPRESS_ERROR =>
      files' = files /\
      ((uncompress2 RAW_BUF_SIZE src).1 <> Z_OK \/
       zlen (uncompress2 RAW_BUF_SIZE src).2 <> bh_DataSize bh)
  | HASH_MISMATCH =>
      files' = files /\ SHA256 (uncompress2 RAW_BUF_SIZE src).2 <> bh_Hash bh
  | WRITE_ERROR =>
      files' = files \/
      exists bf f n, disks !! devno = Some bf /\ files !! bf_fd bf = Some f /\
        0 <= n < bh_DataSize bh /\
        files' = <[bf_fd bf := overwrite off
                     (take (Z.to_nat n) (uncompress2 RAW_BUF_SIZE src).2) f]> files
  | OK =>
      exists bf f raw, disks !! devno = Some bf /\ files !! bf_fd bf = Some f /\
        uncompress2 RAW_BUF_SIZE src = (Z_OK, raw) /\ SHA256 raw = bh_Hash bh /\
        zlen raw = bh_DataSize bh /\ off + zlen raw <= zlen f /\
        files' = <[bf_fd bf := overwrite off raw f]> files
  end.

(** The last stage: the verified data is written. *)
Lemma write_status `{LibraryLaws} disks devno bh src files bf f raw :
  disks_match disks files -> disks !! devno = Some bf -> files !! bf_fd bf = Some f ->
  0 <= bh_BlockIndex bh < 2 ^ 64 ->
  uncompress2 RAW_BUF_SIZE src = (Z_OK, raw) -> SHA256 raw = bh_Hash bh ->
  zlen raw = bh_DataSize bh ->
  let off := bh_BlockIndex bh * BLOCK_SIZE in
  let '(w, files') := pwrite (bf_fd bf) raw off files in
  off + bh_DataSize bh <= zlen f < 2 ^ 63 ->
  Process_post disks devno bh src files
    (if (w <? 0) || negb (u64 w =? zlen raw) then WRITE_ERROR else OK) files' /\
  disks_match disks files' /\
  (forall d, d <> devno -> disk_bytes disks files' d = disk_bytes disks files d).
Proof.
  intros Hdm Hd Hf Hi Eu Eh Hraw off.
  assert (0 <= off) as Hoff by (unfold off, BLOCK_SIZE; lia).
  destruct (pwrite_cases (bf_fd bf) raw off files f Hf Hoff) as [[Hw1 Hw2]|(n & Hn & Hw1 & Hw2)];
    destruct (pwrite (bf_fd bf) raw off files) as [w files']; cbn [fst snd] in *;
    subst w || idtac; subst files'; intros Hin.
  { test_true (w <? 0). cbn [orb]. split_and!; try done. by left. }
  set (files' := <[bf_fd bf := _]> files).
  assert (disks_match disks files' /\
    forall d, d <> devno -> disk_bytes disks files' d = disk_bytes disks files d) as [Hm Hb].
  { split; [|intros; by apply (disk_bytes_insert_ne _ _ devno)].
    eapply disks_match_insert; [done|done|done|]. apply overwrite_length; [done|]. len_solve. }
  split_and!; [|done|done]. test_false (n <? 0). cbn [orb].
  rewrite wrap_small by (unfold in_width; lia).
  destruct (n =? zlen raw) eqn:E; reflect_Z; cbn [negb].
  - exists bf, f, raw. split_and!; try done; [unfold off in *; lia|].
    unfold files'. subst n. rewrite Nat2Z.id. by rewrite firstn_all.
  - right. exists bf, f, n. rewrite Eu. split_and!; done || lia.
Qed.

(** C16: block processing is correct on every branch.  For a block index below
    [2^44 - 1] (any index of a disk) and a readable payload, [Process] returns,
    the ACK echoes the block and carries the status, and the status means
    what it says: [OK] exactly stores inflated data whose SHA-256 is the
    header's hash at [BlockIndex * BLOCK_SIZE], inside the file; every other
    status but [WRITE_ERROR] leaves all files as they were; [WRITE_ERROR] may
    leave a proper prefix of the block.  The table stays valid and no other
    disk changes. *)
Theorem Process_correct `{LibraryLaws} disks devno bh compressed files :
  disks_match disks files -> BlockHeader_wf bh -> bh_BlockIndex bh < 2 ^ 44 - 1 ->
  bh_CompressedSize bh <= zlen compressed ->
  exists s files', Process disks devno bh compressed files
                   = Some (s, with_status (init_ack devno bh) s, files') /\
    Process_post disks devno bh (sub 0 (bh_CompressedSize bh) compressed) files s files' /\
    disks_match disks files' /\
    (forall d, d <> devno -> disk_bytes disks files' d = disk_bytes disks files d).
Proof.
  intros Hdm (Hi & Hds & Hcs & _) Hidx Hlen. unfold in_width in *. unfold Process, Get.
  destruct (disks !! devno) as [bf|] eqn:Ed; [|by exists INVALID_DEV, files].
  destruct (proj1 Hdm devno bf Ed) as (f & Hf & Hsz & Hmax).
  set (src := sub 0 (bh_CompressedSize bh) compressed).
  case_if. { exists OUT_OF_RANGE, files. split_and!; try done. exists bf.
             split_and!; [done|done|]. unfold BLOCK_SIZE in *. lia. }
  rewrite (wrap_small 64 (bh_BlockIndex bh * BLOCK_SIZE)), wrap_small
    by (unfold in_width, BLOCK_SIZE in *; lia).
  case_if. { exists OUT_OF_RANGE, files. split_and!; try done. exists bf.
             split_and!; [done|done|]. lia. }
  unfold memcpy_from. test_true (0 <=? 0). test_true (0 <=? bh_CompressedSize bh).
  test_true (0 + bh_CompressedSize bh <=? zlen compressed). cbn [andb]. fold src.
  destruct (uncompress2 RAW_BUF_SIZE src) as [zret raw] eqn:Eu.
  destruct (negb (zret =? Z_OK) || negb (zlen raw =? bh_DataSize bh)) eqn:Ez; reflect_Z.
  { exists DECOMPRESS_ERROR, files. unfold Process_post. rewrite Eu.
    split_and!; try done. cbn. destruct Ez; reflect_Z; auto. }
  destruct (negb (bool_decide (SHA256 raw = bh_Hash bh))) eqn:Eh; reflect_Z.
  { exists HASH_MISMATCH, files. unfold Process_post. rewrite Eu.
    apply bool_decide_eq_false in Eh. by split_and!. }
  apply bool_decide_eq_true in Eh. rename H3 into Hz, H4 into Hraw. subst zret.
  rewrite s64_small by (unfold BLOCK_SIZE in *; lia).
  pose proof (write_status disks devno bh src files bf f raw Hdm Ed Hf Hi Eu Eh Hraw) as Hw.
  cbv zeta in Hw.
  destruct (pwrite (bf_fd bf) raw _ files) as [w files'].
  eexists (if (w <? 0) || negb (u64 w =? zlen raw) then WRITE_ERROR else OK), files'.
  split; [by destruct (_ || _)|]. apply Hw. lia.
Qed.

(** What any block, with any header, leaves of the files. *)
Definition disks_kept (disks : gmap Z BackingFile) (devno : Z) (files files' : Files) : Prop :=
  disks_match disks files' /\
  (forall d, d <> devno -> disk_bytes disks files' d = disk_bytes disks files d) /\
  (forall fd, length <$> (files' !! fd) = length <$> (files !! fd)) /\
  (forall fd, (forall bf, disks !! devno = Some bf -> bf_fd bf <> fd) ->
    files' !! fd = files !! fd).

Lemma disks_kept_refl disks devno files :
  disks_match disks files -> disks_kept disks devno files files.
Proof. intros. unfold disks_kept. by split_and!. Qed.

Lemma Process_keeps_disks `{LibraryLaws} disks devno bh compressed files s ack files' :
  disks_match disks files -> 0 <= bh_DataSize bh ->
  Process disks devno bh compressed files = Some (s, ack, files') ->
  disks_kept disks devno files files'.
Proof.
  intros Hdm Hds. pose proof (disks_kept_refl disks devno files Hdm) as Hrefl.
  unfold Process, Get. destruct (disks !! devno) as [bf|] eqn:Ed; [|by intros [= <- <- <-]].
  destruct (proj1 Hdm devno bf Ed) as (f & Hf & Hsz & Hmax).
  destruct (_ || _) eqn:E1; [by intros [= <- <- <-]|]. reflect_Z.
  destruct (_ <? _) eqn:E2; [by intros [= <- <- <-]|]. reflect_Z.
  destruct (memcpy_from _ _ _) as [src|]; [|done].
  destruct (uncompress2 _ src) as [zret raw].
  destruct (_ || _) eqn:E3; [by intros [= <- <- <-]|]. reflect_Z.
  destruct (negb _) eqn:E4; [by intros [= <- <- <-]|].
  set (off := u64 (bh_BlockIndex bh * BLOCK_SIZE)) in *.
  assert (0 <= off < 2 ^ 64) as Hoff by (apply (wrap_range 64); lia).
  assert (disks_kept disks devno files (pwrite (bf_fd bf) raw (s64 off) files).2) as Hk.
  { destruct (Z.lt_ge_cases off (2 ^ 63)) as [Hlo|Hhi].
    2:{ rewrite pwrite_error; [done|]. apply pwrite_negative. unfold signed.
        rewrite wrap_small by done. test_false (off <? 2 ^ (64 - 1)). lia. }
    rewrite s64_small by lia. rewrite wrap_small in E2 by (unfold in_width, BLOCK_SIZE in *; lia).
    destruct (pwrite_cases (bf_fd bf) raw off files f Hf) as [[_ ->]|(n & Hn & _ & ->)];
      [lia|done|].
    assert (length (overwrite off (take (Z.to_nat n) raw) f) = length f) as Hlen
      by (apply overwrite_length; len_solve).
    unfold disks_kept. split_and!.
    - by eapply disks_match_insert.
    - intros. by apply (disk_bytes_insert_ne _ _ devno).
    - intros fd. destruct (decide (fd = bf_fd bf)) as [->|].
      + rewrite lookup_insert_eq, Hf. cbn. by rewrite Hlen.
      + by rewrite lookup_insert_ne.
    - intros fd Hfd. rewrite lookup_insert_ne; [done|]. by apply Hfd. }
  destruct (pwrite _ _ _ _) as [w fs]. destruct (_ || _); by intros [= <- <- <-].
Qed.

Lemma Process_correct_witness :
  exists files', @Process demo_library demo_disks 7 (demo_block 0 [9; 8; 7]) [9; 8; 7] demo_files
    = Some (OK, with_status (init_ack 7 (demo_block 0 [9; 8; 7])) OK, files') /\
  disks_match demo_disks files' /\ disk_bytes demo_disks files' 7 = Some [9; 8; 7; 4].
Proof.
  destruct (@Process_correct demo_library demo_library_laws demo_disks 7
    (demo_block 0 [9; 8; 7]) [9; 8; 7] demo_files) as (s & files' & E & _ & Hm & _).
  - apply demo_disks_match.
  - apply demo_block_wf; [unfold in_width; lia|cbn; lia].
  - cbn. lia.
  - cbn. lia.
  - assert (@Process demo_library demo_disks 7 (demo_block 0 [9; 8; 7]) [9; 8; 7] demo_files
      = Some (OK, with_status (init_ack 7 (demo_block 0 [9; 8; 7])) OK, {[ 3 := [9; 8; 7; 4] ]}))
      as E' by (vm_compute; reflexivity).
    rewrite E' in E. assert (files' = {[ 3 := [9; 8; 7; 4] ]}) as -> by congruence.
    exists {[ 3 := [9; 8; 7; 4] ]}. split_and!; [done|done|vm_compute; reflexivity].
Defined.

Definition set_index (i : Z) (bh : BlockHeader) : BlockHeader :=
  {| bh_BlockIndex := i; bh_DataSize := bh_DataSize bh;
     bh_CompressedSize := bh_CompressedSize bh; bh_Hash := bh_Hash bh;
     bh_VersionId := bh_VersionId bh |}.

(** overflow.  The offset is computed modulo [2^64]: a block index that
    exceeds a valid one by a multiple of [2^44] passes the range check like
    the valid one and has exactly its effect on the files, so a block that
    lies [k * 2^64] bytes beyond the disk overwrites block [i] and is
    acknowledged under its own index. *)
Theorem Process_index_wraps `{Library} disks devno bh compressed files i k :
  Process disks devno (set_index (i + k * 2 ^ 44) bh) compressed files
  = match Process disks devno (set_index i bh) compressed files with
    | Some (s, _, files') =>
        Some (s, with_status (init_ack devno (set_index (i + k * 2 ^ 44) bh)) s, files')
    | None => None
    end.
Proof.
  assert (u64 ((i + k * 2 ^ 44) * BLOCK_SIZE) = u64 (i * BLOCK_SIZE)) as E.
  { unfold wrap. rewrite Z.mul_add_distr_r, <- Z.mul_assoc.
    change (2 ^ 44 * BLOCK_SIZE) with (2 ^ 64). apply Z.mod_add. lia. }
  unfold Process; cbn [set_index bh_BlockIndex bh_DataSize bh_CompressedSize bh_Hash]. rewrite E.
  destruct (Get devno disks) as [bf|]; [|done].
  destruct (_ || _); [done|]. destruct (_ <? _); [done|].
  destruct (memcpy_from _ _ _) as [src|]; [|done].
  destruct (uncompress2 _ src) as [zret raw].
  destruct (_ || _); [done|]. destruct (negb _); [done|].
  destruct (pwrite _ _ _ _) as [w files']. by destruct (_ || _).
Qed.
