(* ===== verification/Server.v ===== *)
(** * The server

    [server/Server.{h,cpp}]: the single-threaded event loop.  A handler is a
    computation on the whole server state ([World]); the reference [Conn& c]
    it is given is the key of the connection table, and reading through it
    after the connection was destroyed is [Undefined].  What the kernel
    answers is an oracle indexed by the number of calls made so far. *)

From S2P Require Import Prelude Protocol RingBuffer MessageParser DiskMap BlockProcessor.

(** ** State *)

Definition kRecvBufSize : Z := 4 * 1024 * 1024.
Definition kSendBufSize : Z := 256 * 1024.

Record Conn := {
  c_fd : Z; c_devno : Z; helloDone : bool;
  recvBuf : RingBuffer; sendBuf : RingBuffer;
  blocksReceived : Z; bytesWritten : Z; errors : Z }.

Definition Conn_new (fd : Z) : Conn :=
  {| c_fd := fd; c_devno := 0; helloDone := false;
     recvBuf := RingBuffer_new kRecvBufSize; sendBuf := RingBuffer_new kSendBufSize;
     blocksReceived := 0; bytesWritten := 0; errors := 0 |}.

Definition with_recvBuf (b : RingBuffer) (c : Conn) : Conn :=
  {| c_fd := c_fd c; c_devno := c_devno c; helloDone := helloDone c; recvBuf := b;
     sendBuf := sendBuf c; blocksReceived := blocksReceived c;
     bytesWritten := bytesWritten c; errors := errors c |}.
Definition with_sendBuf (b : RingBuffer) (c : Conn) : Conn :=
  {| c_fd := c_fd c; c_devno := c_devno c; helloDone := helloDone c; recvBuf := recvBuf c;
     sendBuf := b; blocksReceived := blocksReceived c;
     bytesWritten := bytesWritten c; errors := errors c |}.
Definition with_session (devno : Z) (hello : bool) (c : Conn) : Conn :=
  {| c_fd := c_fd c; c_devno := devno; helloDone := hello; recvBuf := recvBuf c;
     sendBuf := sendBuf c; blocksReceived := blocksReceived c;
     bytesWritten := bytesWritten c; errors := errors c |}.
Definition with_counters (blocks bytes errs : Z) (c : Conn) : Conn :=
  {| c_fd := c_fd c; c_devno := c_devno c; helloDone := helloDone c; recvBuf := recvBuf c;
     sendBuf := sendBuf c; blocksReceived := blocks; bytesWritten := bytes; errors := errs |}.

(** [conns_] and the descriptors of the server, with what it did to the
    outside: the files, the bytes each socket accepted, the epoll interest
    set and the open sockets.  [clock] counts system calls. *)
Record World := {
  conns : gmap Z Conn; files : Files; sent : list (Z * list Z);
  epoll : gmap Z Z; sockets : gset Z; clock : nat;
  running : bool; listenFd : Z; epollFd : Z }.

Definition set_conns (f : gmap Z Conn -> gmap Z Conn) (w : World) : World :=
  {| conns := f (conns w); files := files w; sent := sent w; epoll := epoll w;
     sockets := sockets w; clock := clock w; running := running w;
     listenFd := listenFd w; epollFd := epollFd w |}.
Definition set_files (fs : Files) (w : World) : World :=
  {| conns := conns w; files := fs; sent := sent w; epoll := epoll w;
     sockets := sockets w; clock := clock w; running := running w;
     listenFd := listenFd w; epollFd := epollFd w |}.
Definition add_sent (fd : Z) (d : list Z) (w : World) : World :=
  {| conns := conns w; files := files w; sent := sent w ++ [(fd, d)]; epoll := epoll w;
     sockets := sockets w; clock := clock w; running := running w;
     listenFd := listenFd w; epollFd := epollFd w |}.
Definition set_epoll (f : gmap Z Z -> gmap Z Z) (w : World) : World :=
  {| conns := conns w; files := files w; sent := sent w; epoll := f (epoll w);
     sockets := sockets w; clock := clock w; running := running w;
     listenFd := listenFd w; epollFd := epollFd w |}.
Definition set_sockets (f : gset Z -> gset Z) (w : World) : World :=
  {| conns := conns w; files := files w; sent := sent w; epoll := epoll w;
     sockets := f (sockets w); clock := clock w; running := running w;
     listenFd := listenFd w; epollFd := epollFd w |}.
Definition tick (w : World) : World :=
  {| conns := conns w; files := files w; sent := sent w; epoll := epoll w;
     sockets := sockets w; clock := S (clock w); running := running w;
     listenFd := listenFd w; epollFd := epollFd w |}.

(** ** The monad of the handlers *)

(** [Undefined]: the handler used a destroyed connection or memory it does
    not own.  [OutOfFuel]: a loop ran longer than the fuel it was given. *)
Inductive Res (A : Type) := Ret (a : A) | Undefined | OutOfFuel.
Arguments Ret {A} a.
Arguments Undefined {A}.
Arguments OutOfFuel {A}.

Definition M (A : Type) : Type := World -> Res A * World.

#[export] Instance M_ret : MRet M := fun A a w => (Ret a, w).
#[export] Instance M_bind : MBind M := fun A B f m w =>
  match m w with
  | (Ret a, w') => f a w'
  | (Undefined, w') => (Undefined, w')
  | (OutOfFuel, w') => (OutOfFuel, w')
  end.

Definition undefined {A} : M A := fun w => (Undefined, w).
Definition out_of_fuel {A} : M A := fun w => (OutOfFuel, w).
Definition modify (f : World -> World) : M unit := fun w => (Ret (), f w).

(** Access through a [Conn&], and the membership test [conns_.find]. *)
Definition get_conn (r : Z) : M Conn := fun w =>
  match conns w !! r with Some c => (Ret c, w) | None => (Undefined, w) end.
Definition upd_conn (r : Z) (f : Conn -> Conn) : M unit :=
  c ← get_conn r; modify (set_conns (<[r := f c]>)).
Definition conn_exists (fd : Z) : M bool := fun w =>
  (Ret (bool_decide (is_Some (conns w !! fd))), w).

(** ** The kernel *)

(** The result of [send]: a count, or [-1] with [errno]. *)
Inductive SendResult := SendN (n : Z) | SendErr (errno : Z).

(** Answers to [recv], [send] and [accept4] ([None] is an error, [EAGAIN]
    among them), by the number of the call. *)
Class Kernel := {
  os_recv : nat -> Z -> Z -> RecvResult;
  os_send : nat -> Z -> list Z -> SendResult;
  os_accept : nat -> option Z;
}.

(** Documented behaviour: at least one and at most [len] bytes are received,
    no more bytes are accepted than were offered, and a descriptor is not
    negative. *)
Class KernelLaws `{Kernel} := {
  os_recv_ok t fd : recv_ok (os_recv t fd);
  os_send_ok t fd d n : os_send t fd d = SendN n -> 0 <= n <= zlen d;
  os_accept_ok t fd : os_accept t = Some fd -> 0 <= fd;
}.

Definition EPOLLIN : Z := 1.
Definition EPOLLOUT : Z := 4.
Definition EPOLLERR : Z := 8.
Definition EPOLLHUP : Z := 16.
Definition EPOLLRDHUP : Z := 8192.

Definition EpollAdd (fd events : Z) : M unit :=
  modify (set_epoll (<[fd := Z.lor events EPOLLRDHUP]>)).
Definition EpollMod (fd events : Z) : M unit :=
  modify (set_epoll (alter (fun _ => Z.lor events EPOLLRDHUP) fd)).

(** ** Handlers *)

Definition CloseConn (fd : Z) : M unit := fun w =>
  match conns w !! fd with
  | None => (Ret (), w)
  | Some c =>
      (Ret (), set_conns (delete fd) (set_sockets (.∖ {[fd]}) (set_epoll (delete fd) w)))
  end.

(** [CloseConn(c.fd, ...)]. *)
Definition CloseRef (r : Z) : M unit := c ← get_conn r; CloseConn (c_fd c).

Section handlers.
Context `{Kernel} `{Library}.
Context (disks : gmap Z BackingFile).

Definition send_call (fd : Z) (d : list Z) : M SendResult := fun w =>
  let r := os_send (clock w) fd d in
  (Ret r, match r with SendN n => add_sent fd (take (Z.to_nat n) d) (tick w)
                     | SendErr _ => tick w end).

(** The loop of [HandleConnWritable]: [true] when the queue is empty. *)
Fixpoint writable_loop (fuel : nat) (r : Z) : M bool :=
  match fuel with
  | O => out_of_fuel
  | S fuel' =>
      c ← get_conn r;
      if 0 <? ReadableBytes (sendBuf c) then
        n ← send_call (c_fd c) (contents (sendBuf c));
        match n with
        | SendN n =>
            if 0 <? n then
              _ ← upd_conn r (with_sendBuf (Consume n (sendBuf c)));
              writable_loop fuel' r
            else _ ← CloseRef r; mret false
        | SendErr e =>
            if e =? EAGAIN then mret false else _ ← CloseRef r; mret false
        end
      else mret true
  end.

Definition HandleConnWritable (r : Z) : M unit :=
  c ← get_conn r;
  drained ← writable_loop (S (Z.to_nat (ReadableBytes (sendBuf c)))) r;
  if (drained : bool) then
    c ← get_conn r;
    _ ← upd_conn r (with_sendBuf (Compact (sendBuf c)));
    c ← get_conn r;
    if ReadableBytes (sendBuf c) =? 0 then EpollMod (c_fd c) EPOLLIN else mret ()
  else mret ().

Definition TryArmWrite (r : Z) : M unit :=
  c ← get_conn r;
  if 0 <? ReadableBytes (sendBuf c) then
    _ ← EpollMod (c_fd c) (Z.lor EPOLLIN EPOLLOUT);
    HandleConnWritable r
  else mret ().

Definition ack_header (ack : AckBody) : MsgHeader :=
  {| mh_Magic := PROTOCOL_MAGIC; mh_Type := MessageType_to_Z ACK;
     mh_DevNo := ack_DevNo ack; mh_Reserved := 0 |}.

Definition EnqueueAck (r : Z) (ack : AckBody) : M unit :=
  _ ← upd_conn r (fun c => with_sendBuf
    (Append (enc_AckBody ack) (Append (enc_MsgHeader (ack_header ack)) (sendBuf c))) c);
  TryArmWrite r.

(** [AckBody ack{}] with index 0, a device and a status. *)
Definition plain_ack (devno : Z) (s : AckStatus) : AckBody :=
  {| ack_BlockIndex := 0; ack_Status := AckStatus_to_Z s; ack_DevNo := devno;
     ack_Hash := zeros 32 |}.

Definition HandleHello (r : Z) (hdr : MsgHeader) (body : list Z) : M unit :=
  c ← get_conn r;
  if helloDone c then mret ()
  else if zlen body <? HELLO_BODY_SIZE then
    _ ← EnqueueAck r (plain_ack (mh_DevNo hdr) INVALID_DEV); CloseRef r
  else
    let hb := dec_HelloBody body in
    match Get (hb_DevNo hb) disks with
    | None => _ ← EnqueueAck r (plain_ack (hb_DevNo hb) INVALID_DEV); CloseRef r
    | Some bf =>
        if bf_size_bytes bf <? hb_TotalSize hb then
          _ ← EnqueueAck r (plain_ack (hb_DevNo hb) OUT_OF_RANGE); CloseRef r
        else
          _ ← upd_conn r (with_session (hb_DevNo hb) true);
          _ ← EnqueueAck r (plain_ack (hb_DevNo hb) OK);
          _ ← get_conn r; mret ()
    end.

Definition count_block (s : AckStatus) (dataSize : Z) (c : Conn) : Conn :=
  with_counters (u64 (blocksReceived c + 1))
    (if decide (s = OK) then u64 (bytesWritten c + dataSize) else bytesWritten c)
    (if decide (s = OK) then errors c else u64 (errors c + 1)) c.

Definition HandleDataBlock (r : Z) (hdr : MsgHeader) (body : list Z) : M unit :=
  c ← get_conn r;
  if negb (helloDone c) then CloseRef r
  else if zlen body <? BLOCK_HEADER_SIZE then mret ()
  else
    let bh := dec_BlockHeader body in
    if zlen body <? u32 (BLOCK_HEADER_SIZE + bh_CompressedSize bh) then mret ()
    else fun w =>
      match Process disks (mh_DevNo hdr) bh (drop (Z.to_nat BLOCK_HEADER_SIZE) body) (files w)
      with
      | None => (Undefined, w)
      | Some (st, ack, fs) =>
          (_ ← upd_conn r (count_block st (bh_DataSize bh)); EnqueueAck r ack)
            (set_files fs w)
      end.

Definition HandleBye (r : Z) (hdr : MsgHeader) : M unit :=
  _ ← get_conn r;
  _ ← EnqueueAck r (plain_ack (mh_DevNo hdr) OK);
  CloseRef r.

Definition HandleConnError (r : Z) : M unit := CloseRef r.

(** The [switch] of [ProcessMessages]. *)
Definition dispatch (r : Z) (m : ParsedMessage) : M unit :=
  match MessageType_of_Z (mh_Type (pm_header m)) with
  | Some HELLO => HandleHello r (pm_header m) (pm_body m)
  | Some DATA_BLOCK => HandleDataBlock r (pm_header m) (pm_body m)
  | Some BYE => HandleBye r (pm_header m)
  | Some ACK | Some ERROR | None => mret ()
  end.

Definition consume_recv (r n : Z) : M unit :=
  upd_conn r (fun c => with_recvBuf (Compact (Consume n (recvBuf c))) c).

Fixpoint process_loop (fuel : nat) (r : Z) : M unit :=
  match fuel with
  | O => out_of_fuel
  | S fuel' =>
      c ← get_conn r;
      match TryParse (recvBuf c) no_msg with
      | (kNeedMore, _, _) => mret ()
      | (kBadMagic, _, _) | (kInvalidType, _, _) =>
          _ ← consume_recv r 1; process_loop fuel' r
      | (kOversizeBlock, _, _) => CloseRef r
      | (kOk, m, _) =>
          _ ← dispatch r m;
          c' ← get_conn r;
          alive ← conn_exists (c_fd c');
          if (alive : bool) then
            _ ← consume_recv r (HEADER_SIZE + zlen (pm_body m));
            process_loop fuel' r
          else mret ()
      end
  end.

Definition ProcessMessages (r : Z) : M unit :=
  c ← get_conn r;
  process_loop (S (Z.to_nat (ReadableBytes (recvBuf c)))) r.

(** The loop of [HandleConnReadable], one [recv] per unit of fuel. *)
Definition recv_on (r : Z) (c : Conn) : M RecvResult := fun w =>
  let '(res, b) := WriteFromFd (os_recv (clock w) (c_fd c)) (recvBuf c) in
  (Ret res, set_conns (<[r := with_recvBuf b c]>) (tick w)).
Definition recv_call (r : Z) : M RecvResult := c ← get_conn r; recv_on r c.

Fixpoint readable_loop (fuel : nat) (r fd : Z) : M unit :=
  match fuel with
  | O => out_of_fuel
  | S fuel' =>
      n ← recv_call r;
      match n with
      | RecvData _ =>
          _ ← ProcessMessages r;
          alive ← conn_exists fd;
          if (alive : bool) then readable_loop fuel' r fd else mret ()
      | RecvClosed => CloseConn fd
      | RecvError e =>
          if e =? EAGAIN then ProcessMessages r else CloseConn fd
      end
  end.

Definition HandleConnReadable (fuel : nat) (r : Z) : M unit :=
  c ← get_conn r; readable_loop fuel r (c_fd c).

Fixpoint HandleAccept (fuel : nat) : M unit :=
  match fuel with
  | O => out_of_fuel
  | S fuel' => fun w =>
      match os_accept (clock w) with
      | None => (Ret (), tick w)
      | Some cfd =>
          (_ ← EpollAdd cfd EPOLLIN; HandleAccept fuel')
            (set_conns (<[cfd := Conn_new cfd]>) (set_sockets ({[cfd]} ∪.) (tick w)))
      end
  end.

(** One event of [Run]. *)
Definition handle_event (fuel : nat) (fd events : Z) : M unit := fun w =>
  if fd =? listenFd w then HandleAccept fuel w
  else
    (found ← conn_exists fd;
     if (found : bool) then
       if negb (Z.land events (Z.lor EPOLLERR EPOLLHUP) =? 0) then HandleConnError fd
       else
         _ ← (if negb (Z.land events EPOLLIN =? 0) then HandleConnReadable fuel fd
              else mret ());
         alive ← conn_exists fd;
         if (alive : bool) then
           if negb (Z.land events EPOLLOUT =? 0) then HandleConnWritable fd else mret ()
         else mret ()
     else mret ()) w.

(** A handler may destroy its connection while [ProcessMessages] still holds a
    reference to it, and then reads through the reference.  The run ends there
    as [Undefined]; with [resumed] the memory is taken to hold what it held, so
    that [conns_.find(c.fd)] finds nothing, the handler returns and the loop
    goes on.  An event that fails in any other way is [Undefined] in both. *)
Definition survive (resumed : bool) (fd : Z) (m : M unit) : M unit := fun w =>
  match m w with
  | (Undefined, w') =>
      if resumed && bool_decide (is_Some (conns w !! fd)) && bool_decide (conns w' !! fd = None)
      then (Ret (), w') else (Undefined, w')
  | p => p
  end.

Section run.
Context (resumed : bool).

(** [Run] on the batches of events [epoll_wait] reports; [None] is an error
    other than [EINTR]. *)
Fixpoint handle_events (fuel : nat) (evs : list (Z * Z)) : M unit :=
  match evs with
  | [] => mret ()
  | (fd, e) :: evs' => _ ← survive resumed fd (handle_event fuel fd e); handle_events fuel evs'
  end.

Fixpoint Run (fuel : nat) (batches : list (option (list (Z * Z)))) : M unit := fun w =>
  match batches with
  | [] => (Ret (), w)
  | b :: batches' =>
      if negb (running w) then (Ret (), w)
      else match b with
           | None => (Ret (), w)
           | Some evs => (_ ← handle_events fuel evs; Run fuel batches') w
           end
  end.
End run.
End handlers.

Definition Stop (w : World) : World :=
  if negb (running w) then w
  else
    {| conns := ∅; files := files w; sent := sent w; epoll := epoll w;
       sockets := map_fold (fun _ c s => if 0 <=? c_fd c then s ∖ {[c_fd c]} else s)
                    (sockets w) (conns w);
       clock := clock w; running := false; listenFd := -1; epollFd := -1 |}.
