(* ===== verification/ServerSpec.v ===== *)
(** * What the server promises

    The abstract server is a session that consumes messages one by one
    ([serve_one]); [ProcessMessages] on a connection refines the session fed
    with the messages [stream] cuts out of the receive buffer. *)

From S2P Require Import Prelude Protocol RingBuffer MessageParser DiskMap BlockProcessor Server.

(** ** The abstract session *)

Record Session := {
  s_hello : bool; s_devno : Z; s_blocks : Z; s_bytes : Z; s_errors : Z;
  s_files : Files; s_acks : list AckBody }.

Definition add_ack (a : AckBody) (s : Session) : Session :=
  {| s_hello := s_hello s; s_devno := s_devno s; s_blocks := s_blocks s;
     s_bytes := s_bytes s; s_errors := s_errors s; s_files := s_files s;
     s_acks := s_acks s ++ [a] |}.

Section serve.
Context `{Library} (disks : gmap Z BackingFile).

Definition serve_hello (hb : HelloBody) (s : Session) : Session * bool :=
  if s_hello s then (s, false)
  else match disks !! hb_DevNo hb with
       | None => (add_ack (plain_ack (hb_DevNo hb) INVALID_DEV) s, true)
       | Some bf =>
           if bf_size_bytes bf <? hb_TotalSize hb then
             (add_ack (plain_ack (hb_DevNo hb) OUT_OF_RANGE) s, true)
           else
             (add_ack (plain_ack (hb_DevNo hb) OK)
                {| s_hello := true; s_devno := hb_DevNo hb; s_blocks := s_blocks s;
                   s_bytes := s_bytes s; s_errors := s_errors s; s_files := s_files s;
                   s_acks := s_acks s |}, false)
       end.

Definition serve_block (devno : Z) (body : list Z) (s : Session) : Session * bool :=
  if negb (s_hello s) then (s, true)
  else
    let bh := dec_BlockHeader body in
    match Process disks devno bh (drop 52 body) (s_files s) with
    | None => (s, true)
    | Some (st, ack, fs) =>
        (add_ack ack
           {| s_hello := true; s_devno := s_devno s; s_blocks := u64 (s_blocks s + 1);
              s_bytes := if decide (st = OK) then u64 (s_bytes s + bh_DataSize bh)
                         else s_bytes s;
              s_errors := if decide (st = OK) then s_errors s else u64 (s_errors s + 1);
              s_files := fs; s_acks := s_acks s |}, false)
    end.

(** One message: the new session, and whether the connection is closed. *)
Definition serve_one (m : ParsedMessage) (s : Session) : Session * bool :=
  match MessageType_of_Z (mh_Type (pm_header m)) with
  | Some HELLO => serve_hello (dec_HelloBody (pm_body m)) s
  | Some DATA_BLOCK => serve_block (mh_DevNo (pm_header m)) (pm_body m) s
  | Some BYE => (add_ack (plain_ack (mh_DevNo (pm_header m)) OK) s, true)
  | _ => (s, false)
  end.

Fixpoint serve (ms : list ParsedMessage) (s : Session) : Session * bool :=
  match ms with
  | [] => (s, false)
  | m :: ms' =>
      let '(s', closed) := serve_one m s in if closed then (s', true) else serve ms' s'
  end.
End serve.

(** ** The abstraction *)

Definition sent_to (fd : Z) (w : World) : list Z :=
  concat (map snd (filter (fun p => p.1 = fd) (sent w))).

Definition ack_bytes (a : AckBody) : list Z := enc_MsgHeader (ack_header a) ++ enc_AckBody a.

(** What the peer will read, once the queue is drained. *)
Definition output (r : Z) (c : Conn) (w : World) : list Z :=
  sent_to r w ++ contents (sendBuf c).

Definition session_of (c : Conn) (fs : Files) : Session :=
  {| s_hello := helloDone c; s_devno := c_devno c; s_blocks := blocksReceived c;
     s_bytes := bytesWritten c; s_errors := errors c; s_files := fs; s_acks := [] |}.

Definition same_session (c : Conn) (fs : Files) (s : Session) : Prop :=
  helloDone c = s_hello s /\ c_devno c = s_devno s /\ blocksReceived c = s_blocks s /\
  bytesWritten c = s_bytes s /\ errors c = s_errors s /\ fs = s_files s.

Definition Conn_ok (r : Z) (c : Conn) : Prop :=
  c_fd c = r /\ RingBuffer_ok (recvBuf c) /\ bytes_ok (rb_buf (recvBuf c)) /\
  RingBuffer_ok (sendBuf c).

(** Nothing has changed since [w0] for the connections other than [r], nor has
    anything been sent to them. *)
Definition others_kept (r : Z) (w0 w : World) : Prop :=
  forall r', r' <> r -> conns w !! r' = conns w0 !! r' /\ sent_to r' w = sent_to r' w0.

(** [r] is served in state [s], with [rest] not yet parsed; the other
    connections are those of [w0]. *)
Definition Live (r : Z) (out0 : list Z) (w0 : World) (s : Session) (rest : list Z)
    (w : World) : Prop :=
  exists c, conns w !! r = Some c /\ Conn_ok r c /\ contents (recvBuf c) = rest /\
    same_session c (files w) s /\
    output r c w = out0 ++ concat (map ack_bytes (s_acks s)) /\
    others_kept r w0 w.

Definition Dead (r : Z) (out0 : list Z) (w0 : World) (s : Session) (w : World) : Prop :=
  conns w !! r = None /\ files w = s_files s /\
  sent_to r w `prefix_of` (out0 ++ concat (map ack_bytes (s_acks s))) /\
  others_kept r w0 w.

(** [send] accepts something or reports [EAGAIN]: the peer is connected. *)
Definition send_soft `{Kernel} : Prop :=
  forall t fd d, d <> [] ->
    (exists n, os_send t fd d = SendN n /\ 0 < n) \/ os_send t fd d = SendErr EAGAIN.

(** ** Running the monad *)

Lemma get_conn_run r w c : conns w !! r = Some c -> get_conn r w = (Ret c, w).
Proof. intros E. unfold get_conn. by rewrite E. Qed.

Lemma get_conn_dead r w : conns w !! r = None -> get_conn r w = (Undefined, w).
Proof. intros E. unfold get_conn. by rewrite E. Qed.

Lemma bind_run {A B} (m : M A) (f : A -> M B) w a w' :
  m w = (Ret a, w') -> (m ≫= f) w = f a w'.
Proof. intros E. unfold mbind, M_bind. by rewrite E. Qed.

Lemma bind_undefined {A B} (m : M A) (f : A -> M B) w w' :
  m w = (Undefined, w') -> (m ≫= f) w = (Undefined, w').
Proof. intros E. unfold mbind, M_bind. by rewrite E. Qed.

Lemma bind_out_of_fuel {A B} (m : M A) (f : A -> M B) w w' :
  m w = (OutOfFuel, w') -> (m ≫= f) w = (OutOfFuel, w').
Proof. intros E. unfold mbind, M_bind. by rewrite E. Qed.

Lemma upd_conn_run r f w c :
  conns w !! r = Some c -> upd_conn r f w = (Ret (), set_conns (<[r := f c]>) w).
Proof. intros E. unfold upd_conn. by rewrite (bind_run _ _ _ _ _ (get_conn_run _ _ _ E)). Qed.

Lemma CloseRef_run r w c :
  conns w !! r = Some c -> c_fd c = r ->
  exists w', CloseRef r w = (Ret (), w') /\ conns w' = delete r (conns w) /\
    files w' = files w /\ sent w' = sent w.
Proof.
  intros E Hr. unfold CloseRef. rewrite (bind_run _ _ _ _ _ (get_conn_run _ _ _ E)), Hr.
  unfold CloseConn. rewrite E. by eexists.
Qed.

(** Replaces the first step of a computation by its result. *)
Ltac step_conn E := rewrite (bind_run _ _ _ _ _ (get_conn_run _ _ _ E)).

Section sends.
Context `{KernelLaws}.
Hypothesis soft : send_soft.

(** [w'] differs from [w] by bytes of [c]'s queue handed to the kernel. *)
Definition flushes (r : Z) (c : Conn) (q : RingBuffer) (w w' : World) : Prop :=
  conns w' = <[r := with_sendBuf q c]> (conns w) /\ RingBuffer_ok q /\
  files w' = files w /\ sent_to r w' ++ contents q = sent_to r w ++ contents (sendBuf c) /\
  forall r', r' <> r -> sent_to r' w' = sent_to r' w.

Lemma sent_to_add r d w : sent_to r (add_sent r d w) = sent_to r w ++ d.
Proof.
  unfold sent_to; cbn. rewrite filter_app, map_app, concat_app. f_equal.
  rewrite filter_cons_True by done. cbn. by rewrite app_nil_r.
Qed.

Lemma sent_to_other r r' d w : r' <> r -> sent_to r' (add_sent r d w) = sent_to r' w.
Proof.
  intros Hne. unfold sent_to; cbn. rewrite filter_app, map_app, concat_app.
  rewrite filter_cons_False by (cbn; congruence). by rewrite filter_nil, app_nil_r.
Qed.

Lemma flushes_idle r c w w' :
  conns w !! r = Some c -> RingBuffer_ok (sendBuf c) ->
  conns w' = conns w -> files w' = files w -> sent w' = sent w ->
  flushes r c (sendBuf c) w w'.
Proof.
  intros Hc Hq Ec Ef Es. unfold flushes, sent_to. rewrite Ec, Ef, Es.
  split_and!; try done. destruct c; cbn. by rewrite insert_id.
Qed.

Lemma writable_loop_spec fuel r c w :
  conns w !! r = Some c -> c_fd c = r -> RingBuffer_ok (sendBuf c) ->
  ReadableBytes (sendBuf c) < Z.of_nat fuel ->
  exists b q w', writable_loop fuel r w = (Ret b, w') /\ flushes r c q w w'.
Proof.
  revert c w. induction fuel as [|fuel IH]; intros c w Hc Hr Hq Hf.
  { unfold RingBuffer_ok, ReadableBytes in *. lia. }
  cbn [writable_loop]. step_conn Hc. pose proof (contents_length _ Hq) as Hl.
  case_if; [|exists true, (sendBuf c), w; split; [done|by apply flushes_idle]].
  destruct (soft (clock w) (c_fd c) (contents (sendBuf c))) as [(n & Hn & Hpos)|Hn].
  { intros E0. rewrite E0 in Hl. cbn in Hl. lia. }
  - pose proof (os_send_ok _ _ _ _ Hn) as [_ Hle].
    erewrite bind_run by (unfold send_call; rewrite Hn; reflexivity).
    cbv iota beta. test_true (0 <? n). rewrite Hr. cbv iota.
    erewrite bind_run by (apply upd_conn_run; exact Hc).
    set (w1 := set_conns _ _). set (c1 := with_sendBuf (Consume n (sendBuf c)) c).
    destruct (IH c1 w1) as (b & q & w' & Hrun & Hconn & Hok & Hfiles & Hout & Hoth).
    + unfold w1; cbn. by rewrite lookup_insert_eq.
    + done.
    + cbn. apply Consume_ok; [done|lia].
    + unfold c1; cbn. unfold Consume, ReadableBytes in *; cbn. case_if; lia.
    + exists b, q, w'. split; [done|]. split_and!; [|done|by rewrite Hfiles| |].
      * rewrite Hconn. unfold w1; cbn. by rewrite insert_insert_eq.
      * rewrite Hout. unfold w1, c1, sent_to; cbn. fold (sent_to r w).
        change (concat _) with (sent_to r (add_sent r (take (Z.to_nat n) (contents (sendBuf c))) w)).
        rewrite sent_to_add, Consume_contents by (done || lia).
        by rewrite <- app_assoc, take_drop.
      * intros r' Hne. rewrite Hoth by done.
        exact (sent_to_other r r' (take (Z.to_nat n) (contents (sendBuf c))) w Hne).
  - erewrite bind_run by (unfold send_call; rewrite Hn; reflexivity).
    exists false, (sendBuf c), (tick w). split; [done|]. by apply flushes_idle.
Qed.

(** Epoll updates are invisible to the connections. *)
Lemma flushes_epoll r c q f w w' :
  flushes r c q w w' -> flushes r c q w (set_epoll f w').
Proof. done. Qed.

Lemma flushes_trans r c q q' w w1 w2 :
  flushes r c q w w1 -> flushes r (with_sendBuf q c) q' w1 w2 -> flushes r c q' w w2.
Proof.
  intros (E1 & _ & F1 & S1 & O1) (E2 & Hok & F2 & S2 & O2). split_and!; [|done|congruence| |].
  - rewrite E2, E1, insert_insert_eq. done.
  - rewrite S2. cbn. by rewrite S1.
  - intros r' Hne. by rewrite O2, O1.
Qed.

Lemma HandleConnWritable_spec r c w :
  conns w !! r = Some c -> c_fd c = r -> RingBuffer_ok (sendBuf c) ->
  exists q w', HandleConnWritable r w = (Ret (), w') /\ flushes r c q w w'.
Proof.
  intros Hc Hr Hq. unfold HandleConnWritable. step_conn Hc.
  destruct (writable_loop_spec (S (Z.to_nat (ReadableBytes (sendBuf c)))) r c w)
    as (b & q & w1 & Hrun & Hfl); [done..|unfold RingBuffer_ok, ReadableBytes in *; lia|].
  rewrite (bind_run _ _ _ _ _ Hrun). destruct b; [|by exists q, w1].
  assert (conns w1 !! r = Some (with_sendBuf q c)) as Hc1.
  { destruct Hfl as (-> & _). by rewrite lookup_insert_eq. }
  step_conn Hc1. rewrite (bind_run _ _ _ _ _ (upd_conn_run _ _ _ _ Hc1)).
  set (w2 := set_conns _ w1). set (c2 := with_sendBuf (Compact q) c).
  assert (flushes r c (Compact q) w w2) as Hfl2.
  { apply (flushes_trans r c q (Compact q) w w1 w2 Hfl). destruct Hfl as (_ & Hok & _).
    split_and!; [done|by apply Compact_ok|done| |done].
    unfold w2, sent_to; cbn. by rewrite Compact_contents. }
  assert (conns w2 !! r = Some c2) as Hc2.
  { destruct Hfl2 as (-> & _). by rewrite lookup_insert_eq. }
  step_conn Hc2. case_if; [|by exists (Compact q), w2].
  eexists (Compact q), _. split; [reflexivity|]. by apply flushes_epoll.
Qed.

Lemma TryArmWrite_spec r c w :
  conns w !! r = Some c -> c_fd c = r -> RingBuffer_ok (sendBuf c) ->
  exists q w', TryArmWrite r w = (Ret (), w') /\ flushes r c q w w'.
Proof.
  intros Hc Hr Hq. unfold TryArmWrite. step_conn Hc.
  case_if; [|by exists (sendBuf c), w; split; [|apply flushes_idle]].
  erewrite bind_run by reflexivity.
  set (w1 := set_epoll _ w).
  destruct (HandleConnWritable_spec r c w1 Hc Hr Hq) as (q & w' & Hrun & Hfl).
  by exists q, w'.
Qed.

(** An acknowledgement is added to the output. *)
Lemma EnqueueAck_spec r c w ack :
  conns w !! r = Some c -> c_fd c = r -> RingBuffer_ok (sendBuf c) ->
  exists q w', EnqueueAck r ack w = (Ret (), w') /\
    conns w' = <[r := with_sendBuf q c]> (conns w) /\ RingBuffer_ok q /\
    files w' = files w /\
    sent_to r w' ++ contents q = sent_to r w ++ contents (sendBuf c) ++ ack_bytes ack /\
    forall r', r' <> r -> sent_to r' w' = sent_to r' w.
Proof.
  intros Hc Hr Hq. unfold EnqueueAck.
  rewrite (bind_run _ _ _ _ _ (upd_conn_run _ _ _ _ Hc)).
  set (c1 := with_sendBuf _ c). set (w1 := set_conns _ w).
  destruct (TryArmWrite_spec r c1 w1) as (q & w' & Hrun & Hconn & Hok & Hf & Hout & Hoth).
  - unfold w1; cbn. by rewrite lookup_insert_eq.
  - done.
  - unfold c1; cbn. by apply WriteFrom_ok, WriteFrom_ok.
  - exists q, w'. split_and!; [done| |done|done| |done].
    + rewrite Hconn. unfold w1; cbn. by rewrite insert_insert_eq.
    + rewrite Hout. unfold w1, c1, ack_bytes, Append; cbn [sendBuf with_sendBuf].
      rewrite WriteFrom_contents, WriteFrom_contents by (done || by apply WriteFrom_ok).
      change (sent_to r (set_conns _ w)) with (sent_to r w). by rewrite <- app_assoc.
Qed.

(** ** Steps of a session *)

Section session.
Context `{Library} (disks : gmap Z BackingFile).
Context (r : Z) (out0 : list Z) (w0 : World).
Abbreviation live := (Live r out0 w0).
Abbreviation dead := (Dead r out0 w0).

Lemma live_ack s rest w a :
  live s rest w ->
  exists w', EnqueueAck r a w = (Ret (), w') /\ live (add_ack a s) rest w'.
Proof.
  intros (c & Hc & (Hr & Hrb & Hby & Hsb) & Hrest & Hs & Hout & Ho).
  destruct (EnqueueAck_spec r c w a Hc Hr Hsb) as (q & w' & Hrun & Hconn & Hq & Hf & Hout' & Hoth).
  exists w'. split; [done|]. exists (with_sendBuf q c).
  rewrite Hconn, lookup_insert_eq, Hf.
  split_and!; try done.
  - unfold output in *. cbn [sendBuf with_sendBuf s_acks add_ack].
    rewrite Hout', map_app, concat_app, app_assoc, Hout. cbn [map concat].
    by rewrite app_nil_r, app_assoc.
  - intros r' Hne. rewrite Hconn, lookup_insert_ne, Hoth by done. by apply Ho.
Qed.

Lemma live_close s rest w :
  live s rest w -> exists w', CloseRef r w = (Ret (), w') /\ dead s w'.
Proof.
  intros (c & Hc & (Hr & Hrb & Hby & Hsb) & Hrest & Hs & Hout & Ho).
  destruct (CloseRef_run r w c Hc Hr) as (w' & Hrun & Hconn & Hf & Hsent).
  exists w'. split; [done|]. split_and!.
  - by rewrite Hconn, lookup_delete_eq.
  - rewrite Hf. apply Hs.
  - exists (contents (sendBuf c)). unfold sent_to. rewrite Hsent. symmetry. exact Hout.
  - intros r' Hne. unfold sent_to. rewrite Hconn, lookup_delete_ne, Hsent by done. by apply Ho.
Qed.

(** An update of the connection that keeps its buffers. *)
Lemma live_update s rest w s' fs f :
  live s rest w -> s_acks s' = s_acks s ->
  (forall c, c_fd (f c) = c_fd c /\ recvBuf (f c) = recvBuf c /\ sendBuf (f c) = sendBuf c) ->
  (forall c, same_session c (files w) s -> same_session (f c) fs s') ->
  exists w', upd_conn r f (set_files fs w) = (Ret (), w') /\ live s' rest w'.
Proof.
  intros (c & Hc & (Hr & Hrb & Hby & Hsb) & Hrest & Hs & Hout & Ho) Ha Hf Hs'.
  eexists. split; [by apply upd_conn_run|]. exists (f c).
  destruct (Hf c) as (E1 & E2 & E3). unfold Conn_ok, output. rewrite E1, E2, E3, Ha.
  split_and!; try done.
  - cbn. by rewrite lookup_insert_eq.
  - by apply Hs'.
  - intros r' Hne. cbn. rewrite lookup_insert_ne by done. by apply Ho.
Qed.

Lemma live_conn s rest w :
  live s rest w -> exists c, conns w !! r = Some c /\ c_fd c = r /\ helloDone c = s_hello s.
Proof. intros (c & Hc & (Hr & _) & _ & (Hh & _) & _). by exists c. Qed.

(** Runs an acknowledgement, or an acknowledgement followed by closing. *)
Lemma ack_close s rest w a :
  live s rest w ->
  exists w', (EnqueueAck r a ≫= fun _ => CloseRef r) w = (Ret (), w') /\ dead (add_ack a s) w'.
Proof.
  intros HL. destruct (live_ack s rest w a HL) as (w1 & Hrun & HL1).
  rewrite (bind_run _ _ _ _ _ Hrun). by eapply live_close.
Qed.

Definition served (s : Session) (closed : bool) (rest : list Z) (w : World) : Prop :=
  if closed then dead s w else live s rest w.

Lemma hello_refines s rest w hdr body :
  live s rest w -> zlen body = HELLO_BODY_SIZE ->
  exists w', HandleHello disks r hdr body w = (Ret (), w') /\
    served (serve_hello disks (dec_HelloBody body) s).1
           (serve_hello disks (dec_HelloBody body) s).2 rest w'.
Proof.
  intros HL Hlen. destruct (live_conn _ _ _ HL) as (c & Hc & Hr & Hh).
  unfold HandleHello, serve_hello, Get. step_conn Hc. rewrite Hh.
  destruct (s_hello s); [by exists w|]. test_false (zlen body <? HELLO_BODY_SIZE).
  destruct (disks !! _) as [bf|]; [|by eapply ack_close].
  destruct (_ <? _); [by eapply ack_close|].
  destruct (live_update s rest w
    {| s_hello := true; s_devno := hb_DevNo (dec_HelloBody body); s_blocks := s_blocks s;
       s_bytes := s_bytes s; s_errors := s_errors s; s_files := s_files s; s_acks := s_acks s |}
    (files w) (with_session (hb_DevNo (dec_HelloBody body)) true) HL)
    as (w1 & Hrun & HL1); [done|done|by intros c' (?&?&?&?&?&?)|].
  replace (set_files (files w) w) with w in Hrun by (by destruct w).
  rewrite (bind_run _ _ _ _ _ Hrun).
  destruct (live_ack _ _ _ (plain_ack (hb_DevNo (dec_HelloBody body)) OK) HL1)
    as (w2 & Hrun2 & HL2).
  rewrite (bind_run _ _ _ _ _ Hrun2).
  destruct (live_conn _ _ _ HL2) as (c2 & Hc2 & _). step_conn Hc2. by exists w2.
Qed.

Lemma block_refines s rest w hdr body :
  live s rest w -> body_len_ok DATA_BLOCK body -> bytes_ok body ->
  exists w', HandleDataBlock disks r hdr body w = (Ret (), w') /\
    served (serve_block disks (mh_DevNo hdr) body s).1
           (serve_block disks (mh_DevNo hdr) body s).2 rest w'.
Proof.
  intros HL (Hl1 & Hl2 & Hl3) Hb. destruct (live_conn _ _ _ HL) as (c & Hc & Hr & Hh).
  unfold HandleDataBlock, serve_block. step_conn Hc. rewrite Hh.
  destruct (s_hello s) eqn:Es; cbn [negb]; [|by eapply live_close].
  rewrite Hl2. unfold BLOCK_HEADER_SIZE, BLOCK_SIZE in *. cbn [Z.to_nat Z.mul] in *.
  test_false (zlen body <? 52). rewrite wrap_small by (unfold in_width; lia).
  test_false (zlen body <? 52 + (zlen body - 52)).
  change (Z.to_nat 52) with 52%nat.
  assert (files w = s_files s) as -> by (by destruct HL as (?&?&?&?&(?&?&?&?&?&?)&?)).
  destruct (Process_total disks (mh_DevNo hdr) (dec_BlockHeader body) (drop 52 body)
    (s_files s)) as (st & ack & fs & Hp); [rewrite Hl2; len_solve|].
  rewrite Hp.
  destruct (live_update s rest w
    {| s_hello := true; s_devno := s_devno s; s_blocks := u64 (s_blocks s + 1);
       s_bytes := if decide (st = OK) then u64 (s_bytes s + bh_DataSize (dec_BlockHeader body))
                  else s_bytes s;
       s_errors := if decide (st = OK) then s_errors s else u64 (s_errors s + 1);
       s_files := fs; s_acks := s_acks s |}
    fs (count_block st (bh_DataSize (dec_BlockHeader body))) HL)
    as (w1 & Hrun & HL1); [done|done| |].
  { unfold same_session, count_block; cbn. intros c' (-> & -> & -> & -> & -> & _).
    rewrite Es. by destruct (decide _). }
  rewrite (bind_run _ _ _ _ _ Hrun). by apply live_ack.
Qed.

Lemma dispatch_refines s rest w m :
  live s rest w -> msg_wf m ->
  exists w', dispatch disks r m w = (Ret (), w') /\
    served (serve_one disks m s).1 (serve_one disks m s).2 rest w'.
Proof.
  intros HL (_ & _ & Hb & t & Ht & Hlen). unfold dispatch, serve_one. rewrite Ht.
  destruct t; cbn in Hlen.
  - by apply block_refines.
  - by exists w.
  - by apply hello_refines.
  - destruct (live_conn _ _ _ HL) as (c & Hc & _). unfold HandleBye. step_conn Hc.
    by eapply ack_close.
  - by exists w.
Qed.

Lemma live_consume s rest w n :
  live s rest w -> 0 <= n ->
  exists w', consume_recv r n w = (Ret (), w') /\ live s (drop (Z.to_nat n) rest) w'.
Proof.
  intros (c & Hc & (Hr & Hrb & Hby & Hsb) & Hrest & Hs & Hout & Ho) Hn.
  eexists. split; [by apply upd_conn_run|].
  exists (with_recvBuf (Compact (Consume n (recvBuf c))) c). split_and!; try done.
  - cbn. by rewrite lookup_insert_eq.
  - unfold Conn_ok; cbn [c_fd recvBuf sendBuf with_recvBuf]. split_and!; auto with cbt.
  - cbn [recvBuf with_recvBuf]. rewrite Compact_contents by auto with cbt.
    by rewrite Consume_contents, Hrest by done.
  - intros r' Hne. cbn. rewrite lookup_insert_ne by done. by apply Ho.
Qed.

Lemma live_bytes s rest w : live s rest w -> bytes_ok rest.
Proof. intros (c & _ & (_ & _ & Hby & _) & <- & _). by apply bytes_ok_sub. Qed.

(** The parse the loop makes, as a step of the stream. *)
Lemma live_parse s rest w :
  live s rest w ->
  exists c, conns w !! r = Some c /\
    TryParse (recvBuf c) no_msg = TryParse_at (zlen rest) rest no_msg.
Proof.
  intros (c & Hc & (_ & Hrb & Hby & _) & <- & _). exists c. split; [done|].
  by apply TryParse_contents.
Qed.

Definition run_result (closed : bool) : Res unit := if closed then Undefined else Ret ().

Lemma process_refines fuel s rest w :
  live s rest w -> (length rest < fuel)%nat ->
  exists w', process_loop disks fuel r w
             = (run_result (serve disks (stream rest).1.1 s).2, w') /\
    served (serve disks (stream rest).1.1 s).1
           ((serve disks (stream rest).1.1 s).2 || (stream rest).2)
           (stream rest).1.2 w'.
Proof.
  revert s rest w. induction fuel as [|fuel IH]; intros s rest w HL Hf; [lia|].
  pose proof (live_bytes _ _ _ HL) as Hb. cbn [process_loop].
  destruct (live_parse _ _ _ HL) as (c & Hc & Hp). step_conn Hc. rewrite Hp.
  rewrite (stream_unfold rest Hb). unfold frame_step.
  pose proof (frame_step_Message rest) as HM. pose proof (frame_step_Skip_pos rest) as HS.
  unfold frame_step in HM, HS.
  destruct (TryParse_at (zlen rest) rest no_msg) as [[[] m] d] eqn:Ep.
  - by exists w.
  - destruct (HM m Hb eq_refl) as (_ & Hlen & Hwf). unfold msg_total, HEADER_SIZE in *.
    destruct (dispatch_refines s rest w m HL Hwf) as (w1 & Hrun & Hserved).
    rewrite (bind_run _ _ _ _ _ Hrun). destruct (stream _) as [[ms left] over] eqn:Est.
    cbn [fst snd serve]. destruct (serve_one disks m s) as [s1 []]; cbn [fst snd served] in *.
    { destruct Hserved as (Hd & Hrest). exists w1. split; [|by split].
      by apply bind_undefined, get_conn_dead. }
    destruct (live_conn _ _ _ Hserved) as (c1 & Hc1 & Hr1 & _). step_conn Hc1.
    erewrite bind_run by reflexivity. rewrite Hr1, Hc1. cbn [bool_decide].
    destruct (live_consume _ _ _ (16 + zlen (pm_body m)) Hserved) as (w2 & Hrun2 & HL2);
      [lia|]. rewrite (bool_decide_eq_true_2 (is_Some (Some c1))) by done.
    rewrite (bind_run _ _ _ _ _ Hrun2).
    destruct (IH _ _ _ HL2) as (w3 & Hrun3 & Hs3); [len_solve|].
    rewrite Est in Hrun3, Hs3. by exists w3.
  - destruct (live_consume _ _ _ 1 HL) as (w1 & Hrun & HL1); [lia|].
    rewrite (bind_run _ _ _ _ _ Hrun). apply IH; [done|].
    specialize (HS eq_refl). unfold HEADER_SIZE in HS. len_solve.
  - destruct (live_consume _ _ _ 1 HL) as (w1 & Hrun & HL1); [lia|].
    rewrite (bind_run _ _ _ _ _ Hrun). apply IH; [done|].
    specialize (HS eq_refl). unfold HEADER_SIZE in HS. len_solve.
  - by eapply live_close.
Qed.
End session.
End sends.

(** ** The properties *)

(** C4: refinement.  [ProcessMessages] on a connection whose peer keeps
    reading terminates and does what the abstract session does with the
    messages contained in the receive buffer: the files, the handshake state,
    the counters and the acknowledgements (the ones already sent followed by
    the ones queued) are those of the session, unparsed bytes stay in the
    buffer, no other connection changes and nothing is sent to one.  When the session closes, or an
    oversize block stops the stream, the connection is gone; a session that
    closes itself (BYE, a rejected HELLO, data before HELLO) is [Undefined]
    at that point: the loop goes on to read [c.fd] of the destroyed object. *)
Theorem ProcessMessages_refines_session `{KernelLaws} `{Library} disks r c w :
  send_soft -> conns w !! r = Some c -> Conn_ok r c ->
  let '(ms, rest, over) := stream (contents (recvBuf c)) in
  let '(s, closed) := serve disks ms (session_of c (files w)) in
  exists w', ProcessMessages disks r w = (if closed then Undefined else Ret (), w') /\
    if closed || over then Dead r (output r c w) w s w'
    else Live r (output r c w) w s rest w'.
Proof.
  intros soft Hc Hok.
  assert (Live r (output r c w) w (session_of c (files w)) (contents (recvBuf c)) w) as HL.
  { exists c. split_and!; try done. cbn. by rewrite app_nil_r. }
  destruct (process_refines soft disks r (output r c w) w
    (S (Z.to_nat (ReadableBytes (recvBuf c)))) _ _ _ HL) as (w' & Hrun & Hs).
  { pose proof (contents_length (recvBuf c) (proj1 (proj2 Hok))). lia. }
  destruct (stream _) as [[ms rest] over]; cbn [fst snd] in *.
  destruct (serve _ _ _) as [s closed]; cbn [fst snd] in *.
  exists w'. split; [|done]. unfold ProcessMessages. by step_conn Hc.
Qed.

(** ** An example run: HELLO and one block, sent at once *)

Definition demo_kernel : Kernel := {|
  os_recv _ _ _ := RecvError EAGAIN;
  os_send t _ d := SendN (zlen d);
  os_accept _ := None |}.

Lemma demo_kernel_laws : @KernelLaws demo_kernel.
Proof.
  constructor; cbn.
  - intros t fd len d. done.
  - intros t fd d n [= <-]. lia.
  - done.
Qed.

Lemma demo_kernel_soft : @send_soft demo_kernel.
Proof.
  intros t fd d Hd. left. exists (zlen d). split; [done|].
  destruct d; [done|]. cbn. lia.
Qed.

Definition demo_header (t : MessageType) : MsgHeader :=
  {| mh_Magic := PROTOCOL_MAGIC; mh_Type := MessageType_to_Z t; mh_DevNo := 7;
     mh_Reserved := 0 |}.
Definition demo_hello : ParsedMessage :=
  {| pm_header := demo_header HELLO;
     pm_body := enc_HelloBody {| hb_VersionId := 1; hb_DevNo := 7; hb_TotalBlocks := 1;
                                 hb_TotalSize := 4; hb_VersionType := zeros 64 |} |}.
Definition demo_data : ParsedMessage :=
  {| pm_header := demo_header DATA_BLOCK;
     pm_body := enc_BlockHeader (demo_block 0 [9; 8; 7]) ++ [9; 8; 7] |}.

Definition demo_conn (input : list Z) : Conn :=
  {| c_fd := 5; c_devno := 0; helloDone := false;
     recvBuf := {| rb_buf := input; read_pos := 0; write_pos := zlen input |};
     sendBuf := RingBuffer_new 16; blocksReceived := 0; bytesWritten := 0; errors := 0 |}.
Definition demo_world (input : list Z) : World :=
  {| conns := {[ 5 := demo_conn input ]}; files := demo_files; sent := []; epoll := {[ 5 := 8193 ]};
     sockets := {[ 5 ]}; clock := 0; running := true; listenFd := 3; epollFd := 4 |}.

Lemma demo_conn_ok input : bytes_ok input -> Conn_ok 5 (demo_conn input).
Proof.
  intros H. split_and!; [done|unfold RingBuffer_ok; cbn; lia|done|].
  apply RingBuffer_new_ok. lia.
Qed.

Definition demo_input : list Z := msg_bytes demo_hello ++ msg_bytes demo_data ++ [67; 50].

Lemma ProcessMessages_refines_session_witness :
  exists w', @ProcessMessages demo_kernel demo_library demo_disks 5 (demo_world demo_input)
             = (Ret (), w') /\ files w' = {[ 3 := [9; 8; 7; 4] ]}.
Proof.
  pose proof (@ProcessMessages_refines_session demo_kernel demo_kernel_laws demo_library
    demo_disks 5 (demo_conn demo_input) (demo_world demo_input) demo_kernel_soft) as H.
  assert (stream (contents (recvBuf (demo_conn demo_input)))
          = ([demo_hello; demo_data], [67; 50], false)) as Es by (vm_compute; reflexivity).
  rewrite Es in H.
  assert (@serve demo_library demo_disks [demo_hello; demo_data]
            (session_of (demo_conn demo_input) (files (demo_world demo_input)))
          = ({| s_hello := true; s_devno := 7; s_blocks := 1; s_bytes := 3; s_errors := 0;
                s_files := {[ 3 := [9; 8; 7; 4] ]};
                s_acks := [plain_ack 7 OK;
                           with_status (init_ack 7 (demo_block 0 [9; 8; 7])) OK] |}, false))
    as Ev by (vm_compute; reflexivity).
  rewrite Ev in H. destruct H as (w' & Hrun & HL).
  - reflexivity.
  - apply demo_conn_ok. apply (bool_decide_unpack _). vm_compute. exact I.
  - exists w'. split; [exact Hrun|].
    destruct HL as (c & _ & _ & _ & (_ & _ & _ & _ & _ & Hf) & _). exact Hf.
Defined.

(** use after free.  Whenever the next message in the buffer is a BYE,
    or a block on a connection that has not been greeted, the connection is
    destroyed and [ProcessMessages] then reads through the dangling
    reference. *)
Theorem closing_message_uses_destroyed_connection `{KernelLaws} `{Library} disks r c w m t :
  send_soft -> conns w !! r = Some c -> Conn_ok r c ->
  frame_step (contents (recvBuf c)) = Message m ->
  MessageType_of_Z (mh_Type (pm_header m)) = Some t ->
  t = BYE \/ (t = DATA_BLOCK /\ helloDone c = false) ->
  exists w', ProcessMessages disks r w = (Undefined, w') /\ conns w' !! r = None.
Proof.
  intros soft Hc Hok Hm Ht Hcase.
  assert (Live r (output r c w) w (session_of c (files w)) (contents (recvBuf c)) w) as HL.
  { exists c. split_and!; try done. cbn. by rewrite app_nil_r. }
  destruct (process_refines soft disks r (output r c w) w
    (S (Z.to_nat (ReadableBytes (recvBuf c)))) _ _ _ HL) as (w' & Hrun & Hs).
  { pose proof (contents_length (recvBuf c) (proj1 (proj2 Hok))). lia. }
  rewrite stream_unfold, Hm in Hrun, Hs by by eapply live_bytes.
  destruct (stream _) as [[ms rest] over]. cbn [fst snd serve] in *. unfold serve_one in *.
  rewrite Ht in *. exists w'.
  destruct Hcase as [->|[-> Hh]]; cbn [serve fst snd orb served] in *.
  - split; [unfold ProcessMessages; by step_conn Hc|by destruct Hs].
  - unfold serve_block in *. cbn [s_hello session_of] in *. rewrite Hh in *. cbn [negb fst snd orb] in *.
    split; [unfold ProcessMessages; by step_conn Hc|by destruct Hs].
Qed.

Lemma closing_message_uses_destroyed_connection_witness :
  let w := demo_world (msg_bytes bye_msg) in
  exists w', @ProcessMessages demo_kernel demo_library demo_disks 5 w = (Undefined, w') /\
    conns w' !! 5 = None.
Proof.
  apply (@closing_message_uses_destroyed_connection demo_kernel demo_kernel_laws demo_library
    demo_disks 5 (demo_conn (msg_bytes bye_msg)) (demo_world (msg_bytes bye_msg)) bye_msg BYE).
  - apply demo_kernel_soft.
  - reflexivity.
  - apply demo_conn_ok. apply (bool_decide_unpack _). vm_compute. exact I.
  - vm_compute. reflexivity.
  - reflexivity.
  - by left.
Defined.
