(* ===== verification/ServerInv.v ===== *)
(** * Invariants of the server

    What holds after every event, whatever the kernel answers and whatever
    bytes the peers send: a small Hoare logic for the handlers, and with it
    the well-formedness of the connection table, the isolation of the
    backing files and the termination of the loops. *)

From S2P Require Import Prelude Protocol RingBuffer MessageParser DiskMap BlockProcessor.
From S2P Require Import Server ServerSpec.

(** ** Triples

    [triple T U I P m Q]: from a state with [I] and [P], the computation [m]
    ends in a state with [I], and with [Q] of its result when it returns; where
    it is undefined [U] holds, and it runs out of fuel only if [T]. *)
Definition triple (T : Prop) (U I P : World -> Prop) {A} (m : M A) (Q : A -> World -> Prop)
    : Prop :=
  forall w, I w -> P w ->
    let '(res, w') := m w in
    I w' /\ match res with Ret a => Q a w' | Undefined => U w' | OutOfFuel => T end.

Abbreviation any := (fun _ => True).

Section triples.
Context (T : Prop) (U I : World -> Prop).

Lemma triple_ret {A} (a : A) (P : World -> Prop) (Q : A -> World -> Prop) :
  (forall w, I w -> P w -> Q a w) -> triple T U I P (mret a) Q.
Proof. intros H w HI HP. split; [done|]. by apply H. Qed.

Lemma triple_bind {A B} (m : M A) (f : A -> M B) P Q R :
  triple T U I P m Q -> (forall a, triple T U I (Q a) (f a) R) -> triple T U I P (m ≫= f) R.
Proof.
  intros Hm Hf w HI HP. specialize (Hm w HI HP). unfold mbind, M_bind.
  destruct (m w) as [[a| |] w'], Hm as [HI' HQ]; [|done|done].
  by apply (Hf a w' HI' HQ).
Qed.

Lemma triple_weaken {A} (m : M A) P P' Q Q' :
  triple T U I P m Q -> (forall w, I w -> P' w -> P w) ->
  (forall a w, I w -> Q a w -> Q' a w) -> triple T U I P' m Q'.
Proof.
  intros Hm HP HQ w HI HP'. specialize (Hm w HI (HP w HI HP')).
  destruct (m w) as [[a| |] w'], Hm as [HI' H]; split; auto.
Qed.

Lemma triple_modify f P (Q : unit -> World -> Prop) :
  (forall w, I w -> P w -> I (f w) /\ Q () (f w)) -> triple T U I P (modify f) Q.
Proof. intros H w HI HP. by apply H. Qed.

Lemma triple_get r (P : World -> Prop) :
  (forall w, P w -> conns w !! r = None -> U w) ->
  triple T U I P (get_conn r) (fun c w => P w /\ conns w !! r = Some c).
Proof.
  intros HU w HI HP. unfold get_conn. destruct (conns w !! r) eqn:E; split; auto.
Qed.

Lemma triple_exists fd P :
  triple T U I P (conn_exists fd) (fun b w => P w /\ b = bool_decide (is_Some (conns w !! fd))).
Proof. intros w HI HP. by split. Qed.

Lemma triple_upd r f (P : World -> Prop) (Q : unit -> World -> Prop) :
  (forall w, P w -> conns w !! r = None -> U w) ->
  (forall w c, I w -> P w -> conns w !! r = Some c ->
    let w' := set_conns (<[r := f c]>) w in I w' /\ Q () w') ->
  triple T U I P (upd_conn r f) Q.
Proof.
  intros HU H. eapply triple_bind; [by apply triple_get|]. intros c.
  apply triple_modify. intros w HI [HP Hc]. by apply H.
Qed.
End triples.

(** ** The invariant *)

Definition Files_ok (disks : gmap Z BackingFile) (fs0 fs : Files) : Prop :=
  disks_match disks fs /\
  (forall fd, length <$> (fs !! fd) = length <$> (fs0 !! fd)) /\
  (forall fd, (forall d bf, disks !! d = Some bf -> bf_fd bf <> fd) -> fs !! fd = fs0 !! fd).

Record Server_ok (disks : gmap Z BackingFile) (fs0 : Files) (w : World) : Prop := {
  ok_conn r c : conns w !! r = Some c -> Conn_ok r c;
  ok_files : Files_ok disks fs0 (files w);
  ok_sockets : sockets w = dom (conns w);
  ok_epoll : dom (conns w) ⊆ dom (epoll w);
  ok_fd r : r ∈ dom (conns w) -> 0 <= r }.

(** The unread bytes of connection [r], if it exists, are at most [n]. *)
Definition pending (r n : Z) (w : World) : Prop :=
  forall c, conns w !! r = Some c -> ReadableBytes (recvBuf c) <= n.

Definition Inv (disks : gmap Z BackingFile) (fs0 : Files) (r n : Z) (w : World) : Prop :=
  Server_ok disks fs0 w /\ pending r n w.

Lemma Files_ok_step disks fs0 fs fs' d :
  Files_ok disks fs0 fs -> disks_kept disks d fs fs' -> Files_ok disks fs0 fs'.
Proof.
  intros (H1 & H2 & H3) (K1 & _ & K3 & K4). split_and!; [done| |].
  - intros fd. by rewrite K3, H2.
  - intros fd Hfd. rewrite K4, H3; [done|done|]. intros bf Hbf. by eapply Hfd.
Qed.

(** Replacing a connection by one with the same descriptor and well-formed
    buffers. *)
Lemma Inv_insert disks fs0 r0 n w r c c' :
  Inv disks fs0 r0 n w -> conns w !! r = Some c -> Conn_ok r c' ->
  (r = r0 -> ReadableBytes (recvBuf c') <= n) ->
  Inv disks fs0 r0 n (set_conns (<[r := c']>) w).
Proof.
  intros [[H1 H2 H3 H4 H5] Hp] Hc Hok Hn. split.
  - assert (dom (<[r := c']> (conns w)) = dom (conns w)) as E.
    { rewrite dom_insert_L. apply elem_of_dom_2 in Hc. set_solver. }
    constructor; cbn; rewrite ?E; try done.
    intros r' c''. rewrite lookup_insert_Some. intros [[<- <-]|[_ ?]]; [done|by apply H1].
  - intros c''. cbn. rewrite lookup_insert_Some. intros [[-> <-]|[_ ?]]; [by apply Hn|by apply Hp].
Qed.

Section handlers.
Context `{KernelLaws} `{LibraryLaws}.
Context (disks : gmap Z BackingFile) (fs0 : Files) (T : Prop) (U : World -> Prop).
Abbreviation I r0 n0 := (Inv disks fs0 r0 n0).
Abbreviation hoare r0 n0 := (triple T U (I r0 n0)).

Definition alive (r : Z) (w : World) : Prop := is_Some (conns w !! r).

(** Reading a connection that is there. *)
Lemma hoare_get_alive r0 n0 r P :
  (forall w, P w -> alive r w) -> hoare r0 n0 P (get_conn r) (fun c w => P w /\ conns w !! r = Some c).
Proof. intros HP. apply triple_get. intros w [c Hc]%HP Hn. congruence. Qed.

Lemma Inv_conn r0 n0 w r c : I r0 n0 w -> conns w !! r = Some c -> Conn_ok r c.
Proof. intros [HI _]. apply HI. Qed.

Lemma hoare_close r0 n0 fd : hoare r0 n0 any (CloseConn fd) (fun _ => any).
Proof.
  intros w HI _. unfold CloseConn. destruct (conns w !! fd) eqn:E; [|done].
  split; [|done]. destruct HI as [[A1 A2 A3 A4 A5] Hp]. split.
  - constructor; cbn; [|done|by rewrite A3, dom_delete_L| |].
    + intros r c'. rewrite lookup_delete_Some. intros [_ ?]. by apply A1.
    + rewrite !dom_delete_L. set_solver.
    + intros r. rewrite dom_delete_L. intros Hr. apply A5. set_solver.
  - intros c'. cbn. rewrite lookup_delete_Some. intros [_ ?]. by apply Hp.
Qed.

Lemma hoare_close_alive r0 n0 r P :
  (forall w, P w -> alive r w) -> hoare r0 n0 P (CloseRef r) (fun _ => any).
Proof.
  intros HP. eapply triple_bind; [by apply hoare_get_alive|]. intros c.
  eapply triple_weaken; [apply hoare_close|done|done].
Qed.

(** Closing, then returning. *)
Lemma hoare_close_ret r0 n0 r P :
  (forall w, P w -> alive r w) ->
  hoare r0 n0 P (_ ← CloseRef r; mret false) (fun b w => b = true -> alive r w).
Proof. intros HP. eapply triple_bind; [by apply hoare_close_alive|]. intros []. by apply triple_ret. Qed.

Lemma hoare_epoll_mod r0 n0 fd e P :
  (forall w f, P w -> P (set_epoll f w)) -> hoare r0 n0 P (EpollMod fd e) (fun _ => P).
Proof.
  intros HP. apply triple_modify. intros w [[A1 A2 A3 A4] Hp] HPw. split; [|by apply HP].
  split; [|done]. constructor; cbn; try done. by rewrite dom_alter_L.
Qed.

(** Updates of a connection that do not touch its receive buffer. *)
Definition keeps_recv (f : Conn -> Conn) : Prop :=
  forall r c, Conn_ok r c -> Conn_ok r (f c) /\ recvBuf (f c) = recvBuf c.

Lemma hoare_upd r0 n0 r f P :
  (forall w, P w -> alive r w) ->
  keeps_recv f -> hoare r0 n0 P (upd_conn r f) (fun _ => alive r).
Proof.
  intros HP Hf. apply triple_upd; [intros w [c Hc]%HP Hn; congruence|]. intros w c HI _ Hc. split.
  2:{ unfold alive; cbn. by rewrite lookup_insert_eq. }
  destruct (Hf r c (Inv_conn _ _ _ _ _ HI Hc)) as [Hok Hr].
  apply (Inv_insert _ _ _ _ _ _ _ _ HI Hc Hok). intros ->. rewrite Hr. by apply HI.
Qed.

Lemma keeps_recv_session d h : keeps_recv (with_session d h).
Proof. by intros r c. Qed.
Lemma keeps_recv_count s d : keeps_recv (count_block s d).
Proof. by intros r c. Qed.
Lemma keeps_recv_append d1 d2 :
  keeps_recv (fun c => with_sendBuf (Append d2 (Append d1 (sendBuf c))) c).
Proof.
  intros r c (A1 & A2 & A3 & A4). split; [|done]. split_and!; try done.
  by apply WriteFrom_ok, WriteFrom_ok.
Qed.
Lemma keeps_recv_queue q : RingBuffer_ok q -> keeps_recv (with_sendBuf q).
Proof. intros Hq r c (A1 & A2 & A3 & A4). by split_and!. Qed.

Lemma hoare_send_call r0 n0 fd d (P : gmap Z Conn -> Prop) :
  hoare r0 n0 (fun w => P (conns w)) (send_call fd d)
    (fun res w => P (conns w) /\
       match res with SendN n => 0 <= n <= zlen d | SendErr _ => True end).
Proof.
  intros w [[A1 A2 A3 A4] Hp] HP. unfold send_call.
  pose proof (os_send_ok (clock w) fd d) as Hs. destruct (os_send _ _ _) as [n|e].
  - specialize (Hs n eq_refl). split; [|done]. by split; [constructor|].
  - split; [|done]. by split; [constructor|].
Qed.

(** The send loop: every turn takes at least one byte off the queue. *)
Lemma hoare_writable_loop r0 n0 fuel r :
  hoare r0 n0
    (fun w => exists c, conns w !! r = Some c /\ ReadableBytes (sendBuf c) < Z.of_nat fuel)
    (writable_loop fuel r) (fun b w => b = true -> alive r w).
Proof.
  induction fuel as [|fuel IH]; cbn [writable_loop].
  { intros w HI (c & Hc & Hlt). exfalso. apply (Inv_conn _ _ _ _ _ HI) in Hc as (_ & _ & _ & A).
    unfold RingBuffer_ok, ReadableBytes in *. lia. }
  eapply triple_bind; [apply hoare_get_alive; intros w (c & Hc & _); by exists c|]. intros c.
  case_if; [|apply triple_ret; intros w _ [_ Hc] _; by exists c].
  eapply triple_bind; [apply (hoare_send_call r0 n0 _ _
    (fun cs => (exists c0, cs !! r = Some c0 /\ ReadableBytes (sendBuf c0) < Z.of_nat (S fuel))
               /\ cs !! r = Some c))|]. intros [n|e].
  2:{ case_if; [by apply triple_ret|apply hoare_close_ret]. intros w [[_ Hc] _]. by exists c. }
  case_if; [|apply hoare_close_ret; intros w [[_ Hc] _]; by exists c].
  eapply triple_bind; [|intros ?; exact IH].
  apply triple_upd; [intros w [[_ Hc] _] Hn; congruence|]. intros w c1 HI [[(c' & Hc' & Hlt) Hc] Hn] Hc1.
  assert (c' = c) as -> by congruence. assert (c1 = c) as -> by congruence.
  pose proof (Inv_conn _ _ _ _ _ HI Hc) as Hok. pose proof Hok as (_ & _ & _ & Hq). split.
  - apply (Inv_insert _ _ _ _ _ _ _ _ HI Hc).
    + apply keeps_recv_queue; [apply Consume_ok; [done|lia]|done].
    + intros ->. cbn. by apply (proj2 HI).
  - eexists. cbn. rewrite lookup_insert_eq. split; [done|]. cbn.
    unfold Consume, ReadableBytes in *; cbn. case_if; lia.
Qed.

(** A connection that is there when the handler starts is not used after it is
    destroyed. *)
Lemma hoare_writable r0 n0 r : hoare r0 n0 (alive r) (HandleConnWritable r) (fun _ => any).
Proof.
  unfold HandleConnWritable. eapply triple_bind; [by apply hoare_get_alive|]. intros c.
  eapply triple_bind.
  { eapply triple_weaken; [apply hoare_writable_loop| |done].
    intros w HI [_ Hc]. exists c. split; [done|]. lia. }
  intros []; [|by apply triple_ret].
  eapply triple_bind; [apply hoare_get_alive; auto|]. intros c1.
  eapply triple_bind.
  { intros w HI [_ Hc]. pose proof (Inv_conn _ _ _ _ _ HI Hc) as (_ & _ & _ & Hq).
    eapply (hoare_upd r0 n0 r _ (alive r)); [done| |done|by exists c1]. by apply keeps_recv_queue, Compact_ok. }
  intros ?. eapply triple_bind; [by apply hoare_get_alive|]. intros c2.
  case_if; [|by apply triple_ret].
  eapply triple_weaken; [apply (hoare_epoll_mod r0 n0 _ _ any)|done|done]. done.
Qed.

Lemma hoare_ack r0 n0 r a P :
  (forall w, P w -> alive r w) -> hoare r0 n0 P (EnqueueAck r a) (fun _ => any).
Proof.
  intros HP. unfold EnqueueAck. eapply triple_bind; [apply hoare_upd; [done|apply keeps_recv_append]|]. intros ?.
  unfold TryArmWrite. eapply triple_bind; [by apply hoare_get_alive|]. intros c.
  case_if; [|by apply triple_ret].
  eapply triple_bind; [eapply triple_weaken; [apply (hoare_epoll_mod r0 n0 _ _ (alive r))|..]; [done|by intros w ? [? _]|done]|].
  intros ?. apply hoare_writable.
Qed.

(** *** The handlers of messages, which may destroy their own connection *)

Context (r : Z).
Hypothesis gone_U : forall w, conns w !! r = None -> U w.

Lemma hoare_get r0 n0 P : hoare r0 n0 P (get_conn r) (fun c w => P w /\ conns w !! r = Some c).
Proof. apply triple_get. auto. Qed.

Lemma hoare_close_ref r0 n0 : hoare r0 n0 any (CloseRef r) (fun _ => any).
Proof.
  eapply triple_bind; [apply hoare_get|]. intros c. eapply triple_weaken; [apply hoare_close|done|done].
Qed.

Lemma hoare_ack_close r0 n0 a P :
  (forall w, P w -> alive r w) -> hoare r0 n0 P (EnqueueAck r a ≫= fun _ => CloseRef r) (fun _ => any).
Proof. intros HP. eapply triple_bind; [by apply hoare_ack|]. intros ?. apply hoare_close_ref. Qed.

Lemma hoare_hello r0 n0 hdr body :
  hoare r0 n0 (alive r) (HandleHello disks r hdr body) (fun _ => any).
Proof.
  assert (forall c w, alive r w /\ conns w !! r = Some c -> alive r w) as Ha by tauto.
  unfold HandleHello. eapply triple_bind; [by apply hoare_get_alive|]. intros c.
  case_if; [by apply triple_ret|]. case_if; [by apply hoare_ack_close, Ha|].
  destruct (Get _ _) as [bf|]; [|by apply hoare_ack_close, Ha].
  case_if; [by apply hoare_ack_close, Ha|].
  eapply triple_bind; [apply hoare_upd; [apply Ha|apply keeps_recv_session]|]. intros ?.
  eapply triple_bind; [by apply hoare_ack|]. intros ?.
  eapply triple_bind; [apply hoare_get|]. intros ?. by apply triple_ret.
Qed.

Lemma hoare_data r0 n0 hdr body :
  bytes_ok body -> BLOCK_HEADER_SIZE + bh_CompressedSize (dec_BlockHeader body) = zlen body ->
  hoare r0 n0 (alive r) (HandleDataBlock disks r hdr body) (fun _ => any).
Proof.
  intros Hb Hl. unfold HandleDataBlock. eapply triple_bind; [by apply hoare_get_alive|]. intros c.
  case_if; [eapply triple_weaken; [apply hoare_close_ref|done|done]|].
  case_if; [by apply triple_ret|]. case_if; [by apply triple_ret|].
  intros w HI [Ha _]. destruct (rd_le_bound 12 4 body) as [Hcs _]; [done|done|].
  destruct (Process_total disks (mh_DevNo hdr) (dec_BlockHeader body) (drop (Z.to_nat BLOCK_HEADER_SIZE) body)
    (files w)) as (st & ack & fs & Hp).
  { split; [exact Hcs|]. unfold BLOCK_HEADER_SIZE in *. rewrite length_drop. lia. }
  rewrite Hp.
  assert (I r0 n0 (set_files fs w)) as HI'.
  { destruct HI as [[A1 A2 A3 A4] Hpd]. split; [constructor; try done|done].
    eapply Files_ok_step; [done|]. eapply Process_keeps_disks; [apply A2| |done].
    by apply (rd_le_bound 8 4). }
  refine ((_ : hoare r0 n0 (alive r) _ (fun _ => any)) _ HI' Ha).
  eapply triple_bind; [apply hoare_upd; [done|apply keeps_recv_count]|]. intros ?. by apply hoare_ack.
Qed.

Lemma hoare_dispatch r0 n0 m :
  msg_wf m -> hoare r0 n0 (alive r) (dispatch disks r m) (fun _ => any).
Proof.
  intros (_ & _ & Hb & t & Ht & Hl). unfold dispatch. rewrite Ht.
  destruct t; cbn [body_len_ok] in Hl; try by apply triple_ret.
  - apply hoare_data; [done|]. destruct Hl as (_ & Hl & _). lia.
  - apply hoare_hello.
  - unfold HandleBye. eapply triple_bind; [by apply hoare_get_alive|]. intros ?.
    apply hoare_ack_close. tauto.
Qed.

(** Consuming at least one byte lowers the bound on the unread ones. *)
Lemma Inv_consume n w c k :
  I r n w -> conns w !! r = Some c -> 1 <= k -> 1 <= n ->
  I r (n - 1) (set_conns (<[r := with_recvBuf (Compact (Consume k (recvBuf c))) c]>) w).
Proof.
  intros [HS Hp] Hc Hk Hn1. pose proof (Hp c Hc) as Hn.
  pose proof (ok_conn _ _ _ HS _ _ Hc) as (A1 & A2 & A3 & A4).
  assert (RingBuffer_ok (Consume k (recvBuf c))) as Hok by (apply Consume_ok; [done|lia]).
  assert (ReadableBytes (Compact (Consume k (recvBuf c))) <= n - 1) as Hb.
  { rewrite <- contents_length, Compact_contents, contents_length by auto with cbt.
    unfold Consume, ReadableBytes in *; cbn. case_if; lia. }
  destruct (Inv_insert disks fs0 r n w r c (with_recvBuf (Compact (Consume k (recvBuf c))) c))
    as [HS' _]; [done|done| |cbn; lia|].
  { split_and!; [done|by apply Compact_ok|by apply Compact_bytes_ok|done]. }
  split; [done|]. intros c'. cbn. rewrite lookup_insert_eq. by intros [= <-].
Qed.

(** The parse loop: every turn consumes at least one byte. *)
Lemma process_loop_inv fuel n w :
  I r n w -> alive r w -> n < Z.of_nat fuel ->
  let '(res, w') := process_loop disks fuel r w in
  Server_ok disks fs0 w' /\ (res = OutOfFuel -> T) /\ (res = Undefined -> U w').
Proof.
  revert n w. induction fuel as [|fuel IH]; intros n w HI [c Hc] Hn.
  { pose proof (proj2 HI c Hc). pose proof (Inv_conn _ _ _ _ _ HI Hc) as (_ & A & _).
    unfold RingBuffer_ok, ReadableBytes in *. lia. }
  cbn [process_loop]. step_conn Hc.
  pose proof (Inv_conn _ _ _ _ _ HI Hc) as (Hr & Hrb & Hby & Hsb).
  pose proof (TryParse_contents (recvBuf c) no_msg Hrb Hby) as Ep.
  assert (bytes_ok (contents (recvBuf c))) as Hcb by by apply bytes_ok_sub.
  pose proof (frame_step_Message (contents (recvBuf c))) as HM.
  pose proof (frame_step_Skip_pos (contents (recvBuf c))) as HS.
  unfold frame_step in HM, HS. rewrite <- Ep, contents_length in HM, HS by done.
  unfold HEADER_SIZE in *.
  assert (16 <= n -> forall k w1 c1, I r n w1 -> conns w1 !! r = Some c1 -> 1 <= k ->
    let '(res, w') := (_ ← consume_recv r k; process_loop disks fuel r) w1 in
    Server_ok disks fs0 w' /\ (res = OutOfFuel -> T) /\ (res = Undefined -> U w')) as Hnext.
  { intros Hn16 k w1 c1 HI1 Hc1 Hk. unfold consume_recv.
    rewrite (bind_run _ _ _ _ _ (upd_conn_run _ _ _ _ Hc1)).
    eapply (IH (n - 1)); [apply Inv_consume; [done|done|done|lia]| |lia].
    unfold alive; cbn. by rewrite lookup_insert_eq. }
  pose proof (proj2 HI c Hc) as Hcn.
  destruct (TryParse (recvBuf c) no_msg) as [[[] m] d].
  - split; [by apply HI|done].
  - destruct (HM m Hcb eq_refl) as (_ & Hlen & Hwf).
    pose proof (hoare_dispatch r n m Hwf w HI (ex_intro _ c Hc)) as Hd.
    destruct (dispatch disks r m w) as [[[]| |] w1] eqn:Ed, Hd as [HI1 HT];
      [rewrite (bind_run _ _ _ _ _ Ed)
      |rewrite (bind_undefined _ _ _ _ Ed); by split; [apply HI1|]
      |rewrite (bind_out_of_fuel _ _ _ _ Ed); by split; [apply HI1|]].
    destruct (conns w1 !! r) as [c1|] eqn:Hc1;
      [|rewrite (bind_undefined _ _ _ _ (get_conn_dead _ _ Hc1)); split; [apply HI1|split; [done|auto]]].
    step_conn Hc1. erewrite bind_run by reflexivity. case_if; [|by split; [apply HI1|done]].
    eapply Hnext; [lia|done|done|lia].
  - specialize (HS eq_refl). eapply Hnext; [lia|done|done|lia].
  - specialize (HS eq_refl). eapply Hnext; [lia|done|done|lia].
  - pose proof (hoare_close_ref r n w HI Logic.I) as Hd.
    destruct (CloseRef r w) as [[[]| |] w1], Hd as [HI1 HT]; split_and!; try done; apply HI1.
Qed.
End handlers.

(** ** Whole events *)

(** [ProcessMessages] went on with its connection after it had destroyed it. *)
Definition own_fault `{Kernel} `{Library} (disks : gmap Z BackingFile) (fs0 : Files) (r : Z) (w' : World) : Prop :=
  exists w, Server_ok disks fs0 w /\ alive r w /\ ProcessMessages disks r w = (Undefined, w') /\
    conns w' !! r = None.

Section events.
Context `{KernelLaws} `{LibraryLaws}.
Context (disks : gmap Z BackingFile) (fs0 : Files) (T : Prop).
Abbreviation S := (Server_ok disks fs0).
Abbreviation hoare U := (triple T U S).

(** A bound on the unread bytes of one connection always exists. *)
Lemma Inv_of_ok r w : S w ->
  Inv disks fs0 r (match conns w !! r with Some c => ReadableBytes (recvBuf c) | None => 0 end) w.
Proof. intros HS. split; [done|]. intros c Hc. rewrite Hc. lia. Qed.

Lemma lift_inv U {A} (m : M A) P Q :
  (forall r n, triple T U (Inv disks fs0 r n) P m Q) -> hoare U P m Q.
Proof.
  intros Hm w HS HP. specialize (Hm _ _ w (Inv_of_ok 0 w HS) HP).
  destruct (m w) as [res w'], Hm as [[HS' _] HQ]. by split.
Qed.

Lemma Server_ok_insert w r c c' :
  S w -> conns w !! r = Some c -> Conn_ok r c' -> S (set_conns (<[r := c']>) w).
Proof.
  intros HS Hc Hok. eapply (Inv_insert disks fs0 (r + 1)); [by apply Inv_of_ok|done|done|].
  lia.
Qed.

(** The only undefined results of [ProcessMessages] are faults of its own. *)
Lemma process_ok r : hoare (own_fault disks fs0 r) (alive r) (ProcessMessages disks r) (fun _ => any).
Proof.
  intros w HS Ha. pose proof Ha as [c Hc].
  assert (forall w', ProcessMessages disks r w = (Undefined, w') -> conns w' !! r = None ->
            own_fault disks fs0 r w') as Hfault by (intros w' E Hn; by exists w).
  revert Hfault. unfold ProcessMessages. step_conn Hc. intros Hfault.
  pose proof (process_loop_inv disks fs0 T (fun w => conns w !! r = None) r (fun _ Hn => Hn)
    (Datatypes.S (Z.to_nat (ReadableBytes (recvBuf c)))) _ w (Inv_of_ok r w HS) Ha) as Hp.
  rewrite Hc in Hp. specialize (Hp ltac:(lia)).
  destruct (process_loop _ _ _ _) as [[[]| |] w'], Hp as (HS' & HT & HU); split; auto.
Qed.

Lemma writable_ok U r : hoare U (alive r) (HandleConnWritable r) (fun _ => any).
Proof. apply lift_inv. intros. apply hoare_writable. Qed.

Lemma close_ok U fd P : hoare U P (CloseConn fd) (fun _ => any).
Proof. apply lift_inv. intros. eapply triple_weaken; [apply hoare_close|done|done]. Qed.

Lemma WriteFromFd_ok recv rb :
  RingBuffer_ok rb -> recv_ok recv -> RingBuffer_ok (WriteFromFd recv rb).2.
Proof.
  intros Hok Hr. destruct (decide (ReadableBytes rb = zlen (rb_buf rb))) as [E|E].
  - by rewrite WriteFromFd_full.
  - destruct (WriteFromFd_room recv rb Hok Hr) as (len & _ & Hw).
    { unfold RingBuffer_ok, ReadableBytes in *. lia. }
    destruct (WriteFromFd recv rb) as [x rb']. apply Hw.
Qed.

Lemma recv_ok_call U r : hoare U (alive r) (recv_call r) (fun _ => alive r).
Proof.
  eapply triple_bind; [apply triple_get; intros w [c Hc] Hn; congruence|]. intros c w HS [_ Hc]. unfold recv_on.
  pose proof (os_recv_ok (clock w) (c_fd c)) as Hr.
  destruct (ok_conn _ _ _ HS _ _ Hc) as (A1 & A2 & A3 & A4).
  pose proof (WriteFromFd_ok _ _ A2 Hr) as B1.
  pose proof (WriteFromFd_bytes_ok _ _ Hr A3) as B2.
  destruct (WriteFromFd _ _) as [res b]. split.
  - apply (Server_ok_insert (tick w) r c); [by destruct HS; constructor|done|]. by split_and!.
  - unfold alive; cbn. rewrite lookup_insert_eq. by eexists.
Qed.

Lemma readable_ok fuel r :
  T -> hoare (own_fault disks fs0 r) (alive r) (HandleConnReadable disks fuel r) (fun _ => any).
Proof.
  intros HT. unfold HandleConnReadable.
  eapply triple_bind; [apply triple_get; intros w [c Hc] Hn; congruence|]. intros c w HS [Ha Hc].
  destruct (ok_conn _ _ _ HS _ _ Hc) as (-> & _). revert w HS Ha Hc. cut (forall fuel,
    hoare (own_fault disks fs0 r) (alive r) (readable_loop disks fuel r r) (fun _ => any)).
  { intros Hl w HS Ha _. by apply (Hl fuel w HS). }
  clear fuel. induction fuel as [|fuel IH]; cbn [readable_loop]; [by intros w|].
  eapply triple_bind; [apply recv_ok_call|]. intros [d| |e].
  - eapply triple_bind; [apply process_ok|]. intros ?.
    eapply triple_bind; [apply triple_exists|]. intros b.
    destruct b; [|by apply triple_ret]. eapply triple_weaken; [apply IH| |done].
    intros w _ [_ Hb]. symmetry in Hb. by apply bool_decide_eq_true in Hb.
  - apply close_ok.
  - case_if; [apply process_ok|apply close_ok].
Qed.

(** A new connection: the table, the sockets and the interest set grow
    together. *)
Lemma accept_ok U fuel : T -> hoare U any (HandleAccept fuel) (fun _ => any).
Proof.
  intros HT. induction fuel as [|fuel IH]; cbn [HandleAccept]; [by intros w|].
  intros w HS _. destruct (os_accept (clock w)) as [fd|] eqn:Ea.
  2:{ split; [by destruct HS; constructor|done]. }
  erewrite bind_run by reflexivity. apply IH; [|done]. destruct HS as [A1 A2 A3 A4 A5].
  apply os_accept_ok in Ea.
  constructor; cbn.
  - intros r c. rewrite lookup_insert_Some. intros [[<- <-]|[_ ?]]; [|by apply A1].
    split_and!; [done| |apply zeros_ok|]; by apply RingBuffer_new_ok.
  - done.
  - by rewrite A3, dom_insert_L.
  - rewrite !dom_insert_L. set_solver.
  - intros r. rewrite dom_insert_L. intros [->%elem_of_singleton|?]%elem_of_union; [done|by apply A5].
Qed.

(** An event that is not for the listening socket. *)
Lemma event_ok fuel fd e :
  T -> hoare (fun w' => own_fault disks fs0 fd w') any (handle_event disks fuel fd e) (fun _ => any).
Proof.
  intros HT w HS _. unfold handle_event. case_if; [by apply accept_ok|].
  refine ((_ : hoare (own_fault disks fs0 fd) any _ (fun _ => any)) w HS Logic.I). clear w HS E.
  eapply triple_bind; [apply triple_exists|]. intros found.
  destruct found; [|by apply triple_ret].
  apply (triple_weaken _ _ _ _ (alive fd) _ (fun _ => any) _); [|intros w _ [_ Hb]|done].
  2:{ symmetry in Hb. by apply bool_decide_eq_true in Hb. }
  case_if.
  { unfold HandleConnError, CloseRef. eapply triple_bind; [apply triple_get; intros w [c Hc] Hn; congruence|].
    intros c. apply close_ok. }
  eapply triple_bind.
  { case_if; [by apply readable_ok|by apply (triple_ret _ _ _ _ _ (fun _ => any))]. }
  intros ?. eapply triple_bind; [apply triple_exists|]. intros b.
  destruct b; [|by apply triple_ret]. case_if; [|by apply triple_ret].
  eapply triple_weaken; [apply writable_ok| |done].
  intros w _ [_ Hb]. symmetry in Hb. by apply bool_decide_eq_true in Hb.
Qed.

(** An event of a connection that is gone does nothing. *)
Lemma event_gone fuel fd e w w' :
  T -> S w -> handle_event disks fuel fd e w = (Undefined, w') -> alive fd w.
Proof.
  intros HT HS. unfold handle_event. case_if.
  - pose proof (accept_ok (fun _ => False) fuel HT w HS Logic.I) as Ha. intros E1. rewrite E1 in Ha. by destruct Ha.
  - unfold mbind at 1, M_bind, conn_exists. case_bool_decide; done.
Qed.

(** What ends a run, when its faults are not survived. *)
Definition fault_of (resumed : bool) (w' : World) : Prop := resumed = false /\ exists r, own_fault disks fs0 r w'.

Lemma survive_ok resumed fuel fd e :
  T -> hoare (fault_of resumed) any (survive resumed fd (handle_event disks fuel fd e)) (fun _ => any).
Proof.
  intros HT w HS _. unfold survive. pose proof (event_ok fuel fd e HT w HS Logic.I) as He.
  destruct (handle_event disks fuel fd e w) as [[[]| |] w'] eqn:E, He as [HS' HU]; [by split| |by split].
  apply event_gone in E; [|done|done]. pose proof HU as (w1 & _ & _ & _ & Hn).
  rewrite (bool_decide_eq_true_2 (is_Some (conns w !! fd))), (bool_decide_eq_true_2 (conns w' !! fd = None)), !andb_true_r by done.
  destruct resumed; [by split|]. split; [done|]. split; [done|]. by exists fd.
Qed.

Lemma Run_ok resumed fuel batches :
  T -> hoare (fault_of resumed) any (Run disks resumed fuel batches) (fun _ => any).
Proof.
  intros HT. induction batches as [|b batches IH]; intros w HS _; cbn [Run]; [done|].
  case_if; [done|]. destruct b as [evs|]; [|done].
  refine (triple_bind T _ S _ _ any (fun _ => any) _ _ (fun _ => IH) w HS Logic.I).
  induction evs as [|[fd e] evs IHe]; cbn [handle_events]; [by apply triple_ret|].
  eapply triple_bind; [by apply survive_ok|]. intros ?. apply IHe.
Qed.
End events.

(** ** The properties *)


Lemma demo_world_ok input :
  bytes_ok input -> Server_ok demo_disks demo_files (demo_world input).
Proof.
  intros Hb. constructor; cbn.
  - intros r c. rewrite lookup_singleton_Some. intros [<- <-]. by apply demo_conn_ok.
  - split_and!; [apply demo_disks_match|done|done].
  - by rewrite dom_singleton_L.
  - by rewrite !dom_singleton_L.
  - intros r. rewrite dom_singleton_L, elem_of_singleton. lia.
Qed.

(** A greeting and a farewell with room for more behind them, then events for
    the connection that is gone and for a descriptor that never was. *)
Definition leaving_input : list Z :=
  msg_bytes demo_hello ++ msg_bytes {| pm_header := demo_header BYE; pm_body := [] |}.
Definition leaving_conn : Conn :=
  with_recvBuf {| rb_buf := leaving_input ++ zeros 16; read_pos := 0; write_pos := zlen leaving_input |} (demo_conn []).
Definition leaving_world : World := set_conns (fun _ => {[ 5 := leaving_conn ]}) (demo_world []).
Definition stale_events : list (option (list (Z * Z))) :=
  [Some [(5, EPOLLIN); (5, EPOLLOUT); (9, EPOLLIN)]; Some [(5, EPOLLIN)]].

Lemma leaving_world_ok : Server_ok demo_disks demo_files leaving_world.
Proof.
  destruct (demo_world_ok [] (Forall_nil_2 _)) as [A1 A2 A3 A4 A5]. constructor; try done.
  intros r c. cbn. rewrite lookup_singleton_Some. intros [<- <-].
  split_and!; [done|by split_and!|apply (bool_decide_unpack _); vm_compute; exact Logic.I|].
  apply RingBuffer_new_ok. lia.
Qed.


(** C20: termination.  On every connection of a consistent server the parse
    loop of [ProcessMessages] and the send loop of [HandleConnWritable] end
    within the fuel the model gives them (the bytes that are queued), for
    every answer of the kernel: each turn of either consumes at least one
    byte. *)
Theorem handlers_terminate `{KernelLaws} `{LibraryLaws} disks fs0 r w :
  Server_ok disks fs0 w ->
  (ProcessMessages disks r w).1 <> OutOfFuel /\ (HandleConnWritable r w).1 <> OutOfFuel.
Proof.
  intros HS. destruct (conns w !! r) as [c|] eqn:Hc.
  - pose proof (process_ok disks fs0 False r w HS (ex_intro _ c Hc)) as Hp.
    pose proof (writable_ok disks fs0 False any r w HS (ex_intro _ c Hc)) as Hw.
    destruct (ProcessMessages disks r w) as [[[]| |] w1], (HandleConnWritable r w) as [[[]| |] w2];
      by destruct Hp, Hw.
  - unfold ProcessMessages, HandleConnWritable. by rewrite !(bind_undefined _ _ _ _ (get_conn_dead _ _ Hc)).
Qed.

Lemma handlers_terminate_witness :
  (@ProcessMessages demo_kernel demo_library demo_disks 5 (demo_world demo_input)).1 <> OutOfFuel.
Proof.
  apply (@handlers_terminate demo_kernel demo_kernel_laws demo_library demo_library_laws
    demo_disks demo_files 5 (demo_world demo_input)).
  apply demo_world_ok. apply (bool_decide_unpack _). vm_compute. exact Logic.I.
Defined.
