(* ===== verification/NetworkClient.v ===== *)
(** * The backup client's connection

    [client/NetworkClient.{h,cpp}]: messages are sent with a loop around
    [send] and received with a loop around [recv].  The socket is an
    interface: a state with the bytes still to be received and the bytes
    accepted so far, of which only the documented behaviour is used. *)

From S2P Require Import Prelude Protocol RingBuffer MessageParser.

(** ** The socket interface *)

Inductive SendAnswer := Sent (n : Z) | SendFailed.

Class Socket (Net : Type) := {
  sock_send : list Z -> Net -> SendAnswer * Net;
  sock_recv : Z -> Net -> RecvResult * Net;
  incoming : Net -> list Z;
  outgoing : Net -> list Z;
}.

(** A blocking stream socket: [send] of a non-empty buffer takes at least one
    byte off its front or fails, [recv] of a positive length delivers at least
    one byte of the stream, reports the end, or fails. *)
Class SocketLaws (Net : Type) `{Socket Net} := {
  sock_send_sent d net n net' :
    sock_send d net = (Sent n, net') -> d <> [] ->
    0 < n <= zlen d /\ outgoing net' = outgoing net ++ take (Z.to_nat n) d /\
    incoming net' = incoming net;
  sock_send_failed d net net' :
    sock_send d net = (SendFailed, net') ->
    outgoing net' = outgoing net /\ incoming net' = incoming net;
  sock_recv_data len net d net' :
    sock_recv len net = (RecvData d, net') -> 0 < len ->
    0 < zlen d <= len /\ incoming net = d ++ incoming net' /\ outgoing net' = outgoing net;
  sock_recv_failed len net r net' :
    sock_recv len net = (r, net') -> (forall d, r <> RecvData d) ->
    incoming net' = incoming net /\ outgoing net' = outgoing net;
}.

(** ** State *)

Record Client (Net : Type) := {
  net : Net; socket_open : bool; m_connected : bool; m_ackReceiverRunning : bool }.
Arguments net {Net} _.
Arguments socket_open {Net} _.
Arguments m_connected {Net} _.
Arguments m_ackReceiverRunning {Net} _.

Definition set_net {Net} (n : Net) (c : Client Net) : Client Net :=
  {| net := n; socket_open := socket_open c; m_connected := m_connected c;
     m_ackReceiverRunning := m_ackReceiverRunning c |}.
Definition drop_connection {Net} (c : Client Net) : Client Net :=
  {| net := net c; socket_open := socket_open c; m_connected := false;
     m_ackReceiverRunning := m_ackReceiverRunning c |}.

(** ** Messages *)

Definition client_header (t : MessageType) (devNo : Z) : MsgHeader :=
  {| mh_Magic := PROTOCOL_MAGIC; mh_Type := MessageType_to_Z t; mh_DevNo := devNo;
     mh_Reserved := 0 |}.

(** [wcsncpy_s(body.VersionType, versionType.c_str(), 31)] into a zeroed
    array: the UTF-16 units up to the terminator, at most 31 of them. *)
Definition version_type (u : list Z) : list Z :=
  let k := take 31 (c_str u) in concat (map (le_enc 2) (k ++ zeros (32 - zlen k))).

Definition hello_body (versionId devNo totalBlocks totalSize : Z) (u : list Z) : HelloBody :=
  {| hb_VersionId := versionId; hb_DevNo := devNo; hb_TotalBlocks := totalBlocks;
     hb_TotalSize := totalSize; hb_VersionType := version_type u |}.

Definition block_header (blockIndex rawSize compressedSize : Z) (hash : list Z)
    (versionId : Z) : BlockHeader :=
  {| bh_BlockIndex := blockIndex; bh_DataSize := rawSize; bh_CompressedSize := compressedSize;
     bh_Hash := hash; bh_VersionId := versionId |}.

(** ** Operations

    The result is [None] when a loop does not end or a buffer is read beyond
    its end. *)

Section client.
Context {Net : Type} `{Socket Net}.

Fixpoint send_loop (fuel : nat) (data : list Z) (c : Client Net)
    : option (bool * Client Net) :=
  match data with
  | [] => Some (true, c)
  | _ :: _ =>
      match fuel with
      | O => None
      | S fuel' =>
          match sock_send data (net c) with
          | (SendFailed, n') => Some (false, drop_connection (set_net n' c))
          | (Sent n, n') => send_loop fuel' (drop (Z.to_nat n) data) (set_net n' c)
          end
      end
  end.

(** [size] is an [int]: nothing is sent when it is not positive. *)
Definition SendAll (data : list Z) (size : Z) (c : Client Net) : option (bool * Client Net) :=
  if size <=? 0 then Some (true, c)
  else match memcpy_from 0 size data with
       | None => None
       | Some d => send_loop (length d) d c
       end.

Fixpoint recv_loop (fuel : nat) (size : Z) (acc : list Z) (c : Client Net)
    : option (option (list Z) * Client Net) :=
  if size <=? zlen acc then Some (Some acc, c)
  else
    match fuel with
    | O => None
    | S fuel' =>
        match sock_recv (size - zlen acc) (net c) with
        | (RecvData d, n') => recv_loop fuel' size (acc ++ d) (set_net n' c)
        | (_, n') => Some (None, drop_connection (set_net n' c))
        end
    end.

(** The buffer that was filled, or [None] when the call returns [false]. *)
Definition RecvAll (size : Z) (c : Client Net) : option (option (list Z) * Client Net) :=
  recv_loop (Z.to_nat size) size [] c.

(** [devNo] and [expectedBlockIndex] are not used by the code. *)
Definition ReceiveAck (devNo expectedBlockIndex : Z) (c : Client Net)
    : option (bool * Client Net) :=
  '(h, c) ← RecvAll HEADER_SIZE c;
  match h with
  | None => Some (false, c)
  | Some h =>
      let hdr := dec_MsgHeader h in
      if negb (mh_Magic hdr =? PROTOCOL_MAGIC) then Some (false, c)
      else if negb (mh_Type hdr =? MessageType_to_Z ACK) then Some (false, c)
      else
        '(b, c) ← RecvAll ACK_BODY_SIZE c;
        match b with
        | None => Some (false, c)
        | Some b => Some (ack_Status (dec_AckBody b) =? 0, c)
        end
  end.

(** [if (!SendAll(...)) return false;] for each part in turn. *)
Fixpoint send_parts (parts : list (list Z * Z)) (c : Client Net) : option (bool * Client Net) :=
  match parts with
  | [] => Some (true, c)
  | (d, size) :: parts' =>
      '(ok, c') ← SendAll d size c;
      if (ok : bool) then send_parts parts' c' else Some (false, c')
  end.

Definition SendHello (versionId devNo totalBlocks totalSize : Z) (versionType : list Z)
    (c : Client Net) : option (bool * Client Net) :=
  if negb (m_connected c) then Some (false, c)
  else
    '(ok, c) ← send_parts
      [(enc_MsgHeader (client_header HELLO devNo), HEADER_SIZE);
       (enc_HelloBody (hello_body versionId devNo totalBlocks totalSize versionType),
        HELLO_BODY_SIZE)] c;
    if (ok : bool) then ReceiveAck devNo 0 c else Some (false, c).

Definition block_parts (devNo blockIndex rawSize : Z) (compressedData : list Z)
    (compressedSize : Z) (hash : list Z) (versionId : Z) : list (list Z * Z) :=
  [(enc_MsgHeader (client_header DATA_BLOCK devNo), HEADER_SIZE);
   (enc_BlockHeader (block_header blockIndex rawSize compressedSize hash versionId),
    BLOCK_HEADER_SIZE);
   (compressedData, s32 compressedSize)].

Definition SendBlockNoWait (devNo blockIndex rawSize : Z) (compressedData : list Z)
    (compressedSize : Z) (hash : list Z) (versionId : Z) (c : Client Net)
    : option (bool * Client Net) :=
  if negb (m_connected c) then Some (false, c)
  else send_parts
         (block_parts devNo blockIndex rawSize compressedData compressedSize hash versionId) c.

Definition SendBlock (devNo blockIndex rawSize : Z) (compressedData : list Z)
    (compressedSize : Z) (hash : list Z) (versionId : Z) (c : Client Net)
    : option (bool * Client Net) :=
  if negb (m_connected c) then Some (false, c)
  else
    '(ok, c) ← send_parts
      (block_parts devNo blockIndex rawSize compressedData compressedSize hash versionId) c;
    if (ok : bool) then ReceiveAck devNo blockIndex c else Some (false, c).

Definition SendBye (devNo : Z) (c : Client Net) : option (bool * Client Net) :=
  if negb (m_connected c) then Some (false, c)
  else
    '(ok, c) ← send_parts [(enc_MsgHeader (client_header BYE devNo), HEADER_SIZE)] c;
    if (ok : bool) then ReceiveAck devNo (2 ^ 64 - 1) c else Some (false, c).

Definition Disconnect (c : Client Net) : Client Net :=
  {| net := net c; socket_open := false; m_connected := false;
     m_ackReceiverRunning := m_ackReceiverRunning c |}.

(** ** The receiver thread *)

(** A call of [m_ackCallback]. *)
Record AckCall := { cb_devNo : Z; cb_blockIndex : Z; cb_hash : list Z; cb_status : Z }.

Definition error_call (code : Z) : AckCall :=
  {| cb_devNo := 0; cb_blockIndex := 2 ^ 64 - 1; cb_hash := zeros 32; cb_status := u32 code |}.
Definition ack_call (a : AckBody) : AckCall :=
  {| cb_devNo := ack_DevNo a; cb_blockIndex := ack_BlockIndex a; cb_hash := ack_Hash a;
     cb_status := ack_Status a |}.

Inductive SelectResult := SelectError | SelectTimeout | SelectReady.

(** One turn after [select] reported data: the calls it makes, whether the
    loop goes on. *)
Definition ack_turn (c : Client Net) : option (AckCall * bool * Client Net) :=
  '(h, c) ← RecvAll HEADER_SIZE c;
  match h with
  | None => Some (error_call (-2), false, c)
  | Some h =>
      let hdr := dec_MsgHeader h in
      if negb (mh_Magic hdr =? PROTOCOL_MAGIC) then Some (error_call (-3), false, c)
      else if negb (mh_Type hdr =? MessageType_to_Z ACK) then Some (error_call (-4), false, c)
      else
        '(b, c) ← RecvAll ACK_BODY_SIZE c;
        match b with
        | None => Some (error_call (-5), false, c)
        | Some b => Some (ack_call (dec_AckBody b), true, c)
        end
  end.

(** [turns]: what each turn finds in [m_ackReceiverRunning] and what [select]
    answers; the run may be observed after any number of turns. *)
Fixpoint AckReceiverLoop (turns : list (bool * SelectResult)) (c : Client Net)
    : option (list AckCall * Client Net) :=
  match turns with
  | [] => Some ([], c)
  | (running, sel) :: turns' =>
      if negb running then Some ([], c)
      else match sel with
           | SelectError => Some ([error_call (-1)], c)
           | SelectTimeout => AckReceiverLoop turns' c
           | SelectReady =>
               '(call, go, c') ← ack_turn c;
               if (go : bool) then
                 '(calls, c'') ← AckReceiverLoop turns' c'; Some (call :: calls, c'')
               else Some ([call], c')
           end
  end.

Definition StartAckReceiver (c : Client Net) : Client Net :=
  {| net := net c; socket_open := socket_open c; m_connected := m_connected c;
     m_ackReceiverRunning := true |}.
Definition StopAckReceiver (c : Client Net) : Client Net :=
  {| net := net c; socket_open := socket_open c; m_connected := m_connected c;
     m_ackReceiverRunning := false |}.
End client.

(** ** What the loops deliver *)

Section transfer.
Context {Net : Type} `{SocketLaws Net}.

(** [c'] is [c] after sending [d]: all of it on success, a proper prefix on
    failure, which drops the connection. *)
Definition delivered (d : list Z) (c : Client Net) (ok : bool) (c' : Client Net) : Prop :=
  incoming (net c') = incoming (net c) /\
  exists s, outgoing (net c') = outgoing (net c) ++ s /\ s `prefix_of` d /\
    if ok then s = d /\ m_connected c' = m_connected c
    else zlen s < zlen d /\ m_connected c' = false.

Lemma send_loop_spec fuel data c :
  (length data <= fuel)%nat ->
  exists ok c', send_loop fuel data c = Some (ok, c') /\ delivered data c ok c'.
Proof.
  revert data c. induction fuel as [|fuel IH]; intros data c Hf.
  { destruct data; [|cbn in Hf; lia]. exists true, c. split; [done|]. split; [done|].
    exists []. by rewrite app_nil_r. }
  destruct data as [|x data].
  { exists true, c. split; [done|]. split; [done|]. exists []. by rewrite app_nil_r. }
  cbn [send_loop]. set (d := x :: data) in *.
  destruct (sock_send d (net c)) as [[n|] n'] eqn:E.
  - apply sock_send_sent in E as (Hn & Hout & Hin); [|done].
    destruct (IH (drop (Z.to_nat n) d) (set_net n' c)) as (ok & c' & Hrun & Hin' & s & Hs & Hp & Hok);
      [len_solve|].
    exists ok, c'. split; [done|]. split; [by rewrite Hin'|].
    exists (take (Z.to_nat n) d ++ s). cbn [net set_net] in *. rewrite Hs, Hout, <- app_assoc.
    split; [done|]. split.
    { rewrite <- (take_drop (Z.to_nat n) d) at 2. by apply prefix_app. }
    destruct ok; destruct Hok as [Hok1 Hok2]; split; try done.
    + by rewrite Hok1, take_drop.
    + len_solve.
  - apply sock_send_failed in E as [Hout Hin]. eexists false, _. split; [done|].
    split; [done|]. exists []. rewrite app_nil_r. split; [done|].
    split; [apply prefix_nil|]. split; [unfold d; cbn; lia|done].
Qed.

Lemma SendAll_spec data c :
  exists ok c', SendAll data (zlen data) c = Some (ok, c') /\ delivered data c ok c'.
Proof.
  unfold SendAll. case_if.
  - exists true, c. split; [done|]. split; [done|]. exists [].
    destruct data; [|cbn in *; lia]. by rewrite app_nil_r.
  - unfold memcpy_from. test_true (0 <=? 0). test_true (0 <=? zlen data).
    test_true (0 + zlen data <=? zlen data). cbn [andb]. rewrite sub_all by done.
    by apply send_loop_spec.
Qed.

Lemma delivered_app d1 d2 c c1 ok c2 :
  delivered d1 c true c1 -> delivered d2 c1 ok c2 -> delivered (d1 ++ d2) c ok c2.
Proof.
  intros (I1 & s1 & O1 & _ & -> & M1) (I2 & s2 & O2 & P2 & K2). split; [congruence|].
  exists (d1 ++ s2). rewrite O2, O1, <- app_assoc. split; [done|].
  split; [by apply prefix_app|].
  destruct ok; destruct K2 as [K2 M2].
  - rewrite K2. split; congruence.
  - split; [len_solve|done].
Qed.

Lemma delivered_fail d1 d2 c c1 :
  delivered d1 c false c1 -> delivered (d1 ++ d2) c false c1.
Proof.
  intros (I1 & s1 & O1 & P1 & L1 & M1). split; [done|]. exists s1.
  split_and!; [done|by apply prefix_app_r|len_solve|done].
Qed.

Lemma send_parts_spec parts c :
  Forall (fun p => zlen (p.1) = p.2) parts ->
  exists ok c', send_parts parts c = Some (ok, c') /\ delivered (concat (map fst parts)) c ok c'.
Proof.
  intros Hp. revert c. induction Hp as [|[d size] parts Hd _ IH]; intros c; cbn in *.
  { exists true, c. split; [done|]. split; [done|]. exists []. by rewrite app_nil_r. }
  subst size. destruct (SendAll_spec d c) as ([] & c1 & -> & Hdel); cbn.
  - destruct (IH c1) as (ok & c' & -> & Hdel'). exists ok, c'. split; [done|].
    by eapply delivered_app.
  - exists false, c1. split; [done|]. by apply delivered_fail.
Qed.

(** [c'] is [c] after receiving exactly [size] bytes, or with the connection
    lost on the way. *)
Definition received (size : Z) (c : Client Net) (r : option (list Z)) (c' : Client Net) : Prop :=
  outgoing (net c') = outgoing (net c) /\
  match r with
  | Some b => zlen b = size /\ incoming (net c) = b ++ incoming (net c') /\
              m_connected c' = m_connected c
  | None => m_connected c' = false /\
            exists b, zlen b < size /\ incoming (net c) = b ++ incoming (net c')
  end.

Lemma recv_loop_spec fuel size acc c :
  zlen acc <= size -> size - zlen acc <= Z.of_nat fuel ->
  exists r c', recv_loop fuel size acc c = Some (r, c') /\
    outgoing (net c') = outgoing (net c) /\
    match r with
    | Some b => zlen b = size /\ acc ++ incoming (net c) = b ++ incoming (net c') /\
                m_connected c' = m_connected c
    | None => m_connected c' = false /\
              exists b, zlen b < size /\ acc ++ incoming (net c) = b ++ incoming (net c')
    end.
Proof.
  revert acc c. induction fuel as [|fuel IH]; intros acc c Ha Hf; cbn [recv_loop].
  { test_true (size <=? zlen acc). exists (Some acc), c. split_and!; try done. lia. }
  case_if. { exists (Some acc), c. split_and!; try done. lia. }
  destruct (sock_recv (size - zlen acc) (net c)) as [[d| |e] n'] eqn:Er.
  - apply sock_recv_data in Er as (Hd & Hin & Hout); [|lia].
    destruct (IH (acc ++ d) (set_net n' c)) as (r & c' & Hrun & Ho & Hr); [len_solve..|].
    exists r, c'. split; [done|]. cbn [net set_net] in *. rewrite Hin, app_assoc.
    split; [congruence|done].
  - apply sock_recv_failed in Er as [Hin Hout]; [|done]. eexists None, _. split; [done|].
    cbn. split_and!; [done|done|]. exists acc. by rewrite Hin.
  - apply sock_recv_failed in Er as [Hin Hout]; [|done]. eexists None, _. split; [done|].
    cbn. split_and!; [done|done|]. exists acc. by rewrite Hin.
Qed.

Lemma RecvAll_spec size c :
  0 <= size -> exists r c', RecvAll size c = Some (r, c') /\ received size c r c'.
Proof.
  intros Hs. destruct (recv_loop_spec (Z.to_nat size) size [] c) as (r & c' & Hrun & Ho & Hr);
    [cbn; lia..|]. exists r, c'. by split.
Qed.

(** Waiting for an acknowledgement sends nothing. *)
Lemma ReceiveAck_total devNo idx c :
  exists ok c', ReceiveAck devNo idx c = Some (ok, c') /\
    outgoing (net c') = outgoing (net c) /\
    (m_connected c' = m_connected c \/ ok = false /\ m_connected c' = false).
Proof.
  unfold ReceiveAck. destruct (RecvAll_spec HEADER_SIZE c) as (h & c1 & -> & O1 & Hh); [done|].
  cbn. destruct h as [h|]; [destruct Hh as (_ & _ & Hm)|destruct Hh as (Hm & _); by eauto 10].
  case_if; [by eauto 10|]. case_if; [by eauto 10|].
  destruct (RecvAll_spec ACK_BODY_SIZE c1) as (b & c2 & -> & O2 & Hb); [done|]. cbn.
  destruct b as [b|]; [destruct Hb as (_ & _ & Hm2)|destruct Hb as (Hm2 & _)].
  - eexists _, c2. split; [done|]. split; [congruence|]. left. congruence.
  - exists false, c2. split; [done|]. split; [congruence|]. by right.
Qed.
End transfer.

(** ** Sessions *)

Inductive client_call :=
  | CallHello (versionId devNo totalBlocks totalSize : Z) (versionType : list Z)
  | CallBlock (wait : bool) (devNo blockIndex rawSize : Z) (data : list Z)
      (hash : list Z) (versionId : Z)
  | CallBye (devNo : Z).

Definition exec_call {Net} `{Socket Net} (k : client_call) (c : Client Net)
    : option (bool * Client Net) :=
  match k with
  | CallHello v d n s u => SendHello v d n s u c
  | CallBlock true d i raw data h v => SendBlock d i raw data (zlen data) h v c
  | CallBlock false d i raw data h v => SendBlockNoWait d i raw data (zlen data) h v c
  | CallBye d => SendBye d c
  end.

Fixpoint exec_calls {Net} `{Socket Net} (ks : list client_call) (c : Client Net)
    : option (list bool * Client Net) :=
  match ks with
  | [] => Some ([], c)
  | k :: ks' =>
      '(b, c') ← exec_call k c; '(bs, c'') ← exec_calls ks' c'; Some (b :: bs, c'')
  end.

(** The message a call means to send. *)
Definition call_msg (k : client_call) : ParsedMessage :=
  match k with
  | CallHello v d n s u =>
      {| pm_header := client_header HELLO d; pm_body := enc_HelloBody (hello_body v d n s u) |}
  | CallBlock _ d i raw data h v =>
      {| pm_header := client_header DATA_BLOCK d;
         pm_body := enc_BlockHeader (block_header i raw (zlen data) h v) ++ data |}
  | CallBye d => {| pm_header := client_header BYE d; pm_body := [] |}
  end.

(** Arguments within their C types, and a payload the server accepts. *)
Definition call_ok (k : client_call) : Prop :=
  match k with
  | CallHello v d n s u =>
      in_width 32 v /\ in_width 32 d /\ in_width 64 n /\ in_width 64 s /\
      Forall (in_width 16) u
  | CallBlock _ d i raw data h v =>
      in_width 32 d /\ in_width 64 i /\ in_width 32 raw /\ in_width 32 v /\
      bytes_ok data /\ zlen data <= BLOCK_SIZE * 2 /\ bytes_ok h /\ zlen h = 32
  | CallBye d => in_width 32 d
  end.

Lemma version_type_length u : zlen (version_type u) = 64.
Proof.
  unfold version_type. set (k := take 31 (c_str u)).
  assert (zlen k <= 31) as Hk by (unfold k; rewrite length_take; lia).
  assert (forall l, length (concat (map (le_enc 2) l)) = (2 * length l)%nat) as Hl.
  { induction l as [|x l IH]; cbn; [done|]. rewrite length_app, le_enc_length, IH. lia. }
  rewrite Hl, length_app. pose proof (zeros_length (32 - zlen k)). lia.
Qed.

Lemma version_type_ok u : bytes_ok (version_type u).
Proof.
  unfold version_type. induction (_ ++ _) as [|x l IH]; cbn; [constructor|].
  apply bytes_ok_app. auto with cbt.
Qed.

Lemma client_header_wf t d : in_width 32 d -> MsgHeader_wf (client_header t d).
Proof.
  intros Hd. unfold MsgHeader_wf, in_width in *; cbn. unfold PROTOCOL_MAGIC.
  split_and!; try lia; destruct t; cbn; lia.
Qed.

Lemma call_msg_wf k : call_ok k -> msg_wf (call_msg k).
Proof.
  destruct k as [v d n s u|w d i raw data h v|d]; intros Hk; cbn in Hk; unfold msg_wf; cbn.
  - destruct Hk as (Hv & Hd & Hn & Hs & Hu).
    split_and!; [by apply client_header_wf|done| |exists HELLO; split; [done|]].
    + unfold enc_HelloBody; cbn. rewrite !bytes_ok_app. auto using version_type_ok with cbt.
    + apply enc_HelloBody_length, version_type_length.
  - destruct Hk as (Hd & Hi & Hr & Hv & Hdata & Hmax & Hh & Hlen).
    assert (zlen (enc_BlockHeader (block_header i raw (zlen data) h v)) = 52) as HL
      by (by apply enc_BlockHeader_length).
    split_and!; [by apply client_header_wf|done| |exists DATA_BLOCK; split; [done|]].
    + unfold enc_BlockHeader; cbn. rewrite !bytes_ok_app. auto 10 with cbt.
    + unfold body_len_ok, BLOCK_HEADER_SIZE, BLOCK_SIZE in *. rewrite length_app.
      rewrite BlockHeader_roundtrip; [cbn; lia|].
      unfold BlockHeader_wf, in_width in *; cbn. lia.
  - split_and!; [by apply client_header_wf|done|constructor|by exists BYE].
Qed.

Lemma block_parts_sizes d i raw data h v :
  zlen data <= BLOCK_SIZE * 2 -> zlen h = 32 ->
  Forall (fun p => zlen (p.1) = p.2) (block_parts d i raw data (zlen data) h v).
Proof.
  intros Hmax Hlen. unfold block_parts, BLOCK_SIZE in *.
  rewrite !Forall_cons, Forall_nil; cbn [fst snd].
  split_and!; [apply enc_MsgHeader_length|by apply enc_BlockHeader_length| |done].
  unfold signed. rewrite wrap_small by (unfold in_width; lia).
  by test_true (zlen data <? 2 ^ (32 - 1)).
Qed.

Section sessions.
Context {Net : Type} `{SocketLaws Net}.

(** One call on a live connection: the whole message, or a proper prefix and
    a dropped connection. *)
Definition call_effect (k : client_call) (c : Client Net) (b : bool) (c' : Client Net) : Prop :=
  exists s, outgoing (net c') = outgoing (net c) ++ s /\
    (s = msg_bytes (call_msg k) \/
     s `prefix_of` msg_bytes (call_msg k) /\ zlen s < msg_total (call_msg k) /\ b = false /\
     m_connected c' = false).

Lemma parts_effect k parts (c : Client Net) (f : Client Net -> option (bool * Client Net)) :
  Forall (fun p => zlen (p.1) = p.2) parts -> concat (map fst parts) = msg_bytes (call_msg k) ->
  (forall c1, exists ok c2, f c1 = Some (ok, c2) /\ outgoing (net c2) = outgoing (net c1)) ->
  exists b c', (('(ok, c) ← send_parts parts c;
                 if (ok : bool) then f c else Some (false, c)) = Some (b, c')) /\
    call_effect k c b c'.
Proof.
  intros Hp Hm Hf. destruct (send_parts_spec parts c Hp) as (ok & c1 & -> & _ & s & Ho & Hpre & Hk).
  rewrite Hm in *. cbn. destruct ok; destruct Hk as [Hk1 Hk2].
  - destruct (Hf c1) as (b & c2 & -> & Ho2). exists b, c2. split; [done|].
    exists s. rewrite Ho2. auto.
  - exists false, c1. split; [done|]. exists s. rewrite <- msg_bytes_length. auto 10.
Qed.

Lemma exec_call_spec k c :
  call_ok k ->
  exists b c', exec_call k c = Some (b, c') /\
    if m_connected c then call_effect k c b c' else b = false /\ c' = c.
Proof.
  intros Hk. assert (forall d i (c1 : Client Net), exists ok c2,
    ReceiveAck d i c1 = Some (ok, c2) /\ outgoing (net c2) = outgoing (net c1)) as Hack.
  { intros d i c1. destruct (ReceiveAck_total d i c1) as (ok & c2 & ? & ? & _). by exists ok, c2. }
  destruct k as [v d n s u|w d i raw data h v|d]; cbn in Hk |- *.
  - unfold SendHello. destruct (m_connected c); [cbn [negb]|by exists false, c].
    apply parts_effect; [|cbn; by rewrite app_nil_r|apply Hack].
    rewrite !Forall_cons, Forall_nil; cbn [fst snd].
    split_and!; [apply enc_MsgHeader_length| |done].
    apply enc_HelloBody_length, version_type_length.
  - destruct Hk as (_ & _ & _ & _ & _ & Hmax & _ & Hlen).
    pose proof (block_parts_sizes d i raw data h v Hmax Hlen) as Hp.
    assert (concat (map fst (block_parts d i raw data (zlen data) h v))
            = msg_bytes (call_msg (CallBlock w d i raw data h v))) as Hm.
    { cbn. by rewrite app_nil_r. }
    destruct w; [unfold SendBlock|unfold SendBlockNoWait];
      (destruct (m_connected c); [cbn [negb]|by exists false, c]).
    + apply parts_effect; [done|done|apply Hack].
    + destruct (parts_effect (CallBlock false d i raw data h v) _ c (fun c => Some (true, c)) Hp Hm)
        as (b & c' & Hrun & He); [by eauto|].
      exists b, c'. split; [|done]. rewrite <- Hrun. by destruct (send_parts _ _) as [[[] ?]|].
  - unfold SendBye. destruct (m_connected c); [cbn [negb]|by exists false, c].
    apply parts_effect; [|cbn; by rewrite app_nil_r|apply Hack].
    rewrite Forall_cons, Forall_nil. split; [apply enc_MsgHeader_length|done].
Qed.

Lemma exec_calls_dead ks c :
  Forall call_ok ks -> m_connected c = false ->
  exec_calls ks c = Some (replicate (length ks) false, c).
Proof.
  intros Hks Hc. induction Hks as [|k ks Hk Hks IH]; [done|]. cbn [exec_calls].
  destruct (exec_call_spec k c Hk) as (b & c1 & -> & He). rewrite Hc in He.
  destruct He as [-> ->]. cbn. by rewrite IH.
Qed.

(** The bytes on the wire after the first [n] messages and [part] of the
    next one. *)
Definition on_wire (ms : list ParsedMessage) (n : nat) (part : list Z) : Prop :=
  part = [] \/
  exists m, ms !! n = Some m /\ part `prefix_of` msg_bytes m /\ zlen part < msg_total m.

(** What a run of calls puts on the wire: the messages of the first [n] calls
    and part of the next; a call reports success only if it is among them. *)
Lemma exec_calls_spec ks c :
  Forall call_ok ks -> m_connected c = true ->
  exists bs c', exec_calls ks c = Some (bs, c') /\ length bs = length ks /\
    exists n part, (n <= length ks)%nat /\
      outgoing (net c')
      = outgoing (net c) ++ concat (map msg_bytes (take n (map call_msg ks))) ++ part /\
      on_wire (map call_msg ks) n part /\
      (forall i, bs !! i = Some true -> (i < n)%nat).
Proof.
  intros Hks. revert c. induction Hks as [|k ks Hk Hks IH]; intros c Hc; cbn [exec_calls].
  { exists [], c. split_and!; [done|done|]. exists 0%nat, []. cbn. rewrite app_nil_r.
    split_and!; [done|done|by left|done]. }
  destruct (exec_call_spec k c Hk) as (b & c1 & -> & He). rewrite Hc in He.
  destruct He as (s & Ho & Hs). cbn [mbind option_bind].
  destruct (m_connected c1) eqn:Hc1.
  - destruct Hs as [->|(_ & _ & _ & ?)]; [|done].
    destruct (IH c1 Hc1) as (bs & c2 & -> & Hl & n & part & Hn & Ho2 & Hp & Hb).
    exists (b :: bs), c2. split_and!; [done|cbn; lia|]. exists (S n), part. cbn.
    rewrite Ho2, Ho, <- !app_assoc. split_and!; [lia|done|done|].
    intros [|i]; cbn; [lia|]. intros Hi. apply Hb in Hi. lia.
  - rewrite exec_calls_dead by done. cbn.
    exists (b :: replicate (length ks) false), c1.
    split_and!; [done|cbn; by rewrite length_replicate|].
    assert (forall i, (b :: replicate (length ks) false) !! i = Some true -> i = 0%nat /\ b = true)
      as Hbs.
    { intros [|i]; cbn; [intros [= ->]; done|]. intros Hi.
      apply lookup_replicate in Hi as [? _]. done. }
    destruct Hs as [->|(Hpre & Hlt & -> & _)].
    + exists 1%nat, []. cbn. rewrite !app_nil_r. split_and!; [lia|done|by left|].
      intros i Hi. apply Hbs in Hi as [-> _]. lia.
    + exists 0%nat, s. cbn. split_and!; [lia|done|right; by eexists|].
      intros i Hi. by apply Hbs in Hi as [_ ?].
Qed.
End sessions.

(** The server's framing of what is on the wire. *)
Lemma on_wire_stream ks n part :
  Forall call_ok ks -> on_wire (map call_msg ks) n part ->
  stream (concat (map msg_bytes (take n (map call_msg ks))) ++ part)
  = (take n (map call_msg ks), part, false).
Proof.
  intros Hks Hp. assert (Forall msg_wf (map call_msg ks)) as Hwf.
  { apply Forall_map. eapply Forall_impl; [done|]. intros k Hk. by apply call_msg_wf. }
  assert (Forall msg_wf (take n (map call_msg ks))) as Hwf' by by apply Forall_take.
  destruct Hp as [->|(m & Hm & Hpre & Hlt)].
  - rewrite stream_messages by (done || constructor).
    change (stream []) with (@nil ParsedMessage, @nil Z, false). cbv iota beta.
    by rewrite app_nil_r.
  - assert (msg_wf m) as Hm' by (exact (Forall_lookup_1 _ _ _ _ Hwf Hm)).
    assert (bytes_ok part) as Hpb.
    { destruct Hpre as [r Hr]. pose proof (msg_bytes_ok m Hm') as Hmb. rewrite Hr in Hmb.
      by apply bytes_ok_app in Hmb as []. }
    rewrite stream_messages, stream_unfold, (frame_step_partial m) by done.
    by rewrite app_nil_r.
Qed.

(** ** The properties *)

(** C21: what the client sends, the server reads.  On a fresh connection any
    sequence of calls returns, and what it put on the wire is parsed by the
    server's framing as the messages of the first [n] calls, in order, with
    at most an incomplete rest; no call beyond them reported success, so a
    lost connection never makes the server see a garbled or a reordered
    message. *)
Theorem client_server_framing {Net} `{SocketLaws Net} (ks : list client_call) (c : Client Net) :
  Forall call_ok ks -> m_connected c = true -> outgoing (net c) = [] ->
  exists bs c' n rest, exec_calls ks c = Some (bs, c') /\ length bs = length ks /\
    stream (outgoing (net c')) = (take n (map call_msg ks), rest, false) /\
    (forall i, bs !! i = Some true -> (i < n)%nat).
Proof.
  intros Hks Hc Ho. destruct (exec_calls_spec ks c Hks Hc)
    as (bs & c' & Hrun & Hl & n & part & Hn & Ho' & Hp & Hb).
  exists bs, c', n, part. split_and!; [done|done| |done]. rewrite Ho', Ho. cbn [app].
  by apply on_wire_stream.
Qed.

(** ** A socket, for the examples: 7 bytes are sent and 5 received at a time *)

Record DemoNet := { d_in : list Z; d_out : list Z }.

#[export] Instance demo_socket : Socket DemoNet := {
  sock_send d n :=
    (Sent (zlen (take 7 d)), {| d_in := d_in n; d_out := d_out n ++ take 7 d |});
  sock_recv len n :=
    let d := take (Nat.min 5 (Z.to_nat len)) (d_in n) in
    match d with
    | [] => (RecvClosed, n)
    | _ => (RecvData d, {| d_in := drop (length d) (d_in n); d_out := d_out n |})
    end;
  incoming := d_in;
  outgoing := d_out }.

Lemma take_self_length {A} n (l : list A) : take (length (take n l)) l = take n l.
Proof.
  rewrite length_take. destruct (Nat.le_ge_cases n (length l)).
  - by rewrite Nat.min_l.
  - by rewrite Nat.min_r, !take_ge by lia.
Qed.

#[export] Instance demo_socket_laws : SocketLaws DemoNet.
Proof.
  constructor; cbn [sock_send sock_recv incoming outgoing demo_socket].
  - intros d n k n' [= <- <-] Hd. cbn [d_in d_out]. destruct d as [|x d]; [done|].
    rewrite Nat2Z.id, (take_self_length 7). split_and!; [cbn; lia|len_solve|done|done].
  - done.
  - intros len n d n' E Hl.
    destruct (take (Nat.min 5 (Z.to_nat len)) (d_in n)) as [|x t] eqn:Et; [done|].
    injection E as <- <-. cbn [d_in d_out]. rewrite <- Et.
    assert (length (take (Nat.min 5 (Z.to_nat len)) (d_in n)) = S (length t)) as HL
      by (by rewrite Et).
    rewrite length_take in HL |- *. split_and!; [lia|lia| |done].
    rewrite <- (take_drop (Nat.min 5 (Z.to_nat len)) (d_in n)) at 1. f_equal.
    destruct (Nat.le_ge_cases (Nat.min 5 (Z.to_nat len)) (length (d_in n))).
    + f_equal. lia.
    + rewrite !drop_ge by lia. done.
  - intros len n r n' E Hr.
    destruct (take (Nat.min 5 (Z.to_nat len)) (d_in n)); injection E as <- <-; [done|].
    by destruct (Hr (z :: l)).
Qed.

Definition demo_client (input : list Z) : Client DemoNet :=
  {| net := {| d_in := input; d_out := [] |}; socket_open := true; m_connected := true;
     m_ackReceiverRunning := false |}.

Definition demo_calls : list client_call :=
  [CallBlock false 7 3 4 [120; 1; 2] (zeros 32) 1; CallBye 7].

Lemma client_server_framing_witness :
  exists bs c' n rest, exec_calls demo_calls (demo_client [1; 2; 3]) = Some (bs, c') /\
    length bs = 2%nat /\
    stream (outgoing (net c')) = (take n (map call_msg demo_calls), rest, false) /\
    (forall i, bs !! i = Some true -> (i < n)%nat).
Proof.
  apply (client_server_framing demo_calls (demo_client [1; 2; 3])).
  - unfold demo_calls. rewrite !Forall_cons, Forall_nil. unfold call_ok.
    split_and!; try done; try (apply (bool_decide_unpack _); vm_compute; exact I).
  - reflexivity.
  - reflexivity.
Defined.
