(* ===== verification/ClientServer.v ===== *)
(** * The client and the server together

    The acknowledgements the server sends, read by the client, and the
    blocks the client sends, stored by the server. *)

From S2P Require Import Prelude Protocol RingBuffer MessageParser DiskMap BlockProcessor.
From S2P Require Import Server ServerSpec NetworkClient.

(** ** Reliable sockets *)

Class Reliable (Net : Type) `{Socket Net} := {
  reliable_send d net : d <> [] -> exists n net', sock_send d net = (Sent n, net');
  reliable_recv len net :
    0 < len -> incoming net <> [] -> exists d net', sock_recv len net = (RecvData d, net');
}.

#[export] Instance demo_socket_reliable : Reliable DemoNet.
Proof.
  constructor; cbn [sock_send sock_recv incoming demo_socket].
  - intros d n _. by eexists _, _.
  - intros len n Hl Hin. destruct (d_in n) as [|x l]; [done|].
    destruct (Z.to_nat len) eqn:E; [lia|]. by eexists _, _.
Qed.

Lemma ack_bytes_ok a : AckBody_wf a -> zlen (ack_bytes a) = HEADER_SIZE + ACK_BODY_SIZE.
Proof.
  intros (_ & _ & _ & Hh). unfold ack_bytes.
  pose proof (enc_MsgHeader_length (ack_header a)). pose proof (enc_AckBody_length a Hh).
  unfold HEADER_SIZE, ACK_BODY_SIZE in *. len_solve.
Qed.

Lemma ack_header_wf a : AckBody_wf a -> MsgHeader_wf (ack_header a).
Proof.
  intros (_ & _ & Hd & _). unfold MsgHeader_wf, in_width in *; cbn.
  unfold PROTOCOL_MAGIC. lia.
Qed.

Section receive.
Context {Net : Type} `{SocketLaws Net}.

(** A buffer that was filled is the front of the stream. *)
Lemma received_front size c b c' d rest :
  received size c (Some b) c' -> incoming (net c) = d ++ rest -> zlen d = size ->
  b = d /\ incoming (net c') = rest.
Proof.
  intros (_ & Hb & Hin & _) Hd Hl. rewrite Hd in Hin. symmetry in Hin.
  apply app_inj_1 in Hin; [done|lia].
Qed.

(** Reading one acknowledgement: it is the next of the stream, or the
    connection is lost. *)
Lemma read_ack (a : AckBody) rest (c : Client Net) :
  AckBody_wf a -> incoming (net c) = ack_bytes a ++ rest ->
  exists h c1, RecvAll HEADER_SIZE c = Some (h, c1) /\
    (h = None \/
     h = Some (enc_MsgHeader (ack_header a)) /\
     exists b c2, RecvAll ACK_BODY_SIZE c1 = Some (b, c2) /\
       (b = None \/ b = Some (enc_AckBody a) /\ incoming (net c2) = rest)).
Proof.
  intros Hwf Hin. pose proof Hwf as (_ & _ & _ & Hh).
  destruct (RecvAll_spec HEADER_SIZE c) as (h & c1 & Hrun & Hr); [done|].
  exists h, c1. split; [done|]. destruct h as [h|]; [right|by left].
  unfold ack_bytes in Hin. rewrite <- app_assoc in Hin.
  apply (received_front _ _ _ _ _ _ Hr) in Hin as [-> Hin1]; [|apply enc_MsgHeader_length].
  split; [done|].
  destruct (RecvAll_spec ACK_BODY_SIZE c1) as (b & c2 & Hrun2 & Hr2); [done|].
  exists b, c2. split; [done|]. destruct b as [b|]; [right|by left].
  apply (received_front _ _ _ _ _ _ Hr2) in Hin1 as [-> Hin2]; [done|].
  by apply enc_AckBody_length.
Qed.

(** On a reliable socket a buffer is filled when the stream is long enough. *)
Lemma recv_loop_reliable `{!Reliable Net} fuel size acc (c : Client Net) r c' :
  size - zlen acc <= zlen (incoming (net c)) ->
  recv_loop fuel size acc c = Some (r, c') -> r <> None.
Proof.
  revert acc c. induction fuel as [|fuel IH]; intros acc c Hl; cbn [recv_loop].
  - by destruct (_ <=? _); intros [= <- <-].
  - destruct (size <=? zlen acc) eqn:E; [by intros [= <- <-]|]. reflect_Z.
    destruct (reliable_recv (size - zlen acc) (net c)) as (d & n' & Er); [lia| |].
    { intros E0. rewrite E0 in Hl. cbn in Hl. lia. }
    rewrite Er. apply sock_recv_data in Er as (Hd & Hin & _); [|lia]. apply IH.
    cbn [net set_net]. rewrite Hin in Hl. len_solve.
Qed.

Lemma RecvAll_reliable `{!Reliable Net} size (c : Client Net) r c' :
  size <= zlen (incoming (net c)) -> RecvAll size c = Some (r, c') -> r <> None.
Proof. intros Hl. apply recv_loop_reliable. cbn. lia. Qed.

Lemma read_ack_reliable `{!Reliable Net} a rest (c : Client Net) :
  AckBody_wf a -> incoming (net c) = ack_bytes a ++ rest ->
  exists c1 c2, RecvAll HEADER_SIZE c = Some (Some (enc_MsgHeader (ack_header a)), c1) /\
    RecvAll ACK_BODY_SIZE c1 = Some (Some (enc_AckBody a), c2) /\ incoming (net c2) = rest.
Proof.
  intros Hwf Hin. pose proof (ack_bytes_ok a Hwf) as Hl.
  destruct (read_ack a rest c Hwf Hin)
    as (h & c1 & Hrun & [->|(-> & b & c2 & Hrun2 & Hb)]).
  { by destruct (RecvAll_reliable HEADER_SIZE c None c1); [rewrite Hin; unfold HEADER_SIZE,
      ACK_BODY_SIZE in *; len_solve|..]. }
  exists c1, c2. destruct Hb as [->|[-> Hrest]]; [|done].
  destruct (RecvAll_spec HEADER_SIZE c) as (h & c1' & Hrun' & Hr); [done|].
  rewrite Hrun in Hrun'. injection Hrun' as <- <-. destruct Hr as (_ & _ & Hin1 & _).
  rewrite Hin in Hin1. unfold ack_bytes in Hin1. rewrite <- app_assoc in Hin1.
  apply app_inv_head in Hin1.
  destruct Hwf as (_ & _ & _ & Hh). pose proof (enc_AckBody_length a Hh) as Hlb.
  by destruct (RecvAll_reliable ACK_BODY_SIZE c1 None c2); [rewrite <- Hin1; len_solve|..].
Qed.

Lemma ack_fields a :
  AckBody_wf a ->
  (mh_Magic (dec_MsgHeader (enc_MsgHeader (ack_header a))) =? PROTOCOL_MAGIC) = true /\
  (mh_Type (dec_MsgHeader (enc_MsgHeader (ack_header a))) =? MessageType_to_Z ACK) = true /\
  dec_AckBody (enc_AckBody a) = a.
Proof.
  intros Hwf. rewrite <- (app_nil_r (enc_MsgHeader _)), <- (app_nil_r (enc_AckBody _)).
  rewrite MsgHeader_roundtrip, AckBody_roundtrip by auto using ack_header_wf. done.
Qed.

Lemma ReceiveAck_reliable `{!Reliable Net} devNo idx a rest (c : Client Net) :
  AckBody_wf a -> incoming (net c) = ack_bytes a ++ rest ->
  exists c', ReceiveAck devNo idx c = Some (ack_Status a =? 0, c') /\ incoming (net c') = rest.
Proof.
  intros Hwf Hin. destruct (read_ack_reliable a rest c Hwf Hin) as (c1 & c2 & E1 & E2 & Hr).
  destruct (ack_fields a Hwf) as (F1 & F2 & F3). unfold ReceiveAck. rewrite E1. cbn [mbind option_bind]. rewrite F1, F2. cbn [negb].
  rewrite E2. cbn [mbind option_bind]. rewrite F3. by exists c2.
Qed.

(** One turn of the receiver on a stream of acknowledgements. *)
Lemma ack_turn_spec a rest (c : Client Net) :
  AckBody_wf a -> incoming (net c) = ack_bytes a ++ rest ->
  exists call go c', ack_turn c = Some (call, go, c') /\
    if (go : bool) then call = ack_call a /\ incoming (net c') = rest
    else exists code, call = error_call code.
Proof.
  intros Hwf Hin. destruct (ack_fields a Hwf) as (F1 & F2 & F3). unfold ack_turn.
  destruct (read_ack a rest c Hwf Hin) as (h & c1 & -> & [->|(-> & b & c2 & E2 & Hb)]);
    cbn [mbind option_bind].
  { eexists _, _, _. split; [done|]. cbn. by eexists. }
  rewrite F1, F2. cbn [negb]. rewrite E2. cbn [mbind option_bind]. destruct Hb as [->|[-> Hr]].
  - eexists _, _, _. split; [done|]. cbn. by eexists.
  - rewrite F3. by eexists _, _, _.
Qed.

Lemma ack_turn_reliable `{!Reliable Net} a rest (c : Client Net) :
  AckBody_wf a -> incoming (net c) = ack_bytes a ++ rest ->
  exists c', ack_turn c = Some (ack_call a, true, c') /\ incoming (net c') = rest.
Proof.
  intros Hwf Hin. destruct (read_ack_reliable a rest c Hwf Hin) as (c1 & c2 & E1 & E2 & Hr).
  destruct (ack_fields a Hwf) as (F1 & F2 & F3). unfold ack_turn. rewrite E1. cbn [mbind option_bind]. rewrite F1, F2. cbn [negb].
  rewrite E2. cbn [mbind option_bind]. rewrite F3. by exists c2.
Qed.

(** Nothing is left to read: the turn reports the lost connection. *)
Lemma ack_turn_end (c : Client Net) :
  incoming (net c) = [] -> exists c', ack_turn c = Some (error_call (-2), false, c').
Proof.
  intros Hin. unfold ack_turn.
  destruct (RecvAll_spec HEADER_SIZE c) as (h & c1 & -> & _ & Hh); [done|]. cbn.
  destruct h as [h|]; [|by exists c1]. destruct Hh as (Hl & Hi & _). rewrite Hin in Hi.
  symmetry in Hi. apply app_nil in Hi as [-> _]. done.
Qed.

(** The calls of a run: acknowledgements in order, then possibly one report
    of an error. *)
Definition ack_calls (acks : list AckBody) (calls : list AckCall) : Prop :=
  exists k tail, calls = map ack_call (take k acks) ++ tail /\
    (tail = [] \/ exists code, tail = [error_call code]).

Lemma loop_spec turns acks (c : Client Net) :
  Forall AckBody_wf acks -> incoming (net c) = concat (map ack_bytes acks) ->
  exists calls c', AckReceiverLoop turns c = Some (calls, c') /\ ack_calls acks calls.
Proof.
  revert acks c. induction turns as [|[running sel] turns IH]; intros acks c Hwf Hin.
  { exists [], c. split; [done|]. exists 0%nat, []. auto. }
  cbn [AckReceiverLoop]. case_if; [exists [], c; split; [done|]; exists 0%nat, []; auto|].
  destruct sel.
  - eexists _, c. split; [done|]. exists 0%nat, [error_call (-1)]. eauto.
  - by apply IH.
  - destruct acks as [|a acks].
    + destruct (ack_turn_end c Hin) as (c' & ->). cbn. eexists _, c'. split; [done|].
      exists 0%nat, [error_call (-2)]. eauto.
    + apply Forall_cons in Hwf as [Ha Hwf]. cbn in Hin.
      destruct (ack_turn_spec a _ c Ha Hin) as (call & [] & c1 & -> & Hc); cbn.
      * destruct Hc as [-> Hin1]. destruct (IH acks c1 Hwf Hin1)
          as (calls & c2 & -> & k & tail & -> & Ht).
        eexists _, c2. split; [done|]. by exists (S k), tail.
      * destruct Hc as [code ->]. eexists _, c1. split; [done|].
        exists 0%nat, [error_call code]. eauto.
Qed.

Lemma loop_reliable `{!Reliable Net} n acks (c : Client Net) :
  Forall AckBody_wf acks -> incoming (net c) = concat (map ack_bytes acks) ->
  (n <= length acks)%nat ->
  exists c', AckReceiverLoop (replicate n (true, SelectReady)) c
             = Some (map ack_call (take n acks), c') /\
    incoming (net c') = concat (map ack_bytes (drop n acks)).
Proof.
  revert acks c. induction n as [|n IH]; intros acks c Hwf Hin Hn; [by exists c|].
  destruct acks as [|a acks]; [cbn in Hn; lia|]. apply Forall_cons in Hwf as [Ha Hwf].
  cbn in Hin, Hn. cbn [replicate AckReceiverLoop negb].
  destruct (ack_turn_reliable a _ c Ha Hin) as (c1 & -> & Hin1). cbn.
  destruct (IH acks c1 Hwf Hin1) as (c2 & -> & Hin2); [lia|]. by exists c2.
Qed.

(** Sending on a reliable socket succeeds. *)
Lemma send_loop_reliable `{!Reliable Net} fuel data (c : Client Net) ok c' :
  send_loop fuel data c = Some (ok, c') -> ok = true.
Proof.
  revert data c. induction fuel as [|fuel IH]; intros [|x data] c; cbn [send_loop];
    [by intros [= <- <-]|done|by intros [= <- <-]|].
  destruct (reliable_send (x :: data) (net c)) as (n & n' & ->); [done|]. apply IH.
Qed.

Lemma send_parts_reliable `{!Reliable Net} parts (c : Client Net) :
  Forall (fun p => zlen (p.1) = p.2) parts ->
  exists c', send_parts parts c = Some (true, c') /\ incoming (net c') = incoming (net c).
Proof.
  intros Hp. destruct (send_parts_spec parts c Hp) as (ok & c' & Hrun & Hin & _).
  exists c'. split; [|done]. assert (ok = true) as <-; [|done]. clear Hin.
  revert c Hrun. induction Hp as [|[d size] parts Hd Hp IH]; intros c; cbn [send_parts].
  { by intros [= <- <-]. }
  destruct (SendAll d size c) as [[b c1]|] eqn:E; [|done]. cbn.
  assert (b = true) as ->.
  { unfold SendAll in E. destruct (size <=? 0); [congruence|].
    destruct (memcpy_from _ _ _); [|done]. by apply send_loop_reliable in E. }
  apply IH.
Qed.

Lemma block_parts_sent `{!Reliable Net} d i raw data h v (c : Client Net) :
  call_ok (CallBlock true d i raw data h v) ->
  exists c', send_parts (block_parts d i raw data (zlen data) h v) c = Some (true, c') /\
    incoming (net c') = incoming (net c).
Proof.
  intros (_ & _ & _ & _ & _ & Hmax & _ & Hlen). apply send_parts_reliable.
  by apply block_parts_sizes.
Qed.
End receive.

(** A call carries the fields of an acknowledgement. *)
Definition reports (a : AckBody) (call : AckCall) : Prop :=
  cb_devNo call = ack_DevNo a /\ cb_blockIndex call = ack_BlockIndex a /\
  cb_hash call = ack_Hash a /\ cb_status call = ack_Status a.

Lemma ack_call_reports acks : Forall2 reports acks (map ack_call acks).
Proof. induction acks as [|a acks IH]; cbn; constructor; [|done]. by split_and!. Qed.

(** ** The properties *)

(** C22: the receiver thread decodes the server's acknowledgements.  When the
    incoming stream is a sequence of acknowledgements as the server sends
    them, then however the socket cuts and whenever it fails, the callback is
    called with a prefix of them, field by field and in order, followed by at
    most one error report, which ends the loop; on a reliable socket every
    turn with data delivers the next acknowledgement. *)
Theorem ack_receiver_decodes {Net} `{SocketLaws Net} acks turns (c : Client Net) :
  Forall AckBody_wf acks -> incoming (net c) = concat (map ack_bytes acks) ->
  (exists calls tail c' k, AckReceiverLoop turns c = Some (calls ++ tail, c') /\
     Forall2 reports (take k acks) calls /\ (tail = [] \/ exists code, tail = [error_call code])) /\
  (Reliable Net -> forall n, (n <= length acks)%nat ->
    exists calls c', AckReceiverLoop (replicate n (true, SelectReady)) c = Some (calls, c') /\
      Forall2 reports (take n acks) calls).
Proof.
  intros Hwf Hin. split.
  - destruct (loop_spec turns acks c Hwf Hin) as (calls & c' & E & k & tail & -> & Ht).
    exists (map ack_call (take k acks)), tail, c', k. split; [done|]. by split; [apply ack_call_reports|].
  - intros HR n Hn. destruct (loop_reliable n acks c Hwf Hin Hn) as (c' & ? & _).
    eexists _, c'. by split; [|apply ack_call_reports].
Qed.

Definition demo_ack (i st : Z) : AckBody :=
  {| ack_BlockIndex := i; ack_Status := st; ack_DevNo := 7; ack_Hash := zeros 32 |}.

Lemma demo_ack_wf i st : in_width 64 i -> in_width 32 st -> AckBody_wf (demo_ack i st).
Proof. intros. unfold AckBody_wf. by split_and!. Qed.

Lemma ack_receiver_decodes_witness :
  exists calls c', AckReceiverLoop (replicate 2 (true, SelectReady))
      (demo_client (concat (map ack_bytes [demo_ack 4 0; demo_ack 5 1]))) = Some (calls, c') /\
    Forall2 reports [demo_ack 4 0; demo_ack 5 1] calls.
Proof.
  destruct (ack_receiver_decodes [demo_ack 4 0; demo_ack 5 1] []
    (demo_client (concat (map ack_bytes [demo_ack 4 0; demo_ack 5 1])))) as [_ H].
  - rewrite !Forall_cons, Forall_nil. unfold in_width.
    split_and!; [apply demo_ack_wf; unfold in_width; lia..|done].
  - reflexivity.
  - apply (H demo_socket_reliable 2%nat). cbn. lia.
Defined.

(** the synchronous client does not check which block is acknowledged.
    On a reliable socket [SendBlock] returns [true] for any acknowledgement
    with status 0, whatever block and device it names. *)
Theorem SendBlock_accepts_any_ack {Net} `{SocketLaws Net} `{!Reliable Net}
    d i raw data h v (c : Client Net) a rest :
  call_ok (CallBlock true d i raw data h v) -> m_connected c = true ->
  AckBody_wf a -> ack_Status a = 0 -> incoming (net c) = ack_bytes a ++ rest ->
  exists c', SendBlock d i raw data (zlen data) h v c = Some (true, c').
Proof.
  intros Hk Hc Ha Hs Hin. unfold SendBlock. rewrite Hc. cbn [negb].
  destruct (block_parts_sent d i raw data h v c Hk) as (c1 & -> & Hin1). cbn [mbind option_bind].
  rewrite Hin in Hin1. destruct (ReceiveAck_reliable d i a rest c1 Ha Hin1) as (c2 & -> & _).
  rewrite Hs. by exists c2.
Qed.

Lemma SendBlock_accepts_any_ack_witness :
  exists c', SendBlock 7 3 4 [120; 1] 2 (zeros 32) 1 (demo_client (ack_bytes (demo_ack 9 0)))
             = Some (true, c').
Proof.
  apply (SendBlock_accepts_any_ack 7 3 4 [120; 1] (zeros 32) 1
    (demo_client (ack_bytes (demo_ack 9 0))) (demo_ack 9 0) []).
  - unfold call_ok. split_and!; apply (bool_decide_unpack _); vm_compute; exact I.
  - reflexivity.
  - apply demo_ack_wf; unfold in_width; lia.
  - reflexivity.
  - vm_compute. reflexivity.
Defined.
