(* ===== verification/EndToEnd.v ===== *)
(** * End to end: the blocks a client sends become the disk of the server

    The client cuts an image into blocks of [BLOCK_SIZE], compresses and
    hashes each and sends them ([client/BackupEngine.cpp] drives
    [NetworkClient::SendBlockNoWait]); the server's session stores them. *)

From S2P Require Import Prelude Protocol RingBuffer MessageParser DiskMap BlockProcessor.
From S2P Require Import Server ServerSpec NetworkClient.

(** ** What the client sends for an image *)

Definition block_of (image : list Z) (i : Z) : list Z := sub (i * BLOCK_SIZE) BLOCK_SIZE image.

Definition block_index_ok (image : list Z) (i : Z) : Prop :=
  0 <= i /\ i * BLOCK_SIZE < zlen image.

(** The client's compressor, the inverse of the server's [uncompress2] on
    blocks, and a file that takes writes whole. *)
Class BackupEnv `{Library} := {
  compress : list Z -> list Z;
  compress_inverse raw :
    bytes_ok raw -> 0 < zlen raw <= BLOCK_SIZE ->
    uncompress2 RAW_BUF_SIZE (compress raw) = (Z_OK, raw);
  compress_small raw :
    bytes_ok raw -> 0 < zlen raw <= BLOCK_SIZE -> zlen (compress raw) <= BLOCK_SIZE * 2;
  compress_bytes raw : bytes_ok raw -> bytes_ok (compress raw);
  SHA256_bytes d : bytes_ok d -> bytes_ok (SHA256 d);
  pwrite_whole fd d off fs f :
    fs !! fd = Some f -> 0 <= off -> off + zlen d <= zlen f -> (pwrite fd d off fs).1 = zlen d;
}.

Definition block_call `{BackupEnv} (devno versionId : Z) (image : list Z) (i : Z) : client_call :=
  let raw := block_of image i in
  CallBlock false devno i (zlen raw) (compress raw) (SHA256 raw) versionId.

Definition ok_ack `{Library} (devno : Z) (image : list Z) (i : Z) : AckBody :=
  {| ack_BlockIndex := i; ack_Status := AckStatus_to_Z OK; ack_DevNo := devno;
     ack_Hash := SHA256 (block_of image i) |}.

(** The image with the blocks of [ixs] stored over [f]. *)
Definition stored (image f : list Z) (ixs : list Z) (f' : list Z) : Prop :=
  length f' = length f /\
  forall p : nat, f' !! p =
    if decide (Z.of_nat p / BLOCK_SIZE ∈ ixs /\ Z.of_nat p < zlen image) then image !! p
    else f !! p.

(** ** Lemmas *)

Lemma overwrite_lookup off d f (p : nat) :
  0 <= off -> off + zlen d <= zlen f ->
  overwrite off d f !! p =
    if decide (off <= Z.of_nat p < off + zlen d) then d !! (p - Z.to_nat off)%nat else f !! p.
Proof.
  intros Ho Hl. unfold overwrite.
  replace (zeros (off - zlen f)) with (@nil Z)
    by (unfold zeros; by replace (Z.to_nat (off - zlen f)) with 0%nat by lia).
  cbn [app]. destruct (decide _) as [Hin|Hout].
  - rewrite lookup_app_r by len_solve. rewrite lookup_app_l by len_solve.
    f_equal. len_solve.
  - destruct (Z.lt_ge_cases (Z.of_nat p) off).
    + rewrite lookup_app_l by len_solve. rewrite lookup_take_lt by lia. done.
    + rewrite lookup_app_r by len_solve. rewrite lookup_app_r by len_solve.
      rewrite lookup_drop. f_equal. len_solve.
Qed.

Lemma block_of_length image i :
  block_index_ok image i ->
  0 < zlen (block_of image i) <= BLOCK_SIZE /\
  i * BLOCK_SIZE + zlen (block_of image i) <= zlen image /\
  (zlen (block_of image i) = BLOCK_SIZE \/ i * BLOCK_SIZE + zlen (block_of image i) = zlen image).
Proof.
  intros [Hi Hl]. unfold block_of, sub. rewrite length_take, length_drop.
  unfold BLOCK_SIZE in *. lia.
Qed.

Lemma block_of_lookup image i (k : nat) :
  0 <= i -> Z.of_nat k < BLOCK_SIZE ->
  block_of image i !! k = image !! (Z.to_nat (i * BLOCK_SIZE) + k)%nat.
Proof.
  intros Hi Hk. unfold block_of, sub. rewrite lookup_take_lt by lia. by rewrite lookup_drop.
Qed.

(** One more stored block. *)
Lemma stored_cons image f i ixs f' :
  block_index_ok image i -> zlen image <= zlen f ->
  stored image (overwrite (i * BLOCK_SIZE) (block_of image i) f) ixs f' ->
  stored image f (i :: ixs) f'.
Proof.
  intros Hi Hl [H1 H2]. pose proof (block_of_length image i Hi) as (L1 & L2 & L3).
  assert (0 <= i * BLOCK_SIZE) as Ho by (destruct Hi; unfold BLOCK_SIZE; lia).
  split; [rewrite H1; apply overwrite_length; lia|]. intros p. rewrite H2.
  assert (i * BLOCK_SIZE <= Z.of_nat p < i * BLOCK_SIZE + zlen (block_of image i) <->
          Z.of_nat p / BLOCK_SIZE = i /\ Z.of_nat p < zlen image) as Hp.
  { unfold BLOCK_SIZE in *. pose proof (Z.div_mod (Z.of_nat p) (1024 * 1024)).
    pose proof (Z.mod_pos_bound (Z.of_nat p) (1024 * 1024)). nia. }
  destruct (decide (Z.of_nat p / BLOCK_SIZE ∈ ixs /\ Z.of_nat p < zlen image)) as [[Hin Hlt]|Hn].
  - rewrite decide_True; [done|]. split; [rewrite elem_of_cons; by right|done].
  - rewrite overwrite_lookup by lia. destruct (decide _) as [Hr|Hr].
    + rewrite decide_True by (rewrite elem_of_cons; apply Hp in Hr; tauto).
      rewrite block_of_lookup; [f_equal; lia|by destruct Hi|lia].
    + rewrite decide_False; [done|]. rewrite elem_of_cons. rewrite Hp in Hr. tauto.
Qed.

Lemma stored_nil image f : stored image f [] f.
Proof.
  split; [done|]. intros p. rewrite decide_False; [done|]. intros [Hin _].
  by apply elem_of_nil in Hin.
Qed.

Section serve.
Context `{LibraryLaws} `{!BackupEnv}.
Context (disks : gmap Z BackingFile) (devno versionId : Z) (image : list Z).
Hypothesis image_ok : bytes_ok image.
Hypothesis version_ok : in_width 32 versionId.

(** The session stores one block. *)
Lemma serve_stores i s bf f :
  block_index_ok image i -> zlen image <= zlen f ->
  disks !! devno = Some bf -> s_files s !! bf_fd bf = Some f ->
  zlen f = bf_size_bytes bf -> zlen f < 2 ^ 63 -> s_hello s = true ->
  exists s', serve_one disks (call_msg (block_call devno versionId image i)) s = (s', false) /\
    s_hello s' = true /\ s_acks s' = s_acks s ++ [ok_ack devno image i] /\
    s_files s' = <[bf_fd bf := overwrite (i * BLOCK_SIZE) (block_of image i) f]> (s_files s).
Proof.
  intros Hi Hl Hd Hf Hsz Hmax Hh. pose proof (block_of_length image i Hi) as (L1 & L2 & _).
  assert (bytes_ok (block_of image i)) as Hraw by by apply bytes_ok_sub.
  set (raw := block_of image i) in *.
  pose proof (compress_small raw Hraw L1) as Hsmall. pose proof (SHA256_length raw) as Hsha.
  set (bh := block_header i (zlen raw) (zlen (compress raw)) (SHA256 raw) versionId).
  assert (BlockHeader_wf bh) as Hwf.
  { destruct Hi. unfold BlockHeader_wf, in_width, BLOCK_SIZE in *; cbn. lia. }
  pose proof (enc_BlockHeader_length bh Hsha) as Hbl. unfold BLOCK_HEADER_SIZE in Hbl.
  assert (Process disks devno bh (compress raw) (s_files s)
          = Some (OK, with_status (init_ack devno bh) OK,
                  <[bf_fd bf := overwrite (i * BLOCK_SIZE) raw f]> (s_files s))) as Hp.
  { destruct Hi. eapply (Process_stores disks devno bh); try done; cbn; try lia.
    - by apply compress_inverse.
    - apply (pwrite_whole _ _ _ _ f); [done|unfold BLOCK_SIZE; lia|lia]. }
  unfold serve_one. cbn [call_msg block_call pm_header pm_body]. fold raw bh.
  change (MessageType_of_Z _) with (Some DATA_BLOCK). cbv iota.
  change (mh_DevNo (client_header DATA_BLOCK devno)) with devno.
  unfold serve_block. rewrite Hh. cbn [negb]. rewrite BlockHeader_roundtrip by done.
  rewrite drop_app_length' by lia. rewrite Hp.
  eexists. split; [reflexivity|]. done.
Qed.

Lemma serve_blocks ixs s bf f :
  Forall (block_index_ok image) ixs -> zlen image <= zlen f ->
  disks !! devno = Some bf -> s_files s !! bf_fd bf = Some f ->
  zlen f = bf_size_bytes bf -> zlen f < 2 ^ 63 -> s_hello s = true ->
  exists s' f', serve disks (map (fun i => call_msg (block_call devno versionId image i)) ixs) s
                = (s', false) /\
    s_acks s' = s_acks s ++ map (ok_ack devno image) ixs /\
    s_files s' = <[bf_fd bf := f']> (s_files s) /\ stored image f ixs f'.
Proof.
  intros His. revert s f. induction His as [|i ixs Hi His IH]; intros s f Hl Hd Hf Hsz Hmax Hh.
  { exists s, f. split_and!; [done|by rewrite app_nil_r|by rewrite insert_id|apply stored_nil]. }
  cbn [map serve].
  destruct (serve_stores i s bf f Hi Hl Hd Hf Hsz Hmax Hh) as (s1 & -> & Hh1 & Ha1 & Hf1).
  pose proof (block_of_length image i Hi) as (L1 & L2 & _).
  assert (length (overwrite (i * BLOCK_SIZE) (block_of image i) f) = length f) as Hol.
  { destruct Hi. apply overwrite_length; [unfold BLOCK_SIZE; lia|lia]. }
  destruct (IH s1 (overwrite (i * BLOCK_SIZE) (block_of image i) f))
    as (s' & f' & -> & Ha & Hf' & Hst); rewrite ?Hol; try done.
  { by rewrite Hf1, lookup_insert_eq. }
  exists s', f'. split_and!; [done| | |by apply stored_cons].
  - rewrite Ha, Ha1. cbn. by rewrite <- app_assoc.
  - by rewrite Hf', Hf1, insert_insert_eq.
Qed.
End serve.

(** When the blocks that are not sent agree, the result is the image. *)
Lemma stored_image image f ixs f' :
  length f = length image -> stored image f ixs f' ->
  (forall i, block_index_ok image i -> i ∉ ixs -> block_of f i = block_of image i) ->
  f' = image.
Proof.
  intros Hl [H1 H2] Hsame. apply list_eq. intros p. rewrite H2.
  destruct (decide _) as [|Hn]; [done|].
  destruct (decide (Z.of_nat p < zlen image)) as [Hp|Hp].
  2:{ rewrite !lookup_ge_None_2 by lia. done. }
  set (i := Z.of_nat p / BLOCK_SIZE) in *.
  pose proof (Z.div_mod (Z.of_nat p) BLOCK_SIZE) as Hdm.
  pose proof (Z.mod_pos_bound (Z.of_nat p) BLOCK_SIZE) as Hmb. fold i in Hdm.
  assert (block_index_ok image i) as Hi.
  { unfold block_index_ok, BLOCK_SIZE in *. nia. }
  specialize (Hsame i Hi ltac:(tauto)).
  assert (Z.to_nat (Z.of_nat p mod BLOCK_SIZE) = Z.to_nat (Z.of_nat p mod BLOCK_SIZE)) as _ by done.
  pose proof (f_equal (.!! Z.to_nat (Z.of_nat p mod BLOCK_SIZE)) Hsame) as Hk. cbv beta in Hk.
  destruct Hi as [Hi _].
  rewrite !block_of_lookup in Hk by (unfold BLOCK_SIZE in *; lia).
  replace (Z.to_nat (i * BLOCK_SIZE) + Z.to_nat (Z.of_nat p mod BLOCK_SIZE))%nat with p in Hk
    by (unfold BLOCK_SIZE in *; lia).
  done.
Qed.

Lemma take_min_length {A} n (l : list A) : take (min n (length l)) l = take n l.
Proof.
  destruct (Nat.le_gt_cases n (length l)); [by rewrite Nat.min_l|]. rewrite Nat.min_r, !take_ge by lia. done.
Qed.

(** A prefix of whole messages: some of them, and part of the next. *)
Lemma prefix_of_messages ms : forall got, got `prefix_of` concat (map msg_bytes ms) ->
  exists n part, got = concat (map msg_bytes (take n ms)) ++ part /\ on_wire ms n part.
Proof.
  induction ms as [|m ms IH]; intros got Hgot.
  { apply prefix_nil_inv in Hgot as ->. exists 0%nat, []. split; [done|by left]. }
  cbn [map concat] in Hgot.
  destruct (prefix_weak_total got (msg_bytes m) _ Hgot) as [Hpre|[rest ->]]; [by apply prefix_app_r| |].
  - destruct (decide (zlen (msg_bytes m) <= zlen got)) as [Hl|Hl].
    + exists 1%nat, []. split; [|by left]. cbn [take map concat]. rewrite !app_nil_r.
      apply prefix_length_eq; [done|lia].
    + exists 0%nat, got. split; [done|]. right. exists m. rewrite <- msg_bytes_length. split_and!; [done..|lia].
  - apply prefix_app_inv in Hgot. destruct (IH rest Hgot) as (n & part & -> & Hp).
    exists (S n), part. cbn [take map concat]. by rewrite <- app_assoc.
Qed.

(** ** The property *)

Definition fresh_session (files : Files) : Session :=
  {| s_hello := false; s_devno := 0; s_blocks := 0; s_bytes := 0; s_errors := 0;
     s_files := files; s_acks := [] |}.

(** The calls of a backup: HELLO, then the blocks [ixs] of the image. *)
Definition backup_calls `{BackupEnv} (devno versionId : Z) (vtype image : list Z)
    (ixs : list Z) : list client_call :=
  CallHello versionId devno (Z.of_nat (length ixs)) (zlen image) vtype
  :: map (block_call devno versionId image) ixs.

(** The session after the greeting. *)
Definition greeted `{Library} (devno : Z) (s : Session) : Session :=
  {| s_hello := true; s_devno := devno; s_blocks := s_blocks s; s_bytes := s_bytes s;
     s_errors := s_errors s; s_files := s_files s;
     s_acks := s_acks s ++ [plain_ack devno OK] |}.

Lemma serve_hello_ok `{Library} disks v d n size u bf s :
  in_width 32 v -> in_width 32 d -> in_width 64 n -> in_width 64 size ->
  disks !! d = Some bf -> size <= bf_size_bytes bf -> s_hello s = false ->
  serve_one disks (call_msg (CallHello v d n size u)) s = (greeted d s, false).
Proof.
  intros Hv Hd Hn Hs Hbf Hsz Hh. unfold serve_one. cbn [call_msg pm_header pm_body].
  change (MessageType_of_Z _) with (Some HELLO). cbv iota.
  rewrite <- (app_nil_r (enc_HelloBody _)), HelloBody_roundtrip.
  2:{ unfold HelloBody_wf; cbn. rewrite version_type_length. by split_and!. }
  unfold serve_hello. rewrite Hh. cbn [hello_body hb_DevNo hb_TotalSize]. rewrite Hbf.
  by test_false (bf_size_bytes bf <? size).
Qed.

Lemma block_call_ok `{LibraryLaws} `{!BackupEnv} devno versionId image i :
  bytes_ok image -> in_width 32 devno -> in_width 32 versionId -> zlen image < 2 ^ 63 ->
  block_index_ok image i -> call_ok (block_call devno versionId image i).
Proof.
  intros Himg Hdev Hver Hlen Hi. pose proof (block_of_length image i Hi) as (L1 & L2 & _).
  assert (bytes_ok (block_of image i)) as Hr by by apply bytes_ok_sub.
  cbn. split_and!; try done; try (by apply compress_small); try apply SHA256_length;
    try (by apply compress_bytes); try (by apply SHA256_bytes);
    destruct Hi; unfold in_width, BLOCK_SIZE in *; lia.
Qed.

(** end to end.  A client that greets the server and sends the blocks
    [ixs] of an image, every call reporting success, over any socket that
    behaves like one, leaves the image on the server's backing file, provided
    the blocks it did not send are already there: the full backup ([ixs] is
    every block) and the incremental one (the rest is unchanged).  The server
    answers one OK per message, in order, echoing index and hash, keeps the
    connection, and no other file changes. *)
Theorem backup_end_to_end `{LibraryLaws} `{!BackupEnv} {Net} `{SocketLaws Net}
    disks devno versionId vtype image ixs (c c' : Client Net) bs bf f files :
  bytes_ok image -> in_width 32 devno -> in_width 32 versionId -> Forall (in_width 16) vtype ->
  Forall (block_index_ok image) ixs -> zlen image < 2 ^ 63 -> Z.of_nat (length ixs) < 2 ^ 64 ->
  disks_match disks files -> disks !! devno = Some bf -> files !! bf_fd bf = Some f ->
  length f = length image ->
  (forall i, block_index_ok image i -> i ∉ ixs -> block_of f i = block_of image i) ->
  m_connected c = true -> outgoing (net c) = [] ->
  exec_calls (backup_calls devno versionId vtype image ixs) c = Some (bs, c') ->
  Forall (eq true) bs ->
  exists s, serve disks (stream (outgoing (net c'))).1.1 (fresh_session files) = (s, false) /\
    s_files s = <[bf_fd bf := image]> files /\
    s_acks s = plain_ack devno OK :: map (ok_ack devno image) ixs.
Proof.
  intros Himg Hdev Hver Hvt Hix Hlen Hcount Hdm Hd Hf Hl Hsame Hc Ho Hrun Hbs.
  destruct (proj1 Hdm devno bf Hd) as (f0 & Hf0 & Hsz & Hmax).
  assert (f0 = f) as -> by congruence.
  assert (Forall call_ok (backup_calls devno versionId vtype image ixs)) as Hks.
  { constructor; [unfold call_ok, in_width in *; split_and!; (done || lia)|].
    apply Forall_map. eapply Forall_impl; [exact Hix|]. intros i Hi. by apply block_call_ok. }
  destruct (exec_calls_spec _ c Hks Hc)
    as (bs' & c2 & Hrun2 & Hlb & n & part & Hn & Ho' & Hp & Hb).
  rewrite Hrun in Hrun2. injection Hrun2 as <- <-. rewrite Ho', Ho. cbn [app].
  rewrite on_wire_stream by done. cbn [fst].
  assert (length (map call_msg (backup_calls devno versionId vtype image ixs)) <= n)%nat as Hall.
  { rewrite length_map, <- Hlb. destruct (Nat.le_gt_cases (length bs) n) as [|Hgt]; [done|].
    destruct (lookup_lt_is_Some_2 bs n Hgt) as [b Eb].
    pose proof (Forall_lookup_1 _ _ _ _ Hbs Eb) as <-. apply Hb in Eb. lia. }
  rewrite take_ge by done. cbn [backup_calls map serve].
  rewrite serve_hello_ok with (bf := bf) by (unfold in_width in *; done || lia).
  destruct (serve_blocks disks devno versionId image Himg Hver ixs
    (greeted devno (fresh_session files)) bf f) as (s & f' & Hs & Ha & Hfs & Hst);
    try done; try lia.
  rewrite map_map. exists s. split; [exact Hs|].
  rewrite (stored_image image f ixs f' Hl Hst Hsame) in Hfs. by split.
Qed.

Lemma pad32_bytes d : bytes_ok d -> bytes_ok (pad32 d).
Proof. intros H. apply bytes_ok_take, bytes_ok_app. auto with cbt. Qed.

#[export] Instance demo_env : @BackupEnv demo_library.
Proof.
  refine (@Build_BackupEnv demo_library (fun raw : list Z => raw) _ _ _ _ _); cbn; [| | |apply pad32_bytes|].
  - intros raw _ Hr. case_if; [|done]. unfold RAW_BUF_SIZE, BLOCK_SIZE in *. lia.
  - intros raw _ Hr. unfold BLOCK_SIZE in *. lia.
  - done.
  - intros fd d off fs f -> Ho Hl. case_if; [lia|done].
Defined.

(** A reply to the greeting is waiting; the image has one short block. *)
Lemma backup_end_to_end_witness :
  let image := [9; 8; 7; 6] in
  let c := demo_client (ack_bytes (plain_ack 7 OK)) in
  exists bs c' s,
    exec_calls (@backup_calls demo_library demo_env 7 1 [70; 85] image [0]) c = Some (bs, c') /\
    @serve demo_library demo_disks (stream (outgoing (net c'))).1.1 (fresh_session demo_files)
    = (s, false) /\ s_files s = <[3 := image]> demo_files.
Proof.
  set (image := [9; 8; 7; 6]). set (c := demo_client (ack_bytes (plain_ack 7 OK))).
  destruct (@exec_calls DemoNet demo_socket
    (@backup_calls demo_library demo_env 7 1 [70; 85] image [0]) c) as [[bs c']|] eqn:E;
    [|vm_compute in E; discriminate E].
  destruct (@backup_end_to_end demo_library demo_library_laws demo_env DemoNet demo_socket
    demo_socket_laws demo_disks 7 1 [70; 85] image [0] c c' bs
    {| bf_fd := 3; bf_size_bytes := 4; bf_path := [] |} [1; 2; 3; 4] demo_files)
    as (s & Hs & Hf & _).
  - unfold image. repeat constructor; unfold in_width; lia.
  - unfold in_width. lia.
  - unfold in_width. lia.
  - repeat constructor; unfold in_width; lia.
  - repeat constructor; cbn; lia.
  - cbn. lia.
  - cbn. lia.
  - apply demo_disks_match.
  - reflexivity.
  - reflexivity.
  - reflexivity.
  - intros i [Hi Hl] Hn. change (zlen image) with 4 in Hl. unfold BLOCK_SIZE in Hl.
    exfalso. apply Hn. rewrite elem_of_cons. left. lia.
  - reflexivity.
  - reflexivity.
  - exact E.
  - vm_compute in E. injection E as <- _. repeat constructor.
  - exists bs, c', s. by split_and!.
Defined.
