(* ===== verification/ConcurrentBackups.v ===== *)
(** * Several clients at once

    The server serves every connection in one loop, a [recv] at a time, so the
    messages of several clients interleave at any place, also in the middle of a
    message.  Here each connection carries a backup of its own, possibly of a
    disk that another one backs up too, and the theorem says what every client
    is answered and what the files hold. *)

From S2P Require Import Prelude.
From S2P Require Import Protocol.
From S2P Require Import RingBuffer.
From S2P Require Import MessageParser.
From S2P Require Import DiskMap.
From S2P Require Import BlockProcessor.
From S2P Require Import Server.
From S2P Require Import ServerSpec.
From S2P Require Import NetworkClient.
From S2P Require Import EndToEnd.

(** ** The clients and the loop *)

(** What a connection carries: the greeting and the blocks [b_ixs] of an image. *)
Record Backup := {
  b_devno : Z; b_version : Z; b_vtype : list Z; b_image : list Z; b_ixs : list Z }.

Inductive Event := Reads (r : Z) (d : list Z) | Drains (r : Z).

(** The bytes connection [r] has been given. *)
Definition received (r : Z) (evs : list Event) : list Z :=
  concat (map (fun e => match e with
                        | Reads r' d => if decide (r' = r) then d else []
                        | Drains _ => []
                        end) evs).

Definition arrived (res : RecvResult) : list Z :=
  match res with RecvData d => d | _ => [] end.

Section clients.
Context `{BackupEnv} (disks : gmap Z BackingFile) (backups : gmap Z Backup).

Definition calls (b : Backup) : list client_call :=
  backup_calls (b_devno b) (b_version b) (b_vtype b) (b_image b) (b_ixs b).

Definition answers (b : Backup) : list AckBody :=
  plain_ack (b_devno b) OK :: map (ok_ack (b_devno b) (b_image b)) (b_ixs b).

Definition wire (b : Backup) : list Z := concat (map msg_bytes (map call_msg (calls b))).

Record Backup_ok (b : Backup) : Prop := {
  bo_bytes : bytes_ok (b_image b);
  bo_size : zlen (b_image b) < 2 ^ 63;
  bo_devno : in_width 32 (b_devno b);
  bo_version : in_width 32 (b_version b);
  bo_vtype : Forall (in_width 16) (b_vtype b);
  bo_ixs : Forall (block_index_ok (b_image b)) (b_ixs b);
  bo_count : Z.of_nat (length (b_ixs b)) < 2 ^ 64;
  bo_disk : exists bf, disks !! b_devno b = Some bf /\ bf_size_bytes bf = zlen (b_image b) }.

(** The backup whose block [i] of disk [d] was stored last. *)
Definition last_writer (d i : Z) (log : list (Z * Z)) : option Backup :=
  foldl (fun acc p => match backups !! p.1 with
                      | Some b => if decide (p.2 = i /\ b_devno b = d) then Some b else acc
                      | None => acc
                      end) None log.

(** The blocks that were stored on behalf of [r], in order. *)
Definition stored_for (r : Z) (log : list (Z * Z)) : list Z :=
  map snd (filter (fun p => p.1 = r) log).

(** The states of the loop: rounds of [HandleConnReadable] ([recv], then
    [ProcessMessages]) and calls of [HandleConnWritable], in any order. *)
Inductive serving `{Kernel} (w0 : World) : list Event -> World -> Prop :=
| serving_start : serving w0 [] w0
| serving_reads evs w r c res w1 :
    serving w0 evs w -> is_Some (backups !! r) -> conns w !! r = Some c ->
    recv_on r c w = (Ret res, w1) ->
    (exists d, res = RecvData d) \/ res = RecvError EAGAIN ->
    serving w0 (evs ++ [Reads r (arrived res)]) (ProcessMessages disks r w1).2
| serving_drains evs w r :
    serving w0 evs w -> is_Some (backups !! r) ->
    serving w0 (evs ++ [Drains r]) (HandleConnWritable r w).2.

(** ** Lemmas on the log *)

Lemma received_snoc r evs e : received r (evs ++ [e]) = received r evs ++ received r [e].
Proof. unfold received. by rewrite map_app, concat_app. Qed.

Lemma received_same r d : received r [Reads r d] = d.
Proof. unfold received. cbn. rewrite decide_True by done. apply app_nil_r. Qed.

Lemma received_other r r' d : r' <> r -> received r [Reads r' d] = [].
Proof. intros. unfold received. cbn. by rewrite decide_False. Qed.

Lemma stored_for_app r log log' : stored_for r (log ++ log') = stored_for r log ++ stored_for r log'.
Proof. unfold stored_for. by rewrite filter_app, map_app. Qed.

Lemma stored_for_same r ixs : stored_for r (map (pair r) ixs) = ixs.
Proof.
  unfold stored_for. induction ixs as [|i ixs IH]; [done|]. cbn [map].
  rewrite filter_cons_True by done. cbn. by f_equal.
Qed.

Lemma stored_for_other r r' ixs : r' <> r -> stored_for r (map (pair r') ixs) = [].
Proof.
  intros Hne. unfold stored_for. induction ixs as [|i ixs IH]; [done|]. cbn [map].
  by rewrite filter_cons_False by (cbn; congruence).
Qed.

Lemma last_writer_app d i log r b ixs :
  backups !! r = Some b ->
  last_writer d i (log ++ map (pair r) ixs) =
    if decide (i ∈ ixs /\ b_devno b = d) then Some b else last_writer d i log.
Proof.
  intros Hb. unfold last_writer. rewrite foldl_app. fold (last_writer d i log).
  generalize (last_writer d i log). induction ixs as [|j ixs IH]; intros acc; cbn [map foldl fst snd].
  { rewrite decide_False; [done|]. intros [Hin _]. by apply elem_of_nil in Hin. }
  rewrite Hb, IH. destruct (decide (i ∈ ixs /\ b_devno b = d)) as [Hin|Hn].
  - rewrite decide_True; [done|]. rewrite elem_of_cons. tauto.
  - destruct (decide (j = i /\ b_devno b = d)) as [[-> Hd]|Hj].
    + rewrite decide_True; [done|]. rewrite elem_of_cons. tauto.
    + rewrite decide_False; [done|]. rewrite elem_of_cons. intros [[->|?] ?]; tauto.
Qed.
End clients.

(** ** One connection *)

(** What [recv] delivers is appended. *)
Lemma recv_arrives recv rb res rb' :
  RingBuffer_ok rb -> recv_ok recv -> WriteFromFd recv rb = (res, rb') ->
  (exists d, res = RecvData d) \/ res = RecvError EAGAIN ->
  RingBuffer_ok rb' /\ contents rb' = contents rb ++ arrived res.
Proof.
  intros Hok Hr E Hres. destruct (decide (ReadableBytes rb = zlen (rb_buf rb))) as [Ef|Ef].
  { rewrite WriteFromFd_full in E by done. injection E as <- _. by destruct Hres as [[d [=]]|[=]]. }
  destruct (WriteFromFd_room recv rb Hok Hr) as (len & _ & Hw).
  { unfold RingBuffer_ok, ReadableBytes in *. lia. }
  rewrite E in Hw. destruct Hw as (_ & Hok' & _ & Hc). split; [done|]. exact Hc.
Qed.

Section connection.
Context `{KernelLaws} `{LibraryLaws} `{!BackupEnv}.
Context (disks : gmap Z BackingFile) (w0 : World) (r : Z) (b : Backup).
Hypothesis soft : send_soft.
Hypothesis b_ok : Backup_ok disks b.

(** After [n] messages of the backup, with the bytes [got]. *)
Definition progress (n : nat) (got : list Z) (w : World) : Prop :=
  exists c c0, conns w !! r = Some c /\ conns w0 !! r = Some c0 /\ Conn_ok r c /\
    stream got = (map call_msg (take n (calls b)), contents (recvBuf c), false) /\
    helloDone c = bool_decide (0 < n)%nat /\
    output r c w = output r c0 w0 ++ concat (map ack_bytes (take n (answers b))).

Lemma calls_ok : Forall call_ok (calls b).
Proof.
  destruct b_ok as [Hb Hs Hd Hv Ht Hi Hc _]. constructor.
  - unfold call_ok, in_width in *. split_and!; (done || lia).
  - apply Forall_map. eapply Forall_impl; [exact Hi|]. intros i. by apply block_call_ok.
Qed.

Lemma length_calls : length (calls b) = S (length (b_ixs b)).
Proof. cbn. by rewrite length_map. Qed.

Lemma length_answers : length (answers b) = S (length (b_ixs b)).
Proof. cbn. by rewrite length_map. Qed.

Lemma serve_keeps_hello ms s : s_hello s = true -> s_hello (serve disks ms s).1 = true.
Proof.
  revert s. induction ms as [|m ms IH]; intros s Hs; [done|]. cbn [serve].
  assert (s_hello (serve_one disks m s).1 = true) as Hone.
  { unfold serve_one. destruct (MessageType_of_Z _) as [[]|]; try done.
    - unfold serve_block. rewrite Hs. cbn [negb]. by destruct (Process _ _ _ _ _) as [[[? ?] ?]|].
    - unfold serve_hello. by rewrite Hs. }
  destruct (serve_one disks m s) as [s1 []]; cbn [fst] in *; [done|by apply IH].
Qed.

(** The session serves the messages from the [n]-th to the [n']-th. *)
Lemma serve_between n n' s bf f :
  (n <= n')%nat -> (n' <= length (calls b))%nat -> s_hello s = bool_decide (0 < n)%nat ->
  disks !! b_devno b = Some bf -> s_files s !! bf_fd bf = Some f ->
  zlen f = zlen (b_image b) -> bf_size_bytes bf = zlen (b_image b) ->
  exists s' f', serve disks (map call_msg (drop n (take n' (calls b)))) s = (s', false) /\
    s_hello s' = bool_decide (0 < n')%nat /\
    s_acks s' = s_acks s ++ drop n (take n' (answers b)) /\
    s_files s' = <[bf_fd bf := f']> (s_files s) /\
    stored (b_image b) f (drop (pred n) (take (pred n') (b_ixs b))) f'.
Proof.
  intros Hn Hn' Hh Hd Hf Hl Hsz. destruct b_ok as [Hb Hs Hdv Hv Ht Hi Hc _].
  assert (forall k s1, Forall (block_index_ok (b_image b)) (drop k (take (pred n') (b_ixs b))) ->
    s_hello s1 = true -> s_files s1 = s_files s ->
    exists s' f', serve disks (map call_msg (drop k (take (pred n')
        (map (block_call (b_devno b) (b_version b) (b_image b)) (b_ixs b))))) s1 = (s', false) /\
      s_hello s' = true /\
      s_acks s' = s_acks s1 ++ drop k (take (pred n') (map (ok_ack (b_devno b) (b_image b)) (b_ixs b))) /\
      s_files s' = <[bf_fd bf := f']> (s_files s) /\
      stored (b_image b) f (drop k (take (pred n') (b_ixs b))) f') as Hblocks.
  { intros k s1 Hix Hh1 Hf1.
    destruct (serve_blocks disks (b_devno b) (b_version b) (b_image b) Hb Hv _ s1 bf f Hix)
      as (s' & f' & E & Ha & Hfs & Hst); [lia|done|by rewrite Hf1|lia|lia|done|].
    exists s', f'. rewrite !firstn_map, !skipn_map, map_map.
    pose proof (serve_keeps_hello (map (fun i => call_msg (block_call (b_devno b) (b_version b) (b_image b) i))
      (drop k (take (pred n') (b_ixs b)))) s1 Hh1) as Hh'. rewrite E in Hh'.
    split_and!; try done. by rewrite Hfs, Hf1. }
  assert (Forall (block_index_ok (b_image b)) (drop (pred n) (take (pred n') (b_ixs b)))) as Hix.
  { by apply Forall_drop, Forall_take. }
  destruct n' as [|n']; [|destruct n as [|n]].
  - assert (n = 0)%nat as -> by lia. exists s, f. cbn [take drop map serve pred].
    split_and!; [done|done|by rewrite app_nil_r|by rewrite insert_id|apply stored_nil].
  - cbn [calls backup_calls answers take drop map serve pred] in *.
    rewrite serve_hello_ok with (bf := bf) by (unfold in_width in *; done || lia).
    destruct (Hblocks 0%nat (greeted (b_devno b) s)) as (s' & f' & E & Hh' & Ha & Hfs & Hst); [done..|].
    cbn [drop] in E, Ha, Hst. exists s', f'. split_and!; try done.
    rewrite Ha. cbn [greeted s_acks]. by rewrite <- app_assoc.
  - cbn [calls backup_calls answers take drop map pred] in *. by apply Hblocks.
Qed.

(** The messages that become complete with more bytes of the backup. *)
Lemma stream_between n got d rest :
  (n <= length (calls b))%nat -> (got ++ d) `prefix_of` wire b ->
  stream got = (map call_msg (take n (calls b)), rest, false) ->
  exists n' rest', (n <= n' <= length (calls b))%nat /\
    stream (got ++ d) = (map call_msg (take n' (calls b)), rest', false) /\
    stream (rest ++ d) = (map call_msg (drop n (take n' (calls b))), rest', false).
Proof.
  intros Hn Hpre Hst. pose proof calls_ok as Hks.
  assert (bytes_ok (got ++ d)) as Hby.
  { assert (bytes_ok (wire b)) as Hw.
    { apply concat_msg_bytes_ok, Forall_map. eapply Forall_impl; [exact Hks|]. intros k Hk. by apply call_msg_wf. }
    destruct Hpre as [l Hpre]. rewrite Hpre in Hw. by apply bytes_ok_app in Hw as []. }
  destruct (prefix_of_messages _ _ Hpre) as (n2 & part & E & Hp).
  assert (stream (got ++ d) = (map call_msg (take n2 (calls b)), part, false)) as E2.
  { rewrite E, on_wire_stream by done. by rewrite firstn_map. }
  rewrite <- take_min_length in E2. set (n' := min n2 (length (calls b))) in *.
  rewrite stream_app, Hst in E2 by done. destruct (stream (rest ++ d)) as [[ms r'] stop] eqn:E3.
  injection E2 as Ems -> ->.
  assert (length (take n' (calls b)) = n') as L' by (rewrite length_take; lia).
  assert (length (take n (calls b)) = n) as L by (rewrite length_take; lia).
  pose proof (f_equal length Ems) as Hlen. rewrite length_app, !length_map, L, L' in Hlen.
  exists n', part. split; [lia|]. split; [by rewrite stream_app, Hst, E3, Ems by done|].
  f_equal. f_equal. rewrite <- skipn_map, <- Ems.
  by rewrite drop_app_length' by (rewrite length_map; lia).
Qed.

(** Bytes of the backup arrive and are processed. *)
Lemma progress_reads n got w c res w1 bf f :
  progress n got w -> (n <= length (calls b))%nat -> conns w !! r = Some c ->
  recv_on r c w = (Ret res, w1) -> (exists d, res = RecvData d) \/ res = RecvError EAGAIN ->
  (got ++ arrived res) `prefix_of` wire b ->
  disks !! b_devno b = Some bf -> files w !! bf_fd bf = Some f ->
  zlen f = zlen (b_image b) -> bf_size_bytes bf = zlen (b_image b) ->
  exists n' w' f', ProcessMessages disks r w1 = (Ret (), w') /\
    (n <= n' <= length (calls b))%nat /\ progress n' (got ++ arrived res) w' /\ others_kept r w w' /\
    files w' = <[bf_fd bf := f']> (files w) /\
    stored (b_image b) f (drop (pred n) (take (pred n') (b_ixs b))) f'.
Proof.
  intros (c1 & c0 & Hc & Hc0 & (Hr & Hrb & Hby & Hsb) & Hst & Hh & Hout) Hn Hc' Hrecv Hres Hpre Hd Hf Hl Hsz.
  rewrite Hc in Hc'. injection Hc' as <-. unfold recv_on in Hrecv.
  destruct (WriteFromFd _ _) as [res1 rb] eqn:Ew. injection Hrecv as -> <-.
  pose proof (os_recv_ok (clock w) (c_fd c1)) as Hro.
  pose proof (WriteFromFd_bytes_ok _ _ Hro Hby) as Hby'. rewrite Ew in Hby'. cbn [snd] in Hby'.
  destruct (recv_arrives _ _ _ _ Hrb Hro Ew Hres) as [Hrb' Hcont].
  destruct (stream_between n got (arrived res) (contents (recvBuf c1)) Hn Hpre Hst)
    as (n' & rest' & Hn' & Est & Est'). rewrite <- Hcont in Est'.
  set (c2 := with_recvBuf rb c1). set (w1 := set_conns _ _).
  assert (conns w1 !! r = Some c2) as Hc2 by (unfold w1; cbn; by rewrite lookup_insert_eq).
  assert (Conn_ok r c2) as Hok2 by by split_and!.
  assert (Live r (output r c1 w) w1 (session_of c2 (files w)) (contents (recvBuf c2)) w1) as HL.
  { exists c2. split_and!; try done. cbn. by rewrite app_nil_r. }
  destruct (process_refines soft disks r (output r c1 w) w1
    (S (Z.to_nat (ReadableBytes (recvBuf c2)))) _ _ _ HL) as (w' & Hrun & Hs).
  { pose proof (contents_length (recvBuf c2) Hrb'). lia. }
  change (recvBuf c2) with rb in *. rewrite Est' in Hrun, Hs. cbn [fst snd] in Hrun, Hs.
  destruct (serve_between n n' (session_of c2 (files w)) bf f) as (s' & f' & E & Hh' & Ha & Hfs & Hsto);
    try done; try lia.
  rewrite E in Hrun, Hs. cbn [fst snd orb served run_result] in Hrun, Hs.
  exists n', w', f'. split; [unfold ProcessMessages; by step_conn Hc2|]. split; [done|].
  destruct Hs as (c3 & Hc3 & Hok3 & Hrest & Hss & Hout3 & Hoth). split.
  { exists c3, c0. split_and!; try done.
    - by rewrite Hrest.
    - destruct Hss as (-> & _). done.
    - rewrite Hout3, Hout, <- app_assoc, <- concat_app, <- map_app. do 3 f_equal. rewrite Ha.
      cbn [session_of s_acks app].
      replace (take n (answers b)) with (take n (take n' (answers b))) by (rewrite take_take; f_equal; lia).
      apply take_drop. }
  split.
  { intros r' Hne. destruct (Hoth r' Hne) as [-> ->]. unfold w1, sent_to; cbn. by rewrite lookup_insert_ne. }
  split; [|done]. destruct Hss as (_ & _ & _ & _ & _ & ->). exact Hfs.
Qed.
End connection.

(** ** The property *)

Lemma block_of_pointwise f g i :
  0 <= i -> (forall p : nat, Z.of_nat p / BLOCK_SIZE = i -> f !! p = g !! p) -> block_of f i = block_of g i.
Proof.
  intros Hi Hp. apply list_eq. intros k. destruct (decide (Z.of_nat k < BLOCK_SIZE)) as [Hk|Hk].
  - rewrite !block_of_lookup by done. apply Hp. unfold BLOCK_SIZE in *. symmetry.
    apply Z.div_unique with (Z.of_nat k); lia.
  - rewrite !lookup_ge_None_2; [done| |]; unfold block_of, sub; rewrite length_take; unfold BLOCK_SIZE in *; lia.
Qed.

Section everyone.
Context `{KernelLaws} `{LibraryLaws} `{!BackupEnv}.
Context (disks : gmap Z BackingFile) (backups : gmap Z Backup) (w0 : World).
Hypothesis soft : send_soft.
Hypothesis all_ok : forall r b, backups !! r = Some b -> Backup_ok disks b.

(** Every connection has come as far as its own bytes, and every byte of a
    disk is that of the last writer of its block. *)
Record Interleaved (n : Z -> nat) (log : list (Z * Z)) (evs : list Event) (w : World) : Prop := {
  il_progress r b : backups !! r = Some b -> progress w0 r b (n r) (received r evs) w;
  il_bound r b : backups !! r = Some b -> (n r <= length (calls b))%nat;
  il_log r b : backups !! r = Some b -> stored_for r log = take (pred (n r)) (b_ixs b);
  il_match : disks_match disks (files w);
  il_disk d bf f : disks !! d = Some bf -> files w0 !! bf_fd bf = Some f ->
    exists f', files w !! bf_fd bf = Some f' /\ length f' = length f /\
      forall p : nat, f' !! p = match last_writer backups d (Z.of_nat p / BLOCK_SIZE) log with
                                | Some b => b_image b !! p
                                | None => f !! p
                                end }.

Lemma progress_others r r' b n got w w' :
  others_kept r w w' -> r' <> r -> progress w0 r' b n got w -> progress w0 r' b n got w'.
Proof.
  intros Ho Hne (c & c0 & Hc & Hc0 & Hok & Hst & Hh & Hout). destruct (Ho r' Hne) as [Ec Es].
  exists c, c0. unfold output. rewrite Ec, Es. by split_and!.
Qed.

Lemma interleaved_reads n log evs w r b c res w1 :
  Interleaved n log evs w -> backups !! r = Some b -> conns w !! r = Some c ->
  recv_on r c w = (Ret res, w1) -> (exists d, res = RecvData d) \/ res = RecvError EAGAIN ->
  (received r evs ++ arrived res) `prefix_of` wire b ->
  exists n' log' w', ProcessMessages disks r w1 = (Ret (), w') /\
    Interleaved n' log' (evs ++ [Reads r (arrived res)]) w'.
Proof.
  intros HI Hb Hc Hrecv Hres Hpre. pose proof (all_ok r b Hb) as Hok.
  destruct (bo_disk _ _ Hok) as (bf & Hd & Hsz).
  destruct (proj1 (il_match _ _ _ _ HI) _ bf Hd) as (f & Hf & Hl & _).
  destruct (progress_reads disks w0 r b soft Hok (n r) (received r evs) w c res w1 bf f)
    as (n1 & w' & f' & Hrun & Hn & Hp & Hoth & Hfs & Hst); try done;
    [by eapply il_progress|by eapply il_bound|congruence|].
  set (ixs := drop (pred (n r)) (take (pred n1) (b_ixs b))) in *.
  exists (fun r' => if decide (r' = r) then n1 else n r'), (log ++ map (pair r) ixs), w'.
  split; [done|]. split.
  - intros r' b' Hb'. rewrite received_snoc. case_decide as Hr.
    + subst r'. replace b' with b by congruence. by rewrite received_same.
    + rewrite received_other, app_nil_r by done.
      eapply progress_others; [done..|]. by eapply il_progress.
  - intros r' b' Hb'. case_decide as Hr; [|by eapply il_bound].
    subst r'. replace b' with b by congruence. lia.
  - intros r' b' Hb'. rewrite stored_for_app. rewrite (il_log _ _ _ _ HI r' b' Hb'). case_decide as Hr.
    + subst r'. replace b' with b by congruence. rewrite stored_for_same. unfold ixs.
      replace (take (pred (n r)) (b_ixs b)) with (take (pred (n r)) (take (pred n1) (b_ixs b)))
        by (rewrite take_take; f_equal; lia).
      apply take_drop.
    + by rewrite stored_for_other, app_nil_r.
  - rewrite Hfs. eapply disks_match_insert; [by eapply il_match|done|done|]. apply Hst.
  - intros d bf' f0 Hd' Hf0. destruct (il_disk _ _ _ _ HI d bf' f0 Hd' Hf0) as (g & Hg & Hlg & Hpt).
    rewrite Hfs. destruct (decide (b_devno b = d)) as [<-|Hne].
    + assert (bf' = bf) as -> by congruence. assert (g = f) as -> by congruence.
      exists f'. rewrite lookup_insert_eq. destruct Hst as [Hlf Hst]. split_and!; [done|congruence|].
      intros p. rewrite Hst, (last_writer_app _ _ _ _ r b) by done. case_decide as Hp1; case_decide as Hp2.
      * done.
      * exfalso. apply Hp2. tauto.
      * rewrite !lookup_ge_None_2; [done| |]; apply not_and_l in Hp1 as [Hp1|Hp1]; try tauto; lia.
      * apply Hpt.
    + exists g. rewrite lookup_insert_ne.
      2:{ intros E. apply Hne. by eapply (proj2 (il_match _ _ _ _ HI)). }
      split_and!; [done..|]. intros p. rewrite (last_writer_app _ _ _ _ r b) by done.
      rewrite decide_False by tauto. apply Hpt.
Qed.

Lemma interleaved_drains n log evs w r b :
  Interleaved n log evs w -> backups !! r = Some b ->
  exists w', HandleConnWritable r w = (Ret (), w') /\ Interleaved n log (evs ++ [Drains r]) w'.
Proof.
  intros HI Hb. destruct (il_progress _ _ _ _ HI r b Hb)
    as (c & c0 & Hc & Hc0 & (Hr & Hrb & Hby & Hsb) & Hst & Hh & Hout).
  destruct (HandleConnWritable_spec soft r c w Hc Hr Hsb) as (q & w' & Hrun & Hconn & Hq & Hf & Ho & Hoth).
  exists w'. split; [done|].
  assert (forall r', received r' (evs ++ [Drains r]) = received r' evs) as Hrec.
  { intros r'. rewrite received_snoc. apply app_nil_r. }
  split; rewrite ?Hf; try apply HI.
  intros r' b' Hb'. rewrite Hrec. destruct (decide (r' = r)) as [->|Hne].
  - replace b' with b by congruence. exists (with_sendBuf q c), c0. unfold output. rewrite Hconn, lookup_insert_eq.
    split_and!; try done. cbn [sendBuf with_sendBuf]. by rewrite Ho.
  - eapply progress_others; [|exact Hne|by eapply il_progress].
    intros r1 Hr1. rewrite Hconn, lookup_insert_ne by done. split; [done|by apply Hoth].
Qed.

Lemma interleaved_start :
  disks_match disks (files w0) ->
  (forall r b, backups !! r = Some b -> exists c, conns w0 !! r = Some c /\ Conn_ok r c /\
     contents (recvBuf c) = [] /\ helloDone c = false) ->
  Interleaved (fun _ => 0%nat) [] [] w0.
Proof.
  intros Hdm Hconns. split; try done; [|lia|].
  - intros r b Hb. destruct (Hconns r b Hb) as (c & Hc & Hok & He & Hh).
    exists c, c. rewrite He, Hh, app_nil_r. by split_and!.
  - intros d bf f Hd Hf. by exists f.
Qed.

Lemma serving_interleaved evs w :
  disks_match disks (files w0) ->
  (forall r b, backups !! r = Some b -> exists c, conns w0 !! r = Some c /\ Conn_ok r c /\
     contents (recvBuf c) = [] /\ helloDone c = false) ->
  serving disks backups w0 evs w ->
  (forall r b, backups !! r = Some b -> received r evs `prefix_of` wire b) ->
  exists n log, Interleaved n log evs w.
Proof.
  intros Hdm Hconns Hs Hpre. induction Hs as [|evs w r c res w1 Hs IH [b Hb] Hc Hrecv Hres|evs w r Hs IH [b Hb]].
  - eexists _, _. by apply interleaved_start.
  - destruct IH as (n & log & HI).
    { intros r' b' Hb'. specialize (Hpre r' b' Hb'). rewrite received_snoc in Hpre. by eapply prefix_app_l. }
    specialize (Hpre r b Hb). rewrite received_snoc, received_same in Hpre.
    destruct (interleaved_reads n log evs w r b c res w1 HI Hb Hc Hrecv Hres Hpre) as (n' & log' & w' & -> & HI').
    by exists n', log'.
  - destruct IH as (n & log & HI).
    { intros r' b' Hb'. specialize (Hpre r' b' Hb'). rewrite received_snoc in Hpre. by eapply prefix_app_l. }
    destruct (interleaved_drains n log evs w r b HI Hb) as (w' & -> & HI'). by exists n, log.
Qed.

(** A call of [HandleConnReadable] that leaves the connection open is such a
    sequence of rounds. *)
Lemma readable_serving fuel r evs w w' :
  is_Some (backups !! r) -> serving disks backups w0 evs w ->
  readable_loop disks fuel r r w = (Ret (), w') -> is_Some (conns w' !! r) ->
  exists ds, serving disks backups w0 (evs ++ map (Reads r) ds) w'.
Proof.
  intros Hb. revert evs w. induction fuel as [|fuel IH]; intros evs w Hs Hrun Hopen; [done|].
  cbn [readable_loop] in Hrun. unfold recv_call in Hrun.
  destruct (conns w !! r) as [c|] eqn:Hc.
  2:{ by rewrite (bind_undefined _ _ _ _ (bind_undefined _ _ _ _ (get_conn_dead _ _ Hc))) in Hrun. }
  destruct (recv_on r c w) as [[res| |] w1] eqn:Erecv; try (by unfold recv_on in Erecv; destruct (WriteFromFd _ _)).
  erewrite bind_run in Hrun by (step_conn Hc; exact Erecv).
  assert (forall w2, CloseConn r w1 = (Ret (), w2) -> is_Some (conns w2 !! r) -> False) as Hclose.
  { intros w2 E Ho. unfold CloseConn in E. destruct (conns w1 !! r) eqn:Ec; injection E as <-; cbn in Ho.
    - rewrite lookup_delete_eq in Ho. by destruct Ho.
    - rewrite Ec in Ho. by destruct Ho. }
  destruct res as [d| |e]; [|by destruct (Hclose w')|].
  - destruct (ProcessMessages disks r w1) as [[[]| |] w2] eqn:Ep;
      [rewrite (bind_run _ _ _ _ _ Ep) in Hrun
      |by rewrite (bind_undefined _ _ _ _ Ep) in Hrun|by rewrite (bind_out_of_fuel _ _ _ _ Ep) in Hrun].
    erewrite bind_run in Hrun by reflexivity.
    pose proof (serving_reads _ _ _ _ _ _ _ _ _ Hs Hb Hc Erecv (or_introl (ex_intro _ d eq_refl))) as Hs2.
    rewrite Ep in Hs2. cbn [arrived snd] in Hs2. case_bool_decide as Ho.
    + destruct (IH _ _ Hs2 Hrun Hopen) as [ds Hds]. exists (d :: ds). by rewrite <- app_assoc in Hds.
    + injection Hrun as <-. done.
  - destruct (e =? EAGAIN) eqn:Ee; [|by destruct (Hclose w')]. apply Z.eqb_eq in Ee as ->.
    pose proof (serving_reads _ _ _ _ _ _ _ _ _ Hs Hb Hc Erecv (or_intror eq_refl)) as Hs2.
    rewrite Hrun in Hs2. exists [[]]. exact Hs2.
Qed.
End everyone.

(** C3: several clients at once.  Every connection of the table carries a
    backup of its own, of any disk; the loop runs rounds of reading and writing
    on them in any order, each round delivering any number of bytes.  Then every
    round returns; each client has been answered OK for exactly the messages
    that have arrived whole on its connection, in order, as if it were alone;
    the blocks stored are an interleaving of those of the clients; and every
    block of every disk is whole: that of the client that stored it last, or
    what it was before.  Nothing keeps two clients from writing one disk, so the
    image may then be neither's, but no block is. *)
Theorem concurrent_backups `{KernelLaws} `{LibraryLaws} `{!BackupEnv} disks backups w0 evs w :
  send_soft -> (forall r b, backups !! r = Some b -> Backup_ok disks b) ->
  disks_match disks (files w0) ->
  (forall r b, backups !! r = Some b -> exists c, conns w0 !! r = Some c /\ Conn_ok r c /\
     contents (recvBuf c) = [] /\ helloDone c = false) ->
  serving disks backups w0 evs w ->
  (forall r b, backups !! r = Some b -> received r evs `prefix_of` wire b) ->
  exists (n : Z -> nat) (log : list (Z * Z)),
    (forall r b, backups !! r = Some b -> exists c c0,
       conns w !! r = Some c /\ conns w0 !! r = Some c0 /\
       stream (received r evs) = (map call_msg (take (n r) (calls b)), contents (recvBuf c), false) /\
       output r c w = output r c0 w0 ++ concat (map ack_bytes (take (n r) (answers b))) /\
       stored_for r log = take (pred (n r)) (b_ixs b)) /\
    disks_match disks (files w) /\
    (forall d bf f, disks !! d = Some bf -> files w0 !! bf_fd bf = Some f ->
       exists f', files w !! bf_fd bf = Some f' /\ length f' = length f /\
         forall i, 0 <= i -> block_of f' i = match last_writer backups d i log with
                                             | Some b => block_of (b_image b) i
                                             | None => block_of f i
                                             end) /\
    forall r b c res w1, backups !! r = Some b -> conns w !! r = Some c -> recv_on r c w = (Ret res, w1) ->
      (exists d, res = RecvData d) \/ res = RecvError EAGAIN ->
      (received r evs ++ arrived res) `prefix_of` wire b -> (ProcessMessages disks r w1).1 = Ret ().
Proof.
  intros soft Hok Hdm Hconns Hs Hpre.
  destruct (serving_interleaved disks backups w0 soft Hok evs w Hdm Hconns Hs Hpre) as (n & log & HI).
  exists n, log. split_and!.
  - intros r b Hb. destruct (il_progress _ _ _ _ _ _ _ HI r b Hb) as (c & c0 & Hc & Hc0 & _ & Hst & _ & Hout).
    exists c, c0. split_and!; try done. by eapply il_log.
  - by eapply il_match.
  - intros d bf f Hd Hf. destruct (il_disk _ _ _ _ _ _ _ HI d bf f Hd Hf) as (f' & Hf' & Hl & Hpt).
    exists f'. split_and!; [done..|]. intros i Hi.
    destruct (last_writer backups d i log) eqn:El; apply block_of_pointwise; try done;
      intros p <-; by rewrite Hpt, El.
  - intros r b c res w1 Hb Hc Hrecv Hres Hpre'.
    by destruct (interleaved_reads disks backups w0 soft Hok n log evs w r b c res w1 HI Hb Hc Hrecv Hres Hpre')
      as (? & ? & ? & -> & _).
Qed.

(** ** Two clients and one disk of four bytes

    The greeting of the first client arrives with a part of its block, then the
    whole backup of the second, then the rest of the first. *)

(** A kernel that delivers what is due at a time, and takes what is sent. *)
Definition timed_kernel (due : gmap nat (list Z)) : Kernel := {|
  os_recv t _ len :=
    match due !! t with
    | Some d => if bool_decide (0 < zlen d <= len /\ bytes_ok d) then RecvData d else RecvError EAGAIN
    | None => RecvError EAGAIN
    end;
  os_send t _ d := SendN (zlen d);
  os_accept _ := None |}.

Lemma timed_kernel_laws due : @KernelLaws (timed_kernel due).
Proof.
  constructor; cbn; [|intros t fd d n [= <-]; lia|done].
  intros t fd len d. destruct (due !! t) as [d'|]; [|done]. case_bool_decide as Hd; [|done]. by intros [= <-].
Qed.

Lemma timed_kernel_soft due : @send_soft (timed_kernel due).
Proof.
  intros t fd d Hd. left. exists (zlen d). split; [done|]. destruct d; [done|cbn; lia].
Qed.

(** A round on [r]: what arrives, and the state after it. *)
Definition round `{Kernel, Library} disks (r : Z) (w : World) : option (list Z * World) :=
  c ← conns w !! r;
  match recv_on r c w with
  | (Ret (RecvData d), w1) => Some (d, (ProcessMessages disks r w1).2)
  | _ => None
  end.

Fixpoint rounds `{Kernel, Library} disks (rs : list Z) (w : World) : option (list Event * World) :=
  match rs with
  | [] => Some ([], w)
  | r :: rs' =>
      '(d, w1) ← round disks r w;
      '(evs, w') ← rounds disks rs' w1;
      Some (Reads r d :: evs, w')
  end.

Lemma rounds_serving `{BackupEnv, Kernel} disks backups w0 rs : forall evs w evs' w',
  Forall (fun r => is_Some (backups !! r)) rs -> serving disks backups w0 evs w ->
  rounds disks rs w = Some (evs', w') -> serving disks backups w0 (evs ++ evs') w'.
Proof.
  induction rs as [|r rs IH]; intros evs w evs' w' Hb Hs Hrun; cbn [rounds] in Hrun.
  { injection Hrun as <- <-. by rewrite app_nil_r. }
  apply Forall_cons in Hb as [Hr Hb].
  apply bind_Some in Hrun as ([d w1] & E1 & E2). apply bind_Some in E2 as ([evs1 w2] & E2 & [= <- <-]).
  apply bind_Some in E1 as (c & Hc & E1).
  destruct (recv_on r c w) as [[[d'| |]| |] w3] eqn:Er; try done. injection E1 as -> <-.
  pose proof (serving_reads _ _ _ _ _ _ _ _ _ Hs Hr Hc Er (or_introl (ex_intro _ d eq_refl))) as Hs'.
  specialize (IH _ _ _ _ Hb Hs' E2). by rewrite <- app_assoc in IH.
Qed.

Definition first_backup : Backup :=
  {| b_devno := 7; b_version := 1; b_vtype := [70; 85]; b_image := [9; 8; 7; 6]; b_ixs := [0] |}.
Definition second_backup : Backup :=
  {| b_devno := 7; b_version := 2; b_vtype := [70; 85]; b_image := [1; 1; 2; 2]; b_ixs := [0] |}.
Definition both : gmap Z Backup := {[ 5 := first_backup; 6 := second_backup ]}.

Definition wire_of (b : Backup) : list Z := @wire demo_library demo_env b.
Definition due : gmap nat (list Z) :=
  {[ 0%nat := take 150 (wire_of first_backup); 2%nat := wire_of second_backup;
     5%nat := drop 150 (wire_of first_backup) ]}.

Definition accepted (fd : Z) : Conn :=
  {| c_fd := fd; c_devno := 0; helloDone := false; recvBuf := RingBuffer_new 512;
     sendBuf := RingBuffer_new 64; blocksReceived := 0; bytesWritten := 0; errors := 0 |}.
Definition two_clients : World :=
  {| conns := {[ 5 := accepted 5; 6 := accepted 6 ]}; files := demo_files; sent := [];
     epoll := {[ 5 := 1; 6 := 1 ]}; sockets := {[ 5; 6 ]}; clock := 0; running := true;
     listenFd := 3; epollFd := 4 |}.

Definition shared_run : option (list Event * World) :=
  @rounds (timed_kernel due) demo_library demo_disks [5; 6; 5] two_clients.

Lemma both_ok r b : both !! r = Some b -> @Backup_ok demo_disks b.
Proof.
  unfold both. rewrite lookup_insert_Some, lookup_singleton_Some.
  assert (forall v image, in_width 32 v -> length image = 4%nat -> bytes_ok image ->
    @Backup_ok demo_disks {| b_devno := 7; b_version := v; b_vtype := [70; 85]; b_image := image; b_ixs := [0] |})
    as Hall.
  { intros v image Hv Hl Hb. constructor; cbn [b_image b_devno b_version b_vtype b_ixs]; try done.
    - rewrite Hl. lia.
    - repeat constructor; unfold in_width; lia.
    - repeat constructor; unfold BLOCK_SIZE; lia.
    - eexists. split; [reflexivity|]. by rewrite Hl. }
  intros [[<- <-]|[_ [<- <-]]]; apply Hall; try done; evaluate.
Qed.

Lemma both_fresh r b :
  both !! r = Some b -> exists c, conns two_clients !! r = Some c /\ Conn_ok r c /\
    contents (recvBuf c) = [] /\ helloDone c = false.
Proof.
  unfold both. rewrite lookup_insert_Some, lookup_singleton_Some.
  assert (forall fd, Conn_ok fd (accepted fd)) as Hok.
  { intros fd. split_and!; [done|by apply RingBuffer_new_ok| |by apply RingBuffer_new_ok]. evaluate. }
  intros [[<- <-]|[_ [<- <-]]]; [exists (accepted 5)|exists (accepted 6)]; by split_and!.
Qed.

Lemma concurrent_backups_witness :
  exists evs w, shared_run = Some (evs, w) /\ files w !! 3 = Some [9; 8; 7; 6] /\
    exists n log, stored_for 5 log = take (pred (n 5)) [0] /\ stored_for 6 log = take (pred (n 6)) [0] /\
      exists f', files w !! 3 = Some f' /\
        block_of f' 0 = match last_writer both 7 0 log with
                        | Some b => block_of (b_image b) 0
                        | None => block_of [1; 2; 3; 4] 0
                        end.
Proof.
  destruct shared_run as [[evs w]|] eqn:E; [|by vm_compute in E].
  exists evs, w. split; [done|].
  assert ((fun p => (files p.2 !! 3, bool_decide (received 5 p.1 `prefix_of` wire_of first_backup),
             bool_decide (received 6 p.1 `prefix_of` wire_of second_backup))) <$> shared_run
          = Some (Some [9; 8; 7; 6], true, true)) as Ev by (vm_compute; reflexivity).
  rewrite E in Ev. cbn [fmap option_fmap option_map fst snd] in Ev.
  apply (inj Some), pair_equal_spec in Ev as [Ev Ev6]. apply pair_equal_spec in Ev as [Ev Ev5].
  apply bool_decide_eq_true_1 in Ev5, Ev6. split; [exact Ev|].
  destruct (@concurrent_backups (timed_kernel due) (timed_kernel_laws due) demo_library demo_library_laws demo_env
    demo_disks both two_clients evs w) as (n & log & Hconns & _ & Hdisks & _).
  - apply timed_kernel_soft.
  - apply both_ok.
  - apply demo_disks_match.
  - apply both_fresh.
  - apply (rounds_serving demo_disks both two_clients [5; 6; 5] [] two_clients evs w); [|constructor|exact E].
    repeat constructor; by eexists.
  - intros r b. unfold both. rewrite lookup_insert_Some, lookup_singleton_Some.
    intros [[<- <-]|[_ [<- <-]]]; done.
  - exists n, log.
    destruct (Hconns 5 first_backup eq_refl) as (_ & _ & _ & _ & _ & _ & H5).
    destruct (Hconns 6 second_backup eq_refl) as (_ & _ & _ & _ & _ & _ & H6).
    split; [exact H5|]. split; [exact H6|].
    destruct (Hdisks 7 {| bf_fd := 3; bf_size_bytes := 4; bf_path := [] |} [1; 2; 3; 4] eq_refl eq_refl)
      as (f' & Hf' & _ & Hb).
    exists f'. split; [exact Hf'|]. by apply Hb.
Defined.
