(* ===== verification/BlockHasher.v ===== *)
(** * Hash manifests

    [client/BlockHasher.{h,cpp}]: hashing a source block by block, comparing
    two manifests and their binary format.  Reading the source and hashing
    are parameters. *)

From Stdlib Require Import Sorted.
From S2P Require Import Prelude.

(** ** Data *)

Definition BLOCK_SIZE : Z := 1024 * 1024.
Definition SHA256_HASH_SIZE : Z := 32.

Record BlockHashEntry := { e_BlockIndex : Z; e_Offset : Z; e_Hash : list Z }.

Record HashManifest := {
  m_BlockSize : Z; m_TotalBlocks : Z; m_TotalSize : Z; m_Entries : list BlockHashEntry;
  m_Timestamp : Z; m_VolumePath : list Z }.

Definition empty_manifest : HashManifest :=
  {| m_BlockSize := 0; m_TotalBlocks := 0; m_TotalSize := 0; m_Entries := [];
     m_Timestamp := 0; m_VolumePath := [] |}.

(** ** Building a manifest *)

(** The source handle, [SetFilePointerEx] to an offset and [ReadFile] of
    [size] bytes from there, and the BCrypt SHA-256 object; each call can
    fail. *)
Class Source := {
  SetFilePointerEx : Z -> bool;
  ReadFile : Z -> Z -> option (list Z);
  HashHandle : Type;
  BCryptCreateHash : option HashHandle;
  BCryptHashData : HashHandle -> list Z -> option HashHandle;
  BCryptFinishHash : HashHandle -> option (list Z);
}.

Section build.
Context `{Source}.

Definition ReadAt (offset size : Z) : option (list Z) :=
  if negb (SetFilePointerEx (s64 offset)) then None
  else
    match ReadFile (s64 offset) size with
    | None => None
    | Some d => if zlen d =? size then Some d else None
    end.

Definition ComputeBlockHash (initialized : bool) (data : list Z) : option (list Z) :=
  if negb initialized then None
  else
    hHash ← BCryptCreateHash;
    hHash' ← BCryptHashData hHash data;
    BCryptFinishHash hHash'.

(** The loop over [n] blocks from block [i]. *)
Fixpoint build_loop (n : nat) (i remaining currentOffset : Z)
    : option (list BlockHashEntry) :=
  match n with
  | O => Some []
  | S n' =>
      let blockSize := if BLOCK_SIZE <=? remaining then BLOCK_SIZE else u32 remaining in
      data ← ReadAt currentOffset blockSize;
      hash ← ComputeBlockHash true data;
      rest ← build_loop n' (i + 1) (u64 (remaining - blockSize)) (u64 (currentOffset + blockSize));
      Some ({| e_BlockIndex := i; e_Offset := currentOffset; e_Hash := hash |} :: rest)
  end.

Definition BuildManifest (initialized valid_handle : bool) (offset totalSize now : Z)
    (volumePath : list Z) : option HashManifest :=
  if negb initialized || negb valid_handle then None
  else
    let total := u64 (totalSize + BLOCK_SIZE - 1) / BLOCK_SIZE in
    entries ← build_loop (Z.to_nat total) 0 totalSize offset;
    Some {| m_BlockSize := BLOCK_SIZE; m_TotalBlocks := total; m_TotalSize := totalSize;
            m_Entries := entries; m_Timestamp := now; m_VolumePath := volumePath |}.

(** The size of block [idx]: the last one may be shorter. *)
Definition rehash_size (manifest : HashManifest) (idx : Z) : Z :=
  if idx =? u64 (m_TotalBlocks manifest - 1) then
    let last := m_TotalSize manifest mod BLOCK_SIZE in
    if 0 <? last then u32 last else BLOCK_SIZE
  else BLOCK_SIZE.

(** The loop over the listed blocks, with the hashes appended so far: a
    failure keeps them. *)
Fixpoint rehash_loop (manifest : HashManifest) (blockIndexes : list Z)
    (hashes : list BlockHashEntry) : bool * list BlockHashEntry :=
  match blockIndexes with
  | [] => (true, hashes)
  | idx :: rest =>
      match m_Entries manifest !! Z.to_nat idx with
      | None => rehash_loop manifest rest hashes
      | Some entry =>
          match ReadAt (e_Offset entry) (rehash_size manifest idx) with
          | None => (false, hashes)
          | Some data =>
              match ComputeBlockHash true data with
              | None => (false, hashes)
              | Some hash =>
                  rehash_loop manifest rest
                    (hashes ++ [{| e_BlockIndex := idx; e_Offset := e_Offset entry;
                                   e_Hash := hash |}])
              end
          end
      end
  end.

(** The result and the new contents of the vector [hashes]. *)
Definition ComputeBlockHashes (initialized valid_handle : bool) (manifest : HashManifest)
    (blockIndexes : list Z) (hashes : list BlockHashEntry) : bool * list BlockHashEntry :=
  if negb initialized || negb valid_handle then (false, hashes)
  else rehash_loop manifest blockIndexes [].
End build.

(** ** Comparing two manifests *)

(** The test of one index: new, deleted, or another hash. *)
Definition block_differs (old current : HashManifest) (i : nat) : bool :=
  if (length (m_Entries old) <=? i)%nat then true
  else if (length (m_Entries current) <=? i)%nat then true
  else match m_Entries old !! i, m_Entries current !! i with
       | Some a, Some b => negb (bool_decide (e_Hash a = e_Hash b))
       | _, _ => false
       end.

Definition CompareManifests (old current : HashManifest) : list Z :=
  let maxBlocks := Nat.max (length (m_Entries old)) (length (m_Entries current)) in
  map Z.of_nat (filter (fun i => block_differs old current i = true) (seq 0 maxBlocks)).

(** ** The binary format *)

Definition MANIFEST_MAGIC : Z := 0x464D4842.

Definition SerializeEntry (e : BlockHashEntry) : list Z := le_enc 8 (e_BlockIndex e) ++ e_Hash e.

Definition SerializeManifest (m : HashManifest) : list Z :=
  le_enc 4 MANIFEST_MAGIC ++ le_enc 4 1 ++ le_enc 8 (m_BlockSize m)
  ++ le_enc 8 (m_TotalBlocks m) ++ le_enc 8 (m_TotalSize m)
  ++ concat (map SerializeEntry (m_Entries m)).

(** [Rejected]: the call returns [false]; [LengthError]: [resize] throws. *)
Inductive DeserializeResult := Rejected | LengthError | Accepted (m : HashManifest).

(** The [read] lambda: [len] bytes at [offset], if they are there. *)
Definition read_bytes (data : list Z) (offset len : Z) : option (list Z) :=
  if zlen data <? offset + len then None else Some (sub offset len data).

Fixpoint read_entries (n : nat) (data : list Z) (offset : Z) : option (list BlockHashEntry) :=
  match n with
  | O => Some []
  | S n' =>
      i ← read_bytes data offset 8;
      h ← read_bytes data (offset + 8) SHA256_HASH_SIZE;
      rest ← read_entries n' data (offset + 8 + SHA256_HASH_SIZE);
      Some ({| e_BlockIndex := le_dec i; e_Offset := 0; e_Hash := h |} :: rest)
  end.

(** [max_size] is the largest count [vector<BlockHashEntry>::resize] takes. *)
Definition DeserializeManifest (max_size : Z) (data : list Z) : DeserializeResult :=
  if zlen data <? 32 then Rejected
  else if negb (rd_le 0 4 data =? MANIFEST_MAGIC) then Rejected
  else if negb (rd_le 4 4 data =? 1) then Rejected
  else
    let total := rd_le 16 8 data in
    let expectedSize := u64 (32 + u64 (total * (8 + SHA256_HASH_SIZE))) in
    if zlen data <? expectedSize then Rejected
    else if max_size <? total then LengthError
    else match read_entries (Z.to_nat total) data 32 with
         | None => Rejected
         | Some es =>
             Accepted {| m_BlockSize := rd_le 8 8 data; m_TotalBlocks := total;
                         m_TotalSize := rd_le 24 8 data; m_Entries := es;
                         m_Timestamp := 0; m_VolumePath := [] |}
         end.

(** ** Specification *)

(** What survives a round trip: the offsets, the time and the path do not. *)
Definition strip_entry (e : BlockHashEntry) : BlockHashEntry :=
  {| e_BlockIndex := e_BlockIndex e; e_Offset := 0; e_Hash := e_Hash e |}.
Definition strip (m : HashManifest) : HashManifest :=
  {| m_BlockSize := m_BlockSize m; m_TotalBlocks := m_TotalBlocks m;
     m_TotalSize := m_TotalSize m; m_Entries := map strip_entry (m_Entries m);
     m_Timestamp := 0; m_VolumePath := [] |}.

Definition entry_wf (e : BlockHashEntry) : Prop :=
  in_width 64 (e_BlockIndex e) /\ zlen (e_Hash e) = SHA256_HASH_SIZE.
Definition manifest_wf (m : HashManifest) : Prop :=
  in_width 64 (m_BlockSize m) /\ in_width 64 (m_TotalSize m) /\
  m_TotalBlocks m = zlen (m_Entries m) /\ Forall entry_wf (m_Entries m).

(** The source is [disk], and hashing succeeds with [h]. *)
Definition source_is `{Source} (disk : list Z) (h : list Z -> list Z) : Prop :=
  (forall off size, 0 <= off -> 0 <= size -> off + size <= zlen disk ->
     SetFilePointerEx off = true /\ ReadFile off size = Some (sub off size disk)) /\
  (forall d, ComputeBlockHash true d = Some (h d)).

(** Block [i] of the range of [size] bytes at [offset]. *)
Definition range_block (disk : list Z) (offset size i : Z) : list Z :=
  sub (offset + i * BLOCK_SIZE) (Z.min BLOCK_SIZE (size - i * BLOCK_SIZE)) disk.
Definition range_entry (disk : list Z) (h : list Z -> list Z) (offset size i : Z)
    : BlockHashEntry :=
  {| e_BlockIndex := i; e_Offset := offset + i * BLOCK_SIZE;
     e_Hash := h (range_block disk offset size i) |}.

(** ** Lemmas *)

Lemma range_blocks_bounds size :
  0 <= size -> let n := (size + BLOCK_SIZE - 1) / BLOCK_SIZE in 0 <= n /\ size <= n * BLOCK_SIZE.
Proof.
  intros Hs n. unfold n, BLOCK_SIZE.
  pose proof (Z.div_mod (size + 1024 * 1024 - 1) (1024 * 1024)).
  pose proof (Z.mod_pos_bound (size + 1024 * 1024 - 1) (1024 * 1024)).
  split; [apply Z.div_pos; lia|lia].
Qed.

Section build_lemmas.
Context `{Source} (disk : list Z) (h : list Z -> list Z).
Hypothesis Hsrc : source_is disk h.
Hypothesis disk_small : zlen disk < 2 ^ 63.

Lemma ReadAt_ok off size :
  0 <= off -> 0 <= size -> off + size <= zlen disk -> ReadAt off size = Some (sub off size disk).
Proof.
  intros Ho Hs Hl. unfold ReadAt. rewrite s64_small by lia.
  destruct (proj1 Hsrc off size) as [-> ->]; [done..|]. cbn [negb].
  rewrite sub_length, Z2Nat.id by lia.
  by rewrite Z.eqb_refl.
Qed.

(** Rounding up. *)
Lemma ceil_step rem :
  0 < rem -> (rem + BLOCK_SIZE - 1) / BLOCK_SIZE
             = 1 + (Z.max 0 (rem - BLOCK_SIZE) + BLOCK_SIZE - 1) / BLOCK_SIZE.
Proof.
  intros Hr. unfold BLOCK_SIZE. destruct (Z.le_gt_cases (1024 * 1024) rem).
  - rewrite Z.max_r by lia. replace (rem + 1024 * 1024 - 1)
      with ((rem - 1024 * 1024 + 1024 * 1024 - 1) + 1 * (1024 * 1024)) by lia.
    rewrite Z.div_add by lia. lia.
  - rewrite Z.max_l by lia. rewrite (Z.div_small (0 + _ - 1)) by lia.
    symmetry. apply Z.div_unique with (rem - 1); lia.
Qed.

Lemma build_loop_ok off size n i :
  0 <= off -> 0 <= i -> off + size <= zlen disk -> i * BLOCK_SIZE <= size \/ n = 0%nat ->
  Z.of_nat n = (Z.max 0 (size - i * BLOCK_SIZE) + BLOCK_SIZE - 1) / BLOCK_SIZE ->
  build_loop n i (Z.max 0 (size - i * BLOCK_SIZE)) (off + Z.min size (i * BLOCK_SIZE))
  = Some (map (range_entry disk h off size) (seqZ i (Z.of_nat n))).
Proof.
  intros Ho Hi Hl Hle Hn. revert i Hi Hle Hn. induction n as [|n IH]; intros i Hi Hle Hn; [done|].
  assert (0 < size - i * BLOCK_SIZE) as Hrem.
  { destruct (Z.lt_ge_cases 0 (size - i * BLOCK_SIZE)); [done|].
    rewrite Z.max_l, Z.div_small in Hn by (unfold BLOCK_SIZE in *; lia). lia. }
  rewrite Z.max_r in Hn |- * by lia. rewrite Z.min_r by lia.
  rewrite ceil_step in Hn by done. cbn [build_loop].
  set (rem := size - i * BLOCK_SIZE) in *.
  assert ((if BLOCK_SIZE <=? rem then BLOCK_SIZE else u32 rem) = Z.min BLOCK_SIZE rem) as ->.
  { case_if; [lia|]. unfold BLOCK_SIZE in *. rewrite wrap_small by (unfold in_width; lia). lia. }
  set (bs := Z.min BLOCK_SIZE rem) in *.
  assert (0 < bs <= rem /\ bs <= BLOCK_SIZE) as [Hbs Hbs'] by (unfold bs, BLOCK_SIZE in *; lia).
  assert (0 <= i * BLOCK_SIZE) as Hib by (unfold BLOCK_SIZE; lia).
  rewrite ReadAt_ok by lia. cbn [mbind option_bind]. rewrite (proj2 Hsrc). cbn [mbind option_bind].
  rewrite !wrap_small by (unfold in_width; lia).
  assert (rem - bs = Z.max 0 (size - (i + 1) * BLOCK_SIZE)) as ->
    by (unfold bs, rem, BLOCK_SIZE in *; lia).
  assert (off + i * BLOCK_SIZE + bs = off + Z.min size ((i + 1) * BLOCK_SIZE)) as ->
    by (unfold bs, rem, BLOCK_SIZE in *; lia).
  rewrite IH; [|lia| |].
  - cbn [mbind option_bind]. rewrite (seqZ_cons i) by lia. cbn [map]. do 2 f_equal.
    replace (Z.pred (Z.of_nat (S n))) with (Z.of_nat n) by lia. by replace (Z.succ i) with (i + 1) by lia.
  - destruct n; [by right|left]. unfold rem in *; unfold BLOCK_SIZE in *.
    destruct (Z.le_gt_cases ((i + 1) * (1024 * 1024)) size); [done|].
    rewrite Z.max_l, Z.div_small in Hn by lia. lia.
  - replace (Z.max 0 (size - (i + 1) * BLOCK_SIZE)) with (Z.max 0 (rem - BLOCK_SIZE))
      by (unfold rem; lia). lia.
Qed.

(** The blocks of a range, put together, are the range. *)
Lemma range_blocks_concat off size n :
  0 <= off -> 0 <= size -> off + size <= zlen disk -> size <= Z.of_nat n * BLOCK_SIZE ->
  concat (map (fun i => range_block disk off size i) (seqZ 0 (Z.of_nat n)))
  = sub off size disk.
Proof.
  intros Ho Hs Hl Hn.
  assert (forall k, concat (map (fun i => range_block disk off size i) (seqZ 0 (Z.of_nat k)))
                    = sub off (Z.min size (Z.of_nat k * BLOCK_SIZE)) disk) as Hk.
  { induction k as [|k IH].
    - unfold sub. by replace (Z.to_nat _) with 0%nat by lia.
    - rewrite seqZ_S, map_app, concat_app, IH, Nat2Z.inj_succ. cbn [map concat].
      rewrite app_nil_r. unfold range_block, BLOCK_SIZE. rewrite Z.add_0_l.
      destruct (Z.le_gt_cases size (Z.of_nat k * (1024 * 1024))).
      + rewrite !(Z.min_l size) by lia. unfold sub at 2.
        replace (Z.to_nat (Z.min (1024 * 1024) (size - Z.of_nat k * (1024 * 1024)))) with 0%nat by lia.
        rewrite take_0. apply app_nil_r.
      + rewrite (Z.min_r size) by lia. rewrite <- sub_app by lia. f_equal. lia. }
  rewrite Hk. f_equal. lia.
Qed.

(** The manifest of a range. *)
Definition range_manifest (off size now : Z) (path : list Z) : HashManifest :=
  let n := (size + BLOCK_SIZE - 1) / BLOCK_SIZE in
  {| m_BlockSize := BLOCK_SIZE; m_TotalBlocks := n; m_TotalSize := size;
     m_Entries := map (range_entry disk h off size) (seqZ 0 n);
     m_Timestamp := now; m_VolumePath := path |}.

Lemma BuildManifest_ok off size now path :
  0 <= off -> 0 <= size -> off + size <= zlen disk ->
  BuildManifest true true off size now path = Some (range_manifest off size now path).
Proof.
  intros Ho Hs Hl. pose proof (range_blocks_bounds size Hs) as [Hn Hn'].
  unfold range_manifest, BuildManifest. cbn [negb orb].
  rewrite wrap_small by (unfold in_width, BLOCK_SIZE; lia).
  set (n := (size + BLOCK_SIZE - 1) / BLOCK_SIZE) in *.
  pose proof (build_loop_ok off size (Z.to_nat n) 0 Ho) as Hb.
  rewrite Z.mul_0_l, Z.sub_0_r, (Z.max_r 0 size), (Z.min_r size 0), Z.add_0_r in Hb by lia.
  rewrite Hb by (lia || (fold n; lia)). cbn [mbind option_bind]. by rewrite Z2Nat.id.
Qed.

Lemma range_manifest_lookup off size now path i :
  0 <= size -> 0 <= i ->
  m_Entries (range_manifest off size now path) !! Z.to_nat i
  = if i <? m_TotalBlocks (range_manifest off size now path)
    then Some (range_entry disk h off size i) else None.
Proof.
  intros Hs Hi. pose proof (range_blocks_bounds size Hs) as [Hn _].
  cbn [range_manifest m_Entries m_TotalBlocks].
  change (map ?f ?l) with (fmap (M := list) f l). rewrite list_lookup_fmap. case_if.
  - rewrite lookup_seqZ_lt by lia. cbn. f_equal. f_equal. lia.
  - rewrite lookup_seqZ_ge by lia. done.
Qed.

(** Rehashing reads each listed block at the offset of its entry. *)
Definition rehash_entry (m : HashManifest) (i : Z) : BlockHashEntry :=
  let off := from_option e_Offset 0 (m_Entries m !! Z.to_nat i) in
  {| e_BlockIndex := i; e_Offset := off; e_Hash := h (sub off (rehash_size m i) disk) |}.

Lemma rehash_loop_ok m idxs acc :
  (forall i e, i ∈ idxs -> m_Entries m !! Z.to_nat i = Some e ->
     0 <= e_Offset e /\ e_Offset e + rehash_size m i <= zlen disk) ->
  rehash_loop m idxs acc
  = (true, acc ++ map (rehash_entry m)
             (filter (fun i => (Z.to_nat i < length (m_Entries m))%nat) idxs)).
Proof.
  revert acc. induction idxs as [|i idxs IH]; intros acc Hb; cbn [rehash_loop].
  { by rewrite app_nil_r. }
  rewrite filter_cons. case_decide as Hlt.
  - destruct (lookup_lt_is_Some_2 _ _ Hlt) as [e He]. rewrite He.
    destruct (Hb i e) as [Ho Hl]; [left|done|]. 
    assert (0 <= rehash_size m i).
    { unfold rehash_size, BLOCK_SIZE. case_if; [|lia]. cbv zeta. case_if; [|lia].
      apply wrap_range. lia. }
    rewrite ReadAt_ok by done. rewrite (proj2 Hsrc), IH by (intros; eapply Hb; [right|]; done).
    cbn [map]. rewrite <- app_assoc. unfold rehash_entry at 2. by rewrite He.
  - rewrite lookup_ge_None_2 by lia. apply IH. intros; eapply Hb; [right|]; done.
Qed.

(** In a manifest with the sizes of a range, block [i] has the size of the
    [i]-th block of the range. *)
Lemma rehash_size_range m off size i :
  off + size <= zlen disk -> 0 <= off -> m_TotalSize m = size ->
  m_TotalBlocks m = (size + BLOCK_SIZE - 1) / BLOCK_SIZE ->
  0 <= i < m_TotalBlocks m -> rehash_size m i = Z.min BLOCK_SIZE (size - i * BLOCK_SIZE).
Proof.
  intros Hl Ho Hs Ht Hi. unfold rehash_size. rewrite Hs. rewrite Ht in *.
  pose proof (Z.div_mod (size + BLOCK_SIZE - 1) BLOCK_SIZE).
  pose proof (Z.mod_pos_bound (size + BLOCK_SIZE - 1) BLOCK_SIZE).
  pose proof (Z.div_mod size BLOCK_SIZE). pose proof (Z.mod_pos_bound size BLOCK_SIZE).
  unfold BLOCK_SIZE in *. rewrite wrap_small by (unfold in_width; lia). case_if; cbv zeta.
  - case_if; [rewrite wrap_small by (unfold in_width; lia)|]; lia.
  - lia.
Qed.
End build_lemmas.

Definition same_at (old current : HashManifest) (i : nat) : Prop :=
  exists a b, m_Entries old !! i = Some a /\ m_Entries current !! i = Some b /\
              e_Hash a = e_Hash b.

Lemma block_differs_false old current i :
  block_differs old current i = false <-> same_at old current i.
Proof.
  unfold block_differs, same_at. destruct (length (m_Entries old) <=? i)%nat eqn:E1.
  { apply Nat.leb_le in E1. rewrite (lookup_ge_None_2 _ _ E1). naive_solver. }
  destruct (length (m_Entries current) <=? i)%nat eqn:E2.
  { apply Nat.leb_le in E2. rewrite (lookup_ge_None_2 _ _ E2). naive_solver. }
  apply Nat.leb_gt in E1, E2.
  destruct (lookup_lt_is_Some_2 _ _ E1) as [a ->]. destruct (lookup_lt_is_Some_2 _ _ E2) as [b ->].
  rewrite negb_false_iff, bool_decide_eq_true. naive_solver.
Qed.

Lemma block_differs_true old current i :
  block_differs old current i = true <-> ~ same_at old current i.
Proof. by rewrite <- block_differs_false, not_false_iff_true. Qed.

Lemma manifest_header bs tb ts r :
  in_width 64 bs -> in_width 64 tb -> in_width 64 ts ->
  let data := (le_enc 4 MANIFEST_MAGIC ++ le_enc 4 1 ++ le_enc 8 bs ++ le_enc 8 tb ++ le_enc 8 ts)
              ++ r in
  rd_le 0 4 data = MANIFEST_MAGIC /\ rd_le 4 4 data = 1 /\ rd_le 8 8 data = bs /\
  rd_le 16 8 data = tb /\ rd_le 24 8 data = ts.
Proof.
  intros Hb Ht Hs. cbv zeta. rewrite <- !app_assoc.
  assert (in_width 32 MANIFEST_MAGIC) by (unfold in_width, MANIFEST_MAGIC; lia).
  assert (in_width 32 1) by (unfold in_width; lia).
  repeat split;
    repeat (rewrite rd_le_skip by (rewrite ?le_enc_length; lia));
    rewrite ?le_enc_length;
    match goal with |- rd_le ?o _ _ = _ => replace o with 0 by lia end;
    first [by apply (rd_le_here 4) | by apply (rd_le_here 8)].
Qed.

Lemma SerializeManifest_split m :
  SerializeManifest m
  = (le_enc 4 MANIFEST_MAGIC ++ le_enc 4 1 ++ le_enc 8 (m_BlockSize m)
     ++ le_enc 8 (m_TotalBlocks m) ++ le_enc 8 (m_TotalSize m))
    ++ concat (map SerializeEntry (m_Entries m)).
Proof. unfold SerializeManifest. by rewrite <- !app_assoc. Qed.

Lemma SerializeManifest_length m :
  manifest_wf m -> zlen (SerializeManifest m) = 32 + 40 * zlen (m_Entries m).
Proof.
  intros (_ & _ & _ & He). unfold SerializeManifest. rewrite !length_app, !le_enc_length.
  assert (zlen (concat (map SerializeEntry (m_Entries m))) = 40 * zlen (m_Entries m)) as E; [|lia].
  induction He as [|e es [_ Hh] _ IH]; cbn [map concat length]; [done|].
  unfold SerializeEntry at 1. rewrite !length_app, le_enc_length.
  unfold SHA256_HASH_SIZE in Hh. lia.
Qed.

Lemma read_bytes_here off n pre d r :
  zlen pre = off -> zlen d = n -> read_bytes (pre ++ d ++ r) off n = Some d.
Proof.
  intros <- <-. unfold read_bytes. test_false (zlen (pre ++ d ++ r) <? zlen pre + zlen d).
  rewrite sub_skip, Z.sub_diag by lia. by rewrite sub_here.
Qed.

(** Reading back the entries behind [off] bytes. *)
Lemma read_entries_ok off pre es r :
  zlen pre = off -> Forall entry_wf es ->
  read_entries (length es) (pre ++ concat (map SerializeEntry es) ++ r) off
  = Some (map strip_entry es).
Proof.
  intros Hoff He. revert off pre Hoff.
  induction He as [|e es [Hi Hh] He IH]; intros off pre Hoff; [done|].
  cbn [length read_entries map concat]. unfold SHA256_HASH_SIZE in *. rewrite <- app_assoc.
  set (tl := concat (map SerializeEntry es) ++ r) in *.
  assert (zlen (le_enc 8 (e_BlockIndex e)) = 8) as H8 by (rewrite le_enc_length; lia).
  assert (pre ++ SerializeEntry e ++ tl
          = (pre ++ le_enc 8 (e_BlockIndex e)) ++ e_Hash e ++ tl) as E2
    by (unfold SerializeEntry; by rewrite <- !app_assoc).
  assert (read_bytes (pre ++ SerializeEntry e ++ tl) off 8
          = Some (le_enc 8 (e_BlockIndex e))) as ->.
  { unfold SerializeEntry. rewrite <- app_assoc. by apply read_bytes_here. }
  cbn [mbind option_bind]. rewrite E2, read_bytes_here by (done || len_solve).
  cbn [mbind option_bind]. rewrite (app_assoc _ (e_Hash e)). unfold tl. rewrite IH by len_solve.
  cbn [mbind option_bind]. unfold strip_entry at 2. by rewrite le_dec_enc.
Qed.

Lemma StronglySorted_filter_lt (P : nat -> Prop) `{!forall x, Decision (P x)} l :
  StronglySorted lt l -> StronglySorted lt (filter P l).
Proof.
  induction 1 as [|x l Hl IH Hx]; [constructor|]. rewrite filter_cons.
  destruct (decide (P x)); [|done]. constructor; [done|].
  rewrite Forall_forall in Hx |- *. intros y [_ Hy]%list_elem_of_filter. by apply Hx.
Qed.

Lemma map_filter_ext {A B} (P Q : A -> Prop) `{!forall x, Decision (P x), !forall x, Decision (Q x)}
    (f g : A -> B) l :
  (forall x, x ∈ l -> P x <-> Q x) -> (forall x, x ∈ l -> Q x -> f x = g x) ->
  map f (filter P l) = map g (filter Q l).
Proof.
  induction l as [|x l IH]; intros HP Hf; [done|]. rewrite !filter_cons.
  assert (map f (filter P l) = map g (filter Q l)) as E
    by (apply IH; intros; [apply HP|apply Hf]; try done; by right).
  destruct (HP x) as [H1 H2]; [left|]. do 2 case_decide; try tauto.
  cbn [map]. rewrite E, Hf; [done|left|done].
Qed.

(** Equal lists of hashes, index by index. *)
Lemma same_hashes old current :
  map e_Hash (m_Entries old) = map e_Hash (m_Entries current) <->
  forall i, 0 <= i < Z.max (zlen (m_Entries old)) (zlen (m_Entries current)) ->
    same_at old current (Z.to_nat i).
Proof.
  split.
  - intros E i Hi. pose proof (f_equal length E) as El. rewrite !length_map in El.
    destruct (lookup_lt_is_Some_2 (m_Entries old) (Z.to_nat i)) as [a Ha]; [lia|].
    destruct (lookup_lt_is_Some_2 (m_Entries current) (Z.to_nat i)) as [b Hb]; [lia|].
    exists a, b. split_and!; [done|done|].
    pose proof (f_equal (.!! Z.to_nat i) E) as Ei. cbv beta in Ei.
    rewrite !list_lookup_fmap, Ha, Hb in Ei. by injection Ei.
  - intros Hall. apply list_eq. intros k.
    change (map e_Hash) with (fmap (M := list) e_Hash). rewrite !list_lookup_fmap.
    destruct (decide (Z.of_nat k < Z.max (zlen (m_Entries old)) (zlen (m_Entries current)))).
    + destruct (Hall (Z.of_nat k)) as (a & b & Ha & Hb & E); [lia|].
      rewrite Nat2Z.id in Ha, Hb. rewrite Ha, Hb. cbn. by rewrite E.
    + rewrite !lookup_ge_None_2 by lia. done.
Qed.

(** ** The properties *)

(** C23: the manifest of a source.  When reading and hashing succeed,
    [BuildManifest] returns one entry per block of the range, in order, with
    the block's index, its byte offset in the source and the hash of its
    bytes; these blocks, put together, are exactly the range, the last one
    holding the rest that does not fill a block. *)
Theorem BuildManifest_correct `{Source} disk h offset size now path :
  source_is disk h -> zlen disk < 2 ^ 63 -> 0 <= offset -> 0 <= size ->
  offset + size <= zlen disk ->
  let n := (size + BLOCK_SIZE - 1) / BLOCK_SIZE in
  BuildManifest true true offset size now path
  = Some {| m_BlockSize := BLOCK_SIZE; m_TotalBlocks := n; m_TotalSize := size;
            m_Entries := map (range_entry disk h offset size) (seqZ 0 n);
            m_Timestamp := now; m_VolumePath := path |} /\
  concat (map (range_block disk offset size) (seqZ 0 n)) = sub offset size disk.
Proof.
  intros Hsrc Hsmall Ho Hs Hl n.
  pose proof (range_blocks_bounds size Hs) as [Hn Hn']. fold n in Hn, Hn'.
  split; [by apply BuildManifest_ok|].
  pose proof (range_blocks_concat disk offset size (Z.to_nat n) Ho Hs Hl) as Hc.
  rewrite Z2Nat.id in Hc by done. by apply Hc.
Qed.

(** comparison.  The result lists, in ascending order and without
    repetition, exactly the block indexes at which the manifests do not both
    have an entry with the same hash; it is empty exactly when they have as
    many entries with the same hashes. *)
Theorem CompareManifests_correct old current :
  let changed := CompareManifests old current in
  (forall i, i ∈ changed <->
     0 <= i < Z.max (zlen (m_Entries old)) (zlen (m_Entries current)) /\
     ~ same_at old current (Z.to_nat i)) /\
  StronglySorted Z.lt changed /\
  (changed = [] <-> map e_Hash (m_Entries old) = map e_Hash (m_Entries current)).
Proof.
  intros changed.
  assert (forall i, i ∈ changed <->
     0 <= i < Z.max (zlen (m_Entries old)) (zlen (m_Entries current)) /\
     ~ same_at old current (Z.to_nat i)) as Hin.
  { intros i. unfold changed, CompareManifests. rewrite list_elem_of_In, in_map_iff.
    setoid_rewrite <- list_elem_of_In. setoid_rewrite list_elem_of_filter.
    setoid_rewrite elem_of_seq. setoid_rewrite block_differs_true. split.
    - intros (k & <- & Hd & _ & Hk). rewrite Nat2Z.id. split; [lia|done].
    - intros [Hi Hd]. exists (Z.to_nat i). split; [lia|]. split; [done|lia]. }
  split_and!; [done| |].
  - unfold changed, CompareManifests.
    assert (StronglySorted lt (seq 0 (Nat.max (length (m_Entries old)) (length (m_Entries current)))))
      as Hs.
    { generalize (Nat.max (length (m_Entries old)) (length (m_Entries current))).
      intros n. generalize 0%nat. induction n as [|n IH]; intros k; cbn; constructor; [done|].
      apply Forall_forall. intros x Hx. apply elem_of_seq in Hx. lia. }
    apply (StronglySorted_filter_lt (fun i => block_differs old current i = true)) in Hs.
    induction Hs as [|x l Hl IH Hx]; cbn; constructor; [done|].
    apply Forall_map. eapply Forall_impl; [exact Hx|]. cbn. lia.
  - rewrite same_hashes. split.
    + intros E i Hi. destruct (decide (i ∈ changed)) as [Hc|Hc].
      { rewrite E in Hc. by apply elem_of_nil in Hc. }
      apply block_differs_false, not_true_iff_false. rewrite block_differs_true.
      rewrite Hin in Hc. tauto.
    + intros Hall. apply elem_of_nil_inv. intros x Hx. apply Hin in Hx. destruct Hx as [Hx Hn]. by apply Hn, Hall.
Qed.

(** round trip of the binary format.  A well-formed manifest that was
    serialised is read back, also with bytes behind it, as the same manifest
    without what the format does not hold: the entries' offsets become 0, the
    time stamp 0 and the path empty. *)
Theorem manifest_roundtrip max_size m r :
  manifest_wf m -> zlen (m_Entries m) <= max_size -> 32 + 40 * zlen (m_Entries m) < 2 ^ 64 ->
  DeserializeManifest max_size (SerializeManifest m ++ r) = Accepted (strip m).
Proof.
  intros Hwf Hmax Hl. pose proof (SerializeManifest_length m Hwf) as HL.
  pose proof Hwf as (Hb & Hs & Ht & He).
  destruct (manifest_header (m_BlockSize m) (m_TotalBlocks m) (m_TotalSize m)
              (concat (map SerializeEntry (m_Entries m)) ++ r)) as (E1 & E2 & E3 & E4 & E5);
    [done|unfold in_width; lia|done|].
  rewrite app_assoc, <- SerializeManifest_split in E1, E2, E3, E4, E5.
  unfold DeserializeManifest. rewrite E1, E2, E3, E4, E5, !Z.eqb_refl. cbn [negb].
  test_false (zlen (SerializeManifest m ++ r) <? 32). unfold SHA256_HASH_SIZE.
  rewrite Ht, (wrap_small 64 (zlen _ * _)), wrap_small by (unfold in_width; lia).
  test_false (zlen (SerializeManifest m ++ r) <? 32 + zlen (m_Entries m) * (8 + 32)).
  test_false (max_size <? zlen (m_Entries m)). rewrite Nat2Z.id.
  assert (read_entries (length (m_Entries m)) (SerializeManifest m ++ r) 32
          = Some (map strip_entry (m_Entries m))) as ->; [|by unfold strip; rewrite Ht].
  rewrite SerializeManifest_split, <- app_assoc. apply read_entries_ok; [|done].
  rewrite !length_app, !le_enc_length. lia.
Qed.

(** rehashing.  On the manifest [BuildManifest] made of a range,
    [ComputeBlockHashes] returns for the listed blocks the entries the
    manifest was built with, in the order of the list, and leaves out the
    indexes behind its end. *)
Theorem ComputeBlockHashes_correct `{Source} disk h offset size now path m idxs old :
  source_is disk h -> zlen disk < 2 ^ 63 -> 0 <= offset -> 0 <= size ->
  offset + size <= zlen disk -> Forall (Z.le 0) idxs ->
  BuildManifest true true offset size now path = Some m ->
  ComputeBlockHashes true true m idxs old
  = (true, map (range_entry disk h offset size) (filter (fun i => i < m_TotalBlocks m) idxs)).
Proof.
  intros Hsrc Hsmall Ho Hs Hl Hidx Hm.
  rewrite (BuildManifest_ok disk h) in Hm by done. injection Hm as <-.
  set (m := range_manifest disk h offset size now path).
  pose proof (range_blocks_bounds size Hs) as [Hn Hn'].
  assert (forall i, i ∈ idxs -> m_Entries m !! Z.to_nat i
            = if i <? m_TotalBlocks m then Some (range_entry disk h offset size i) else None)
    as Hent.
  { intros i Hi. rewrite Forall_forall in Hidx. by apply range_manifest_lookup; [|apply Hidx]. }
  assert (forall i, i ∈ idxs -> i < m_TotalBlocks m ->
            rehash_size m i = Z.min BLOCK_SIZE (size - i * BLOCK_SIZE)) as Hsz.
  { intros i Hi Hlt. rewrite Forall_forall in Hidx.
    apply (rehash_size_range disk Hsmall m offset); try done. split; [by apply Hidx|done]. }
  unfold ComputeBlockHashes. cbn [negb orb]. rewrite (rehash_loop_ok disk h) by
    (done || (intros i e Hi He; rewrite Hent in He by done; case_if_in He; [|done];
              injection He as <-; rewrite Hsz by done; cbn [range_entry e_Offset];
              rewrite Forall_forall in Hidx; pose proof (Hidx i Hi); unfold BLOCK_SIZE in *; lia)).
  f_equal. cbn [app]. assert (zlen (m_Entries m) = m_TotalBlocks m) as Hlen.
  { unfold m. cbn [range_manifest m_Entries m_TotalBlocks].
    rewrite length_map, length_seqZ. lia. }
  rewrite Forall_forall in Hidx. apply map_filter_ext.
  - intros i Hi. pose proof (Hidx i Hi). lia.
  - intros i Hi Hlt. unfold rehash_entry. rewrite Hent, Hsz by done.
    by test_true (i <? m_TotalBlocks m).
Qed.

(** Rehashing with a manifest that was read back.  The binary format
    does not hold the offsets, so [ComputeBlockHashes] on such a manifest, as
    on any manifest with offsets 0, returns for every listed block a hash of
    the first bytes of the source. *)
Theorem rehash_without_offsets `{Source} disk h m idxs old :
  source_is disk h -> zlen disk < 2 ^ 63 -> BLOCK_SIZE <= zlen disk ->
  Forall (fun e => e_Offset e = 0) (m_Entries m) ->
  exists hashes, ComputeBlockHashes true true m idxs old = (true, hashes) /\
    Forall (fun e => e_Offset e = 0 /\
       (e_Hash e = h (sub 0 BLOCK_SIZE disk) \/
        e_BlockIndex e = u64 (m_TotalBlocks m - 1) /\
        e_Hash e = h (sub 0 (m_TotalSize m mod BLOCK_SIZE) disk))) hashes.
Proof.
  intros Hsrc Hsmall Hd Hoff.
  assert (forall i, rehash_size m i = BLOCK_SIZE \/
            i = u64 (m_TotalBlocks m - 1) /\ rehash_size m i = m_TotalSize m mod BLOCK_SIZE /\
            m_TotalSize m mod BLOCK_SIZE <= BLOCK_SIZE) as Hsz.
  { intros i. unfold rehash_size. pose proof (Z.mod_pos_bound (m_TotalSize m) BLOCK_SIZE).
    unfold BLOCK_SIZE in *. case_if; cbv zeta; [case_if|]; [right|left|left]; try done.
    rewrite (wrap_small 32) by (unfold in_width; lia). split_and!; [done|done|lia]. }
  eexists. unfold ComputeBlockHashes. cbn [negb orb]. split.
  - apply (rehash_loop_ok disk h Hsrc Hsmall). intros i e Hi He.
    rewrite Forall_lookup in Hoff. rewrite (Hoff _ _ He).
    destruct (Hsz i) as [->|(_ & -> & ?)]; lia.
  - cbn [app]. apply Forall_map, Forall_forall. intros i _. cbn.
    assert (from_option e_Offset 0 (m_Entries m !! Z.to_nat i) = 0) as ->.
    { destruct (m_Entries m !! Z.to_nat i) as [e|] eqn:He; [|done].
      rewrite Forall_lookup in Hoff. by apply (Hoff _ _ He). }
    split; [done|]. destruct (Hsz i) as [->|(-> & -> & _)]; [by left|right; done].
Qed.

(** The size test wraps.  A header of 32 bytes that announces 2^61
    entries is not rejected as too short, since the expected size is computed
    modulo 2^64; the call then asks the vector for 2^61 entries, which
    throws. *)
Theorem DeserializeManifest_size_wraps max_size bs ts :
  in_width 64 bs -> in_width 64 ts -> max_size < 2 ^ 61 ->
  DeserializeManifest max_size
    (le_enc 4 MANIFEST_MAGIC ++ le_enc 4 1 ++ le_enc 8 bs ++ le_enc 8 (2 ^ 61) ++ le_enc 8 ts)
  = LengthError.
Proof.
  intros Hb Ht Hmax. set (data := _ ++ _).
  destruct (manifest_header bs (2 ^ 61) ts []) as (E1 & E2 & E3 & E4 & E5);
    [done|unfold in_width; lia|done|].
  rewrite app_nil_r in *. fold data in E1, E2, E3, E4, E5.
  unfold DeserializeManifest. rewrite E1, E2, E4, !Z.eqb_refl. cbn [negb].
  assert (zlen data = 32) as Hl by (unfold data; rewrite !length_app, !le_enc_length; lia).
  rewrite Hl. change (u64 (32 + _)) with 32. cbn [Z.ltb].
  by test_true (max_size <? 2 ^ 61).
Qed.

(** A disk that always answers, with a hash object that collects the data. *)
Definition demo_source (disk : list Z) (h : list Z -> list Z) : Source :=
  {| SetFilePointerEx := fun _ => true; ReadFile := fun off n => Some (sub off n disk);
     HashHandle := list Z; BCryptCreateHash := Some [];
     BCryptHashData := fun s d => Some (s ++ d); BCryptFinishHash := fun s => Some (h s) |}.

Lemma demo_source_ok disk h : @source_is (demo_source disk h) disk h.
Proof. split; [|done]. intros. done. Qed.

Lemma BuildManifest_correct_witness :
  let disk := [1; 2; 3] in let h := fun d => [foldr Z.add 0 d] in
  let src := demo_source disk h in
  @BuildManifest src true true 1 2 7 [65]
  = Some {| m_BlockSize := BLOCK_SIZE; m_TotalBlocks := 1; m_TotalSize := 2;
            m_Entries := [{| e_BlockIndex := 0; e_Offset := 1; e_Hash := [5] |}];
            m_Timestamp := 7; m_VolumePath := [65] |}.
Proof.
  intros disk h src.
  pose proof (@BuildManifest_correct src disk h 1 2 7 [65]) as [E _].
  { apply demo_source_ok. }
  1-4: cbn; lia.
  rewrite E. vm_compute. reflexivity.
Defined.

Definition ex_manifest : HashManifest :=
  {| m_BlockSize := BLOCK_SIZE; m_TotalBlocks := 1; m_TotalSize := 9;
     m_Entries := [{| e_BlockIndex := 0; e_Offset := 77; e_Hash := replicate 32 5 |}];
     m_Timestamp := 7; m_VolumePath := [65] |}.

Lemma ComputeBlockHashes_correct_witness :
  let disk := [1; 2; 3] in let h := fun d => [foldr Z.add 0 d] in
  let src := demo_source disk h in
  @ComputeBlockHashes src true true (range_manifest disk h 1 2 7 []) [5; 0] []
  = (true, [range_entry disk h 1 2 0]).
Proof.
  intros disk h src.
  rewrite (@ComputeBlockHashes_correct src disk h 1 2 7 [] (range_manifest disk h 1 2 7 []) [5; 0] []).
  - vm_compute. reflexivity.
  - apply demo_source_ok.
  - cbn. lia.
  - lia.
  - lia.
  - cbn. lia.
  - repeat (constructor; [lia|]). constructor.
  - vm_compute. reflexivity.
Defined.

Lemma rehash_without_offsets_witness :
  let disk := zeros BLOCK_SIZE in let h := fun d : list Z => [zlen d] in
  let src := demo_source disk h in
  let m := strip ex_manifest in
  exists hashes, @ComputeBlockHashes src true true m [0] [] = (true, hashes) /\
    Forall (fun e => e_Offset e = 0 /\
       (e_Hash e = h (sub 0 BLOCK_SIZE disk) \/
        e_BlockIndex e = u64 (m_TotalBlocks m - 1) /\
        e_Hash e = h (sub 0 (m_TotalSize m mod BLOCK_SIZE) disk))) hashes.
Proof.
  intros disk h src m.
  assert (zlen disk = BLOCK_SIZE) as Hl by (apply zeros_length; unfold BLOCK_SIZE; lia).
  apply (@rehash_without_offsets src disk h).
  - apply demo_source_ok.
  - rewrite Hl. unfold BLOCK_SIZE. lia.
  - lia.
  - repeat constructor.
Defined.

Lemma DeserializeManifest_size_wraps_witness :
  DeserializeManifest (2 ^ 58)
    (le_enc 4 MANIFEST_MAGIC ++ le_enc 4 1 ++ le_enc 8 5 ++ le_enc 8 (2 ^ 61) ++ le_enc 8 9)
  = LengthError.
Proof. apply DeserializeManifest_size_wraps; unfold in_width; lia. Defined.

Lemma manifest_roundtrip_witness :
  DeserializeManifest 1000 (SerializeManifest ex_manifest ++ [1]) = Accepted (strip ex_manifest).
Proof.
  apply (manifest_roundtrip 1000 ex_manifest [1]).
  - unfold manifest_wf, ex_manifest. cbn [m_BlockSize m_TotalSize m_TotalBlocks m_Entries].
    split_and!; [by vm_compute|by vm_compute|done|]. constructor; [by vm_compute|constructor].
  - vm_compute. discriminate.
  - vm_compute. reflexivity.
Defined.
