(* ===== verification/DataCompressor.v ===== *)
(** * Compression

    [client/DataCompressor.{h,cpp}]: the zlib container around the deflate data
    of the Windows compression API, the stored-block fallback and Adler-32.
    The Windows API is a parameter; RFC 1950 and the stored blocks of RFC 1951
    are the specification. *)

From S2P Require Import Prelude.

(** ** Adler-32 *)

Definition ADLER_MOD : Z := 65521.

Fixpoint adler_loop (a b : Z) (data : list Z) : Z * Z :=
  match data with
  | [] => (a, b)
  | d :: rest =>
      let a := u32 (a + d) mod ADLER_MOD in
      let b := u32 (b + a) mod ADLER_MOD in
      adler_loop a b rest
  end.

Definition ComputeAdler32 (data : list Z) : Z :=
  let '(a, b) := adler_loop 1 0 data in u32 (Z.lor (Z.shiftl b 16) a).

(** The four bytes of the trailer, most significant first. *)
Definition be4 (x : Z) : list Z :=
  [u8 (Z.shiftr x 24); u8 (Z.shiftr x 16); u8 (Z.shiftr x 8); u8 x].

(** ** Stored blocks *)

Inductive WriteResult := Written (out : list Z) | OutOfBounds | OutOfFuel.

Definition wbind (r : WriteResult) (k : list Z -> WriteResult) : WriteResult :=
  match r with Written out => k out | e => e end.

(** Writing [bs] at the position [pos = zlen out] of a vector of [total]
    bytes. *)
Definition put (total : Z) (bs out : list Z) : WriteResult :=
  if zlen out + zlen bs <=? total then Written (out ++ bs) else OutOfBounds.

Definition stored_header (isFinal : bool) (chunkSize : Z) : list Z :=
  let nlen := u16 (Z.lnot chunkSize) in
  [if isFinal then 1 else 0; u8 chunkSize; u8 (Z.shiftr chunkSize 8);
   u8 nlen; u8 (Z.shiftr nlen 8)].

Fixpoint stored_loop (fuel : nat) (total : Z) (input : list Z) (offset : Z) (out : list Z)
    : WriteResult :=
  let inputSize := zlen input in
  if offset <? inputSize then
    match fuel with
    | O => OutOfFuel
    | S fuel' =>
        let chunkSize := Z.min (u32 (inputSize - offset)) 65535 in
        let isFinal := inputSize <=? u32 (offset + chunkSize) in
        wbind (put total (stored_header isFinal chunkSize) out) (fun out =>
        wbind (put total (sub offset chunkSize input) out) (fun out =>
        stored_loop fuel' total input (u32 (offset + chunkSize)) out))
    end
  else Written out.

(** The size of the vector. *)
Definition stored_size (inputSize : Z) : Z :=
  let numChunks := u32 (inputSize + 65534) / 65535 in
  2 + numChunks * 5 + inputSize + 4.

Definition CreateStoredZlib (input : list Z) : WriteResult :=
  let adler := ComputeAdler32 input in
  let total := stored_size (zlen input) in
  wbind (put total [0x78; 0x01] []) (fun out =>
  wbind (stored_loop (length input) total input 0 out) (fun out =>
  put total (be4 adler) out)).

(** ** The zlib container *)

Definition WrapDeflateAsZlib (deflateData originalData : list Z) : list Z :=
  [0x78; 0x9C] ++ deflateData ++ be4 (ComputeAdler32 originalData).

(** ** Compression *)

Definition ERROR_INSUFFICIENT_BUFFER : Z := 122.

Inductive ApiAnswer := ApiDone (data : list Z) | ApiError (code : Z).

(** The Windows compression API: [Compress] into a buffer of a given size,
    [CreateDecompressor], and [Decompress] into one. *)
Class CompressApi := {
  Handle : Type;
  CreateCompressor : option Handle;
  api_Compress : Handle -> list Z -> Z -> ApiAnswer;
  CreateDecompressor : option Handle;
  api_Decompress : Handle -> list Z -> Z -> option (list Z);
}.

Definition GetMaxCompressedSize (inputSize : Z) : Z := inputSize + inputSize / 1024 + 128 + 4.

Section compressor.
Context `{CompressApi}.

Record Compressor := { m_hCompressor : option Handle; m_initialized : bool }.

Definition Compressor_new : Compressor := {| m_hCompressor := None; m_initialized := false |}.

Definition Initialize (c : Compressor) : bool * Compressor :=
  if m_initialized c then (true, c)
  else match CreateCompressor with
       | None => (false, c)
       | Some h => (true, {| m_hCompressor := Some h; m_initialized := true |})
       end.

Definition Shutdown (c : Compressor) : Compressor :=
  {| m_hCompressor := None; m_initialized := false |}.

(** The call of the API, repeated once with a larger buffer. *)
Definition compress_with_retry (h : Handle) (input : list Z) : option (list Z) :=
  let maxSize := GetMaxCompressedSize (zlen input) in
  match api_Compress h input maxSize with
  | ApiDone d => Some d
  | ApiError e =>
      if e =? ERROR_INSUFFICIENT_BUFFER then
        match api_Compress h input (maxSize * 2) with
        | ApiDone d => Some d
        | ApiError _ => None
        end
      else None
  end.

(** The call's result and the vector [output]; [None] when the fallback
    writes behind its vector. *)
Definition Compress (c : Compressor) (input output : list Z) : option (bool * list Z) :=
  match m_initialized c, m_hCompressor c with
  | true, Some h =>
      match compress_with_retry h input with
      | None => Some (false, output)
      | Some mszip =>
          if zlen mszip <? 2 then
            match CreateStoredZlib input with
            | Written out => Some (true, out)
            | _ => None
            end
          else if bool_decide (take 2 mszip = [0x43; 0x4B]) then
            Some (true, WrapDeflateAsZlib (drop 2 mszip) input)
          else Some (true, WrapDeflateAsZlib mszip input)
      end
  | _, _ => Some (false, output)
  end.

(** [resize] to [n] bytes. *)
Definition resize (n : Z) (l : list Z) : list Z :=
  take (Z.to_nat n) l ++ zeros (n - zlen l).

Definition Decompress (input : list Z) (originalSize : Z) (output : list Z) : bool * list Z :=
  match input with
  | cmf :: _ =>
      if zlen input <? 6 then (false, output)
      else if negb (Z.land cmf 0x0F =? 8) then (false, output)
      else
        let deflateSize := zlen input - 2 - 4 in
        let mszipData := [0x43; 0x4B] ++ sub 2 deflateSize input in
        match CreateDecompressor with
        | None => (false, output)
        | Some h =>
            match api_Decompress h mszipData originalSize with
            | None => (false, resize originalSize output)
            | Some d => (zlen d =? originalSize, d)
            end
        end
  | [] => (false, output)
  end.
End compressor.

(** ** Specification *)

(** Adler-32 without intermediate reductions: the sum of the bytes, and the
    sum of them weighted by the number of bytes from there to the end. *)
Definition byte_sum (l : list Z) : Z := foldr Z.add 0 l.
Fixpoint weighted_sum (l : list Z) : Z :=
  match l with [] => 0 | d :: l' => zlen l * d + weighted_sum l' end.
Definition adler_spec (l : list Z) : Z :=
  ((zlen l + weighted_sum l) mod ADLER_MOD) * 65536 + (1 + byte_sum l) mod ADLER_MOD.

(** RFC 1951, stored blocks: data and what follows the final block. *)
Fixpoint inflate_stored (fuel : nat) (l : list Z) : option (list Z * list Z) :=
  match fuel, l with
  | S fuel', hd :: l0 :: l1 :: n0 :: n1 :: rest =>
      let len := l0 + 256 * l1 in
      if (Z.land hd 6 =? 0) && (n0 + 256 * n1 =? 65535 - len) && (len <=? zlen rest) then
        let d := take (Z.to_nat len) rest in
        let r := drop (Z.to_nat len) rest in
        if Z.testbit hd 0 then Some (d, r)
        else ('(d', r') ← inflate_stored fuel' r; Some (d ++ d', r'))
      else None
  | _, _ => None
  end.

(** RFC 1950 over a decoder of deflate data. *)
Definition zlib_decode (inflate : list Z -> option (list Z * list Z)) (l : list Z)
    : option (list Z) :=
  match l with
  | cmf :: flg :: body =>
      if (Z.land cmf 15 =? 8) && ((256 * cmf + flg) mod 31 =? 0) && negb (Z.testbit flg 5) then
        '(d, r) ← inflate body;
        if bool_decide (r = be4 (adler_spec d)) then Some d else None
      else None
  | _ => None
  end.

Definition stored_decoder (l : list Z) : option (list Z * list Z) := inflate_stored (length l) l.

(** ** Lemmas *)

Lemma lor_shiftl_add b a : 0 <= a < 2 ^ 16 -> Z.lor (Z.shiftl b 16) a = b * 65536 + a.
Proof.
  intros Ha. rewrite <- Z.add_nocarry_lor.
  - by rewrite Z.shiftl_mul_pow2.
  - apply Z.bits_inj'. intros n Hn. rewrite Z.land_spec, Z.bits_0, Z.shiftl_spec by done.
    destruct (Z.lt_ge_cases n 16).
    + by rewrite Z.testbit_neg_r by lia.
    + rewrite <- (Z.mod_small a (2 ^ 16)), Z.mod_pow2_bits_high by lia. apply andb_false_r.
Qed.

Lemma adler_step a d b n w :
  ((b + (a + d) mod 65521) mod 65521 + n * ((a + d) mod 65521) + w) mod 65521
  = (b + (1 + n) * a + ((1 + n) * d + w)) mod 65521.
Proof. Z.to_euclidean_division_equations. nia. Qed.

Lemma adler_loop_spec l a b :
  bytes_ok l -> 0 <= a < ADLER_MOD -> 0 <= b < ADLER_MOD ->
  adler_loop a b l
  = ((a + byte_sum l) mod ADLER_MOD, (b + zlen l * a + weighted_sum l) mod ADLER_MOD).
Proof.
  intros Hl. revert a b. unfold ADLER_MOD.
  induction Hl as [|d l Hd Hl IH]; intros a b Ha Hb; cbn [adler_loop].
  - cbn [byte_sum foldr weighted_sum length]. rewrite !Z.mod_small by lia. f_equal; lia.
  - unfold in_width in Hd. unfold ADLER_MOD in *.
    assert (0 <= (a + d) mod 65521 < 65521) by (apply Z.mod_pos_bound; lia).
    rewrite (wrap_small 32 (a + d)), (wrap_small 32) by (unfold in_width; lia).
    rewrite IH by (apply Z.mod_pos_bound; lia). cbn [weighted_sum length].
    change (byte_sum (d :: l)) with (d + byte_sum l). f_equal.
    + rewrite Zplus_mod_idemp_l. f_equal. lia.
    + rewrite adler_step. rewrite Nat2Z.inj_succ. do 2 f_equal; lia.
Qed.

Lemma ComputeAdler32_spec l : bytes_ok l -> ComputeAdler32 l = adler_spec l.
Proof.
  intros Hl. unfold ComputeAdler32, adler_spec. rewrite adler_loop_spec by (done || (unfold ADLER_MOD; lia)).
  unfold ADLER_MOD. rewrite lor_shiftl_add.
  - rewrite wrap_small; [do 3 f_equal; lia|]. unfold in_width.
    Z.to_euclidean_division_equations. lia.
  - Z.to_euclidean_division_equations. lia.
Qed.

Lemma adler_spec_range l : in_width 32 (adler_spec l).
Proof.
  unfold adler_spec, ADLER_MOD, in_width. Z.to_euclidean_division_equations. lia.
Qed.

Lemma byte_sum_app l1 l2 : byte_sum (l1 ++ l2) = byte_sum l1 + byte_sum l2.
Proof. unfold byte_sum. induction l1 as [|x l1 IH]; cbn [app foldr]; lia. Qed.

Lemma be4_length x : zlen (be4 x) = 4.
Proof. done. Qed.

(** One stored block is read back. *)
Lemma inflate_stored_block fuel fin c d r :
  0 < c <= 65535 -> zlen d = c ->
  inflate_stored (S fuel) (stored_header fin c ++ d ++ r)
  = if fin then Some (d, r)
    else '(d', r') ← inflate_stored fuel r; Some (d ++ d', r').
Proof.
  intros Hc Hd. unfold stored_header. cbn [app inflate_stored].
  assert (u16 (Z.lnot c) = 65535 - c) as ->.
  { unfold wrap, Z.lnot. symmetry. apply Z.mod_unique with (-1); lia. }
  assert (forall x, 0 <= x < 65536 -> u8 x + 256 * u8 (Z.shiftr x 8) = x) as H2.
  { intros x Hx. unfold wrap. rewrite Z.shiftr_div_pow2 by lia.
    change (2 ^ 8) with 256. Z.to_euclidean_division_equations. lia. }
  rewrite !H2 by lia. rewrite Z.eqb_refl.
  test_true (c <=? zlen (d ++ r)).
  rewrite take_app_length', drop_app_length' by lia. by destruct fin.
Qed.

(** The bytes stored blocks take for [rest] bytes of data. *)
Definition blocks_len (rest : Z) : Z := 5 * ((rest + 65534) / 65535) + rest.

Lemma blocks_len_step rest :
  0 < rest -> blocks_len rest
  = 5 + Z.min rest 65535 + blocks_len (rest - Z.min rest 65535).
Proof. unfold blocks_len. intros. Z.to_euclidean_division_equations. lia. Qed.

Lemma blocks_len_0 : blocks_len 0 = 0.
Proof. done. Qed.

Lemma blocks_len_nonneg rest : 0 <= rest -> rest <= blocks_len rest.
Proof. unfold blocks_len. intros. Z.to_euclidean_division_equations. lia. Qed.

(** One round of the loop. *)
Lemma stored_loop_step fuel total input offset out :
  0 <= offset < zlen input -> zlen input < 2 ^ 32 ->
  let c := Z.min (zlen input - offset) 65535 in
  let block := stored_header (zlen input <=? offset + c) c ++ sub offset c input in
  stored_loop (S fuel) total input offset out
  = if zlen out + (5 + c) <=? total
    then stored_loop fuel total input (offset + c) (out ++ block) else OutOfBounds.
Proof.
  intros Ho Hn c block.
  assert (0 < c <= 65535 /\ offset + c <= zlen input) as [Hc Hoc] by (unfold c; lia).
  cbn [stored_loop]. test_true (offset <? zlen input).
  rewrite (wrap_small 32 (zlen input - offset)) by (unfold in_width; lia). fold c.
  rewrite !(wrap_small 32 (offset + c)) by (unfold in_width; lia).
  assert (zlen (sub offset c input) = c) as Hs by (rewrite sub_length; lia).
  assert (zlen (stored_header (zlen input <=? offset + c) c) = 5) as Hh by done.
  unfold put at 1. rewrite Hh. destruct (zlen out + (5 + c) <=? total) eqn:E; reflect_Z.
  - test_true (zlen out + 5 <=? total). cbn [wbind]. unfold put. rewrite length_app, Hs.
    rewrite Nat2Z.inj_add, Hh. test_true (zlen out + 5 + c <=? total). cbn [wbind].
    unfold block. by rewrite <- app_assoc.
  - case_if; [|done]. cbn [wbind]. unfold put. rewrite length_app, Hs.
    rewrite Nat2Z.inj_add, Hh. by test_false (zlen out + 5 + c <=? total).
Qed.

Lemma stored_loop_end fuel total input out :
  stored_loop fuel total input (zlen input) out = Written out.
Proof. destruct fuel; cbn [stored_loop]; by test_false (zlen input <? zlen input). Qed.

Lemma stored_loop_ok fuel total input offset out :
  0 <= offset <= zlen input -> zlen input < 2 ^ 32 -> zlen input - offset <= Z.of_nat fuel ->
  zlen out + blocks_len (zlen input - offset) <= total ->
  exists blocks, stored_loop fuel total input offset out = Written (out ++ blocks) /\
    zlen blocks = blocks_len (zlen input - offset) /\
    (offset < zlen input -> forall fuel' r, zlen input - offset <= Z.of_nat fuel' ->
       inflate_stored fuel' (blocks ++ r) = Some (drop (Z.to_nat offset) input, r)).
Proof.
  revert offset out. induction fuel as [|fuel IH]; intros offset out Ho Hn Hf Ht.
  all: destruct (Z.eq_dec offset (zlen input)) as [->|Hne];
    [exists []; rewrite stored_loop_end, app_nil_r, Z.sub_diag; split_and!; [done|done|lia]|].
  { lia. }
  rewrite stored_loop_step by lia. cbv zeta.
  rewrite blocks_len_step in Ht |- * by lia.
  set (c := Z.min (zlen input - offset) 65535) in *.
  assert (0 < c <= 65535 /\ offset + c <= zlen input) as [Hc Hoc] by (unfold c; lia).
  replace (zlen input - offset - c) with (zlen input - (offset + c)) in * by lia.
  pose proof (blocks_len_nonneg (zlen input - (offset + c))) as Hnn.
  test_true (zlen out + (5 + c) <=? total).
  assert (zlen (sub offset c input) = c) as Hs by (rewrite sub_length; lia).
  set (h := stored_header _ c).
  assert (zlen h = 5) as Hh by done.
  destruct (IH (offset + c) (out ++ h ++ sub offset c input)) as (blocks & -> & Hl & Hi);
    [lia|done|lia|rewrite !length_app; lia|].
  exists (h ++ sub offset c input ++ blocks). split_and!.
  - by rewrite <- !app_assoc.
  - rewrite !length_app, !Nat2Z.inj_add, Hh, Hs, Hl. lia.
  - intros _ fuel' r Hf'. destruct fuel' as [|fuel']; [lia|].
    rewrite <- !app_assoc. unfold h. rewrite inflate_stored_block by done.
    destruct (zlen input <=? offset + c) eqn:E; reflect_Z.
    + assert (offset + c = zlen input) as Heq by lia.
      rewrite Heq, Z.sub_diag in Hl. destruct blocks; [|done]. cbn [app]. do 2 f_equal.
      rewrite (drop_sub offset c) by lia. rewrite (drop_ge input) by lia. by rewrite app_nil_r.
    + rewrite Hi by lia. cbn [mbind option_bind]. by rewrite (drop_sub offset c input) by lia.
Qed.

Lemma stored_loop_overrun fuel total input offset out :
  0 <= offset <= zlen input -> zlen input < 2 ^ 32 -> zlen input - offset <= Z.of_nat fuel ->
  zlen out <= total < zlen out + blocks_len (zlen input - offset) ->
  stored_loop fuel total input offset out = OutOfBounds.
Proof.
  revert offset out. induction fuel as [|fuel IH]; intros offset out Ho Hn Hf Ht.
  all: destruct (Z.eq_dec offset (zlen input)) as [->|Hne];
    [rewrite Z.sub_diag, blocks_len_0 in Ht; lia|].
  { lia. }
  rewrite stored_loop_step by lia. cbv zeta. rewrite blocks_len_step in Ht by lia.
  set (c := Z.min (zlen input - offset) 65535) in *.
  assert (0 < c <= 65535 /\ offset + c <= zlen input) as [Hc Hoc] by (unfold c; lia).
  case_if; [|done].
  assert (zlen (sub offset c input) = c) as Hs by (rewrite sub_length; lia).
  apply IH; [lia|done|lia|].
  replace (zlen input - (offset + c)) with (zlen input - offset - c) by lia.
  rewrite !length_app, !Nat2Z.inj_add, Hs. change (zlen (stored_header _ _)) with 5. lia.
Qed.

Lemma CreateStoredZlib_ok input :
  bytes_ok input -> 0 < zlen input <= 2 ^ 32 - 65535 ->
  exists out, CreateStoredZlib input = Written out /\ zlen out = stored_size (zlen input) /\
    zlib_decode stored_decoder out = Some input /\
    exists blocks, out = [0x78; 0x01] ++ blocks ++ be4 (adler_spec input) /\
      stored_decoder blocks = Some (input, []).
Proof.
  intros Hok Hn. unfold CreateStoredZlib.
  assert (stored_size (zlen input) = 6 + blocks_len (zlen input)) as Hsz.
  { unfold stored_size, blocks_len. rewrite wrap_small by (unfold in_width; lia). lia. }
  pose proof (blocks_len_nonneg (zlen input)) as Hnn. rewrite Hsz.
  unfold put at 1. test_true (zlen (@nil Z) + zlen [0x78; 0x01] <=? 6 + blocks_len (zlen input)).
  cbn [wbind]. rewrite app_nil_l.
  destruct (stored_loop_ok (length input) (6 + blocks_len (zlen input)) input 0 [0x78; 0x01])
    as (blocks & -> & Hl & Hi); [lia|lia|lia|rewrite Z.sub_0_r; cbn [length]; lia|]. rewrite Z.sub_0_r in Hl.
  cbn [wbind]. unfold put. rewrite be4_length.
  test_true (zlen ([0x78; 0x01] ++ blocks) + 4 <=? 6 + blocks_len (zlen input)).
  eexists. split; [done|]. split; [rewrite !length_app, !Nat2Z.inj_add, Hl, be4_length; cbn; lia|].
  rewrite ComputeAdler32_spec by done. split.
  - cbn [app zlib_decode]. unfold stored_decoder. rewrite Hi; [|lia|rewrite length_app; lia].
    cbn [mbind option_bind]. rewrite drop_0.
    change (_ && _) with true. by rewrite bool_decide_eq_true_2.
  - exists blocks. split; [by rewrite app_assoc|]. unfold stored_decoder.
    rewrite <- (app_nil_r blocks) at 2. rewrite Hi by lia. by rewrite drop_0.
Qed.

(** What the API documents: its decompressor, given what its compressor made of
    an input and the input's size, returns the input. *)
Class CompressApiRoundTrip `{CompressApi} := {
  api_Decompress_Compress h h' input cap d :
    CreateDecompressor = Some h' -> api_Compress h input cap = ApiDone d ->
    api_Decompress h' d (zlen input) = Some input;
}.

Lemma compress_with_retry_done `{CompressApi} h input d :
  compress_with_retry h input = Some d -> exists cap, api_Compress h input cap = ApiDone d.
Proof.
  unfold compress_with_retry. intros E.
  destruct (api_Compress h input (GetMaxCompressedSize _)) eqn:E1; [injection E as <-; eauto|].
  case_if_in E; [|done]. destruct (api_Compress h input (_ * 2)) eqn:E2; [|done].
  injection E as <-. eauto.
Qed.

(** A container of deflate data decodes exactly when the data does, up to the
    checksum. *)
Lemma zlib_decode_container inflate flg deflate input :
  flg = 0x01 \/ flg = 0x9C ->
  zlib_decode inflate ([0x78; flg] ++ deflate ++ be4 (adler_spec input)) = Some input <->
  inflate (deflate ++ be4 (adler_spec input)) = Some (input, be4 (adler_spec input)).
Proof.
  intros Hf. cbn [app zlib_decode].
  replace ((Z.land 120 15 =? 8) && ((256 * 120 + flg) mod 31 =? 0) && negb (Z.testbit flg 5)) with true
    by (by destruct Hf as [->| ->]).
  destruct (inflate _) as [[d r]|]; cbn [mbind option_bind]; [|done].
  case_bool_decide as Hr; [|by split; [|intros [= -> ->]]].
  split; [by intros [= ->]; rewrite Hr|by intros [= -> ->]].
Qed.

Lemma WrapDeflateAsZlib_eq deflate input :
  bytes_ok input -> WrapDeflateAsZlib deflate input = [0x78; 0x9C] ++ deflate ++ be4 (adler_spec input).
Proof. intros Hok. unfold WrapDeflateAsZlib. by rewrite ComputeAdler32_spec. Qed.

(** [Compress] on every branch, whatever the API answers. *)
Lemma Compress_branches `{CompressApi} c input output :
  bytes_ok input -> 0 < zlen input <= 2 ^ 32 - 65535 ->
  exists ok out, Compress c input output = Some (ok, out) /\
    if ok then exists h mszip flg deflate,
        m_hCompressor c = Some h /\ compress_with_retry h input = Some mszip /\
        out = [0x78; flg] ++ deflate ++ be4 (adler_spec input) /\ (flg = 0x01 \/ flg = 0x9C) /\
        if zlen mszip <? 2
        then flg = 0x01 /\ stored_decoder (deflate ++ be4 (adler_spec input)) = Some (input, be4 (adler_spec input))
        else flg = 0x9C /\
             (mszip = [0x43; 0x4B] ++ deflate \/ take 2 mszip <> [0x43; 0x4B] /\ deflate = mszip)
    else out = output /\ (m_initialized c = false \/ m_hCompressor c = None \/
           exists h, m_hCompressor c = Some h /\ compress_with_retry h input = None).
Proof.
  intros Hok Hn. unfold Compress. destruct (m_initialized c) eqn:Ei; [|exists false, output; by auto].
  destruct (m_hCompressor c) as [h|] eqn:Eh; [|exists false, output; by auto].
  destruct (compress_with_retry h input) as [d|] eqn:Ec;
    [|exists false, output; split; [done|]; split; [done|]; right; right; by exists h].
  case_if.
  - destruct (CreateStoredZlib_ok input Hok Hn) as (out & -> & _ & Hdec & blocks & -> & _).
    eexists true, _. split; [done|]. exists h, d, 0x01, blocks. test_true (zlen d <? 2).
    split_and!; try done; [by left|]. apply (zlib_decode_container stored_decoder 1); [by left|done].
  - case_bool_decide as Hck; eexists true, _; (split; [done|]);
      [exists h, d, 0x9C, (drop 2 d)|exists h, d, 0x9C, d]; test_false (zlen d <? 2);
      (split_and!; [done|done|by apply WrapDeflateAsZlib_eq|by right|done|]).
    + left. by rewrite <- Hck, take_drop.
    + by right.
Qed.

(** [Decompress] of a container hands the API the deflate data behind ["CK"]. *)
Lemma Decompress_container `{CompressApi} h' flg deflate check n output :
  CreateDecompressor = Some h' -> zlen check = 4 ->
  Decompress ([0x78; flg] ++ deflate ++ check) n output
  = match api_Decompress h' ([0x43; 0x4B] ++ deflate) n with
    | None => (false, resize n output)
    | Some d => (zlen d =? n, d)
    end.
Proof.
  intros Hd Hc.
  assert (zlen ([120; flg] ++ deflate ++ check) = 6 + zlen deflate) as Hl
    by (rewrite !length_app, !Nat2Z.inj_add, Hc; cbn [length]; lia).
  unfold Decompress. cbn [app]. cbn [app] in Hl. rewrite Hl.
  test_false (6 + zlen deflate <? 6). change (negb (Z.land 120 15 =? 8)) with false. cbv iota.
  change (120 :: flg :: ?l) with ([120; flg] ++ l).
  by rewrite sub_skip, sub_here, Hd by (cbn [length]; lia).
Qed.

(** ** The properties *)

(** Adler-32.  The loop, which reduces after every byte, computes the
    checksum of RFC 1950 from the unreduced sums, a 32-bit value; and
    changing one byte changes it. *)
Theorem ComputeAdler32_correct data pre d d' post :
  bytes_ok data -> bytes_ok (pre ++ d :: post) -> in_width 8 d' -> d <> d' ->
  ComputeAdler32 data = adler_spec data /\ in_width 32 (ComputeAdler32 data) /\
  ComputeAdler32 (pre ++ d' :: post) <> ComputeAdler32 (pre ++ d :: post).
Proof.
  intros Hdata Hp Hd' Hne. rewrite ComputeAdler32_spec by done.
  split; [done|]. split; [apply adler_spec_range|].
  pose proof Hp as [Hpre [Hd Hpost]%Forall_cons]%bytes_ok_app.
  rewrite !ComputeAdler32_spec by (apply bytes_ok_app; split; [|constructor]; done).
  unfold adler_spec, ADLER_MOD. rewrite !byte_sum_app.
  change (byte_sum (?x :: post)) with (x + byte_sum post).
  unfold in_width in *. Z.to_euclidean_division_equations. lia.
Qed.

(** the stored fallback.  For a non-empty input of up to 2^32 - 65535
    bytes [CreateStoredZlib] stays within the vector it allocates, fills it
    exactly, and the result is a zlib stream that decodes to the input. *)
Theorem CreateStoredZlib_roundtrip input :
  bytes_ok input -> 0 < zlen input <= 2 ^ 32 - 65535 ->
  exists out, CreateStoredZlib input = Written out /\ zlen out = stored_size (zlen input) /\
    zlib_decode stored_decoder out = Some input.
Proof.
  intros Hok Hn. destruct (CreateStoredZlib_ok input Hok Hn) as (out & H1 & H2 & H3 & _). eauto.
Qed.

(** The empty input.  The fallback then writes no block at all, so the
    stream has no final block and does not decode. *)
Theorem CreateStoredZlib_empty :
  CreateStoredZlib [] = Written [0x78; 0x01; 0; 0; 0; 1] /\
  zlib_decode stored_decoder [0x78; 0x01; 0; 0; 0; 1] = None.
Proof. by vm_compute. Qed.

(** An input of more than 2^32 - 65535 bytes.  The number of blocks is
    rounded up modulo 2^32 to 0, the vector has room for no block header, and
    the loop writes behind its end. *)
Theorem CreateStoredZlib_overrun input :
  2 ^ 32 - 65535 < zlen input < 2 ^ 32 -> CreateStoredZlib input = OutOfBounds.
Proof.
  intros Hn. unfold CreateStoredZlib.
  assert (stored_size (zlen input) = 6 + zlen input) as ->.
  { unfold stored_size, wrap. replace ((zlen input + 65534) mod 2 ^ 32) with (zlen input + 65534 - 2 ^ 32).
    - rewrite Z.div_small by lia. lia.
    - apply Z.mod_unique with 1; lia. }
  unfold put at 1. test_true (zlen (@nil Z) + zlen [0x78; 0x01] <=? 6 + zlen input).
  cbn [wbind]. rewrite app_nil_l. rewrite stored_loop_overrun; [done|lia|lia|lia|].
  rewrite Z.sub_0_r. unfold blocks_len. cbn [length]. Z.to_euclidean_division_equations. lia.
Qed.

(** C26: compression and the way back.  For a non-empty input of up to
    2^32 - 65535 bytes and whatever the Windows API answers, [Compress] stays
    within its buffers.  It returns [false], and leaves the output alone, only
    when the compressor is not initialised or the API fails.  Otherwise the
    output is a zlib header, deflate data and the Adler-32 of the input, so it
    decodes to the input exactly when the deflate data does: stored blocks of
    the input, which do, when the API's answer is shorter than two bytes; the
    answer without ["CK"] when it starts with it; and else the whole answer,
    whatever it is.  [Decompress] gives the API ["CK"] and the deflate data.  So,
    the API undoing its own compression, it returns the input when the answer
    began with ["CK"]; an answer that did not is not what the API gets back. *)
Theorem Compress_Decompress `{CompressApiRoundTrip} c input output h' :
  bytes_ok input -> 0 < zlen input <= 2 ^ 32 - 65535 -> CreateDecompressor = Some h' ->
  exists ok out, Compress c input output = Some (ok, out) /\
    if ok then exists h mszip flg deflate,
        m_hCompressor c = Some h /\ compress_with_retry h input = Some mszip /\
        out = [0x78; flg] ++ deflate ++ be4 (adler_spec input) /\
        (forall inflate, zlib_decode inflate out = Some input <->
           inflate (deflate ++ be4 (adler_spec input)) = Some (input, be4 (adler_spec input))) /\
        (forall n output', Decompress out n output' = match api_Decompress h' ([0x43; 0x4B] ++ deflate) n with
                             | None => (false, resize n output')
                             | Some d => (zlen d =? n, d)
                             end) /\
        if zlen mszip <? 2
        then flg = 0x01 /\ zlib_decode stored_decoder out = Some input
        else flg = 0x9C /\
          (mszip = [0x43; 0x4B] ++ deflate /\ (forall output', Decompress out (zlen input) output' = (true, input)) \/
           take 2 mszip <> [0x43; 0x4B] /\ deflate = mszip)
    else out = output /\ (m_initialized c = false \/ m_hCompressor c = None \/
           exists h, m_hCompressor c = Some h /\ compress_with_retry h input = None).
Proof.
  intros Hok Hn Hh. destruct (Compress_branches c input output Hok Hn) as (ok & out & E & Hs).
  exists ok, out. split; [done|]. destruct ok; [|done].
  destruct Hs as (h & mszip & flg & deflate & Hc & Hz & -> & Hf & Hb). exists h, mszip, flg, deflate.
  pose proof (fun n o => Decompress_container h' flg deflate (be4 (adler_spec input)) n o Hh eq_refl) as Hd.
  split_and!; try done; [intros; by apply zlib_decode_container|].
  case_if; destruct Hb as [-> Hb]; (split; [done|]); [apply zlib_decode_container; [by left|done]|].
  destruct Hb as [->|Hb]; [left|by right]. split; [done|]. intros output'. rewrite Hd.
  apply compress_with_retry_done in Hz as [cap Hz]. rewrite (api_Decompress_Compress h h' input cap) by done.
  by rewrite Z.eqb_refl.
Qed.

(** ** Examples *)

Definition demo_compress (input : list Z) (cap : Z) : ApiAnswer :=
  if (0 <? zlen input) && (zlen input <=? 65535) then
    if zlen input + 7 <=? cap
    then ApiDone ([0x43; 0x4B] ++ stored_header true (zlen input) ++ input)
    else ApiError ERROR_INSUFFICIENT_BUFFER
  else ApiError 87.

Definition demo_decompress (m : list Z) (n : Z) : option (list Z) :=
  '(d, r) ← stored_decoder (drop 2 m);
  if bool_decide (r = []) && (zlen d <=? n) then Some d else None.

Definition demo_api : CompressApi :=
  {| Handle := unit; CreateCompressor := Some tt; api_Compress := fun _ => demo_compress;
     CreateDecompressor := Some tt; api_Decompress := fun _ => demo_decompress |}.

Lemma demo_api_round_trip : @CompressApiRoundTrip demo_api.
Proof.
  split. intros h h' input cap d _ E. cbn [api_Compress api_Decompress demo_api] in *. unfold demo_compress in E.
  destruct ((0 <? zlen input) && _) eqn:Hin; [|done]. case_if_in E; [|done]. injection E as <-.
  unfold demo_decompress. change (drop 2 _) with (stored_header true (zlen input) ++ input). unfold stored_decoder.
  change (length (stored_header true (zlen input) ++ input)) with (S (length (drop 1 (stored_header true (zlen input)) ++ input))).
  pose proof (inflate_stored_block (length (drop 1 (stored_header true (zlen input)) ++ input)) true (zlen input) input []
    ltac:(lia) eq_refl) as Hi. rewrite app_nil_r in Hi. rewrite Hi. cbn [mbind option_bind].
  by rewrite bool_decide_eq_true_2, Z.leb_refl.
Qed.

Definition demo_compressor : @Compressor demo_api := snd (@Initialize demo_api (@Compressor_new demo_api)).

Lemma ComputeAdler32_correct_witness :
  ComputeAdler32 [1; 2] = adler_spec [1; 2] /\ in_width 32 (ComputeAdler32 [1; 2]) /\
  ComputeAdler32 ([7] ++ 9 :: [5]) <> ComputeAdler32 ([7] ++ 8 :: [5]).
Proof.
  apply (ComputeAdler32_correct [1; 2] [7] 8 9 [5]); [evaluate..|done].
Defined.

Lemma CreateStoredZlib_roundtrip_witness :
  exists out, CreateStoredZlib [104; 105] = Written out /\ zlen out = 13 /\
    zlib_decode stored_decoder out = Some [104; 105].
Proof. apply (CreateStoredZlib_roundtrip [104; 105]); [evaluate|cbn; lia]. Defined.

Lemma CreateStoredZlib_overrun_witness :
  CreateStoredZlib (zeros (2 ^ 32 - 1)) = OutOfBounds.
Proof. apply CreateStoredZlib_overrun. rewrite zeros_length; lia. Defined.

Lemma Compress_Decompress_witness :
  exists out, @Compress demo_api demo_compressor [104; 105] [] = Some (true, out) /\
    zlib_decode stored_decoder out = Some [104; 105] /\ @Decompress demo_api out 2 [] = (true, [104; 105]).
Proof.
  destruct (@Compress_Decompress demo_api demo_api_round_trip demo_compressor [104; 105] [] tt)
    as (ok & out & E & Hs); [evaluate|cbn; lia|done|].
  assert (ok = true) as -> by (vm_compute in E; congruence). exists out. split; [done|].
  destruct Hs as (h & mszip & flg & deflate & _ & Hz & _ & _ & _ & Hb).
  assert (mszip = [67; 75; 1; 2; 0; 253; 255; 104; 105]) as -> by (vm_compute in Hz; congruence).
  destruct Hb as [_ [[_ Hd]|[Hck _]]]; [|by destruct Hck].
  split; [|apply Hd]. vm_compute in E. injection E as <-. by vm_compute.
Defined.
