(* ===== verification/CbtDriver.v ===== *)
(** * The change-tracking driver

    [go2cbt/{go2cbt.h,bitmap.c,write.c,ioctl.c,hook.c,go2cbt.c}]: the bitmap
    of a disk, the write hook, the two control requests, the construction of
    the hook and disk tables and the unloading.  The kernel's bitmap routines,
    its allocator and its device queries are parameters.  The spin lock makes
    the update, the copy and the clearing of a bitmap atomic, so the work of
    the driver is a sequence of these steps. *)

From S2P Require Import Prelude.

(** ** Data *)

Definition CBT_BLOCK_SIZE : Z := 1024 * 1024.
Definition MAX_HOOKED_DRIVERS : Z := 8.
Definition MAX_DISK_MAP_ENTRIES : Z := 64.
Definition MAX_DISKS : nat := 32.
Definition IRP_MJ_WRITE : Z := 4.

(** The bitmap's memory is a byte string; [rb_size] is [SizeOfBitMap]. *)
Record CbtState := {
  rb_size : Z; Buffer : option (list Z); TotalBits : Z; TotalBytes : Z }.

Definition zero_cbt : CbtState :=
  {| rb_size := 0; Buffer := None; TotalBits := 0; TotalBytes := 0 |}.

Definition with_Buffer (b : list Z) (s : CbtState) : CbtState :=
  {| rb_size := rb_size s; Buffer := Some b; TotalBits := TotalBits s; TotalBytes := TotalBytes s |}.

(** A write routine: the driver's own, or the one of another driver. *)
Inductive Dispatch := HwReadWriteFn | DriverFn (id : Z).

#[global] Instance Dispatch_eq_dec : EqDecision Dispatch.
Proof. solve_decision. Defined.

(** A device object is given by its address and the driver object behind it. *)
Record Device := { d_addr : Z; d_driver : Z }.

Record HookEntry := {
  h_DriverObject : Z; h_OriginalWrite : Dispatch; h_HookInstalled : bool; h_RefCount : Z }.

(** [dm_HookEntry] is the pointer into [g_HookList], as an index. *)
Record DiskMapEntry := {
  dm_DeviceObject : Z; dm_HookEntry : nat; dm_DiskNumber : Z; dm_PartitionNumber : Z;
  dm_StartingOffset : Z; dm_PartitionLength : Z; dm_IsPartition0 : bool; dm_CbtState : CbtState }.

(** The globals, the dispatch tables of the drivers in the system, and the bytes
    of pool memory that are allocated for bitmaps. *)
Record Driver := {
  g_HookList : list HookEntry; g_DiskMap : list DiskMapEntry;
  MajorFunction : gmap (Z * Z) Dispatch; g_ControlDevice : bool; pool : Z }.

Definition set_hooks (l : list HookEntry) (w : Driver) : Driver :=
  {| g_HookList := l; g_DiskMap := g_DiskMap w; MajorFunction := MajorFunction w;
     g_ControlDevice := g_ControlDevice w; pool := pool w |}.
Definition set_disks (l : list DiskMapEntry) (w : Driver) : Driver :=
  {| g_HookList := g_HookList w; g_DiskMap := l; MajorFunction := MajorFunction w;
     g_ControlDevice := g_ControlDevice w; pool := pool w |}.
Definition set_major (m : gmap (Z * Z) Dispatch) (w : Driver) : Driver :=
  {| g_HookList := g_HookList w; g_DiskMap := g_DiskMap w; MajorFunction := m;
     g_ControlDevice := g_ControlDevice w; pool := pool w |}.
Definition set_pool (n : Z) (w : Driver) : Driver :=
  {| g_HookList := g_HookList w; g_DiskMap := g_DiskMap w; MajorFunction := MajorFunction w;
     g_ControlDevice := g_ControlDevice w; pool := n |}.
Definition set_cbt (s : CbtState) (e : DiskMapEntry) : DiskMapEntry :=
  {| dm_DeviceObject := dm_DeviceObject e; dm_HookEntry := dm_HookEntry e;
     dm_DiskNumber := dm_DiskNumber e; dm_PartitionNumber := dm_PartitionNumber e;
     dm_StartingOffset := dm_StartingOffset e; dm_PartitionLength := dm_PartitionLength e;
     dm_IsPartition0 := dm_IsPartition0 e; dm_CbtState := s |}.

(** ** The kernel *)

(** The bitmap routines on [SizeOfBitMap] and the buffer. *)
Class RtlBitmap := {
  RtlSetBits : Z -> list Z -> Z -> Z -> list Z;
  RtlClearAllBits : Z -> list Z -> list Z;
}.

(** Whether pool memory of a size is available, the device behind a name
    [\Device\Harddisk<n>\Partition<p>], and the place of a partition. *)
Class Kernel := {
  ExAllocatePool2 : Z -> bool;
  IoGetDeviceObjectPointer : Z -> Z -> option Device;
  QueryPartitionInfoEx : Z -> option (Z * Z);
}.

(** ** The bitmap of a disk *)

Inductive NTSTATUS :=
  | STATUS_SUCCESS | STATUS_INVALID_PARAMETER | STATUS_INSUFFICIENT_RESOURCES
  | STATUS_NOT_FOUND | STATUS_INVALID_DEVICE_STATE | STATUS_BUFFER_OVERFLOW
  | STATUS_INVALID_DEVICE_REQUEST.

#[global] Instance NTSTATUS_eq_dec : EqDecision NTSTATUS.
Proof. solve_decision. Defined.

Definition InitCbtState `{Kernel} (diskSizeBytes : Z) (s : CbtState) : NTSTATUS * CbtState :=
  if diskSizeBytes =? 0 then (STATUS_INVALID_PARAMETER, s)
  else
    let totalBits := u64 (diskSizeBytes + CBT_BLOCK_SIZE - 1) / CBT_BLOCK_SIZE in
    let totalBytes := u32 (u64 (totalBits + 31) / 32 * 4) in
    if negb (ExAllocatePool2 totalBytes) then (STATUS_INSUFFICIENT_RESOURCES, zero_cbt)
    else (STATUS_SUCCESS,
          {| rb_size := u32 totalBits; Buffer := Some (zeros totalBytes);
             TotalBits := totalBits; TotalBytes := totalBytes |}).

(** The pool memory of a bitmap. *)
Definition held (s : CbtState) : Z := match Buffer s with Some buf => zlen buf | None => 0 end.

(** [ExFreePoolWithTag] and the zeroed state; the second result is the pool. *)
Definition CleanupCbtState (s : CbtState) (pool : Z) : CbtState * Z :=
  (zero_cbt, match Buffer s with Some buf => pool - zlen buf | None => pool end).

Definition MarkBlockChanged `{RtlBitmap} (s : CbtState) (offset length : Z) : CbtState :=
  match Buffer s with
  | None => s
  | Some buf =>
      if TotalBits s =? 0 then s
      else if u64 (TotalBits s * CBT_BLOCK_SIZE) <=? offset then s
      else
        let startBlock := offset / CBT_BLOCK_SIZE in
        let endBlock := u64 (offset + length - 1) / CBT_BLOCK_SIZE in
        let endBlock := if TotalBits s <=? endBlock then TotalBits s - 1 else endBlock in
        if endBlock <? startBlock then s
        else with_Buffer (RtlSetBits (rb_size s) buf (u32 startBlock)
                            (u32 (endBlock - startBlock + 1))) s
  end.

(** ** The write hook *)

(** The first entry of a table that passes a test, with its index. *)
Fixpoint find_from {A} (p : A -> bool) (i : nat) (l : list A) : option (nat * A) :=
  match l with
  | [] => None
  | x :: l' => if p x then Some (i, x) else find_from p (S i) l'
  end.
Definition find_entry {A} (p : A -> bool) (l : list A) : option (nat * A) := find_from p 0 l.

(** What happens to the request: it is passed to a routine, or a null pointer
    is read. *)
Inductive Forward := PassTo (f : option Dispatch) | NullPointer.

(** An I/O request packet: its major function, and the place of a write. *)
Record Irp := { irp_MajorFunction : Z; irp_ByteOffset : Z; irp_Length : Z }.

Definition HwReadWrite `{RtlBitmap} (dev : Device) (irp : Irp) (w : Driver) : Forward * Driver :=
  if negb (irp_MajorFunction irp =? IRP_MJ_WRITE) then
    (PassTo (MajorFunction w !! (d_driver dev, irp_MajorFunction irp)), w)
  else
    match find_entry (fun e => dm_DeviceObject e =? d_addr dev) (g_DiskMap w) with
    | None =>
        match find_entry (fun h => h_DriverObject h =? d_driver dev) (g_HookList w) with
        | Some (_, h) =>
            if h_HookInstalled h then (PassTo (Some (h_OriginalWrite h)), w)
            else (PassTo (MajorFunction w !! (d_driver dev, IRP_MJ_WRITE)), w)
        | None => (PassTo (MajorFunction w !! (d_driver dev, IRP_MJ_WRITE)), w)
        end
    | Some (i, e) =>
        match g_HookList w !! dm_HookEntry e with
        | None => (NullPointer, w)
        | Some h =>
            let diskAbsoluteOffset := s64 (irp_ByteOffset irp + dm_StartingOffset e) in
            let s' := MarkBlockChanged (dm_CbtState e) (u64 diskAbsoluteOffset) (irp_Length irp) in
            (PassTo (Some (h_OriginalWrite h)), set_disks (<[i := set_cbt s' e]> (g_DiskMap w)) w)
        end
    end.

(** ** Control requests *)

Definition IOCTL_QUERY_CBT_DATA : Z := 0x222008.
Definition IOCTL_RESET_CBT_DATA : Z := 0x22200C.

Definition FindDiskMapEntryByNumber (deviceNumber : Z) (w : Driver) : option (nat * DiskMapEntry) :=
  find_entry (fun e => dm_DiskNumber e =? deviceNumber) (g_DiskMap w).

(** [FIELD_OFFSET(CBT_QUERY_OUTPUT, BitmapData)]. *)
Definition QUERY_HEADER : Z := 16.

(** The status, [bytesReturned] and what was written to the output buffer. *)
Record IoctlResult := { io_status : NTSTATUS; io_information : Z; io_output : list Z }.

Definition io_fail (s : NTSTATUS) : IoctlResult :=
  {| io_status := s; io_information := 0; io_output := [] |}.

Definition HandleIoctlQuery (input : list Z) (outLen : Z) (w : Driver) : IoctlResult :=
  if zlen input <? 4 then io_fail STATUS_INVALID_PARAMETER
  else
    match FindDiskMapEntryByNumber (rd_le 0 4 input) w with
    | None => io_fail STATUS_NOT_FOUND
    | Some (_, e) =>
        let s := dm_CbtState e in
        match Buffer s with
        | None => io_fail STATUS_INVALID_DEVICE_STATE
        | Some buf =>
            if TotalBits s =? 0 then io_fail STATUS_INVALID_DEVICE_STATE
            else
              let totalBytes := u32 (TotalBytes s) in
              let requiredSize := u32 (QUERY_HEADER + totalBytes) in
              let header := le_enc 8 (TotalBits s) ++ le_enc 8 totalBytes in
              if outLen <? requiredSize then
                if QUERY_HEADER <=? outLen then
                  {| io_status := STATUS_BUFFER_OVERFLOW; io_information := QUERY_HEADER;
                     io_output := header |}
                else {| io_status := STATUS_BUFFER_OVERFLOW; io_information := requiredSize;
                        io_output := [] |}
              else {| io_status := STATUS_SUCCESS; io_information := requiredSize;
                      io_output := header ++ take (Z.to_nat totalBytes) buf |}
        end
    end.

Definition HandleIoctlReset `{RtlBitmap} (input : list Z) (w : Driver) : IoctlResult * Driver :=
  if zlen input <? 4 then (io_fail STATUS_INVALID_PARAMETER, w)
  else
    match FindDiskMapEntryByNumber (rd_le 0 4 input) w with
    | None => (io_fail STATUS_NOT_FOUND, w)
    | Some (i, e) =>
        let s := dm_CbtState e in
        match Buffer s with
        | None => (io_fail STATUS_INVALID_DEVICE_STATE, w)
        | Some buf =>
            if TotalBits s =? 0 then (io_fail STATUS_INVALID_DEVICE_STATE, w)
            else (io_fail STATUS_SUCCESS,
                  set_disks (<[i := set_cbt (with_Buffer (RtlClearAllBits (rb_size s) buf) s) e]>
                               (g_DiskMap w)) w)
        end
    end.

Definition CbtDispatchDeviceControl `{RtlBitmap} (code : Z) (input : list Z) (outLen : Z)
    (w : Driver) : IoctlResult * Driver :=
  if code =? IOCTL_QUERY_CBT_DATA then (HandleIoctlQuery input outLen w, w)
  else if code =? IOCTL_RESET_CBT_DATA then HandleIoctlReset input w
  else (io_fail STATUS_INVALID_DEVICE_REQUEST, w).

(** ** Loading *)

Definition bump_RefCount (h : HookEntry) : HookEntry :=
  {| h_DriverObject := h_DriverObject h; h_OriginalWrite := h_OriginalWrite h;
     h_HookInstalled := h_HookInstalled h; h_RefCount := u32 (h_RefCount h + 1) |}.

(** The routine a driver's write requests are dispatched to. *)
Definition write_routine (w : Driver) (drv : Z) : Dispatch :=
  default (DriverFn 0) (MajorFunction w !! (drv, IRP_MJ_WRITE)).

(** [InterlockedExchangePointer] on the driver's write entry. *)
Definition exchange_write (drv : Z) (f : Dispatch) (w : Driver) : Driver :=
  set_major (<[(drv, IRP_MJ_WRITE) := f]> (MajorFunction w)) w.

Definition FindOrCreateHookEntry (drv : Z) (w : Driver) : option nat * Driver :=
  match find_entry (fun h => h_DriverObject h =? drv) (g_HookList w) with
  | Some (i, h) => (Some i, set_hooks (<[i := bump_RefCount h]> (g_HookList w)) w)
  | None =>
      if MAX_HOOKED_DRIVERS <=? zlen (g_HookList w) then (None, w)
      else
        let originalWrite := write_routine w drv in
        let w1 := exchange_write drv HwReadWriteFn w in
        let verifyAddr := write_routine w1 drv in
        let newEntry := {| h_DriverObject := drv; h_OriginalWrite := originalWrite;
                           h_HookInstalled := bool_decide (verifyAddr = HwReadWriteFn);
                           h_RefCount := 1 |} in
        (Some (length (g_HookList w1)), set_hooks (g_HookList w1 ++ [newEntry]) w1)
  end.

Section build.
Context `{Kernel}.

(** One device: the body of the loops over disks and partitions; the pool takes
    what [InitCbtState] has allocated. *)
Definition add_disk (diskNum partNum : Z) (devObj : Device) (w : Driver) : Driver :=
  match FindOrCreateHookEntry (d_driver devObj) w with
  | (None, w1) => w1
  | (Some hookEntry, w1) =>
      if zlen (g_DiskMap w1) <? MAX_DISK_MAP_ENTRIES then
        let '(start, len) := default (0, 0) (QueryPartitionInfoEx (d_addr devObj)) in
        let '(_, cbt) := InitCbtState (u64 len) zero_cbt in
        set_disks (g_DiskMap w1 ++
          [{| dm_DeviceObject := d_addr devObj; dm_HookEntry := hookEntry;
              dm_DiskNumber := diskNum; dm_PartitionNumber := partNum;
              dm_StartingOffset := start; dm_PartitionLength := len;
              dm_IsPartition0 := partNum =? 0; dm_CbtState := cbt |}]) (set_pool (pool w1 + held cbt) w1)
      else w1
  end.

(** The disks from [diskNum] on; [MAX_PARTITIONS] is 1. *)
Fixpoint build_disks (n : nat) (diskNum : Z) (w : Driver) : Driver :=
  match n with
  | O => w
  | S n' =>
      build_disks n' (diskNum + 1)
        (match IoGetDeviceObjectPointer diskNum 0 with
         | None => w
         | Some devObj => add_disk diskNum 0 devObj w
         end)
  end.

Definition BuildDiskAndHookTables (w : Driver) : Driver := build_disks MAX_DISKS 0 w.
End build.

(** ** Unloading *)

(** One hook entry: restored only while the driver's write routine is the
    hook. *)
Definition restore_hook (w : Driver) (entry : HookEntry) : Driver :=
  if negb (h_HookInstalled entry) then w
  else if bool_decide (write_routine w (h_DriverObject entry) = HwReadWriteFn)
  then exchange_write (h_DriverObject entry) (h_OriginalWrite entry) w
  else w.

(** The bitmaps one after the other. *)
Fixpoint cleanup_disks (es : list DiskMapEntry) (pool : Z) : list DiskMapEntry * Z :=
  match es with
  | [] => ([], pool)
  | e :: es' =>
      let '(s, pool) := CleanupCbtState (dm_CbtState e) pool in
      let '(rest, pool) := cleanup_disks es' pool in (set_cbt s e :: rest, pool)
  end.

(** The hooks, the control device, the bitmaps, and the tables. *)
Definition CbtUnload (w : Driver) : Driver :=
  let w1 := fold_left restore_hook (g_HookList w) w in
  let w2 := {| g_HookList := g_HookList w1; g_DiskMap := g_DiskMap w1; MajorFunction := MajorFunction w1;
               g_ControlDevice := false; pool := pool w1 |} in
  let '(disks, freed) := cleanup_disks (g_DiskMap w2) (pool w2) in
  let w3 := set_pool freed (set_disks disks w2) in
  set_hooks [] (set_disks [] w3).

(** Before the driver is loaded. *)
Definition unloaded (m : gmap (Z * Z) Dispatch) : Driver :=
  {| g_HookList := []; g_DiskMap := []; MajorFunction := m; g_ControlDevice := true;
     pool := 0 |}.

(** ** Specification *)

(** Bit [i] of the buffer: bit [i mod 8] of byte [i / 8], which on a
    little-endian machine is bit [i mod 32] of the 32-bit word [i / 32]. *)
Definition bit_at (buf : list Z) (i : Z) : bool :=
  Z.testbit (nth (Z.to_nat (i / 8)) buf 0) (i mod 8).

Class RtlBitmapLaws `{RtlBitmap} := {
  set_bits_bit size buf start n i :
    0 <= start -> 0 <= n -> start + n <= size -> size <= 8 * zlen buf -> 0 <= i < 8 * zlen buf ->
    bit_at (RtlSetBits size buf start n) i
    = ((start <=? i) && (i <? start + n)) || bit_at buf i;
  set_bits_length size buf start n : length (RtlSetBits size buf start n) = length buf;
  set_bits_ok size buf start n : bytes_ok buf -> bytes_ok (RtlSetBits size buf start n);
  clear_bits_bit size buf i :
    size <= 8 * zlen buf -> 0 <= i < size -> bit_at (RtlClearAllBits size buf) i = false;
  clear_bits_length size buf : length (RtlClearAllBits size buf) = length buf;
  clear_bits_ok size buf : bytes_ok buf -> bytes_ok (RtlClearAllBits size buf);
}.

(** The block [i] of the disk is touched by [len] bytes at [off]. *)
Definition touches (off len i : Z) : Prop :=
  exists b, off <= b < off + len /\ b / CBT_BLOCK_SIZE = i.

(** A bitmap in use. *)
Definition cbt_wf (s : CbtState) : Prop :=
  match Buffer s with
  | None => True
  | Some buf =>
      0 < TotalBits s < 2 ^ 32 /\ rb_size s = TotalBits s /\ TotalBytes s = zlen buf /\
      zlen buf = (TotalBits s + 31) / 32 * 4 /\ bytes_ok buf
  end.
Definition marked (s : CbtState) (i : Z) : Prop :=
  exists buf, Buffer s = Some buf /\ bit_at buf i = true.

(** ** Lemmas on bitmaps *)

Lemma touches_range off len i :
  0 < len -> touches off len i <-> off / CBT_BLOCK_SIZE <= i <= (off + len - 1) / CBT_BLOCK_SIZE.
Proof.
  intros Hl. unfold touches, CBT_BLOCK_SIZE. split.
  - intros (b & Hb & <-). split; apply Z.div_le_mono; lia.
  - intros Hi. exists (Z.max off (i * (1024 * 1024))).
    Z.to_euclidean_division_equations. lia.
Qed.

Section bitmap.
Context `{RtlBitmapLaws}.

Lemma cbt_size s buf :
  cbt_wf s -> Buffer s = Some buf ->
  0 < TotalBits s < 2 ^ 32 /\ rb_size s = TotalBits s /\ TotalBits s <= 8 * zlen buf.
Proof.
  unfold cbt_wf. intros Hwf Hb. rewrite Hb in Hwf. destruct Hwf as (Ht & Hr & _ & Hl & _).
  split; [done|]. split; [done|]. rewrite Hl. Z.to_euclidean_division_equations. lia.
Qed.

(** The range of blocks from [a] to [b] becomes marked. *)
Lemma set_range s buf a b :
  cbt_wf s -> Buffer s = Some buf -> 0 <= a <= b -> b < TotalBits s ->
  let s' := with_Buffer (RtlSetBits (rb_size s) buf (u32 a) (u32 (b - a + 1))) s in
  cbt_wf s' /\ TotalBits s' = TotalBits s /\
  forall i, 0 <= i < TotalBits s -> marked s' i <-> marked s i \/ a <= i <= b.
Proof.
  intros Hwf Hb Hab Hbt s'. destruct (cbt_size s buf Hwf Hb) as (Ht & Hr & Hl).
  split; [|split; [done|]].
  - unfold cbt_wf in *. rewrite Hb in Hwf. cbn. rewrite set_bits_length.
    destruct Hwf as (? & ? & ? & ? & ?). do 4 (split; [done|]). by apply set_bits_ok.
  - intros i Hi. unfold marked. rewrite Hb. cbn.
    rewrite !wrap_small by (unfold in_width; lia). split.
    + intros (? & [= <-] & E). rewrite set_bits_bit in E by lia.
      apply orb_true_iff in E as [E|E]; reflect_Z; [right; lia|left; eauto].
    + intros Hm. eexists. split; [done|]. rewrite set_bits_bit by lia. apply orb_true_iff.
      destruct Hm as [(? & [= <-] & ?)|?]; [by right|left]. apply andb_true_iff. lia.
Qed.

(** What a write of [len] bytes at [off] does: no mark is lost, every block
    it touches is marked, and a write that is not empty marks nothing else. *)
Definition marks (s s' : CbtState) (off len : Z) : Prop :=
  forall i, 0 <= i < TotalBits s -> Buffer s <> None ->
    (marked s i \/ touches off len i -> marked s' i) /\
    (0 < len -> marked s' i -> marked s i \/ touches off len i).

Lemma marks_refl s off len :
  (forall i, 0 <= i < TotalBits s -> ~ touches off len i) -> marks s s off len.
Proof. intros Hn i Hi _. split; [intros [?|?]; [done|by destruct (Hn i Hi)]|by left]. Qed.

Lemma touches_pos off len i : touches off len i -> 0 < len.
Proof. intros (b & Hb & _). lia. Qed.

Lemma MarkBlockChanged_spec s off len :
  cbt_wf s -> 0 <= off < 2 ^ 64 -> 0 <= len < 2 ^ 32 ->
  let s' := MarkBlockChanged s off len in
  cbt_wf s' /\ TotalBits s' = TotalBits s /\ (Buffer s' = None <-> Buffer s = None) /\
  marks s s' off len.
Proof.
  intros Hwf Ho Hl s'. subst s'. unfold MarkBlockChanged.
  destruct (Buffer s) as [buf|] eqn:Hb.
  2:{ rewrite Hb. split_and!; done. }
  destruct (cbt_size s buf Hwf Hb) as (Ht & Hr & Hlen).
  test_false (TotalBits s =? 0).
  assert (0 <= off / CBT_BLOCK_SIZE) as Hs by (apply Z.div_pos; unfold CBT_BLOCK_SIZE; lia).
  rewrite wrap_small by (unfold in_width, CBT_BLOCK_SIZE; lia). case_if.
  { rewrite Hb. split_and!; try done. apply marks_refl. intros i Hi Hti.
    rewrite touches_range in Hti by (by eapply touches_pos).
    assert (TotalBits s <= off / CBT_BLOCK_SIZE) by (apply Z.div_le_lower_bound; [done|lia]). lia. }
  assert (off / CBT_BLOCK_SIZE < TotalBits s) as Hs' by (apply Z.div_lt_upper_bound; [done|lia]).
  assert (forall i, 0 < len -> touches off len i <->
            off / CBT_BLOCK_SIZE <= i <= u64 (off + len - 1) / CBT_BLOCK_SIZE) as Htouch.
  { intros i Hpos. rewrite wrap_small by (unfold in_width, CBT_BLOCK_SIZE in *; lia).
    by apply touches_range. }
  set (e0 := u64 (off + len - 1) / CBT_BLOCK_SIZE) in *.
  set (e := if TotalBits s <=? e0 then TotalBits s - 1 else e0).
  assert (e = Z.min e0 (TotalBits s - 1)) as He by (unfold e; case_if; lia).
  destruct (Z.ltb_spec e (off / CBT_BLOCK_SIZE)) as [Hlt|Hge].
  - rewrite Hb. split_and!; try done. apply marks_refl. intros i Hi Hti.
    pose proof (touches_pos _ _ _ Hti). rewrite Htouch in Hti by done. lia.
  - destruct (set_range s buf (off / CBT_BLOCK_SIZE) e Hwf Hb) as (H1 & H2 & H3); [lia|lia|].
    split_and!; [done|done|done|]. intros i Hi _. rewrite H3 by done. split.
    + intros [?|Hti]; [by left|right]. pose proof (touches_pos _ _ _ Hti).
      rewrite Htouch in Hti by done. lia.
    + intros Hpos [?|?]; [by left|right]. rewrite Htouch by done. lia.
Qed.

Lemma clear_spec s buf :
  cbt_wf s -> Buffer s = Some buf ->
  let s' := with_Buffer (RtlClearAllBits (rb_size s) buf) s in
  cbt_wf s' /\ TotalBits s' = TotalBits s /\ forall i, 0 <= i < TotalBits s -> ~ marked s' i.
Proof.
  intros Hwf Hb s'. destruct (cbt_size s buf Hwf Hb) as (Ht & Hr & Hl).
  split; [|split; [done|]].
  - unfold cbt_wf in *. rewrite Hb in Hwf. cbn. rewrite clear_bits_length.
    destruct Hwf as (? & ? & ? & ? & ?). do 4 (split; [done|]). by apply clear_bits_ok.
  - intros i Hi (? & [= <-] & E). by rewrite clear_bits_bit in E by lia.
Qed.
End bitmap.

Lemma bit_at_zeros n i : bit_at (zeros n) i = false.
Proof.
  unfold bit_at, zeros. rewrite nth_lookup. destruct (_ !! _) as [x|] eqn:E; cbn.
  - apply lookup_replicate in E as [-> _]. by rewrite Z.bits_0.
  - by rewrite Z.bits_0.
Qed.

Lemma InitCbtState_spec `{Kernel} size st s :
  0 <= size < 2 ^ 52 - CBT_BLOCK_SIZE -> InitCbtState size zero_cbt = (st, s) ->
  cbt_wf s /\ (forall i, ~ marked s i) /\
  (st = STATUS_SUCCESS <-> Buffer s <> None) /\
  (Buffer s <> None -> TotalBits s = (size + CBT_BLOCK_SIZE - 1) / CBT_BLOCK_SIZE).
Proof.
  intros Hs. unfold InitCbtState. case_if.
  { intros [= <- <-]. split; [done|]. split; [by intros i (? & ? & _)|by split]. }
  unfold CBT_BLOCK_SIZE in *. rewrite (wrap_small 64 (size + _ - 1)) by (unfold in_width; lia).
  set (tb := (size + 1024 * 1024 - 1) / (1024 * 1024)) in *.
  assert (0 < tb < 2 ^ 32) as Htb by (unfold tb; Z.to_euclidean_division_equations; lia).
  rewrite (wrap_small 64 (tb + 31)) by (unfold in_width; lia).
  assert (0 <= (tb + 31) / 32 * 4 < 2 ^ 32) as Hby by (Z.to_euclidean_division_equations; lia).
  rewrite !wrap_small by (unfold in_width; lia). case_if.
  { intros [= <- <-]. split; [done|]. split; [by intros i (? & ? & _)|by split]. }
  intros [= <- <-]. split; [|split].
  - unfold cbt_wf. cbn [Buffer TotalBits rb_size TotalBytes].
    rewrite zeros_length by lia. split_and!; try done; try lia. apply zeros_ok.
  - intros i (? & [= <-] & Em). by rewrite bit_at_zeros in Em.
  - done.
Qed.

(** ** The driver at work *)

Lemma find_from_Some {A} (p : A -> bool) i l j x :
  find_from p i l = Some (j, x) -> (i <= j)%nat /\ l !! (j - i)%nat = Some x /\ p x = true.
Proof.
  revert i. induction l as [|y l IH]; intros i; cbn [find_from]; [done|].
  destruct (p y) eqn:E.
  - intros [= <- <-]. by rewrite Nat.sub_diag.
  - intros (Hle & Hx & Hp)%IH. split; [lia|]. split; [|done].
    by replace (j - i)%nat with (S (j - S i)) by lia.
Qed.

Lemma find_entry_Some {A} (p : A -> bool) l j x :
  find_entry p l = Some (j, x) -> l !! j = Some x /\ p x = true.
Proof. intros (_ & Hx & Hp)%find_from_Some. by rewrite Nat.sub_0_r in Hx. Qed.

Lemma find_entry_None {A} (p : A -> bool) l :
  find_entry p l = None -> forall j x, l !! j = Some x -> p x = false.
Proof.
  unfold find_entry. generalize 0%nat. induction l as [|y l IH]; intros i; cbn [find_from]; [done|].
  destruct (p y) eqn:E; [done|]. intros Hn [|j] x Hx; [by injection Hx as <-|by eapply IH].
Qed.

Inductive event := EWrite (dev : Device) (irp : Irp) | EControl (code : Z) (input : list Z) (outLen : Z).

Section events.
Context `{RtlBitmapLaws}.

Definition step (w : Driver) (ev : event) : Driver :=
  match ev with
  | EWrite dev irp => snd (HwReadWrite dev irp w)
  | EControl code input outLen => snd (CbtDispatchDeviceControl code input outLen w)
  end.
Definition run (evs : list event) (w : Driver) : Driver := fold_left step evs w.

(** The byte offset on the disk the driver computes for a write. *)
Definition disk_offset (e : DiskMapEntry) (irp : Irp) : Z :=
  u64 (s64 (irp_ByteOffset irp + dm_StartingOffset e)).

(** The event writes to the block [i] of the disk of entry [e]; it resets the
    disk. *)
Definition writes_block (e : DiskMapEntry) (i : Z) (ev : event) : Prop :=
  match ev with
  | EWrite dev irp =>
      irp_MajorFunction irp = IRP_MJ_WRITE /\ d_addr dev = dm_DeviceObject e /\
      touches (disk_offset e irp) (irp_Length irp) i
  | _ => False
  end.
Definition resets (e : DiskMapEntry) (ev : event) : Prop :=
  match ev with
  | EControl code input _ =>
      code = IOCTL_RESET_CBT_DATA /\ 4 <= zlen input /\ rd_le 0 4 input = dm_DiskNumber e
  | _ => False
  end.

(** Written since the last reset. *)
Definition dirty (e : DiskMapEntry) (i : Z) (evs : list event) : Prop :=
  exists pre ev post, evs = pre ++ ev :: post /\ writes_block e i ev /\
    Forall (fun ev' => ~ resets e ev') post.

Definition length_ok (ev : event) : Prop :=
  match ev with EWrite _ irp => 0 <= irp_Length irp < 2 ^ 32 | _ => True end.
Definition nonempty (ev : event) : Prop :=
  match ev with EWrite _ irp => 0 < irp_Length irp | _ => True end.

(** The tables: every entry has its own device and disk number, a hook and a
    bitmap in order. *)
Definition driver_wf (w : Driver) : Prop :=
  NoDup (map dm_DeviceObject (g_DiskMap w)) /\ NoDup (map dm_DiskNumber (g_DiskMap w)) /\
  Forall (fun e => cbt_wf (dm_CbtState e) /\ (dm_HookEntry e < length (g_HookList w))%nat)
    (g_DiskMap w).

(** The same entry with another bitmap of the same size. *)
Definition same_entry (e e' : DiskMapEntry) : Prop :=
  e' = set_cbt (dm_CbtState e') e /\
  TotalBits (dm_CbtState e') = TotalBits (dm_CbtState e) /\
  (Buffer (dm_CbtState e') = None <-> Buffer (dm_CbtState e) = None).

Lemma same_entry_refl e : same_entry e e.
Proof. split; [by destruct e|done]. Qed.

Lemma same_entry_trans e1 e2 e3 : same_entry e1 e2 -> same_entry e2 e3 -> same_entry e1 e3.
Proof.
  intros (E1 & T1 & B1) (E2 & T2 & B2). split; [rewrite E2, E1; by destruct e1|].
  split; [congruence|tauto].
Qed.

Lemma map_insert_key {K} (f : DiskMapEntry -> K) l j e s :
  l !! j = Some e -> f (set_cbt s e) = f e -> map f (<[j := set_cbt s e]> l) = map f l.
Proof.
  intros Hj Hf. change (map f) with (fmap (M := list) f). rewrite list_fmap_insert, Hf.
  apply list_insert_id. by rewrite list_lookup_fmap, Hj.
Qed.

Lemma unique_key {K} (f : DiskMapEntry -> K) l i j e e' :
  NoDup (map f l) -> l !! i = Some e -> l !! j = Some e' -> f e = f e' -> i = j.
Proof.
  intros Hn Hi Hj Hf. eapply (NoDup_lookup (map f l)); [done| |].
  - change (map f) with (fmap (M := list) f). by rewrite list_lookup_fmap, Hi.
  - change (map f) with (fmap (M := list) f). by rewrite list_lookup_fmap, Hj, Hf.
Qed.

Lemma update_wf w j e s :
  driver_wf w -> g_DiskMap w !! j = Some e -> cbt_wf s ->
  driver_wf (set_disks (<[j := set_cbt s e]> (g_DiskMap w)) w).
Proof.
  intros (Hd & Hn & He) Hj Hs. unfold driver_wf. cbn [set_disks g_DiskMap g_HookList].
  rewrite !(map_insert_key _ _ _ e) by done. split; [done|]. split; [done|].
  apply Forall_insert; [done|]. split; [done|]. rewrite Forall_lookup in He. by apply (He _ _ Hj).
Qed.

(** What one event does to one entry. *)
Definition entry_step (ev : event) (e e' : DiskMapEntry) : Prop :=
  same_entry e e' /\
  forall i, 0 <= i < TotalBits (dm_CbtState e) -> Buffer (dm_CbtState e) <> None ->
    (writes_block e i ev \/ (marked (dm_CbtState e) i /\ ~ resets e ev) ->
     marked (dm_CbtState e') i) /\
    (nonempty ev -> marked (dm_CbtState e') i ->
     writes_block e i ev \/ (marked (dm_CbtState e) i /\ ~ resets e ev)).

Lemma entry_step_skip ev e :
  (forall i, ~ writes_block e i ev) -> (Buffer (dm_CbtState e) <> None -> ~ resets e ev) ->
  entry_step ev e e.
Proof.
  intros Hw Hr. split; [apply same_entry_refl|]. intros i Hi Hb. specialize (Hw i).
  specialize (Hr Hb). tauto.
Qed.

(** What one event does to the driver. *)
Definition step_ok (ev : event) (w w' : Driver) : Prop :=
  driver_wf w' /\
  forall k e, g_DiskMap w !! k = Some e ->
    exists e', g_DiskMap w' !! k = Some e' /\ entry_step ev e e'.

(** The event is of no concern to an entry. *)
Definition ignores (e : DiskMapEntry) (ev : event) : Prop :=
  (forall i, ~ writes_block e i ev) /\ (Buffer (dm_CbtState e) <> None -> ~ resets e ev).

Lemma step_ok_refl ev w :
  driver_wf w -> (forall k e, g_DiskMap w !! k = Some e -> ignores e ev) -> step_ok ev w w.
Proof.
  intros Hwf Hi. split; [done|]. intros k e Hk. destruct (Hi _ _ Hk).
  exists e. split; [done|by apply entry_step_skip].
Qed.

Lemma step_ok_update ev w j e0 s :
  driver_wf w -> g_DiskMap w !! j = Some e0 -> cbt_wf s -> entry_step ev e0 (set_cbt s e0) ->
  (forall k e, g_DiskMap w !! k = Some e -> j <> k -> ignores e ev) ->
  step_ok ev w (set_disks (<[j := set_cbt s e0]> (g_DiskMap w)) w).
Proof.
  intros Hwf Hj Hs He Hi. split; [by apply update_wf|]. intros k e Hk. cbn [set_disks g_DiskMap].
  destruct (decide (j = k)) as [->|Hne].
  - rewrite Hj in Hk. injection Hk as <-.
    rewrite list_lookup_insert_eq by (by eapply lookup_lt_Some). eauto.
  - rewrite list_lookup_insert_ne by done. destruct (Hi _ _ Hk Hne).
    exists e. split; [done|by apply entry_step_skip].
Qed.

Lemma write_step dev irp w :
  driver_wf w -> length_ok (EWrite dev irp) -> step_ok (EWrite dev irp) w (snd (HwReadWrite dev irp w)).
Proof.
  intros Hwf Hlen. pose proof Hwf as (Hd & _ & He). rewrite Forall_lookup in He.
  unfold HwReadWrite. destruct (irp_MajorFunction irp =? IRP_MJ_WRITE) eqn:Emj; reflect_Z; cbn [negb].
  2:{ apply step_ok_refl; [done|]. intros k e _. by split; [intros i (? & _)|intros _ []]. }
  destruct (find_entry _ (g_DiskMap w)) as [[j e0]|] eqn:Ef.
  - apply find_entry_Some in Ef as [Hj Ea]. apply Z.eqb_eq in Ea.
    destruct (He _ _ Hj) as [Hcbt Hh].
    destruct (lookup_lt_is_Some_2 (g_HookList w) _ Hh) as [h ->]. cbn [snd].
    destruct (MarkBlockChanged_spec (dm_CbtState e0) (disk_offset e0 irp) (irp_Length irp))
      as (H1 & H2 & H3 & H4); [done|by apply (wrap_range 64)|done|].
    fold (disk_offset e0 irp). apply step_ok_update; [done..| |].
    + split; [by split|]. intros i Hi Hb. destruct (H4 i Hi Hb) as [Ha Hc]. split.
      * intros [(_ & _ & ?)|[? _]]; apply Ha; [by right|by left].
      * intros Hpos Hm. destruct (Hc Hpos Hm) as [?|?]; [right; by split; [|intros []]|by left].
    + intros k e Hk Hne. split; [|by intros ? []]. intros i (_ & Hae & _). apply Hne.
      eapply (unique_key dm_DeviceObject); [done..|congruence].
  - assert (step_ok (EWrite dev irp) w w) as Hskip.
    { apply step_ok_refl; [done|]. intros k e Hk. split; [|by intros ? []]. intros i (_ & Hae & _).
      pose proof (find_entry_None _ _ Ef _ _ Hk) as Hf. cbv beta in Hf. apply Z.eqb_neq in Hf. congruence. }
    destruct (find_entry _ (g_HookList w)) as [[? h]|]; [destruct (h_HookInstalled h)|]; done.
Qed.

Lemma reset_step input outLen w :
  driver_wf w ->
  step_ok (EControl IOCTL_RESET_CBT_DATA input outLen) w (snd (HandleIoctlReset input w)).
Proof.
  intros Hwf. pose proof Hwf as (_ & Hn & He). rewrite Forall_lookup in He.
  unfold HandleIoctlReset. destruct (zlen input <? 4) eqn:El; reflect_Z.
  { apply step_ok_refl; [done|]. intros k e _. split; [by intros ? []|].
    intros _ (_ & Hc & _). lia. }
  unfold FindDiskMapEntryByNumber. destruct (find_entry _ (g_DiskMap w)) as [[j e0]|] eqn:Ef.
  2:{ apply step_ok_refl; [done|]. intros k e Hk. split; [by intros ? []|]. intros _ (_ & _ & Hc).
      pose proof (find_entry_None _ _ Ef _ _ Hk) as Hf. cbv beta in Hf. apply Z.eqb_neq in Hf. congruence. }
  apply find_entry_Some in Ef as [Hj Ea]. apply Z.eqb_eq in Ea.
  assert (forall k e, g_DiskMap w !! k = Some e -> j <> k ->
            ignores e (EControl IOCTL_RESET_CBT_DATA input outLen)) as Hskip.
  { intros k e Hk Hne. split; [by intros ? []|]. intros _ (_ & _ & Hc).
    apply Hne. eapply (unique_key dm_DiskNumber); [done..|congruence]. }
  destruct (Buffer (dm_CbtState e0)) as [buf|] eqn:Eb.
  2:{ apply step_ok_refl; [done|]. intros k e Hk. destruct (decide (j = k)) as [->|]; [|eauto].
      cbn [snd] in Hk. rewrite Hj in Hk. injection Hk as <-. split; [by intros ? []|]. by rewrite Eb. }
  destruct (He _ _ Hj) as [Hcbt _].
  destruct (cbt_size _ buf Hcbt Eb) as (Ht & _). test_false (TotalBits (dm_CbtState e0) =? 0).
  destruct (clear_spec _ buf Hcbt Eb) as (H1 & H2 & H3). cbn [snd].
  apply step_ok_update; [done..| |done].
  split; [split; [done|split; [done|cbn; by rewrite Eb]]|]. intros i Hi Hb. split.
  - intros [[]|[_ Hr]]. exfalso. apply Hr. split_and!; [done|lia|congruence].
  - intros _ Hm. by apply H3 in Hm.
Qed.

Lemma step_spec ev w : driver_wf w -> length_ok ev -> step_ok ev w (step w ev).
Proof.
  intros Hwf Hlen. destruct ev as [dev irp|code input outLen]; cbn [step]; [by apply write_step|].
  unfold CbtDispatchDeviceControl.
  destruct (code =? IOCTL_QUERY_CBT_DATA) eqn:Eq; reflect_Z;
    [|destruct (code =? IOCTL_RESET_CBT_DATA) eqn:Er; reflect_Z; [subst code; by apply reset_step|]].
  all: apply step_ok_refl; [done|]; intros k e _; (split; [by intros ? []|]); intros _ (Hc & _).
  - by rewrite Eq in Hc.
  - done.
Qed.

Lemma dirty_snoc e i evs ev :
  dirty e i (evs ++ [ev]) <-> writes_block e i ev \/ (dirty e i evs /\ ~ resets e ev).
Proof.
  unfold dirty. split.
  - intros (pre & x & post & E & Hx & Hp).
    destruct post as [|y post' _] using rev_ind.
    + apply app_inj_tail in E as [_ ->]. by left.
    + rewrite app_comm_cons, app_assoc in E. apply app_inj_tail in E as [-> ->].
      apply Forall_app in Hp as [Hp [Hy _]%Forall_cons_1]. right. split; [eauto 10|exact Hy].
  - intros [Hw|[(pre & x & post & -> & Hx & Hp) Hr]].
    + exists evs, ev, []. split_and!; [done|done|constructor].
    + exists pre, x, (post ++ [ev]). rewrite <- app_assoc. split_and!; [done|done|].
      apply Forall_app. split; [done|by constructor].
Qed.

(** The entry and block were written since the last reset, or were marked and
    not reset. *)
Definition recorded (e : DiskMapEntry) (i : Z) (evs : list event) : Prop :=
  dirty e i evs \/ (marked (dm_CbtState e) i /\ Forall (fun ev => ~ resets e ev) evs).

Lemma recorded_snoc e i evs ev :
  recorded e i (evs ++ [ev]) <-> writes_block e i ev \/ (recorded e i evs /\ ~ resets e ev).
Proof. unfold recorded. rewrite dirty_snoc, Forall_app, Forall_singleton. tauto. Qed.

Lemma same_entry_event e e' i ev :
  same_entry e e' -> (writes_block e' i ev <-> writes_block e i ev) /\ (resets e' ev <-> resets e ev).
Proof. intros (-> & _). by destruct ev. Qed.

Lemma run_spec evs w :
  driver_wf w -> Forall length_ok evs ->
  driver_wf (run evs w) /\
  forall k e, g_DiskMap w !! k = Some e ->
    exists e', g_DiskMap (run evs w) !! k = Some e' /\ same_entry e e' /\
      forall i, 0 <= i < TotalBits (dm_CbtState e) -> Buffer (dm_CbtState e) <> None ->
        (recorded e i evs -> marked (dm_CbtState e') i) /\
        (Forall nonempty evs -> marked (dm_CbtState e') i -> recorded e i evs).
Proof.
  intros Hwf. induction evs as [|ev evs IH] using rev_ind; intros Hlen.
  - split; [done|]. intros k e Hk. exists e. split; [done|]. split; [apply same_entry_refl|].
    intros i Hi Hb. unfold recorded. split.
    + intros [(pre & ? & post & E & _)|[? _]]; [by destruct pre|done].
    + intros _ Hm. right. split; [done|constructor].
  - apply Forall_app in Hlen as [Hlen [Hev _]%Forall_cons_1].
    destruct (IH Hlen) as [Hwf' Hent]. unfold run. rewrite fold_left_app. fold (run evs w).
    destruct (step_spec ev _ Hwf' Hev) as [Hwf'' Hstep]. split; [done|]. intros k e Hk.
    destruct (Hent _ _ Hk) as (e1 & Hk1 & Hs1 & H1).
    destruct (Hstep _ _ Hk1) as (e2 & Hk2 & Hs2 & H2). exists e2. split; [done|].
    split; [by eapply same_entry_trans|]. intros i Hi Hb.
    destruct (same_entry_event e e1 i ev Hs1) as [Hw Hr].
    pose proof Hs1 as (_ & Et & Eb). destruct (H1 i Hi Hb) as [Ha Hc].
    destruct (H2 i) as [Ha' Hc']; [lia|tauto|]. rewrite recorded_snoc, <- Hw, <- Hr. split.
    + tauto.
    + intros [Hne Hev']%Forall_app Hm. apply Forall_cons_1 in Hev' as [Hev' _].
      destruct (Hc' Hev' Hm) as [?|[? ?]]; tauto.
Qed.
End events.

(** ** Loading and unloading *)

Abbreviation drivers hs := (map h_DriverObject hs).

(** The dispatch tables are those of [m] with the hooks of [drvs] in place. *)
Definition tables (m : gmap (Z * Z) Dispatch) (drvs : list Z)
    (cur : gmap (Z * Z) Dispatch) : Prop :=
  forall drv fc, cur !! (drv, fc)
    = if decide (fc = IRP_MJ_WRITE /\ drv ∈ drvs) then Some HwReadWriteFn else m !! (drv, fc).

Definition hooks_inv (m : gmap (Z * Z) Dispatch) (w : Driver) : Prop :=
  NoDup (map h_DriverObject (g_HookList w)) /\
  Forall (fun h => h_HookInstalled h = true /\
            m !! (h_DriverObject h, IRP_MJ_WRITE) = Some (h_OriginalWrite h)) (g_HookList w) /\
  tables m (drivers (g_HookList w)) (MajorFunction w).

(** Every hook of [hs] is still there, at its index, for its driver. *)
Definition hooks_kept (hs hs' : list HookEntry) : Prop :=
  forall i h, hs !! i = Some h -> exists h', hs' !! i = Some h' /\ h_DriverObject h' = h_DriverObject h.

Lemma hooks_kept_refl hs : hooks_kept hs hs.
Proof. intros i h Hi. eauto. Qed.

Lemma FindOrCreateHookEntry_spec m drv w r w' :
  hooks_inv m w -> is_Some (m !! (drv, IRP_MJ_WRITE)) -> FindOrCreateHookEntry drv w = (r, w') ->
  hooks_inv m w' /\ g_DiskMap w' = g_DiskMap w /\ hooks_kept (g_HookList w) (g_HookList w') /\
  (forall i, r = Some i -> exists h, g_HookList w' !! i = Some h /\ h_DriverObject h = drv).
Proof.
  intros (Hn & Hh & Ht) [f Hf]. unfold FindOrCreateHookEntry.
  destruct (find_entry _ (g_HookList w)) as [[i h]|] eqn:Ef.
  - apply find_entry_Some in Ef as [Hi Ed]. apply Z.eqb_eq in Ed. intros [= <- <-].
    assert (map h_DriverObject (<[i := bump_RefCount h]> (g_HookList w))
            = map h_DriverObject (g_HookList w)) as Em.
    { change (map h_DriverObject) with (fmap (M := list) h_DriverObject).
      rewrite list_fmap_insert. apply list_insert_id. by rewrite list_lookup_fmap, Hi. }
    unfold hooks_inv. cbn [set_hooks g_HookList MajorFunction g_DiskMap].
    rewrite Em. split_and!; [done| |done|done| |].
    + apply Forall_insert; [done|]. rewrite Forall_lookup in Hh. apply (Hh _ _ Hi).
    + intros j h' Hj. destruct (decide (i = j)) as [->|].
      * rewrite list_lookup_insert_eq by (by eapply lookup_lt_Some). eexists. split; [done|].
        rewrite Hi in Hj. by injection Hj as <-.
      * rewrite list_lookup_insert_ne by done. eauto.
    + intros j [= <-]. rewrite list_lookup_insert_eq by (by eapply lookup_lt_Some). eauto.
  - case_if; intros [= <- <-]; [by split_and!; [split_and!| |apply hooks_kept_refl|]|].
    assert (drv ∉ drivers (g_HookList w)) as Hnew.
    { rewrite list_elem_of_In, in_map_iff. intros (h & Ed & Hin).
      apply list_elem_of_In, list_elem_of_lookup in Hin as [i Hi].
      pose proof (find_entry_None _ _ Ef _ _ Hi) as Hq. cbv beta in Hq. apply Z.eqb_neq in Hq. done. }
    assert (write_routine w drv = f) as Eo.
    { unfold write_routine. rewrite Ht, decide_False, Hf by tauto. done. }
    unfold hooks_inv. cbn [set_hooks exchange_write set_major g_HookList MajorFunction g_DiskMap].
    rewrite map_app. cbn [map h_DriverObject]. split_and!; [| | |done| |].
    + apply NoDup_app. split; [done|]. split; [|apply NoDup_singleton].
      intros x Hx ->%list_elem_of_singleton. done.
    + apply Forall_app. split; [done|]. constructor; [|constructor].
      cbn [h_HookInstalled h_OriginalWrite h_DriverObject]. rewrite Eo.
      split; [|done]. unfold write_routine. cbn [MajorFunction exchange_write set_major].
      by rewrite lookup_insert_eq.
    + intros drv' fc. destruct (decide ((drv, IRP_MJ_WRITE) = (drv', fc))) as [[= <- <-]|Hne].
      * rewrite lookup_insert_eq, decide_True; [done|]. split; [done|]. apply elem_of_app. right. left.
      * rewrite lookup_insert_ne, Ht by done.
        apply decide_ext. rewrite elem_of_app, list_elem_of_singleton. naive_solver.
    + intros j h Hj. exists h. split; [|done]. by apply lookup_app_l_Some.
    + intros j [= <-]. eexists. split; [apply list_lookup_middle; done|done].
Qed.

(** The kernel: different disks have different device objects, a device's
    address determines its driver, and a partition lies within 4 PiB. *)
Class KernelLaws `{Kernel} := {
  device_unique n n' d d' :
    IoGetDeviceObjectPointer n 0 = Some d -> IoGetDeviceObjectPointer n' 0 = Some d' ->
    d_addr d = d_addr d' -> n = n';
  partition_small a start len :
    QueryPartitionInfoEx a = Some (start, len) -> 0 <= len < 2 ^ 52 - CBT_BLOCK_SIZE;
}.

(** An entry of the disk map during loading: below disk number [n], for the
    device of its number and the hook of that device's driver, with a clean
    bitmap. *)
Definition entry_inv `{Kernel} (hs : list HookEntry) (n : Z) (e : DiskMapEntry) : Prop :=
  dm_DiskNumber e < n /\
  (exists d h, IoGetDeviceObjectPointer (dm_DiskNumber e) 0 = Some d /\
     d_addr d = dm_DeviceObject e /\ hs !! dm_HookEntry e = Some h /\
     h_DriverObject h = d_driver d) /\
  cbt_wf (dm_CbtState e) /\ (forall i, ~ marked (dm_CbtState e) i) /\
  (Buffer (dm_CbtState e) <> None ->
   TotalBits (dm_CbtState e) = (dm_PartitionLength e + CBT_BLOCK_SIZE - 1) / CBT_BLOCK_SIZE).

Section load.
Context `{KernelLaws} (m : gmap (Z * Z) Dispatch).

(** Every driver in the system has a write routine of its own. *)
Definition routines_ok : Prop :=
  forall n d, IoGetDeviceObjectPointer n 0 = Some d ->
    exists id, m !! (d_driver d, IRP_MJ_WRITE) = Some (DriverFn id).
Hypothesis Hroutines : routines_ok.

Definition load_inv (n : Z) (w : Driver) : Prop :=
  hooks_inv m w /\ NoDup (map dm_DeviceObject (g_DiskMap w)) /\
  NoDup (map dm_DiskNumber (g_DiskMap w)) /\
  Forall (entry_inv (g_HookList w) n) (g_DiskMap w).

Lemma entry_inv_kept hs hs' n n' e :
  hooks_kept hs hs' -> n <= n' -> entry_inv hs n e -> entry_inv hs' n' e.
Proof.
  intros Hk Hn (Hlt & (d & h & Hd & Ha & Hh & Hdrv) & Hrest).
  split; [lia|]. split; [|done]. destruct (Hk _ _ Hh) as (h' & Hh' & E).
  exists d, h'. split_and!; [done|done|done|congruence].
Qed.

Lemma add_disk_inv n d w :
  load_inv n w -> IoGetDeviceObjectPointer n 0 = Some d -> load_inv (n + 1) (add_disk n 0 d w).
Proof.
  intros (Hhk & Hdev & Hnum & He) Hd. unfold add_disk.
  destruct (FindOrCreateHookEntry (d_driver d) w) as [r w1] eqn:Ef.
  destruct (Hroutines _ _ Hd) as [id Hid].
  destruct (FindOrCreateHookEntry_spec m _ _ _ _ Hhk (mk_is_Some _ _ Hid) Ef) as (Hhk1 & Edm & Hkept & Hr).
  assert (Forall (entry_inv (g_HookList w1) (n + 1)) (g_DiskMap w1)) as He1.
  { rewrite Edm. eapply Forall_impl; [exact He|]. intros e. apply entry_inv_kept; [done|lia]. }
  assert (load_inv (n + 1) w1) as Hskip by (unfold load_inv; by rewrite Edm in *).
  destruct r as [hi|]; [|done]. case_if; [|done].
  destruct (default (0, 0) (QueryPartitionInfoEx (d_addr d))) as [start len] eqn:Eq.
  assert (0 <= len < 2 ^ 52 - CBT_BLOCK_SIZE) as Hlen.
  { destruct (QueryPartitionInfoEx (d_addr d)) as [[s l]|] eqn:Eq'; cbn in Eq; injection Eq as <- <-.
    - by eapply partition_small.
    - unfold CBT_BLOCK_SIZE. lia. }
  rewrite wrap_small by (unfold in_width, CBT_BLOCK_SIZE in *; lia).
  destruct (InitCbtState len zero_cbt) as [st cbt] eqn:Ei.
  destruct (InitCbtState_spec _ _ _ Hlen Ei) as (Hcbt & Hclean & Hsize).
  destruct (Hr _ eq_refl) as (h & Hh & Ehd). unfold load_inv.
  cbn [set_disks g_DiskMap g_HookList]. rewrite !map_app. cbn [map dm_DeviceObject dm_DiskNumber].
  rewrite Edm in *. rewrite Forall_forall in He. split_and!; [done| | |].
  - apply NoDup_app. split; [done|]. split; [|apply NoDup_singleton].
    intros x Hx ->%list_elem_of_singleton. apply list_elem_of_fmap in Hx as (e & Ea & Hin).
    destruct (He e Hin) as (Hlt & (d' & ? & Hd' & Ha & _) & _).
    assert (n = dm_DiskNumber e) by (eapply device_unique; [done..|congruence]). lia.
  - apply NoDup_app. split; [done|]. split; [|apply NoDup_singleton].
    intros x Hx ->%list_elem_of_singleton. apply list_elem_of_fmap in Hx as (e & Ea & Hin).
    destruct (He e Hin) as (Hlt & _). lia.
  - apply Forall_app. split; [done|]. constructor; [|constructor]. split; [cbn; lia|].
    split; [exists d, h; done|]. split; [done|]. split; [done|]. cbn [dm_CbtState dm_PartitionLength].
    by apply Hsize.
Qed.

Lemma build_disks_inv k n w : load_inv n w -> load_inv (n + Z.of_nat k) (build_disks k n w).
Proof.
  revert n w. induction k as [|k IH]; intros n w Hw; cbn [build_disks].
  { by rewrite Z.add_0_r. }
  replace (n + Z.of_nat (S k)) with (n + 1 + Z.of_nat k) by lia. apply IH.
  destruct (IoGetDeviceObjectPointer n 0) as [d|] eqn:Ed; [by apply add_disk_inv|].
  destruct Hw as (? & ? & ? & He). split_and!; [done|done|done|].
  eapply Forall_impl; [exact He|]. intros e. apply entry_inv_kept; [apply hooks_kept_refl|lia].
Qed.

Lemma loaded_inv : load_inv 32 (BuildDiskAndHookTables (unloaded m)).
Proof.
  apply (build_disks_inv MAX_DISKS 0). split_and!; try constructor.
  - constructor.
  - split; [constructor|]. intros drv fc. rewrite decide_False; [done|]. intros [_ Hf]. by apply elem_of_nil in Hf.
Qed.

Lemma load_inv_wf n w : load_inv n w -> driver_wf w.
Proof.
  intros (_ & Hd & Hn & He). split; [done|]. split; [done|].
  eapply Forall_impl; [exact He|]. intros e (_ & (d & h & _ & _ & Hh & _) & Hc & _).
  split; [done|by eapply lookup_lt_Some].
Qed.
End load.

Section unload.
Context `{RtlBitmapLaws}.

(** Writes and control requests leave the hooks alone. *)
Lemma step_keeps ev w :
  g_HookList (step w ev) = g_HookList w /\ MajorFunction (step w ev) = MajorFunction w /\
  length (g_DiskMap (step w ev)) = length (g_DiskMap w).
Proof.
  destruct ev as [dev irp|code input outLen]; cbn [step].
  - unfold HwReadWrite. repeat case_match; cbn; rewrite ?length_insert; done.
  - unfold CbtDispatchDeviceControl, HandleIoctlReset.
    repeat case_match; cbn; rewrite ?length_insert; done.
Qed.

Lemma run_keeps evs w :
  g_HookList (run evs w) = g_HookList w /\ MajorFunction (run evs w) = MajorFunction w /\
  length (g_DiskMap (run evs w)) = length (g_DiskMap w).
Proof.
  induction evs as [|ev evs IH] using rev_ind; [done|]. unfold run. rewrite fold_left_app.
  fold (run evs w). cbn [fold_left]. destruct (step_keeps ev (run evs w)) as (-> & -> & ->). done.
Qed.
End unload.

(** What [CbtUnload] leaves. *)
Lemma cleanup_disks_pool es p : (cleanup_disks es p).2 = p - foldr Z.add 0 (map (fun e => held (dm_CbtState e)) es).
Proof.
  revert p. induction es as [|e es IH]; intros p; cbn [cleanup_disks map foldr snd]; [lia|].
  unfold CleanupCbtState. specialize (IH (match Buffer (dm_CbtState e) with Some buf => p - zlen buf | None => p end)).
  destruct (cleanup_disks es _) as [rest p']. cbn [snd] in *. unfold held at 1. destruct (Buffer (dm_CbtState e)); lia.
Qed.

Lemma CbtUnload_eq w :
  CbtUnload w = {| g_HookList := []; g_DiskMap := []; MajorFunction := MajorFunction (fold_left restore_hook (g_HookList w) w);
    g_ControlDevice := false; pool := pool w - foldr Z.add 0 (map (fun e => held (dm_CbtState e)) (g_DiskMap w)) |}.
Proof.
  unfold CbtUnload. set (w1 := fold_left restore_hook (g_HookList w) w).
  assert (g_DiskMap w1 = g_DiskMap w /\ pool w1 = pool w) as [Ed Ep].
  { subst w1. generalize (g_HookList w). intros hs. revert w. induction hs as [|h hs IH]; intros w; [done|]. cbn [fold_left].
    destruct (IH (restore_hook w h)) as [-> ->]. unfold restore_hook. case_if; [done|]. by case_bool_decide. }
  cbn [g_DiskMap pool]. rewrite Ed, Ep. pose proof (cleanup_disks_pool (g_DiskMap w) (pool w)) as Hp.
  destruct (cleanup_disks _ _) as [disks freed]. cbn [snd] in Hp. by rewrite <- Hp.
Qed.

(** The memory of the bitmaps, which writes and requests leave as it is. *)
Definition bitmaps (w : Driver) : Z := foldr Z.add 0 (map (fun e => held (dm_CbtState e)) (g_DiskMap w)).

Lemma build_pool `{Kernel} n k w : pool (build_disks n k w) - bitmaps (build_disks n k w) = pool w - bitmaps w.
Proof.
  revert k w. induction n as [|n IH]; intros k w; cbn [build_disks]; [done|]. rewrite IH.
  destruct (IoGetDeviceObjectPointer k 0) as [d|]; [|done]. unfold add_disk.
  assert (g_DiskMap (FindOrCreateHookEntry (d_driver d) w).2 = g_DiskMap w /\
          pool (FindOrCreateHookEntry (d_driver d) w).2 = pool w) as [Ed Ep].
  { unfold FindOrCreateHookEntry. destruct (find_entry _ _) as [[i h]|]; [done|]. by case_if. }
  destruct (FindOrCreateHookEntry _ w) as [r w1]. cbn [snd] in *.
  destruct r; [|unfold bitmaps; by rewrite Ed, Ep]. case_if; [|unfold bitmaps; by rewrite Ed, Ep].
  destruct (default _ _) as [start len]. destruct (InitCbtState _ _) as [st cbt].
  unfold bitmaps. cbn [pool set_disks set_pool g_DiskMap]. rewrite Ed, Ep, map_app, foldr_app. cbn [map foldr dm_CbtState].
  generalize (map (fun e => held (dm_CbtState e)) (g_DiskMap w)). intros l.
  assert (forall x, foldr Z.add x l = foldr Z.add 0 l + x) as Hf.
  { intros x. induction l as [|y l IHl]; cbn [foldr]; [lia|]. rewrite IHl. lia. }
  rewrite Hf. lia.
Qed.

Lemma run_pool `{RtlBitmapLaws} evs w : pool (run evs w) = pool w.
Proof.
  revert w. induction evs as [|ev evs IH]; intros w; [done|]. change (run (ev :: evs) w) with (run evs (step w ev)).
  rewrite IH. destruct ev as [dev irp|code input outLen]; cbn [step].
  - unfold HwReadWrite. repeat case_match; done.
  - unfold CbtDispatchDeviceControl, HandleIoctlReset. repeat case_match; done.
Qed.

Lemma held_wf s : cbt_wf s -> held s = match Buffer s with Some _ => (TotalBits s + 31) / 32 * 4 | None => 0 end.
Proof. unfold cbt_wf, held. destruct (Buffer s); [|done]. by intros (_ & _ & _ & -> & _). Qed.

Lemma restore_hooks m hs w :
  NoDup (drivers hs) ->
  Forall (fun h => h_HookInstalled h = true /\
            m !! (h_DriverObject h, IRP_MJ_WRITE) = Some (h_OriginalWrite h)) hs ->
  tables m (drivers hs) (MajorFunction w) -> MajorFunction (fold_left restore_hook hs w) = m.
Proof.
  intros Hn Hh. revert w Hn. induction Hh as [|h hs [Hi Hm] Hh IH]; intros w Hn Ht; cbn [fold_left].
  - apply map_eq. intros [drv fc]. rewrite Ht, decide_False; [done|].
    intros [_ Hf]. by apply elem_of_nil in Hf.
  - cbn [map] in Hn. apply NoDup_cons in Hn as [Hnew Hn]. apply IH; [done|].
    unfold restore_hook. rewrite Hi. cbn [negb].
    rewrite bool_decide_eq_true_2.
    2:{ unfold write_routine. rewrite Ht, decide_True; [done|]. split; [done|left]. }
    intros drv fc. cbn [exchange_write set_major MajorFunction].
    destruct (decide ((h_DriverObject h, IRP_MJ_WRITE) = (drv, fc))) as [[= <- <-]|Hne].
    + rewrite lookup_insert_eq, decide_False by tauto. done.
    + rewrite lookup_insert_ne, Ht by done. apply decide_ext. cbn [map]. rewrite elem_of_cons.
      naive_solver.
Qed.

Lemma loaded_hooks_transparent `{KernelLaws} `{RtlBitmapLaws} m n w0 evs dev irp :
  load_inv m n w0 -> Forall length_ok evs ->
  (forall n d, IoGetDeviceObjectPointer n 0 = Some d -> d_addr d = d_addr dev ->
     d_driver d = d_driver dev) ->
  let w := run evs w0 in
  fst (HwReadWrite dev irp w) = PassTo (m !! (d_driver dev, irp_MajorFunction irp)) /\
  MajorFunction (CbtUnload w) = m.
Proof.
  intros Hinv Hlen Hdev w.
  destruct (run_spec evs w0 (load_inv_wf m _ _ Hinv) Hlen) as [Hwf Hrun].
  destruct (run_keeps evs w0) as (Eh & Em & El). fold w in Eh, Em, El, Hrun.
  destruct Hinv as ((Hn & Hh & Ht) & _ & _ & He).
  split.
  2:{ rewrite CbtUnload_eq. apply restore_hooks; rewrite ?Eh, ?Em; done. }
  unfold HwReadWrite. rewrite Em, Eh.
  destruct (irp_MajorFunction irp =? IRP_MJ_WRITE) eqn:Emj; reflect_Z; cbn [negb fst].
  2:{ rewrite Ht, decide_False by tauto. done. }
  rewrite Emj. rewrite Forall_lookup in He. rewrite Forall_lookup in Hh.
  destruct (find_entry _ (g_DiskMap w)) as [[j e']|] eqn:Ef.
  - apply find_entry_Some in Ef as [Hj Ea]. apply Z.eqb_eq in Ea.
    destruct (lookup_lt_is_Some_2 (g_DiskMap w0) j) as [e Hk].
    { rewrite <- El. by eapply lookup_lt_Some. }
    destruct (Hrun _ _ Hk) as (e2 & Hk2 & (Es & _) & _). rewrite Hj in Hk2. injection Hk2 as <-.
    rewrite Es in Ea |- *. cbn [set_cbt dm_DeviceObject dm_HookEntry] in Ea |- *.
    destruct (He _ _ Hk) as (_ & (d & h & Hd & Ha & Hhk & Ed) & _). rewrite Hhk. cbn [fst].
    destruct (Hh _ _ Hhk) as [_ Ho]. rewrite <- Ho, Ed. do 3 f_equal.
    eapply Hdev; [done|congruence].
  - destruct (find_entry _ (g_HookList w0)) as [[i h]|] eqn:Ef2.
    + apply find_entry_Some in Ef2 as [Hi Ea]. apply Z.eqb_eq in Ea.
      destruct (Hh _ _ Hi) as [-> Ho]. cbn [fst]. by rewrite <- Ho, Ea.
    + cbn [fst]. rewrite Ht, decide_False; [done|]. intros [_ Hin].
      apply list_elem_of_fmap in Hin as (h & Ed & Hin).
      apply list_elem_of_lookup in Hin as [i Hi].
      pose proof (find_entry_None _ _ Ef2 _ _ Hi) as Hq. cbv beta in Hq. apply Z.eqb_neq in Hq. congruence.
Qed.

(** Writes and requests leave the size of the bitmaps, so unloading gives back
    what loading took. *)
Lemma run_bitmaps `{RtlBitmapLaws} evs w : driver_wf w -> Forall length_ok evs -> bitmaps (run evs w) = bitmaps w.
Proof.
  intros Hwf Hlen. destruct (run_spec evs w Hwf Hlen) as [(_ & _ & Hwf') Hrun]. destruct Hwf as (_ & _ & Hwf).
  destruct (run_keeps evs w) as (_ & _ & Hl). rewrite Forall_lookup in Hwf, Hwf'. unfold bitmaps. f_equal.
  change (@map) with (@fmap list _). apply list_eq. intros k. rewrite !list_lookup_fmap.
  destruct (g_DiskMap w !! k) as [e|] eqn:Hk.
  - destruct (Hrun k e Hk) as (e' & Hk' & (_ & Ht & Hn) & _). rewrite Hk'. cbn. f_equal.
    destruct (Hwf _ _ Hk) as [Hw _], (Hwf' _ _ Hk') as [Hw' _]. rewrite (held_wf _ Hw), (held_wf _ Hw'), Ht.
    destruct (Buffer (dm_CbtState e)), (Buffer (dm_CbtState e')); [reflexivity| | |reflexivity].
    + by discriminate (proj1 Hn eq_refl).
    + by discriminate (proj2 Hn eq_refl).
  - apply lookup_ge_None in Hk. rewrite (lookup_ge_None_2 (g_DiskMap (run evs w))) by lia. done.
Qed.

Lemma unload_pool `{KernelLaws} `{RtlBitmapLaws} m evs :
  routines_ok m -> Forall length_ok evs -> pool (CbtUnload (run evs (BuildDiskAndHookTables (unloaded m)))) = 0.
Proof.
  intros Hm Hlen. rewrite CbtUnload_eq. cbn [pool].
  change (foldr Z.add 0 (map _ _)) with (bitmaps (run evs (BuildDiskAndHookTables (unloaded m)))).
  rewrite run_pool, run_bitmaps by (done || by eapply load_inv_wf, loaded_inv).
  unfold BuildDiskAndHookTables. exact (build_pool MAX_DISKS 0 (unloaded m)).
Qed.

(** ** The properties *)

(** C24: no write is lost.  After the driver was loaded and went through any
    sequence of writes to any devices and control requests, the bitmap of
    every tracked disk has one bit per mebibyte, and the bit of every block
    that was written since the last reset of that disk is set; when none of
    the writes was empty, no other bit is. *)
Theorem driver_tracks_writes `{KernelLaws} `{RtlBitmapLaws} m evs k e :
  routines_ok m -> Forall length_ok evs ->
  let w := BuildDiskAndHookTables (unloaded m) in
  g_DiskMap w !! k = Some e -> Buffer (dm_CbtState e) <> None ->
  TotalBits (dm_CbtState e) = (dm_PartitionLength e + CBT_BLOCK_SIZE - 1) / CBT_BLOCK_SIZE /\
  exists e', g_DiskMap (run evs w) !! k = Some e' /\ same_entry e e' /\
    forall i, 0 <= i < TotalBits (dm_CbtState e) ->
      (dirty e i evs -> marked (dm_CbtState e') i) /\
      (Forall nonempty evs -> marked (dm_CbtState e') i -> dirty e i evs).
Proof.
  intros Hm Hlen w Hk Hb. pose proof (loaded_inv m Hm) as Hinv. fold w in Hinv.
  destruct (run_spec evs w (load_inv_wf m _ _ Hinv) Hlen) as [_ Hrun].
  destruct (Hrun _ _ Hk) as (e' & Hk' & Hs & Hi).
  destruct Hinv as (_ & _ & _ & He). rewrite Forall_lookup in He.
  destruct (He _ _ Hk) as (_ & _ & _ & Hclean & Hsize). split; [by apply Hsize|].
  exists e'. split; [done|]. split; [done|]. intros i Hr. destruct (Hi i Hr Hb) as [Ha Hc].
  specialize (Hclean i). unfold recorded in *. tauto.
Qed.

(** the hook is transparent and removable.  In the loaded driver, after any
    events, every request that reaches the hook for any device is passed on to
    exactly the routine the device's driver had before the driver was loaded,
    so never to the hook itself; and unloading restores the dispatch tables
    of all drivers. *)
Theorem hooks_transparent `{KernelLaws} `{RtlBitmapLaws} m evs dev irp :
  routines_ok m -> Forall length_ok evs ->
  (forall n d, IoGetDeviceObjectPointer n 0 = Some d -> d_addr d = d_addr dev ->
     d_driver d = d_driver dev) ->
  let w := run evs (BuildDiskAndHookTables (unloaded m)) in
  fst (HwReadWrite dev irp w) = PassTo (m !! (d_driver dev, irp_MajorFunction irp)) /\
  MajorFunction (CbtUnload w) = m.
Proof.
  intros Hm Hlen Hdev. by apply (loaded_hooks_transparent m 32); [apply loaded_inv|..].
Qed.

(** An empty write at the start.  The end of the range is computed as
    [offset + length - 1], which wraps around, so a write of no bytes at
    offset 0 marks every block of the disk. *)
Theorem empty_write_marks_disk `{RtlBitmapLaws} s :
  cbt_wf s -> Buffer s <> None ->
  forall i, 0 <= i < TotalBits s -> marked (MarkBlockChanged s 0 0) i.
Proof.
  intros Hwf Hb i Hi. unfold MarkBlockChanged. destruct (Buffer s) as [buf|] eqn:Eb; [|done].
  destruct (cbt_size s buf Hwf Eb) as (Ht & _ & _). test_false (TotalBits s =? 0).
  rewrite wrap_small by (unfold in_width, CBT_BLOCK_SIZE; lia).
  replace (TotalBits s * CBT_BLOCK_SIZE <=? 0) with false by (unfold CBT_BLOCK_SIZE; lia).
  change (u64 (0 + 0 - 1) / CBT_BLOCK_SIZE) with 17592186044415.
  change (0 / CBT_BLOCK_SIZE) with 0. test_true (TotalBits s <=? 17592186044415).
  test_false (TotalBits s - 1 <? 0).
  destruct (set_range s buf 0 (TotalBits s - 1) Hwf Eb) as (_ & _ & Hm); [lia|lia|].
  apply Hm; [done|]. right. lia.
Qed.

(** ** Examples *)

(** The bitmap routines, computed. *)
Definition byte_of (f : Z -> bool) : Z :=
  foldr (fun j acc => (if f j then 2 ^ j else 0) + acc) 0 [0; 1; 2; 3; 4; 5; 6; 7].

Lemma byte_of_spec f j : 0 <= j < 8 -> Z.testbit (byte_of f) j = f j.
Proof.
  intros Hj. assert (j = 0 \/ j = 1 \/ j = 2 \/ j = 3 \/ j = 4 \/ j = 5 \/ j = 6 \/ j = 7) as Hc by lia.
  unfold byte_of. cbn [foldr].
  repeat destruct Hc as [->|Hc]; try subst j;
    destruct (f 0), (f 1), (f 2), (f 3), (f 4), (f 5), (f 6), (f 7); reflexivity.
Qed.

Lemma byte_of_ok f : in_width 8 (byte_of f).
Proof.
  unfold byte_of, in_width. cbn [foldr].
  destruct (f 0), (f 1), (f 2), (f 3), (f 4), (f 5), (f 6), (f 7); lia.
Qed.

Definition demo_rtl : RtlBitmap :=
  {| RtlSetBits := fun _ buf start n =>
       imap (fun k b => byte_of (fun j => let i := 8 * Z.of_nat k + j in
               ((start <=? i) && (i <? start + n)) || Z.testbit b j)) buf;
     RtlClearAllBits := fun _ buf => map (fun _ => 0) buf |}.

Lemma bit_in_byte buf i :
  0 <= i < 8 * zlen buf -> exists b, buf !! Z.to_nat (i / 8) = Some b /\ bit_at buf i = Z.testbit b (i mod 8).
Proof.
  intros Hi. destruct (lookup_lt_is_Some_2 buf (Z.to_nat (i / 8))) as [b Hb].
  { Z.to_euclidean_division_equations. lia. }
  exists b. split; [done|]. unfold bit_at. by rewrite nth_lookup, Hb.
Qed.

Lemma demo_rtl_laws : @RtlBitmapLaws demo_rtl.
Proof.
  split; intros size buf; cbn [RtlSetBits RtlClearAllBits demo_rtl].
  - intros start n i Hs Hn Hsz Hl Hi. destruct (bit_in_byte buf i) as (b & Hb & ->); [lia|].
    unfold bit_at. rewrite nth_lookup, list_lookup_imap, Hb. cbn [fmap option_fmap option_map from_option]. unfold id.
    pose proof (Z.mod_pos_bound i 8). rewrite byte_of_spec by lia. cbv zeta.
    assert (0 <= i / 8) by (apply Z.div_pos; lia).
    rewrite Z2Nat.id, <- Z.div_mod by lia. done.
  - intros start n. apply length_imap.
  - intros start n Hb. apply Forall_lookup. intros k x. rewrite list_lookup_imap.
    destruct (buf !! k); [|done]. intros [= <-]. apply byte_of_ok.
  - intros i Hl Hi. unfold bit_at. rewrite nth_lookup.
    change (map ?f buf) with (fmap (M := list) f buf). rewrite list_lookup_fmap.
    destruct (buf !! _); cbn; apply Z.bits_0.
  - apply length_map.
  - intros _. apply Forall_map, Forall_forall. intros x _. by vm_compute.
Qed.

(** Two disks of one driver, of 3 and 10 MiB. *)
Definition demo_kernel : Kernel :=
  {| ExAllocatePool2 := fun _ => true;
     IoGetDeviceObjectPointer := fun n _ =>
       if n =? 0 then Some {| d_addr := 100; d_driver := 7 |}
       else if n =? 1 then Some {| d_addr := 200; d_driver := 7 |} else None;
     QueryPartitionInfoEx := fun a => Some (0, if a =? 100 then 3 * CBT_BLOCK_SIZE else 10 * CBT_BLOCK_SIZE) |}.

Lemma driver_kernel_laws : @KernelLaws demo_kernel.
Proof.
  split; cbn.
  - intros n n' d d'. destruct (n =? 0) eqn:E, (n' =? 0) eqn:E', (n =? 1) eqn:E1, (n' =? 1) eqn:E1';
      reflect_Z; intros [= <-] [= <-]; cbn; lia.
  - intros a s l [= <- <-]. unfold CBT_BLOCK_SIZE. case_if; lia.
Qed.

Definition demo_tables : gmap (Z * Z) Dispatch := {[ (7, IRP_MJ_WRITE) := DriverFn 42 ]}.

Lemma demo_routines : @routines_ok demo_kernel demo_tables.
Proof.
  intros n d. cbn. destruct (n =? 0); [|destruct (n =? 1); [|done]]; intros [= <-]; by exists 42.
Qed.

Definition demo_loaded : Driver := @BuildDiskAndHookTables demo_kernel (unloaded demo_tables).
Definition demo_disk : Device := {| d_addr := 200; d_driver := 7 |}.
Definition demo_write : event :=
  EWrite demo_disk {| irp_MajorFunction := IRP_MJ_WRITE; irp_ByteOffset := CBT_BLOCK_SIZE + 5; irp_Length := 10 |}.
Definition demo_entry : DiskMapEntry :=
  {| dm_DeviceObject := 200; dm_HookEntry := 0; dm_DiskNumber := 1; dm_PartitionNumber := 0;
     dm_StartingOffset := 0; dm_PartitionLength := 10 * CBT_BLOCK_SIZE; dm_IsPartition0 := true;
     dm_CbtState := {| rb_size := 10; Buffer := Some (zeros 4); TotalBits := 10; TotalBytes := 4 |} |}.

Lemma driver_tracks_writes_witness :
  exists e', g_DiskMap (@run demo_rtl [demo_write] demo_loaded) !! 1%nat = Some e' /\
    marked (dm_CbtState e') 1.
Proof.
  destruct (@driver_tracks_writes demo_kernel driver_kernel_laws demo_rtl demo_rtl_laws demo_tables
              [demo_write] 1 demo_entry) as (_ & e' & Hk & _ & Hm).
  - exact demo_routines.
  - constructor; [by vm_compute|constructor].
  - vm_compute. reflexivity.
  - done.
  - exists e'. split; [exact Hk|]. apply (Hm 1); [cbn; lia|].
    exists [], demo_write, []. split; [done|]. split; [|constructor].
    split; [done|]. split; [done|]. exists (CBT_BLOCK_SIZE + 5).
    split; [split; vm_compute; congruence|vm_compute; reflexivity].
Defined.

Lemma hooks_transparent_witness :
  let w := @run demo_rtl [demo_write] demo_loaded in
  fst (@HwReadWrite demo_rtl demo_disk
         {| irp_MajorFunction := IRP_MJ_WRITE; irp_ByteOffset := 0; irp_Length := 1 |} w)
  = PassTo (Some (DriverFn 42)) /\ MajorFunction (CbtUnload w) = demo_tables.
Proof.
  apply (@hooks_transparent demo_kernel driver_kernel_laws demo_rtl demo_rtl_laws demo_tables
           [demo_write] demo_disk).
  - exact demo_routines.
  - constructor; [by vm_compute|constructor].
  - intros n d. cbn. destruct (n =? 0); [|destruct (n =? 1); [|done]]; intros [= <-]; done.
Defined.

Lemma empty_write_marks_disk_witness :
  marked (@MarkBlockChanged demo_rtl (dm_CbtState demo_entry) 0 0) 9.
Proof.
  apply (@empty_write_marks_disk demo_rtl demo_rtl_laws).
  - cbn. split; [lia|]. split; [done|]. split; [done|]. split; [done|]. evaluate.
  - done.
  - cbn. lia.
Defined.
