(* ===== verification/CbtClient.v ===== *)
(** * The client of the change-tracking driver

    [client/CbtClient.{h,cpp}]: starting the service, connecting, reading the
    bitmap of a disk with two requests, resetting it, and the list of changed
    blocks; and the client on top of the driver. *)

From Stdlib Require Import Sorted.
From S2P Require Import Prelude.
From S2P Require Import CbtDriver.

(** ** Definitions *)

Definition ERROR_FILE_NOT_FOUND : Z := 2.
Definition ERROR_MORE_DATA : Z := 234.
Definition ERROR_SERVICE_ALREADY_RUNNING : Z := 1056.
Definition SERVICE_RUNNING : Z := 4.

(** The answer of a control request: success or the last error, and the bytes
    copied to the caller's buffer. *)
Record IoAnswer := { a_ok : bool; a_error : Z; a_data : list Z }.

Class IoControl (S : Type) := {
  DeviceIoControl : Z -> list Z -> Z -> S -> IoAnswer * S;
}.

(** The service manager as [StartDriverService] uses it: whether the manager
    and the service open, the state it reports first, the error of the start
    ([None]: it started), and the states reported after each pause. *)
Record ServiceManager := {
  sm_open : bool; sm_service : bool; sm_state : option Z; sm_start : option Z;
  sm_polls : list (option Z) }.

Fixpoint poll_running (n : nat) (polls : list (option Z)) : bool :=
  match n, polls with
  | S n', Some st :: rest => if st =? SERVICE_RUNNING then true else poll_running n' rest
  | S n', None :: rest => poll_running n' rest
  | _, _ => false
  end.

Definition StartDriverService (sm : ServiceManager) : bool :=
  if negb (sm_open sm) then false
  else if negb (sm_service sm) then false
  else if bool_decide (sm_state sm = Some SERVICE_RUNNING) then true
  else
    match sm_start sm with
    | Some err =>
        if negb (err =? ERROR_SERVICE_ALREADY_RUNNING) then false
        else poll_running 10 (sm_polls sm)
    | None => poll_running 10 (sm_polls sm)
    end.

(** [m_hDevice] is [true] for a valid handle. *)
Record CbtClient := { m_hDevice : bool; m_connected : bool }.
Definition CbtClient_new : CbtClient := {| m_hDevice := false; m_connected := false |}.

(** [open1], [open2]: the error of the two attempts to open the device
    ([None]: it opened). *)
Definition Connect (open1 open2 : option Z) (sm : ServiceManager) (c : CbtClient) : bool * CbtClient :=
  if m_connected c then (true, c)
  else
    let handle :=
      match open1 with
      | None => true
      | Some err =>
          if (err =? ERROR_FILE_NOT_FOUND) && StartDriverService sm
          then bool_decide (open2 = None) else false
      end in
    (handle, {| m_hDevice := handle; m_connected := handle |}).

Definition Disconnect (c : CbtClient) : CbtClient := {| m_hDevice := false; m_connected := false |}.

(** A buffer after the system copied data to its front. *)
Definition overlay (d buf : list Z) : list Z := take (length buf) d ++ drop (length d) buf.

Section client.
Context {S : Type} `{IoControl S}.

(** [CBT_IOCTL_INPUT]. *)
Definition ioctl_input (devNo : Z) : list Z := le_enc 4 devNo.

(** The result, [bitmap] and [totalBits]; [None] when the copy of the bitmap
    reads behind the buffer. *)
Definition Query (c : CbtClient) (devNo : Z) (bitmap : list Z) (totalBits : Z) (s : S)
    : option (bool * list Z * Z * S) :=
  if negb (m_connected c) || negb (m_hDevice c) then Some (false, bitmap, totalBits, s)
  else
    let '(a1, s1) := DeviceIoControl IOCTL_QUERY_CBT_DATA (ioctl_input devNo) 16 s in
    if negb (a_ok a1) && negb (a_error a1 =? ERROR_MORE_DATA) then Some (false, [], 0, s1)
    else
      let metaBuf := overlay (a_data a1) (zeros 16) in
      let TotalBits := rd_le 0 8 metaBuf in
      let totalBytes := rd_le 8 8 metaBuf in
      if (totalBytes =? 0) || (TotalBits =? 0) then Some (false, [], 0, s1)
      else
        let requiredSize := u32 (QUERY_HEADER + totalBytes) in
        let '(a2, s2) := DeviceIoControl IOCTL_QUERY_CBT_DATA (ioctl_input devNo) requiredSize s1 in
        if negb (a_ok a2) then Some (false, [], TotalBits, s2)
        else
          let buf := overlay (a_data a2) (zeros requiredSize) in
          bm ← memcpy_from QUERY_HEADER totalBytes buf;
          Some (true, bm, TotalBits, s2).

Definition Reset (c : CbtClient) (devNo : Z) (s : S) : bool * S :=
  if negb (m_connected c) || negb (m_hDevice c) then (false, s)
  else
    let '(a, s1) := DeviceIoControl IOCTL_RESET_CBT_DATA (ioctl_input devNo) 0 s in
    (a_ok a, s1).
End client.

(** The loop over [n] bits from bit [i]. *)
Fixpoint parse_loop (n : nat) (i : Z) (bitmap : list Z) : list Z :=
  match n with
  | O => []
  | S n' =>
      let byteIndex := i / 8 in
      let bitInByte := 7 - i mod 8 in
      if zlen bitmap <=? byteIndex then []
      else
        if Z.land (Z.shiftr (nth (Z.to_nat byteIndex) bitmap 0) bitInByte) 1 =? 0
        then parse_loop n' (i + 1) bitmap
        else i :: parse_loop n' (i + 1) bitmap
  end.

Definition ParseChangedBlocks (bitmap : list Z) (totalBits : Z) : list Z :=
  parse_loop (Z.to_nat totalBits) 0 bitmap.

(** ** The driver below *)

(** What the system does with the result of the driver: it copies
    [Information] bytes unless the status is an error, and reports a buffer
    overflow as [ERROR_MORE_DATA]. *)
Class IoManagerLaws `{RtlBitmap} `{IoControl Driver} := {
  io_state code input outLen w :
    snd (DeviceIoControl code input outLen w) = snd (CbtDispatchDeviceControl code input outLen w);
  io_success code input outLen w r w' :
    CbtDispatchDeviceControl code input outLen w = (r, w') -> io_status r = STATUS_SUCCESS ->
    let a := fst (DeviceIoControl code input outLen w) in
    a_ok a = true /\ a_data a = take (Z.to_nat (io_information r)) (io_output r);
  io_overflow code input outLen w r w' :
    CbtDispatchDeviceControl code input outLen w = (r, w') -> io_status r = STATUS_BUFFER_OVERFLOW ->
    let a := fst (DeviceIoControl code input outLen w) in
    a_ok a = false /\ a_error a = ERROR_MORE_DATA /\
    a_data a = take (Z.to_nat (io_information r)) (io_output r);
}.

(** Bits within a byte in the opposite order. *)
Definition mirror (i : Z) : Z := 8 * (i / 8) + 7 - i mod 8.

(** ** Lemmas *)

Lemma mirror_range i n : 0 <= i < 8 * n -> 0 <= mirror i < 8 * n.
Proof. unfold mirror. intros. Z.to_euclidean_division_equations. lia. Qed.

Lemma mirror_involutive i : mirror (mirror i) = i.
Proof. unfold mirror. Z.to_euclidean_division_equations. lia. Qed.

Lemma mirror_moves i : mirror i <> i.
Proof. unfold mirror. Z.to_euclidean_division_equations. lia. Qed.

(** The test of the loop reads the mirrored bit. *)
Lemma parse_test bitmap i :
  0 <= i ->
  (Z.land (Z.shiftr (nth (Z.to_nat (i / 8)) bitmap 0) (7 - i mod 8)) 1 =? 0)
  = negb (bit_at bitmap (mirror i)).
Proof.
  intros Hi. unfold bit_at.
  assert (mirror i / 8 = i / 8 /\ mirror i mod 8 = 7 - i mod 8) as [-> ->]
    by (unfold mirror; Z.to_euclidean_division_equations; lia).
  change 1 with (Z.ones 1). rewrite Z.land_ones by lia.
  rewrite <- Z.bit0_mod, Z.shiftr_spec, Z.add_0_l by lia. by destruct (Z.testbit _ _).
Qed.

Lemma parse_loop_elem n i bitmap j :
  0 <= i -> j ∈ parse_loop n i bitmap <->
  i <= j < i + Z.of_nat n /\ j < 8 * zlen bitmap /\ bit_at bitmap (mirror j) = true.
Proof.
  revert i. induction n as [|n IH]; intros i Hi; cbn [parse_loop].
  { split; [by intros ?%elem_of_nil|lia]. }
  destruct (zlen bitmap <=? i / 8) eqn:E; reflect_Z.
  { split; [by intros ?%elem_of_nil|]. intros (Hj & Hb & _).
    Z.to_euclidean_division_equations. lia. }
  assert (i < 8 * zlen bitmap) by (Z.to_euclidean_division_equations; lia).
  rewrite parse_test by done. specialize (IH (i + 1) ltac:(lia)).
  destruct (bit_at bitmap (mirror i)) eqn:Eb; cbn [negb].
  - rewrite elem_of_cons, IH. split; [intros [->|(? & ? & ?)]; split_and!; done || lia|].
    intros (Hj & ? & ?). destruct (decide (j = i)); [by left|right; split; [lia|done]].
  - rewrite IH. split; [intros (? & ? & ?); split_and!; done || lia|].
    intros (Hj & ? & ?). destruct (decide (j = i)); [congruence|split; [lia|done]].
Qed.

Lemma parse_loop_sorted n i bitmap : 0 <= i -> StronglySorted Z.lt (parse_loop n i bitmap).
Proof.
  revert i. induction n as [|n IH]; intros i Hi; cbn [parse_loop]; [constructor|].
  repeat case_if; [constructor|apply IH; lia|]. constructor; [apply IH; lia|].
  apply Forall_forall. intros j Hj. apply parse_loop_elem in Hj; lia.
Qed.

Lemma overlay_exact d buf : length d = length buf -> overlay d buf = d.
Proof.
  intros E. unfold overlay. rewrite drop_ge by lia. rewrite app_nil_r. by apply take_ge; lia.
Qed.

Lemma cbt_buffer_size s buf :
  cbt_wf s -> Buffer s = Some buf -> 0 < TotalBits s < 2 ^ 32 /\ TotalBytes s = zlen buf /\
  4 <= zlen buf <= 2 ^ 29 /\ TotalBits s <= 8 * zlen buf.
Proof.
  unfold cbt_wf. intros Hwf Hb. rewrite Hb in Hwf. destruct Hwf as (Ht & _ & Ey & Hl & _).
  rewrite Hl. split; [done|]. split; [congruence|]. Z.to_euclidean_division_equations. lia.
Qed.

(** The driver's two answers to a query. *)
Lemma HandleIoctlQuery_spec input w j e buf outLen :
  4 <= zlen input -> FindDiskMapEntryByNumber (rd_le 0 4 input) w = Some (j, e) ->
  cbt_wf (dm_CbtState e) -> Buffer (dm_CbtState e) = Some buf -> 16 <= outLen ->
  let header := le_enc 8 (TotalBits (dm_CbtState e)) ++ le_enc 8 (zlen buf) in
  HandleIoctlQuery input outLen w
  = if outLen <? 16 + zlen buf
    then {| io_status := STATUS_BUFFER_OVERFLOW; io_information := 16; io_output := header |}
    else {| io_status := STATUS_SUCCESS; io_information := 16 + zlen buf;
            io_output := header ++ buf |}.
Proof.
  intros Hin Hf Hwf Hb Ho header. destruct (cbt_buffer_size _ _ Hwf Hb) as (Ht & Ey & Hl & _).
  unfold HandleIoctlQuery. test_false (zlen input <? 4). rewrite Hf, Hb.
  test_false (TotalBits (dm_CbtState e) =? 0). rewrite Ey. unfold QUERY_HEADER.
  rewrite !(wrap_small 32 (zlen buf)) by (unfold in_width; lia).
  rewrite (wrap_small 32) by (unfold in_width; lia).
  rewrite Nat2Z.id, (take_ge buf) by lia. test_true (16 <=? outLen). done.
Qed.

Section query.
Context `{IoManagerLaws}.

Definition connected (c : CbtClient) : Prop := m_connected c = true /\ m_hDevice c = true.

(** The header of an answer. *)
Definition query_header (bits : Z) (buf : list Z) : list Z := le_enc 8 bits ++ le_enc 8 (zlen buf).

Lemma query_header_fields bits buf rest :
  in_width 64 bits -> zlen buf < 2 ^ 64 ->
  zlen (query_header bits buf) = 16 /\ rd_le 0 8 (query_header bits buf ++ rest) = bits /\
  rd_le 8 8 (query_header bits buf ++ rest) = zlen buf.
Proof.
  intros Hb Hl. unfold query_header. split; [rewrite length_app, !le_enc_length; lia|].
  rewrite <- app_assoc. split; [by apply (rd_le_here 8)|].
  rewrite rd_le_skip by (rewrite le_enc_length; lia). rewrite le_enc_length.
  apply (rd_le_here 8). unfold in_width. lia.
Qed.

(** The two requests against the driver: the size, then the bitmap. *)
Lemma query_answers devNo w j e buf :
  in_width 32 devNo -> FindDiskMapEntryByNumber devNo w = Some (j, e) ->
  cbt_wf (dm_CbtState e) -> Buffer (dm_CbtState e) = Some buf ->
  let header := query_header (TotalBits (dm_CbtState e)) buf in
  (exists a, DeviceIoControl IOCTL_QUERY_CBT_DATA (ioctl_input devNo) 16 w = (a, w) /\
     a_ok a = false /\ a_error a = ERROR_MORE_DATA /\ overlay (a_data a) (zeros 16) = header) /\
  (exists a, DeviceIoControl IOCTL_QUERY_CBT_DATA (ioctl_input devNo) (16 + zlen buf) w = (a, w) /\
     a_ok a = true /\ overlay (a_data a) (zeros (16 + zlen buf)) = header ++ buf).
Proof.
  intros Hd Hf Hwf Hb header. destruct (cbt_buffer_size _ _ Hwf Hb) as (Ht & Ey & Hl & _).
  assert (zlen (ioctl_input devNo) = 4 /\ rd_le 0 4 (ioctl_input devNo) = devNo) as [Hin Hrd].
  { unfold ioctl_input. rewrite le_enc_length. split; [done|].
    rewrite <- (app_nil_r (le_enc 4 devNo)). by apply (rd_le_here 4). }
  pose proof (fun o (Ho : 16 <= o) => HandleIoctlQuery_spec (ioctl_input devNo) w j e buf o ltac:(lia)
                ltac:(by rewrite Hrd) Hwf Hb Ho) as Hq. cbv zeta in Hq.
  change (le_enc 8 _ ++ le_enc 8 _) with header in Hq.
  destruct (query_header_fields (TotalBits (dm_CbtState e)) buf []) as (Hhl & _); [unfold in_width; lia|lia|].
  fold header in Hhl.
  assert (forall o, CbtDispatchDeviceControl IOCTL_QUERY_CBT_DATA (ioctl_input devNo) o w
            = (HandleIoctlQuery (ioctl_input devNo) o w, w)) as Hdisp by done. split.
  - pose proof (io_state IOCTL_QUERY_CBT_DATA (ioctl_input devNo) 16 w) as Hs1.
    pose proof (io_overflow IOCTL_QUERY_CBT_DATA (ioctl_input devNo) 16 w _ _ (Hdisp 16)) as Ha1.
    rewrite (Hq 16 ltac:(lia)) in Ha1. replace (16 <? 16 + zlen buf) with true in Ha1 by lia.
    destruct (Ha1 eq_refl) as (Hok1 & Herr1 & Hdata1). rewrite Hdisp in Hs1.
    destruct (DeviceIoControl _ _ 16 w) as [a1 s1]. cbn [fst snd io_information io_output] in *.
    subst s1. exists a1. split_and!; [done..|].
    rewrite Hdata1, take_ge, overlay_exact by (unfold zeros; rewrite ?length_replicate; lia). done.
  - pose proof (io_state IOCTL_QUERY_CBT_DATA (ioctl_input devNo) (16 + zlen buf) w) as Hs2.
    pose proof (io_success IOCTL_QUERY_CBT_DATA (ioctl_input devNo) (16 + zlen buf) w _ _ (Hdisp _)) as Ha2.
    rewrite (Hq (16 + zlen buf) ltac:(lia)) in Ha2. rewrite Z.ltb_irrefl in Ha2.
    destruct (Ha2 eq_refl) as (Hok2 & Hdata2). rewrite Hdisp in Hs2.
    destruct (DeviceIoControl _ _ (16 + zlen buf) w) as [a2 s2]. cbn [fst snd io_information io_output] in *.
    subst s2. exists a2. split_and!; [done..|]. rewrite Hdata2, take_ge by (rewrite length_app; lia).
    apply overlay_exact. unfold zeros. rewrite length_replicate, length_app. lia.
Qed.

Lemma Query_driver c devNo bm tb w j e buf :
  connected c -> in_width 32 devNo -> FindDiskMapEntryByNumber devNo w = Some (j, e) ->
  cbt_wf (dm_CbtState e) -> Buffer (dm_CbtState e) = Some buf ->
  Query c devNo bm tb w = Some (true, buf, TotalBits (dm_CbtState e), w).
Proof.
  intros [Hc Hh] Hd Hf Hwf Hb. destruct (cbt_buffer_size _ _ Hwf Hb) as (Ht & Ey & Hl & _).
  destruct (query_answers devNo w j e buf Hd Hf Hwf Hb) as [(a1 & E1 & Hok1 & Herr1 & Hd1) (a2 & E2 & Hok2 & Hd2)].
  destruct (query_header_fields (TotalBits (dm_CbtState e)) buf []) as (Hhl & Hbits & Hbytes);
    [unfold in_width; lia|lia|]. rewrite app_nil_r in Hbits, Hbytes.
  unfold Query. rewrite Hc, Hh. cbn [negb orb]. rewrite E1, Hok1, Herr1.
  change (negb false && negb (ERROR_MORE_DATA =? ERROR_MORE_DATA)) with false. cbv iota.
  rewrite Hd1, Hbits, Hbytes. replace (zlen buf =? 0) with false by lia.
  replace (TotalBits (dm_CbtState e) =? 0) with false by lia. cbn [orb].
  unfold QUERY_HEADER. rewrite wrap_small by (unfold in_width; lia). rewrite E2, Hok2, Hd2. cbn [negb].
  set (header := query_header _ _) in *.
  assert (zlen (header ++ buf) = 16 + zlen buf) as Hlen by (rewrite length_app; lia).
  unfold memcpy_from. rewrite Hlen.
  replace (_ && _) with true by (symmetry; rewrite !andb_true_iff; lia).
  cbn [mbind option_bind]. rewrite sub_skip by lia. rewrite Hhl, Z.sub_diag, sub_all by lia. done.
Qed.
End query.

(** A bitmap in use without any mark, the padding included. *)
Definition clean (s : CbtState) : Prop :=
  cbt_wf s /\ exists buf, Buffer s = Some buf /\ forall i, 0 <= i < 8 * zlen buf -> bit_at buf i = false.

(** A write that touches one block of a clean bitmap sets one bit. *)
Lemma MarkBlockChanged_single `{RtlBitmapLaws} s off len b :
  clean s -> 0 <= off -> 0 < len < 2 ^ 32 -> 0 <= b < TotalBits s ->
  (forall i, touches off len i <-> i = b) ->
  let s' := MarkBlockChanged s off len in
  cbt_wf s' /\ TotalBits s' = TotalBits s /\
  exists buf', Buffer s' = Some buf' /\ TotalBits s <= 8 * zlen buf' /\
    forall i, 0 <= i < 8 * zlen buf' -> bit_at buf' i = (i =? b).
Proof.
  intros (Hwf & buf & Hb & Hz) Ho Hl Hbr Ht.
  destruct (cbt_size s buf Hwf Hb) as (Htb & Hsz & Hbuf).
  assert (off / CBT_BLOCK_SIZE = b /\ (off + len - 1) / CBT_BLOCK_SIZE = b) as [E1 E2].
  { assert (off / CBT_BLOCK_SIZE <= (off + len - 1) / CBT_BLOCK_SIZE)
      by (apply Z.div_le_mono; unfold CBT_BLOCK_SIZE; lia).
    split; apply Ht; apply touches_range; lia. }
  assert (off < TotalBits s * CBT_BLOCK_SIZE) as Hoff.
  { unfold CBT_BLOCK_SIZE in *. Z.to_euclidean_division_equations. lia. }
  cbv zeta. unfold MarkBlockChanged. rewrite Hb. test_false (TotalBits s =? 0).
  assert (0 <= TotalBits s * CBT_BLOCK_SIZE < 2 ^ 53) as Hbs by (unfold CBT_BLOCK_SIZE; lia).
  rewrite (wrap_small 64 (TotalBits s * _)) by (unfold in_width; lia).
  test_false (TotalBits s * CBT_BLOCK_SIZE <=? off).
  rewrite (wrap_small 64 (off + len - 1)) by (unfold in_width; lia). rewrite E1, E2.
  test_false (TotalBits s <=? b). rewrite Z.ltb_irrefl.
  destruct (set_range s buf b b Hwf Hb) as (H1 & H2 & _); [lia|lia|].
  split; [done|]. split; [done|]. eexists. split; [done|]. rewrite set_bits_length.
  split; [done|]. intros i Hi. rewrite !wrap_small by (unfold in_width; lia).
  rewrite set_bits_bit, Hz by lia. rewrite orb_false_r. lia.
Qed.

Lemma sorted_singleton l x : StronglySorted Z.lt l -> (forall i, i ∈ l <-> i = x) -> l = [x].
Proof.
  intros Hs Hl. destruct Hs as [|y l Hs Hy].
  - pose proof (proj2 (Hl x) eq_refl) as Hx. by apply elem_of_nil in Hx.
  - assert (y = x) as -> by (apply Hl; left). f_equal. apply elem_of_nil_inv. intros z Hz.
    rewrite Forall_forall in Hy. pose proof (Hy z Hz).
    assert (z = x) by (apply Hl; by right). lia.
Qed.

(** ** The properties *)

(** Reading the bitmap.  Against the driver, the two requests of [Query]
    for a tracked disk succeed and deliver the driver's bitmap and its number
    of bits, and change nothing. *)
Theorem Query_reads_bitmap `{IoManagerLaws} c devNo bm tb w j e buf :
  connected c -> in_width 32 devNo -> FindDiskMapEntryByNumber devNo w = Some (j, e) ->
  cbt_wf (dm_CbtState e) -> Buffer (dm_CbtState e) = Some buf ->
  Query c devNo bm tb w = Some (true, buf, TotalBits (dm_CbtState e), w).
Proof. apply Query_driver. Qed.

(** The list of changed blocks.  [ParseChangedBlocks] lists, in ascending
    order, the indexes below [totalBits] and within the bitmap whose bit is
    set, counting the bits of a byte from the most significant one. *)
Theorem ParseChangedBlocks_spec bitmap totalBits :
  StronglySorted Z.lt (ParseChangedBlocks bitmap totalBits) /\
  forall i, i ∈ ParseChangedBlocks bitmap totalBits <->
    0 <= i < totalBits /\ i < 8 * zlen bitmap /\
    Z.testbit (nth (Z.to_nat (i / 8)) bitmap 0) (7 - i mod 8) = true.
Proof.
  split; [by apply parse_loop_sorted|]. intros i. unfold ParseChangedBlocks.
  rewrite parse_loop_elem by done. unfold bit_at.
  assert (mirror i / 8 = i / 8 /\ mirror i mod 8 = 7 - i mod 8) as [-> ->]
    by (unfold mirror; Z.to_euclidean_division_equations; lia).
  destruct (Z.le_gt_cases 0 totalBits); [|split; lia].
  split; intros (? & ? & ?); split_and!; done || lia.
Qed.

(** C25: the bits of a byte are read in the wrong order.  The driver keeps block
    [i] in bit [i mod 8] of its byte, the client takes it from bit
    [7 - i mod 8].  So when the bitmap of a disk was clean and then one write
    touched exactly the block [b], what [Query] and [ParseChangedBlocks] report
    is not [b], but the block mirrored within its group of eight, or no block
    at all when that one lies behind the end of the disk. *)
Theorem changed_blocks_are_mirrored `{IoManagerLaws} `{!RtlBitmapLaws} c devNo w j e s off len b :
  connected c -> in_width 32 devNo -> FindDiskMapEntryByNumber devNo w = Some (j, e) ->
  clean s -> 0 <= off -> 0 < len < 2 ^ 32 -> 0 <= b < TotalBits s ->
  (forall i, touches off len i <-> i = b) -> dm_CbtState e = MarkBlockChanged s off len ->
  exists bitmap, Query c devNo [] 0 w = Some (true, bitmap, TotalBits s, w) /\
    mirror b <> b /\
    ParseChangedBlocks bitmap (TotalBits s) = (if mirror b <? TotalBits s then [mirror b] else []).
Proof.
  intros Hc Hd Hf Hs Ho Hl Hb Ht He.
  destruct (MarkBlockChanged_single s off len b Hs Ho Hl Hb Ht) as (Hwf & Htb & buf & Hbuf & Hsz & Hbits).
  rewrite <- He in Hwf, Htb, Hbuf. exists buf.
  rewrite (Query_driver c devNo [] 0 w j e buf), Htb by done.
  split; [done|]. split; [apply mirror_moves|]. 
  assert (forall i, i ∈ ParseChangedBlocks buf (TotalBits s) <-> i = mirror b /\ i < TotalBits s) as Hin.
  { intros i. unfold ParseChangedBlocks. rewrite parse_loop_elem, Z.add_0_l, Z2Nat.id by lia. split.
    - intros (Hi & Hi' & Hbit). pose proof (mirror_range i (zlen buf)).
      rewrite Hbits in Hbit by lia. apply Z.eqb_eq in Hbit. rewrite <- Hbit, mirror_involutive. lia.
    - intros [-> Hlt]. pose proof (mirror_range b (zlen buf)).
      split; [lia|]. split; [lia|]. rewrite mirror_involutive, Hbits by lia. apply Z.eqb_refl. }
  case_if.
  - apply sorted_singleton; [by apply parse_loop_sorted|]. intros i. rewrite Hin.
    split; [tauto|intros ->; done].
  - apply elem_of_nil_inv. intros i [-> Hlt]%Hin. lia.
Qed.

(** ** Examples *)

(** The system over the example routines. *)
Definition demo_io : IoControl Driver :=
  {| DeviceIoControl := fun code input outLen w =>
       let '(r, w') := @CbtDispatchDeviceControl demo_rtl code input outLen w in
       let copied := take (Z.to_nat (io_information r)) (io_output r) in
       (match io_status r with
        | STATUS_SUCCESS => {| a_ok := true; a_error := 0; a_data := copied |}
        | STATUS_BUFFER_OVERFLOW => {| a_ok := false; a_error := ERROR_MORE_DATA; a_data := copied |}
        | _ => {| a_ok := false; a_error := 1; a_data := [] |}
        end, w') |}.

Lemma demo_io_laws : @IoManagerLaws demo_rtl demo_io.
Proof.
  split; intros code input outLen w; cbn [DeviceIoControl demo_io].
  - destruct (CbtDispatchDeviceControl code input outLen w) as [r w']; done.
  - intros r w' -> ->. done.
  - intros r w' -> ->. done.
Qed.

Definition demo_client : CbtClient := {| m_hDevice := true; m_connected := true |}.

Lemma Query_reads_bitmap_witness :
  Query (H := demo_io) demo_client 1 [] 0 demo_loaded = Some (true, zeros 4, 10, demo_loaded).
Proof.
  apply (@Query_reads_bitmap demo_rtl demo_io demo_io_laws demo_client 1 [] 0 demo_loaded 1 demo_entry (zeros 4)).
  - done.
  - unfold in_width. lia.
  - vm_compute. reflexivity.
  - cbn. split; [lia|]. split; [done|]. split; [done|]. split; [done|]. evaluate.
  - reflexivity.
Defined.

Lemma changed_blocks_are_mirrored_witness :
  let w := @run demo_rtl [demo_write] demo_loaded in
  exists bitmap, Query (H := demo_io) demo_client 1 [] 0 w = Some (true, bitmap, 10, w) /\
    mirror 1 <> 1 /\ ParseChangedBlocks bitmap 10 = (if mirror 1 <? 10 then [mirror 1] else []).
Proof.
  intros w.
  apply (@changed_blocks_are_mirrored demo_rtl demo_io demo_io_laws demo_rtl_laws demo_client 1 w 1
           (set_cbt (@MarkBlockChanged demo_rtl (dm_CbtState demo_entry) (CBT_BLOCK_SIZE + 5) 10) demo_entry)
           (dm_CbtState demo_entry) (CBT_BLOCK_SIZE + 5) 10 1).
  - done.
  - unfold in_width. lia.
  - vm_compute. reflexivity.
  - split.
    + cbn. split; [lia|]. split; [done|]. split; [done|]. split; [done|]. evaluate.
    + exists (zeros 4). split; [done|]. intros i _. apply bit_at_zeros.
  - unfold CBT_BLOCK_SIZE. lia.
  - lia.
  - cbn. lia.
  - intros i. rewrite touches_range by lia. unfold CBT_BLOCK_SIZE.
    change ((1024 * 1024 + 5) / (1024 * 1024)) with 1.
    change ((1024 * 1024 + 5 + 10 - 1) / (1024 * 1024)) with 1. lia.
  - reflexivity.
Defined.
