(* ===== verification/BlockStateManager.v ===== *)
(** * The block states of a backup

    [client/BlockStateManager.{h,cpp}]: the state of every block of a disk, the
    table of versions, and the operations on them.  Saving and loading are in
    [StateFile]. *)

From Stdlib Require Import Sorted.
From S2P Require Import Prelude.
From S2P Require Import BlockHasher.

(** ** Data *)

(** [AckStatus]; a state file can hold the values up to 7. *)
Definition Pending : Z := 0.
Definition Sent : Z := 1.
Definition Acknowledged : Z := 2.
Definition Failed : Z := 3.
Definition Skipped : Z := 4.

Record BlockState := {
  b_BlockIndex : Z; b_Offset : Z; b_Hash : list Z; b_VersionId : Z; b_Ack : Z; b_Changed : bool }.

Definition NeedsUpload (b : BlockState) : bool := b_Changed b && negb (b_Ack b =? Acknowledged).

Definition set_Ack (a : Z) (b : BlockState) : BlockState :=
  {| b_BlockIndex := b_BlockIndex b; b_Offset := b_Offset b; b_Hash := b_Hash b;
     b_VersionId := b_VersionId b; b_Ack := a; b_Changed := b_Changed b |}.
Definition set_Hash (h : list Z) (b : BlockState) : BlockState :=
  {| b_BlockIndex := b_BlockIndex b; b_Offset := b_Offset b; b_Hash := h;
     b_VersionId := b_VersionId b; b_Ack := b_Ack b; b_Changed := b_Changed b |}.

(** The times are 64-bit values; a [FILETIME] is its two halves together. *)
Record VersionRecord := {
  v_VersionId : Z; v_DevNo : Z; v_VersionType : list Z; v_SnapshotTime : Z;
  v_TotalBlocks : Z; v_ChangedBlocks : Z; v_TotalSize : Z; v_AckedBlocks : Z;
  v_CreateTimestamp : Z }.

Definition set_counts (changed acked : Z) (v : VersionRecord) : VersionRecord :=
  {| v_VersionId := v_VersionId v; v_DevNo := v_DevNo v; v_VersionType := v_VersionType v;
     v_SnapshotTime := v_SnapshotTime v; v_TotalBlocks := v_TotalBlocks v;
     v_ChangedBlocks := changed; v_TotalSize := v_TotalSize v; v_AckedBlocks := acked;
     v_CreateTimestamp := v_CreateTimestamp v |}.

(** The zeroed structures returned for a missing block or version. *)
Definition empty_block : BlockState :=
  {| b_BlockIndex := 0; b_Offset := 0; b_Hash := zeros 32; b_VersionId := 0; b_Ack := 0;
     b_Changed := false |}.
Definition empty_version : VersionRecord :=
  {| v_VersionId := 0; v_DevNo := 0; v_VersionType := []; v_SnapshotTime := 0;
     v_TotalBlocks := 0; v_ChangedBlocks := 0; v_TotalSize := 0; v_AckedBlocks := 0;
     v_CreateTimestamp := 0 |}.

(** [std::map<uint64_t, VersionRecord>]: its entries in ascending order. *)
Abbreviation vmap := (list (Z * VersionRecord)).

Fixpoint vm_find (k : Z) (m : vmap) : option VersionRecord :=
  match m with
  | [] => None
  | (k', v) :: m' => if k =? k' then Some v else vm_find k m'
  end.

Fixpoint vm_set (k : Z) (v : VersionRecord) (m : vmap) : vmap :=
  match m with
  | [] => [(k, v)]
  | (k', v') :: m' =>
      if k <? k' then (k, v) :: m
      else if k =? k' then (k, v) :: m'
      else (k', v') :: vm_set k v m'
  end.

Record Manager := {
  m_initialized : bool; m_dirty : bool; m_devNo : Z; m_totalBlocks : Z;
  m_blocks : list BlockState; m_versions : vmap; m_nextVersionId : Z }.

Definition Manager_new : Manager :=
  {| m_initialized := false; m_dirty := false; m_devNo := -1; m_totalBlocks := 0;
     m_blocks := []; m_versions := []; m_nextVersionId := 0 |}.

(** New blocks and versions, with the dirty flag set. *)
Definition modified (total : Z) (bs : list BlockState) (vs : vmap) (m : Manager) : Manager :=
  {| m_initialized := m_initialized m; m_dirty := true; m_devNo := m_devNo m;
     m_totalBlocks := total; m_blocks := bs; m_versions := vs;
     m_nextVersionId := m_nextVersionId m |}.

(** ** Versions *)

Definition CreateVersion (type : list Z) (snapshotTime totalBlocks totalSize now : Z)
    (m : Manager) : VersionRecord * Manager :=
  let ver := {| v_VersionId := m_nextVersionId m; v_DevNo := m_devNo m; v_VersionType := type;
                v_SnapshotTime := snapshotTime; v_TotalBlocks := totalBlocks;
                v_ChangedBlocks := 0; v_TotalSize := totalSize; v_AckedBlocks := 0;
                v_CreateTimestamp := now |} in
  (ver, {| m_initialized := m_initialized m; m_dirty := true; m_devNo := m_devNo m;
           m_totalBlocks := m_totalBlocks m; m_blocks := m_blocks m;
           m_versions := vm_set (v_VersionId ver) ver (m_versions m);
           m_nextVersionId := u64 (m_nextVersionId m + 1) |}).

(** ** Initial blocks *)

Definition fresh_block (versionId : Z) (hash : list Z) (i : Z) : BlockState :=
  {| b_BlockIndex := i; b_Offset := u64 (i * BLOCK_SIZE); b_Hash := hash;
     b_VersionId := versionId; b_Ack := Pending; b_Changed := true |}.

Definition init_blocks (versionId total : Z) (hash : Z -> list Z) (m : Manager) : bool * Manager :=
  match vm_find versionId (m_versions m) with
  | None => (false, m)
  | Some ver =>
      let blocks := map (fun i => fresh_block versionId (hash i) i) (seqZ 0 total) in
      (true, modified total blocks
               (vm_set versionId (set_counts total (v_AckedBlocks ver) ver) (m_versions m)) m)
  end.

Definition InitFullBlocks (versionId : Z) (manifest : HashManifest) (m : Manager) : bool * Manager :=
  init_blocks versionId (m_TotalBlocks manifest)
    (fun i => match m_Entries manifest !! Z.to_nat i with
              | Some e => e_Hash e
              | None => zeros 32
              end) m.

Definition InitFullBlocksEmpty (versionId totalBlocks : Z) (m : Manager) : bool * Manager :=
  init_blocks versionId totalBlocks (fun _ => zeros 32) m.

Definition SetBlockHash (blockIndex : Z) (hash : list Z) (m : Manager) : bool * Manager :=
  match m_blocks m !! Z.to_nat blockIndex with
  | None => (false, m)
  | Some b =>
      (true, modified (m_totalBlocks m) (<[Z.to_nat blockIndex := set_Hash hash b]> (m_blocks m))
               (m_versions m) m)
  end.

(** ** An incremental backup *)

Definition mark_unchanged (b : BlockState) : BlockState :=
  {| b_BlockIndex := b_BlockIndex b; b_Offset := b_Offset b; b_Hash := b_Hash b;
     b_VersionId := b_VersionId b; b_Ack := Skipped; b_Changed := false |}.

Definition mark_changed (versionId : Z) (hash : list Z) (b : BlockState) : BlockState :=
  {| b_BlockIndex := b_BlockIndex b; b_Offset := b_Offset b; b_Hash := hash;
     b_VersionId := versionId; b_Ack := Pending; b_Changed := true |}.

(** The loop over the changed indexes, with the number of blocks marked. *)
Fixpoint mark_loop (versionId : Z) (changed : list (Z * list Z)) (bs : list BlockState)
    (count : Z) : list BlockState * Z :=
  match changed with
  | [] => (bs, count)
  | (idx, hash) :: rest =>
      match bs !! Z.to_nat idx with
      | None => mark_loop versionId rest bs count
      | Some b =>
          mark_loop versionId rest (<[Z.to_nat idx := mark_changed versionId hash b]> bs)
            (u64 (count + 1))
      end
  end.

Definition UpdateIncrementalBlocks (versionId : Z) (changedIndexes : list Z)
    (hashes : list BlockHashEntry) (m : Manager) : bool * Manager :=
  if negb (length changedIndexes =? length hashes)%nat then (false, m)
  else match m_blocks m with
  | [] => (false, m)
  | _ =>
      match vm_find versionId (m_versions m) with
      | None => (false, m)
      | Some ver =>
          let '(bs, count) := mark_loop versionId (zip changedIndexes (map e_Hash hashes))
                                (map mark_unchanged (m_blocks m)) 0 in
          (true, modified (m_totalBlocks m) bs
                   (vm_set versionId (set_counts count 0 ver) (m_versions m)) m)
      end
  end.

(** ** Acknowledgements *)

(** The part the two operations share: the status of a block and the count of
    its version. *)
Definition count_ack (b : BlockState) (status : Z) (vs : vmap) : vmap :=
  if negb (b_Ack b =? Acknowledged) && (status =? Acknowledged) then
    match vm_find (b_VersionId b) vs with
    | None => vs
    | Some ver =>
        vm_set (b_VersionId b) (set_counts (v_ChangedBlocks ver) (u64 (v_AckedBlocks ver + 1)) ver) vs
    end
  else vs.

Definition ack_block (i status : Z) (st : list BlockState * vmap) : list BlockState * vmap :=
  let '(bs, vs) := st in
  match bs !! Z.to_nat i with
  | None => st
  | Some b => (<[Z.to_nat i := set_Ack status b]> bs, count_ack b status vs)
  end.

Definition SetBlockAck (blockIndex status : Z) (m : Manager) : bool * Manager :=
  match m_blocks m !! Z.to_nat blockIndex with
  | None => (false, m)
  | Some _ =>
      let '(bs, vs) := ack_block blockIndex status (m_blocks m, m_versions m) in
      (true, modified (m_totalBlocks m) bs vs m)
  end.

Definition SetBlockAckRange (startBlock count status : Z) (m : Manager) : bool * Manager :=
  let end_ := Z.min (u64 (startBlock + count)) (zlen (m_blocks m)) in
  let '(bs, vs) := fold_left (fun st i => ack_block i status st)
                     (seqZ startBlock (end_ - startBlock)) (m_blocks m, m_versions m) in
  (true, modified (m_totalBlocks m) bs vs m).

Definition SetBlockAckList (blockIndexes : list Z) (status : Z) (m : Manager) : bool * Manager :=
  (true, fold_left (fun m i => snd (SetBlockAck i status m)) blockIndexes m).

(** ** Queries *)

Definition GetBlockState (blockIndex : Z) (m : Manager) : BlockState :=
  default empty_block (m_blocks m !! Z.to_nat blockIndex).

Definition GetBlocksByAck (status : Z) (m : Manager) : list BlockState :=
  filter (fun b => b_Ack b = status) (m_blocks m).

Definition GetPendingBlocks (m : Manager) : list BlockState :=
  filter (fun b => NeedsUpload b = true) (m_blocks m).

(** The loop from block [i] on. *)
Fixpoint last_acked (i lastAcked : Z) (bs : list BlockState) : Z :=
  match bs with
  | [] => lastAcked
  | b :: rest =>
      if (b_Ack b =? Acknowledged) || (b_Ack b =? Skipped) then last_acked (i + 1) (i + 1) rest
      else lastAcked
  end.

Definition GetLastAcknowledgedBlock (m : Manager) : Z := last_acked 0 0 (m_blocks m).

(** The entries of the map are in ascending order, so the sort keeps them. *)
Definition GetVersionHistory (m : Manager) : list VersionRecord := map snd (m_versions m).

Definition GetVersion (versionId : Z) (m : Manager) : VersionRecord :=
  default empty_version (vm_find versionId (m_versions m)).

Definition GetBlockHistory (blockIndex : Z) (m : Manager) : list BlockState :=
  match m_blocks m !! Z.to_nat blockIndex with None => [] | Some b => [b] end.

(** ** Lemmas on the map of versions *)

Lemma vm_find_set k v k' vs :
  vm_find k' (vm_set k v vs) = if k' =? k then Some v else vm_find k' vs.
Proof.
  induction vs as [|[k1 v1] vs IH]; cbn [vm_set vm_find]; [done|].
  destruct (k <? k1) eqn:E1; [done|]. destruct (k =? k1) eqn:E2; reflect_Z; cbn [vm_find].
  - subst k1. by destruct (k' =? k).
  - destruct (k' =? k1) eqn:E3; [|done]. reflect_Z. by replace (k' =? k) with false by lia.
Qed.

Lemma vm_find_elem k v vs : vm_find k vs = Some v -> (k, v) ∈ vs.
Proof.
  induction vs as [|[k1 v1] vs IH]; cbn [vm_find]; [done|].
  destruct (k =? k1) eqn:E; reflect_Z; [intros [= ->]; subst; left|right; by apply IH].
Qed.

(** Replacing the record of a version in the table leaves the keys alone. *)
Lemma vm_set_keys k v v0 vs :
  StronglySorted Z.lt (map fst vs) -> vm_find k vs = Some v0 -> map fst (vm_set k v vs) = map fst vs.
Proof.
  induction vs as [|[k1 v1] vs IH]; cbn [vm_set vm_find map fst]; [done|].
  intros Hs Hf. apply StronglySorted_inv in Hs as [Hs Hlt].
  destruct (k =? k1) eqn:E; reflect_Z.
  - subst k1. by rewrite Z.ltb_irrefl.
  - destruct (k <? k1) eqn:E1; reflect_Z; cbn [map fst].
    + exfalso. rewrite Forall_map, Forall_forall in Hlt.
      pose proof (Hlt _ (vm_find_elem _ _ _ Hf)) as Hk. cbn in Hk. lia.
    + by rewrite IH.
Qed.

(** A key above all others goes to the end. *)
Lemma vm_set_fresh k v vs :
  Forall (fun k' => k' < k) (map fst vs) -> vm_set k v vs = vs ++ [(k, v)].
Proof.
  induction vs as [|[k1 v1] vs IH]; cbn [vm_set map fst]; [done|].
  intros [Hk Hvs]%Forall_cons_1. replace (k <? k1) with false by lia.
  replace (k =? k1) with false by lia. by rewrite IH.
Qed.

Lemma StronglySorted_snoc (l : list Z) x :
  StronglySorted Z.lt l -> Forall (fun y => y < x) l -> StronglySorted Z.lt (l ++ [x]).
Proof.
  induction 1 as [|y l Hs IH Hy]; intros Hx; cbn [app]; [by repeat constructor|].
  apply Forall_cons_1 in Hx as [Hyx Hx]. constructor; [by apply IH|].
  apply Forall_app. split; [done|by constructor].
Qed.

(** The versions are in order, each under its own identifier, below the next
    identifier. *)
Definition versions_ok (m : Manager) : Prop :=
  StronglySorted Z.lt (map fst (m_versions m)) /\
  Forall (fun k => k < m_nextVersionId m) (map fst (m_versions m)) /\
  Forall (fun '(k, v) => v_VersionId v = k) (m_versions m).

Lemma versions_ok_set m m' k v v0 :
  versions_ok m -> vm_find k (m_versions m) = Some v0 -> v_VersionId v = v_VersionId v0 ->
  m_versions m' = vm_set k v (m_versions m) -> m_nextVersionId m' = m_nextVersionId m ->
  versions_ok m'.
Proof.
  intros (Hs & Hlt & Hid) Hf Hv Em En. unfold versions_ok. rewrite Em, En, (vm_set_keys _ _ v0) by done.
  split; [done|]. split; [done|]. clear Hs Hlt Em En.
  revert Hid Hf. induction (m_versions m) as [|[k1 v1] vs IH]; cbn [vm_find vm_set]; [done|].
  intros [H1 Hid]%Forall_cons_1 Hf. destruct (k =? k1) eqn:E; reflect_Z.
  - injection Hf as ->. rewrite <- E, Z.ltb_irrefl. constructor; [congruence|done].
  - rewrite Forall_forall in Hid. pose proof (Hid _ (vm_find_elem _ _ _ Hf)) as Hk. cbv beta iota in Hk.
    destruct (k <? k1); [constructor; [congruence|by constructor; [|apply Forall_forall]]|].
    constructor; [done|]. apply IH; [by apply Forall_forall|done].
Qed.

(** ** Lemmas on acknowledgements *)

(** The number of acknowledged blocks of a version. *)
Definition is_acked (vid : Z) (b : BlockState) : bool :=
  (b_VersionId b =? vid) && (b_Ack b =? Acknowledged).
Definition acked (vid : Z) (bs : list BlockState) : Z := zlen (filter (fun b => is_acked vid b = true) bs).

Definition counter (vid : Z) (vs : vmap) : option Z := v_AckedBlocks <$> vm_find vid vs.

(** An operation on the acknowledgements. *)
Inductive ack_op := AckOne (i status : Z) | AckRange (start count status : Z) | AckList (l : list Z) (status : Z).
Definition run_ack_op (o : ack_op) (m : Manager) : Manager :=
  match o with
  | AckOne i st => snd (SetBlockAck i st m)
  | AckRange s c st => snd (SetBlockAckRange s c st m)
  | AckList l st => snd (SetBlockAckList l st m)
  end.
Definition status_of (o : ack_op) : Z :=
  match o with AckOne _ st | AckRange _ _ st | AckList _ st => st end.
Definition run_ack_ops (ops : list ack_op) (m : Manager) : Manager := fold_left (fun m o => run_ack_op o m) ops m.

(** The same, as single changes of one block. *)
Definition ack_steps (steps : list (Z * Z)) (st : list BlockState * vmap) : list BlockState * vmap :=
  fold_left (fun st '(i, status) => ack_block i status st) steps st.
Definition steps_of (o : ack_op) (n : Z) : list (Z * Z) :=
  match o with
  | AckOne i st => [(i, st)]
  | AckRange s c st => map (fun i => (i, st)) (seqZ s (Z.min (u64 (s + c)) n - s))
  | AckList l st => map (fun i => (i, st)) l
  end.

(** How many blocks of a version lose their acknowledgement. *)
Fixpoint retracted (vid : Z) (steps : list (Z * Z)) (bs : list BlockState) : Z :=
  match steps with
  | [] => 0
  | (i, status) :: rest =>
      match bs !! Z.to_nat i with
      | None => retracted vid rest bs
      | Some b =>
          (if is_acked vid b && negb (status =? Acknowledged) then 1 else 0)
          + retracted vid rest (<[Z.to_nat i := set_Ack status b]> bs)
      end
  end.

Lemma acked_insert vid i b b' bs :
  bs !! i = Some b ->
  acked vid (<[i := b']> bs) = acked vid bs - (if is_acked vid b then 1 else 0) + (if is_acked vid b' then 1 else 0).
Proof.
  unfold acked. intros Hb. rewrite <- (take_drop_middle bs i b Hb) at 2.
  rewrite insert_take_drop by (by eapply lookup_lt_Some). rewrite !filter_app, !length_app, !filter_cons.
  destruct (is_acked vid b), (is_acked vid b'); repeat case_decide; try done; cbn [length]; lia.
Qed.

Lemma counter_count_ack vid b status vs n :
  counter vid vs = Some n ->
  counter vid (count_ack b status vs)
  = Some (if (b_VersionId b =? vid) && negb (b_Ack b =? Acknowledged) && (status =? Acknowledged)
          then u64 (n + 1) else n).
Proof.
  unfold counter, count_ack. intros Hn.
  destruct (negb (b_Ack b =? Acknowledged) && (status =? Acknowledged)) eqn:E.
  - rewrite <- andb_assoc, E, andb_true_r. destruct (b_VersionId b =? vid) eqn:Ev; reflect_Z.
    + rewrite Ev. destruct (vm_find vid vs) as [ver|]; [|done]. injection Hn as <-.
      rewrite vm_find_set, Z.eqb_refl. done.
    + destruct (vm_find (b_VersionId b) vs); [|done]. rewrite vm_find_set.
      by replace (vid =? b_VersionId b) with false by lia.
  - by rewrite <- andb_assoc, E, andb_false_r.
Qed.

Lemma SetBlockAck_blocks i st m :
  m_blocks (snd (SetBlockAck i st m)) = alter (set_Ack st) (Z.to_nat i) (m_blocks m).
Proof.
  unfold SetBlockAck, ack_block. destruct (m_blocks m !! Z.to_nat i) as [b|] eqn:E; cbn.
  - by apply list_insert_alter.
  - by rewrite list_alter_none.
Qed.

Lemma ack_steps_counter vid steps bs vs n :
  in_width 64 n -> counter vid vs = Some n ->
  let '(bs', vs') := ack_steps steps (bs, vs) in
  counter vid vs' = Some (u64 (n + acked vid bs' - acked vid bs + retracted vid steps bs)).
Proof.
  revert bs vs n. induction steps as [|[i status] steps IH]; intros bs vs n Hn Hc.
  { cbn. rewrite wrap_small; [rewrite Hc; f_equal; lia|]. by replace (n + _ - _ + 0) with n by lia. }
  unfold ack_steps in *. cbn [fold_left retracted ack_block].
  destruct (bs !! Z.to_nat i) as [b|] eqn:Hb; [|by apply IH].
  pose proof (counter_count_ack vid b status vs n Hc) as Hc'.
  pose proof (acked_insert vid (Z.to_nat i) b (set_Ack status b) bs Hb) as Ha.
  match type of Hc' with _ = Some ?x => set (n' := x) in Hc' end.
  assert (in_width 64 n') as Hn' by (unfold n'; case_if; [by apply wrap_range|done]).
  specialize (IH (<[Z.to_nat i := set_Ack status b]> bs) _ n' Hn' Hc').
  destruct (fold_left _ steps _) as [bs' vs']. rewrite IH. f_equal.
  rewrite Ha. unfold is_acked, n' in *. cbn [set_Ack b_VersionId b_Ack].
  set (a' := acked vid bs'). set (a := acked vid bs). set (r := retracted _ _ _).
  destruct (b_VersionId b =? vid), (b_Ack b =? Acknowledged), (status =? Acknowledged);
    cbn [andb negb]; unfold wrap;
    try (f_equal; lia).
  replace ((n + 1) mod 2 ^ 64 + a' - (a - 0 + 1) + r)
    with ((n + 1) mod 2 ^ 64 + (a' - (a - 0 + 1) + r)) by lia.
  rewrite Zplus_mod_idemp_l. f_equal. lia.
Qed.

Lemma run_ack_op_steps o m :
  let m' := run_ack_op o m in
  (m_blocks m', m_versions m') = ack_steps (steps_of o (zlen (m_blocks m))) (m_blocks m, m_versions m).
Proof.
  assert (forall i st m, let m' := snd (SetBlockAck i st m) in
            (m_blocks m', m_versions m') = ack_block i st (m_blocks m, m_versions m)) as Hone.
  { intros i st m0. unfold SetBlockAck, ack_block. by destruct (m_blocks m0 !! Z.to_nat i). }
  destruct o as [i st|s c st|l st]; cbv zeta; unfold ack_steps; cbn [run_ack_op steps_of].
  - apply Hone.
  - unfold SetBlockAckRange. rewrite fold_left_map. by destruct (fold_left _ _ _).
  - unfold SetBlockAckList. cbn [snd]. revert m. induction l as [|i l IH]; intros m; cbn [map fold_left]; [done|].
    rewrite IH. f_equal. apply Hone.
Qed.

Lemma ack_block_length i st p : length (fst (ack_block i st p)) = length (fst p).
Proof. destruct p as [bs vs]. unfold ack_block. destruct (bs !! _); cbn; by rewrite ?length_insert. Qed.

Lemma ack_steps_length steps p : length (fst (ack_steps steps p)) = length (fst p).
Proof.
  revert p. induction steps as [|[i st] steps IH]; intros p; [done|]. unfold ack_steps in *.
  cbn [fold_left]. by rewrite IH, ack_block_length.
Qed.

(** All the single changes of a sequence of operations. *)
Definition steps_of_all (ops : list ack_op) (n : Z) : list (Z * Z) := concat (map (fun o => steps_of o n) ops).

Lemma ack_steps_app s1 s2 p : ack_steps (s1 ++ s2) p = ack_steps s2 (ack_steps s1 p).
Proof. apply fold_left_app. Qed.

Lemma run_ack_ops_steps ops m :
  let m' := run_ack_ops ops m in
  (m_blocks m', m_versions m') = ack_steps (steps_of_all ops (zlen (m_blocks m))) (m_blocks m, m_versions m).
Proof.
  revert m. induction ops as [|o ops IH]; intros m; [done|]. cbv zeta in *.
  change (run_ack_ops (o :: ops) m) with (run_ack_ops ops (run_ack_op o m)).
  pose proof (run_ack_op_steps o m) as Ho. cbv zeta in Ho.
  pose proof (ack_steps_length (steps_of o (zlen (m_blocks m))) (m_blocks m, m_versions m)) as Hl.
  rewrite <- Ho in Hl. cbn [fst] in Hl.
  change (steps_of_all (o :: ops) ?n) with (steps_of o n ++ steps_of_all ops n).
  by rewrite IH, Hl, Ho, ack_steps_app.
Qed.

Lemma retracted_none vid steps bs :
  Forall (fun '(_, st) => st = Acknowledged) steps -> retracted vid steps bs = 0.
Proof.
  intros Hs. revert bs. induction Hs as [|[i st] steps -> Hs IH]; intros bs; cbn [retracted]; [done|].
  destruct (bs !! _); [|apply IH]. rewrite IH. by rewrite andb_false_r.
Qed.

(** ** Lemmas on an incremental update *)

(** What the loop leaves at index [j]: the last entry of the list for [j]
    counts. *)
Fixpoint last_hash (j : nat) (changed : list (Z * list Z)) : option (list Z) :=
  match changed with
  | [] => None
  | (i, h) :: rest =>
      match last_hash j rest with
      | Some h' => Some h'
      | None => if bool_decide (Z.to_nat i = j) then Some h else None
      end
  end.

Lemma mark_loop_spec vid changed bs count :
  0 <= count -> count + zlen changed < 2 ^ 64 ->
  let '(bs', count') := mark_loop vid changed bs count in
  length bs' = length bs /\
  count' = count + zlen (filter (fun '(i, _) => (Z.to_nat i < length bs)%nat) changed) /\
  forall j b, bs !! j = Some b ->
    bs' !! j = Some (match last_hash j changed with
                     | Some h => mark_changed vid h b
                     | None => b
                     end).
Proof.
  revert bs count. induction changed as [|[i h] rest IH]; intros bs count Hc Hl;
    cbn [mark_loop last_hash]; [cbn; split_and!; [done|lia|done]|].
  rewrite filter_cons. cbn [length] in Hl. destruct (bs !! Z.to_nat i) as [b0|] eqn:Hi.
  - rewrite wrap_small by (unfold in_width; lia). specialize (IH (<[Z.to_nat i := mark_changed vid h b0]> bs) (count + 1)).
    destruct (mark_loop vid rest _ _) as [bs' count']. destruct IH as (IH1 & IH2 & IH3); [lia|lia|].
    rewrite length_insert in *. rewrite decide_True by (by eapply lookup_lt_Some).
    cbn [length]. split; [done|]. split; [lia|]. intros j b Hj.
    destruct (decide (Z.to_nat i = j)) as [<-|Hne].
    + rewrite Hi in Hj. injection Hj as ->.
      rewrite (IH3 _ (mark_changed vid h b)) by (apply list_lookup_insert_eq; by eapply lookup_lt_Some).
      by destruct (last_hash _ rest); [|rewrite bool_decide_eq_true_2].
    + rewrite (IH3 j b) by (by rewrite list_lookup_insert_ne).
      by destruct (last_hash j rest); [|rewrite bool_decide_eq_false_2].
  - specialize (IH bs count). destruct (mark_loop vid rest bs count) as [bs' count'].
    destruct IH as (IH1 & IH2 & IH3); [lia|lia|]. apply lookup_ge_None in Hi.
    rewrite decide_False by lia. split; [done|]. split; [done|]. intros j b Hj.
    rewrite (IH3 j b) by done. destruct (last_hash j rest); [done|].
    rewrite bool_decide_eq_false_2; [done|]. apply lookup_lt_Some in Hj. lia.
Qed.

Lemma last_acked_spec bs i a :
  let n := last_acked i a bs in
  (n = a /\ match bs with [] => True | b :: _ => (b_Ack b =? Acknowledged) || (b_Ack b =? Skipped) = false end) \/
  (exists k, (0 < k <= length bs)%nat /\ n = i + Z.of_nat k /\
     Forall (fun b => (b_Ack b =? Acknowledged) || (b_Ack b =? Skipped) = true) (take k bs) /\
     match bs !! k with None => True | Some b => (b_Ack b =? Acknowledged) || (b_Ack b =? Skipped) = false end).
Proof.
  revert i a. induction bs as [|b bs IH]; intros i a; cbn [last_acked]; [by left|].
  destruct ((b_Ack b =? Acknowledged) || (b_Ack b =? Skipped)) eqn:E; [right|by left].
  destruct (IH (i + 1) (i + 1)) as [[-> Hn]|(k & Hk & -> & Hp & Hn)].
  - exists 1%nat. cbn [length take]. split; [lia|]. split; [lia|]. split; [by constructor|].
    cbn. by destruct bs.
  - exists (S k). cbn [length take]. split; [lia|]. split; [lia|]. split; [by constructor|]. done.
Qed.

(** ** Lemmas on a full backup *)

Definition of_version (vid : Z) (b : BlockState) : Prop := b_VersionId b = vid /\ b_Changed b = true.

Lemma acked_and_pending vid bs :
  Forall (of_version vid) bs ->
  acked vid bs + zlen (filter (fun b => NeedsUpload b = true) bs) = zlen bs.
Proof.
  unfold acked. induction 1 as [|b bs [Hv Hc] _ IH]; [done|]. rewrite !filter_cons.
  assert (is_acked vid b = (b_Ack b =? Acknowledged)) as Ea by (unfold is_acked; by rewrite Hv, Z.eqb_refl).
  assert (NeedsUpload b = negb (b_Ack b =? Acknowledged)) as En by (unfold NeedsUpload; by rewrite Hc).
  repeat case_decide; cbn [length]; try lia;
    rewrite Ea, En in *; by destruct (b_Ack b =? Acknowledged).
Qed.

Lemma ack_steps_of_version vid steps p :
  Forall (of_version vid) (fst p) -> Forall (of_version vid) (fst (ack_steps steps p)).
Proof.
  revert p. induction steps as [|[i st] steps IH]; intros [bs vs] Hp; [done|].
  apply IH. unfold ack_block. destruct (bs !! Z.to_nat i) as [b|] eqn:Hb; [|done].
  apply Forall_insert; [done|]. cbn [fst] in Hp. rewrite Forall_lookup in Hp. by apply (Hp _ _ Hb).
Qed.

(** The state a full backup starts from. *)
Lemma full_backup_start type snap total size now m m1 ver ok m2 :
  0 <= total -> CreateVersion type snap total size now m = (ver, m1) ->
  InitFullBlocksEmpty (v_VersionId ver) total m1 = (ok, m2) ->
  ok = true /\ zlen (m_blocks m2) = total /\ Forall (of_version (v_VersionId ver)) (m_blocks m2) /\
  acked (v_VersionId ver) (m_blocks m2) = 0 /\ counter (v_VersionId ver) (m_versions m2) = Some 0.
Proof.
  intros Ht [= <- <-]. cbn [v_VersionId]. unfold InitFullBlocksEmpty, init_blocks. cbn [m_versions].
  rewrite vm_find_set, Z.eqb_refl. intros [= <- <-]. cbn [modified m_blocks m_versions].
  rewrite length_map, length_seqZ. split_and!; [done|lia| | |].
  - apply Forall_map, Forall_forall. intros i _. done.
  - unfold acked. induction (seqZ 0 total) as [|i l IH]; [done|]. cbn [map].
    rewrite filter_cons, decide_False; [done|]. unfold is_acked. cbn [fresh_block b_Ack].
    by rewrite andb_false_r.
  - unfold counter. by rewrite vm_find_set, Z.eqb_refl.
Qed.

(** ** Lemmas on the history *)

(** An operation that creates no version. *)
Inductive mgr_op :=
  | OpInitFull (vid : Z) (manifest : HashManifest) | OpInitEmpty (vid total : Z)
  | OpSetHash (i : Z) (h : list Z)
  | OpUpdate (vid : Z) (changed : list Z) (hashes : list BlockHashEntry) | OpAck (o : ack_op).
Definition run_mgr_op (o : mgr_op) (m : Manager) : Manager :=
  match o with
  | OpInitFull vid manifest => snd (InitFullBlocks vid manifest m)
  | OpInitEmpty vid total => snd (InitFullBlocksEmpty vid total m)
  | OpSetHash i h => snd (SetBlockHash i h m)
  | OpUpdate vid changed hashes => snd (UpdateIncrementalBlocks vid changed hashes m)
  | OpAck o => run_ack_op o m
  end.

(** What the operations do to the table of versions. *)
Definition keeps (m m' : Manager) : Prop :=
  versions_ok m' /\ map fst (m_versions m') = map fst (m_versions m).

Lemma keeps_same m m' :
  versions_ok m -> m_versions m' = m_versions m -> m_nextVersionId m' = m_nextVersionId m -> keeps m m'.
Proof. intros Hok Ev En. unfold keeps, versions_ok. by rewrite Ev, En. Qed.

Lemma keeps_set m m' k v c a :
  versions_ok m -> vm_find k (m_versions m) = Some v ->
  m_versions m' = vm_set k (set_counts c a v) (m_versions m) ->
  m_nextVersionId m' = m_nextVersionId m -> keeps m m'.
Proof.
  intros Hok Hf Ev En. split; [by apply (versions_ok_set m m' k (set_counts c a v) v)|].
  rewrite Ev. apply (vm_set_keys _ _ v); [apply Hok|done].
Qed.

Lemma keeps_trans m1 m2 m3 : keeps m1 m2 -> keeps m2 m3 -> keeps m1 m3.
Proof. intros [_ E1] [Hok E2]. split; [done|congruence]. Qed.

(** One acknowledgement, in any state with these versions. *)
Lemma ack_block_keeps i st m bs vs :
  versions_ok (modified 0 bs vs m) ->
  keeps (modified 0 bs vs m)
    (modified 0 (fst (ack_block i st (bs, vs))) (snd (ack_block i st (bs, vs))) m).
Proof.
  intros Hok. unfold ack_block. destruct (bs !! _) as [b|]; [|by apply keeps_same].
  unfold count_ack. cbn [fst snd]. case_match; [|by apply keeps_same].
  destruct (vm_find _ vs) as [ver|] eqn:Ev; [|by apply keeps_same].
  by eapply keeps_set.
Qed.

Lemma ack_steps_keeps steps m p :
  versions_ok (modified 0 (fst p) (snd p) m) ->
  keeps (modified 0 (fst p) (snd p) m)
    (modified 0 (fst (ack_steps steps p)) (snd (ack_steps steps p)) m).
Proof.
  revert p. induction steps as [|[i st] steps IH]; intros [bs vs] Hok; [by apply keeps_same|].
  pose proof (ack_block_keeps i st m bs vs Hok) as H1.
  change (ack_steps ((i, st) :: steps) (bs, vs)) with (ack_steps steps (ack_block i st (bs, vs))).
  eapply keeps_trans; [exact H1|]. apply IH, H1.
Qed.

Lemma run_ack_op_next o m : m_nextVersionId (run_ack_op o m) = m_nextVersionId m.
Proof.
  assert (forall i st m, m_nextVersionId (snd (SetBlockAck i st m)) = m_nextVersionId m) as Hone.
  { intros i st m0. unfold SetBlockAck. destruct (m_blocks m0 !! _); [|done]. by destruct (ack_block _ _ _). }
  destruct o as [i st|s c st|l st]; cbn [run_ack_op]; [apply Hone| |].
  - unfold SetBlockAckRange. by destruct (fold_left _ _ _).
  - unfold SetBlockAckList. cbn [snd]. revert m.
    induction l as [|i l IH]; intros m; cbn [fold_left]; [done|]. by rewrite IH, Hone.
Qed.

Lemma run_mgr_op_keeps o m : versions_ok m -> keeps m (run_mgr_op o m).
Proof.
  intros Hok. destruct o as [vid mf|vid total|i h|vid changed hashes|o]; cbn [run_mgr_op].
  - unfold InitFullBlocks, init_blocks.
    destruct (vm_find vid _) as [ver|] eqn:Ev; [by eapply keeps_set|by apply keeps_same].
  - unfold InitFullBlocksEmpty, init_blocks.
    destruct (vm_find vid _) as [ver|] eqn:Ev; [by eapply keeps_set|by apply keeps_same].
  - unfold SetBlockHash. destruct (m_blocks m !! _); by apply keeps_same.
  - unfold UpdateIncrementalBlocks. case_match; [by apply keeps_same|].
    destruct (m_blocks m); [by apply keeps_same|].
    destruct (vm_find vid _) as [ver|] eqn:Ev; [|by apply keeps_same].
    destruct (mark_loop _ _ _ _). by eapply keeps_set.
  - pose proof (run_ack_op_steps o m) as Hs. cbv zeta in Hs.
    pose proof (ack_steps_keeps (steps_of o (zlen (m_blocks m))) m (m_blocks m, m_versions m) Hok) as Hk.
    rewrite <- Hs in Hk. unfold keeps, versions_ok in Hk |- *.
    cbn [fst snd modified m_versions m_nextVersionId] in Hk. by rewrite run_ack_op_next.
Qed.

(** ** The properties *)

(** progress of a full backup.  After a version was created and its blocks
    were set up, and after any sequence of acknowledgement operations, the
    version's count of acknowledged blocks is the number of blocks that are
    acknowledged plus the number of acknowledgements that were taken back,
    modulo 2^64; so when every operation acknowledges, the count and the
    pending blocks together make up all blocks. *)
Theorem full_backup_progress type snap total size now m m1 ver ok m2 ops :
  0 <= total < 2 ^ 64 -> CreateVersion type snap total size now m = (ver, m1) ->
  InitFullBlocksEmpty (v_VersionId ver) total m1 = (ok, m2) ->
  let vid := v_VersionId ver in
  let m' := run_ack_ops ops m2 in
  let count := v_AckedBlocks (GetVersion vid m') in
  count = u64 (acked vid (m_blocks m') + retracted vid (steps_of_all ops total) (m_blocks m2)) /\
  (Forall (fun o => status_of o = Acknowledged) ops ->
   count + zlen (GetPendingBlocks m') = total).
Proof.
  intros Ht Hc Hi vid m' count.
  destruct (full_backup_start _ _ _ _ _ _ _ _ _ _ (proj1 Ht) Hc Hi) as (_ & Hlen & Hof & H0 & Hcnt).
  pose proof (run_ack_ops_steps ops m2) as Hs. cbv zeta in Hs. fold m' in Hs. rewrite Hlen in Hs.
  pose proof (ack_steps_counter vid (steps_of_all ops total) (m_blocks m2) (m_versions m2) 0
                ltac:(unfold in_width; lia) Hcnt) as Hcount.
  rewrite <- Hs in Hcount. cbn [fst snd] in Hcount. fold vid in H0. rewrite H0 in Hcount.
  assert (count = u64 (acked vid (m_blocks m') + retracted vid (steps_of_all ops total) (m_blocks m2))) as E.
  { unfold count, GetVersion. unfold counter in Hcount. destruct (vm_find vid (m_versions m')); [|done].
    cbn. injection Hcount as ->. f_equal. lia. }
  split; [done|]. intros Hall.
  rewrite E, retracted_none.
  - pose proof (ack_steps_of_version vid (steps_of_all ops total) (m_blocks m2, m_versions m2) Hof) as Hof'.
    pose proof (ack_steps_length (steps_of_all ops total) (m_blocks m2, m_versions m2)) as Hlen'.
    rewrite <- Hs in Hof', Hlen'. cbn [fst] in Hof', Hlen'.
    pose proof (acked_and_pending vid _ Hof').
    rewrite wrap_small by (unfold in_width, acked in *; lia). unfold GetPendingBlocks. lia.
  - unfold steps_of_all. apply Forall_concat, Forall_map. eapply Forall_impl; [exact Hall|].
    intros [i st|s c st|l st]; cbn [status_of steps_of]; intros ->; [by repeat constructor| |];
      apply Forall_map, Forall_forall; done.
Qed.

(** C27: an incremental update.  [UpdateIncrementalBlocks] refuses lists of
    different lengths, an empty block table and an unknown version, and then
    changes nothing.  Otherwise every listed block becomes a pending, changed
    block of the version with its new hash, every other block becomes skipped
    and unchanged, the pending blocks are exactly the listed ones, and the
    version counts the listed blocks within the disk as changed and none as
    acknowledged. *)
Theorem UpdateIncrementalBlocks_correct vid changed hashes m :
  zlen changed < 2 ^ 64 ->
  let pairs := zip changed (map e_Hash hashes) in
  let '(ok, m') := UpdateIncrementalBlocks vid changed hashes m in
  match vm_find vid (m_versions m) with
  | Some ver =>
      if (length changed =? length hashes)%nat && negb (bool_decide (m_blocks m = [])) then
        ok = true /\ length (m_blocks m') = length (m_blocks m) /\
        (forall j b, m_blocks m !! j = Some b ->
           m_blocks m' !! j = Some (match last_hash j pairs with
                                    | Some h => mark_changed vid h b
                                    | None => mark_unchanged b
                                    end)) /\
        (forall b', b' ∈ GetPendingBlocks m' <->
           exists j b h, m_blocks m !! j = Some b /\ last_hash j pairs = Some h /\
             b' = mark_changed vid h b) /\
        vm_find vid (m_versions m')
        = Some (set_counts (zlen (filter (fun '(i, _) => (Z.to_nat i < length (m_blocks m))%nat) pairs)) 0 ver)
      else ok = false /\ m' = m
  | None => ok = false /\ m' = m
  end.
Proof.
  intros Hl pairs. unfold UpdateIncrementalBlocks. fold pairs.
  destruct (length changed =? length hashes)%nat eqn:El; cbn [negb andb];
    [|by destruct (vm_find _ _)].
  destruct (m_blocks m) as [|b0 bs0] eqn:Eb; [by destruct (vm_find _ _)|].
  rewrite bool_decide_eq_false_2 by done. cbn [negb].
  destruct (vm_find vid (m_versions m)) as [ver|] eqn:Ev; [|done].
  set (bs := b0 :: bs0) in *.
  assert (zlen pairs < 2 ^ 64) as Hp.
  { unfold pairs. rewrite length_zip_with. lia. }
  pose proof (mark_loop_spec vid pairs (map mark_unchanged bs) 0 ltac:(lia) ltac:(lia)) as Hm.
  destruct (mark_loop vid pairs (map mark_unchanged bs) 0) as [bs' count'].
  destruct Hm as (H1 & H2 & H3). rewrite length_map in *. cbn [modified m_blocks m_versions].
  assert (forall j b, bs !! j = Some b ->
            bs' !! j = Some (match last_hash j pairs with
                             | Some h => mark_changed vid h b | None => mark_unchanged b end)) as Hj.
  { intros j b Hj. rewrite (H3 j (mark_unchanged b)); [by destruct (last_hash j pairs)|].
    change (map mark_unchanged) with (fmap (M := list) mark_unchanged). by rewrite list_lookup_fmap, Hj. }
  split; [done|]. split; [done|]. split; [done|]. split.
  - intros b'. unfold GetPendingBlocks. cbn [modified m_blocks]. rewrite list_elem_of_filter. split.
    + intros [Hn [j Hb']%list_elem_of_lookup].
      destruct (lookup_lt_is_Some_2 bs j) as [b Hb]; [rewrite <- H1; by eapply lookup_lt_Some|].
      rewrite (Hj j b Hb) in Hb'. destruct (last_hash j pairs) as [h|] eqn:Eh; injection Hb' as <-; [|done].
      by exists j, b, h.
    + intros (j & b & h & Hb & Eh & ->). split; [done|].
      apply list_elem_of_lookup. exists j. by rewrite (Hj j b Hb), Eh.
  - rewrite vm_find_set, Z.eqb_refl, H2. done.
Qed.

(** where to resume.  [GetLastAcknowledgedBlock] returns the length of the
    longest run of acknowledged or skipped blocks at the start of the disk. *)
Theorem GetLastAcknowledgedBlock_correct m :
  let done_ b := (b_Ack b =? Acknowledged) || (b_Ack b =? Skipped) in
  let n := GetLastAcknowledgedBlock m in
  0 <= n <= zlen (m_blocks m) /\
  Forall (fun b => done_ b = true) (take (Z.to_nat n) (m_blocks m)) /\
  (forall b, m_blocks m !! Z.to_nat n = Some b -> done_ b = false).
Proof.
  intros done_ n. unfold n, GetLastAcknowledgedBlock.
  destruct (last_acked_spec (m_blocks m) 0 0) as [[-> Hn]|(k & Hk & -> & Hp & Hn)].
  - split; [lia|]. split; [constructor|]. intros b Hb. by destruct (m_blocks m); [|injection Hb as <-].
  - rewrite Z.add_0_l, Nat2Z.id. split; [lia|]. split; [done|]. intros b Hb. by rewrite Hb in Hn.
Qed.

(** the history only grows.  In a manager whose versions are in order
    under the next identifier, as a new one has them, [CreateVersion] adds its
    record at the end of the history and changes no other; and every other
    operation keeps the versions in order under the same identifiers. *)
Theorem version_history_grows m o :
  versions_ok m -> 0 <= m_nextVersionId m < 2 ^ 64 - 1 ->
  (forall type snap total size now,
     let '(ver, m') := CreateVersion type snap total size now m in
     GetVersionHistory m' = GetVersionHistory m ++ [ver] /\ versions_ok m') /\
  (let m' := run_mgr_op o m in
   versions_ok m' /\ map fst (m_versions m') = map fst (m_versions m)).
Proof.
  intros Hok Hn. split; [|by apply run_mgr_op_keeps].
  intros type snap total size now. unfold CreateVersion. cbn [v_VersionId].
  pose proof Hok as (Hs & Hlt & Hid). unfold GetVersionHistory, versions_ok. cbn [m_versions m_nextVersionId].
  rewrite vm_set_fresh, wrap_small, !map_app by (done || (unfold in_width; lia)). cbn [map snd fst].
  split; [done|]. split; [by apply StronglySorted_snoc|]. split.
  - apply Forall_app. split; [|constructor; [lia|constructor]].
    eapply Forall_impl; [exact Hlt|]. cbn. lia.
  - apply Forall_app. split; [done|]. by constructor.
Qed.

(** ** Examples *)

Definition empty_entry (x : Z) : BlockHashEntry := {| e_BlockIndex := 0; e_Offset := 0; e_Hash := [x] |}.
Definition demo_ops : list ack_op :=
  [AckOne 1 Acknowledged; AckRange 0 2 Acknowledged; AckList [2; 9] Acknowledged].
Definition demo_version : VersionRecord * Manager := CreateVersion [70] 5 3 3145728 6 Manager_new.
Definition demo_full : Manager := snd (InitFullBlocksEmpty 0 3 (snd demo_version)).

Lemma full_backup_progress_witness :
  let m' := run_ack_ops demo_ops demo_full in
  v_AckedBlocks (GetVersion 0 m') + zlen (GetPendingBlocks m') = 3.
Proof.
  destruct (full_backup_progress [70] 5 3 3145728 6 Manager_new (snd demo_version) (fst demo_version)
              true demo_full demo_ops) as [_ Hall].
  - lia.
  - reflexivity.
  - reflexivity.
  - apply Hall. repeat constructor.
Defined.

Lemma UpdateIncrementalBlocks_correct_witness :
  let '(ok, m') := UpdateIncrementalBlocks 0 [2; 7] [empty_entry 9; empty_entry 8] demo_full in
  ok = true /\ m_blocks m' !! 2%nat = Some (mark_changed 0 [9] (fresh_block 0 (zeros 32) 2)).
Proof.
  pose proof (UpdateIncrementalBlocks_correct 0 [2; 7] [empty_entry 9; empty_entry 8] demo_full
                ltac:(cbn; lia)) as Hu. cbv zeta in Hu.
  destruct (UpdateIncrementalBlocks 0 [2; 7] [empty_entry 9; empty_entry 8] demo_full) as [ok m'].
  destruct Hu as (-> & _ & Hj & _). split; [done|].
  apply (Hj 2%nat (fresh_block 0 (zeros 32) 2)). vm_compute. reflexivity.
Defined.

Lemma version_history_grows_witness :
  let m' := run_mgr_op (OpInitEmpty 0 3) (snd demo_version) in
  versions_ok m' /\ map fst (m_versions m') = [0].
Proof.
  apply (version_history_grows (snd demo_version) (OpInitEmpty 0 3)).
  - split; [repeat constructor|]. split; [by repeat constructor|by repeat constructor].
  - vm_compute. split; congruence.
Defined.
