(* ===== verification/Crc32.v ===== *)
(** * The checksum of the state file

    [client/BlockStateManager.cpp, ComputeCRC32]: the table and the loop over
    it, against the bitwise definition of CRC-32. *)

From S2P Require Import Prelude.

(** ** Definitions *)

Definition crc_table : list Z :=
  [
   0x00000000; 0x77073096; 0xEE0E612C; 0x990951BA; 0x076DC419; 0x706AF48F;
   0xE963A535; 0x9E6495A3; 0x0EDB8832; 0x79DCB8A4; 0xE0D5E91E; 0x97D2D988;
   0x09B64C2B; 0x7EB17CBD; 0xE7B82D07; 0x90BF1D91; 0x1DB71064; 0x6AB020F2;
   0xF3B97148; 0x84BE41DE; 0x1ADAD47D; 0x6DDDE4EB; 0xF4D4B551; 0x83D385C7;
   0x136C9856; 0x646BA8C0; 0xFD62F97A; 0x8A65C9EC; 0x14015C4F; 0x63066CD9;
   0xFA0F3D63; 0x8D080DF5; 0x3B6E20C8; 0x4C69105E; 0xD56041E4; 0xA2677172;
   0x3C03E4D1; 0x4B04D447; 0xD20D85FD; 0xA50AB56B; 0x35B5A8FA; 0x42B2986C;
   0xDBBBC9D6; 0xACBCF940; 0x32D86CE3; 0x45DF5C75; 0xDCD60DCF; 0xABD13D59;
   0x26D930AC; 0x51DE003A; 0xC8D75180; 0xBFD06116; 0x21B4F4B5; 0x56B3C423;
   0xCFBA9599; 0xB8BDA50F; 0x2802B89E; 0x5F058808; 0xC60CD9B2; 0xB10BE924;
   0x2F6F7C87; 0x58684C11; 0xC1611DAB; 0xB6662D3D; 0x76DC4190; 0x01DB7106;
   0x98D220BC; 0xEFD5102A; 0x71B18589; 0x06B6B51F; 0x9FBFE4A5; 0xE8B8D433;
   0x7807C9A2; 0x0F00F934; 0x9609A88E; 0xE10E9818; 0x7F6A0DBB; 0x086D3D2D;
   0x91646C97; 0xE6635C01; 0x6B6B51F4; 0x1C6C6162; 0x856530D8; 0xF262004E;
   0x6C0695ED; 0x1B01A57B; 0x8208F4C1; 0xF50FC457; 0x65B0D9C6; 0x12B7E950;
   0x8BBEB8EA; 0xFCB9887C; 0x62DD1DDF; 0x15DA2D49; 0x8CD37CF3; 0xFBD44C65;
   0x4DB26158; 0x3AB551CE; 0xA3BC0074; 0xD4BB30E2; 0x4ADFA541; 0x3DD895D7;
   0xA4D1C46D; 0xD3D6F4FB; 0x4369E96A; 0x346ED9FC; 0xAD678846; 0xDA60B8D0;
   0x44042D73; 0x33031DE5; 0xAA0A4C5F; 0xDD0D7CC9; 0x5005713C; 0x270241AA;
   0xBE0B1010; 0xC90C2086; 0x5768B525; 0x206F85B3; 0xB966D409; 0xCE61E49F;
   0x5EDEF90E; 0x29D9C998; 0xB0D09822; 0xC7D7A8B4; 0x59B33D17; 0x2EB40D81;
   0xB7BD5C3B; 0xC0BA6CAD; 0xEDB88320; 0x9ABFB3B6; 0x03B6E20C; 0x74B1D29A;
   0xEAD54739; 0x9DD277AF; 0x04DB2615; 0x73DC1683; 0xE3630B12; 0x94643B84;
   0x0D6D6A3E; 0x7A6A5AA8; 0xE40ECF0B; 0x9309FF9D; 0x0A00AE27; 0x7D079EB1;
   0xF00F9344; 0x8708A3D2; 0x1E01F268; 0x6906C2FE; 0xF762575D; 0x806567CB;
   0x196C3671; 0x6E6B06E7; 0xFED41B76; 0x89D32BE0; 0x10DA7A5A; 0x67DD4ACC;
   0xF9B9DF6F; 0x8EBEEFF9; 0x17B7BE43; 0x60B08ED5; 0xD6D6A3E8; 0xA1D1937E;
   0x38D8C2C4; 0x4FDFF252; 0xD1BB67F1; 0xA6BC5767; 0x3FB506DD; 0x48B2364B;
   0xD80D2BDA; 0xAF0A1B4C; 0x36034AF6; 0x41047A60; 0xDF60EFC3; 0xA867DF55;
   0x316E8EEF; 0x4669BE79; 0xCB61B38C; 0xBC66831A; 0x256FD2A0; 0x5268E236;
   0xCC0C7795; 0xBB0B4703; 0x220216B9; 0x5505262F; 0xC5BA3BBE; 0xB2BD0B28;
   0x2BB45A92; 0x5CB30A04; 0xC2D7FFA7; 0xB5D0CF31; 0x2CD99E8B; 0x5BDEAE1D;
   0x9B64C2B0; 0xEC63F226; 0x756AA39C; 0x026D930A; 0x9C0906A9; 0xEB0E363F;
   0x72676785; 0x05605713; 0x95BF4A82; 0xE2B87A14; 0x7BB12BAE; 0x0CB61B38;
   0x92D28E9B; 0xE5D5BE0D; 0x7CDCEFB7; 0x0BDBDF21; 0x86D3D2D4; 0xF1D4E242;
   0x68DDB3F8; 0x1FDA836E; 0x81BE16CD; 0xF6B9265B; 0x6FB077E1; 0x18B74777;
   0x88085AE6; 0xFF0F6A70; 0x66063BCA; 0x11010B5C; 0x8F659EFF; 0xF862AE69;
   0x616BFFD3; 0x166CCF45; 0xA00AE278; 0xD70DD2EE; 0x4E048354; 0x3903B3C2;
   0xA7672661; 0xD06016F7; 0x4969474D; 0x3E6E77DB; 0xAED16A4A; 0xD9D65ADC;
   0x40BF0B66; 0x37B83BF0; 0xA9BCAE53; 0xDEBB9EC5; 0x47A2CF7F; 0x30A5FFE9;
   0xBDBDF21C; 0xCABAC28A; 0x539BD330; 0x249CF3A6; 0xBA2D6605; 0xCD2A7693;
   0x54052729; 0x230236BF; 0xB300352E; 0xC40713B8; 0x5D0E4202; 0x2A09F294;
   0xB4CF6737; 0xC3C857A1; 0x5AEF061B; 0x2DE8F58D ].

(** One byte; the mask keeps the index below 256. *)
Definition crc_step (crc d : Z) : Z :=
  Z.lxor (Z.shiftr crc 8) (nth (Z.to_nat (Z.land (Z.lxor crc d) 0xFF)) crc_table 0).

Definition crc_loop (crc : Z) (data : list Z) : Z := fold_left crc_step data crc.

Definition ComputeCRC32 (data : list Z) : Z := Z.lxor (crc_loop 0xFFFFFFFF data) 0xFFFFFFFF.

(** ** Specification *)

(** One bit of CRC-32 with the reflected polynomial, and a table entry. *)
Definition crc_bit (c : Z) : Z :=
  if Z.odd c then Z.lxor (Z.shiftr c 1) 0xEDB88320 else Z.shiftr c 1.
Definition crc_entry (i : Z) : Z := Nat.iter 8 crc_bit i.

Definition crc32_spec (data : list Z) : Z :=
  Z.lxor (fold_left (fun c d => Nat.iter 8 crc_bit (Z.lxor c d)) data 0xFFFFFFFF) 0xFFFFFFFF.

(** ** Lemmas *)

(** The table read through the index, and what is checked of it by
    evaluation: its entries are 32-bit values with different first bytes. *)
Definition entry (i : Z) : Z := nth (Z.to_nat i) crc_table 0.

Lemma table_tops_distinct : NoDup (map (fun t => Z.shiftr t 24) crc_table).
Proof. evaluate. Qed.

Lemma table_width : Forall (in_width 32) crc_table.
Proof. evaluate. Qed.

Lemma entry_width i : in_width 32 (entry i).
Proof.
  unfold entry. rewrite nth_lookup. destruct (_ !! _) as [t|] eqn:E; cbn.
  - pose proof table_width as Hw. rewrite Forall_lookup in Hw. by apply (Hw _ _ E).
  - unfold in_width. lia.
Qed.

Lemma entry_top_inj i j :
  0 <= i < 256 -> 0 <= j < 256 -> Z.shiftr (entry i) 24 = Z.shiftr (entry j) 24 -> i = j.
Proof.
  intros Hi Hj E. assert (length crc_table = 256%nat) as Hl by done.
  destruct (lookup_lt_is_Some_2 crc_table (Z.to_nat i)) as [a Ha]; [lia|].
  destruct (lookup_lt_is_Some_2 crc_table (Z.to_nat j)) as [b Hb]; [lia|].
  unfold entry in E. rewrite !nth_lookup, Ha, Hb in E. cbn [from_option] in E. unfold id in E.
  enough (Z.to_nat i = Z.to_nat j) by lia.
  eapply (NoDup_lookup _ _ _ (Z.shiftr a 24) table_tops_distinct).
  - change (map ?f) with (fmap (M := list) f). by rewrite list_lookup_fmap, Ha.
  - change (map ?f) with (fmap (M := list) f). rewrite list_lookup_fmap, Hb.
    cbn [fmap option_fmap option_map]. by rewrite E.
Qed.

Lemma lxor_width w a b : 0 <= w -> in_width w a -> in_width w b -> in_width w (Z.lxor a b).
Proof.
  unfold in_width. intros Hw Ha Hb.
  assert (0 <= Z.lxor a b) as H0 by (apply Z.lxor_nonneg; lia). split; [done|].
  assert (Z.lxor a b = Z.lxor a b mod 2 ^ w) as ->; [|apply Z.mod_pos_bound; lia].
  apply Z.bits_inj'. intros n Hn. destruct (Z.lt_ge_cases n w).
  - by rewrite Z.mod_pow2_bits_low.
  - rewrite Z.mod_pow2_bits_high, Z.lxor_spec by lia.
    rewrite <- (Z.mod_small a (2 ^ w)), <- (Z.mod_small b (2 ^ w)) by lia.
    by rewrite !Z.mod_pow2_bits_high by lia.
Qed.

Lemma low_byte x : Z.land x 0xFF = x mod 256.
Proof. change 0xFF with (Z.ones 8). by rewrite Z.land_ones. Qed.

Lemma crc_step_width r d : in_width 32 r -> in_width 32 (crc_step r d).
Proof.
  intros Hr. unfold crc_step. apply lxor_width; [lia| |apply entry_width].
  unfold in_width in *. rewrite Z.shiftr_div_pow2 by lia. change (2 ^ 8) with 256.
  Z.to_euclidean_division_equations. lia.
Qed.

Lemma crc_loop_width data r : in_width 32 r -> in_width 32 (crc_loop r data).
Proof.
  revert r. induction data as [|d data IH]; intros r Hr; [done|]. by apply IH, crc_step_width.
Qed.

Lemma lxor_cancel_r a b c : Z.lxor a c = Z.lxor b c -> a = b.
Proof.
  intros E. apply (f_equal (fun x => Z.lxor x c)) in E.
  by rewrite !Z.lxor_assoc, !Z.lxor_nilpotent, !Z.lxor_0_r in E.
Qed.

(** A step loses nothing: the first byte of the result determines the entry,
    and with it everything else. *)
Lemma crc_step_cancel r r' d d' :
  in_width 32 r -> in_width 32 r' -> crc_step r d = crc_step r' d' ->
  Z.land (Z.lxor r d) 0xFF = Z.land (Z.lxor r' d') 0xFF /\ Z.shiftr r 8 = Z.shiftr r' 8.
Proof.
  intros Hr Hr' E. unfold crc_step in E.
  fold (entry (Z.land (Z.lxor r d) 0xFF)) (entry (Z.land (Z.lxor r' d') 0xFF)) in E.
  assert (forall x, in_width 32 x -> Z.shiftr (Z.shiftr x 8) 24 = 0) as Hz.
  { intros x Hx. rewrite Z.shiftr_shiftr by lia. rewrite Z.shiftr_div_pow2 by lia.
    unfold in_width in Hx. apply Z.div_small. lia. }
  assert (Z.land (Z.lxor r d) 0xFF = Z.land (Z.lxor r' d') 0xFF) as Ei.
  { pose proof (f_equal (fun x => Z.shiftr x 24) E) as E'. cbv beta in E'.
    rewrite !Z.shiftr_lxor, !Hz, !Z.lxor_0_l in E' by done.
    apply entry_top_inj; [rewrite low_byte; by apply Z.mod_pos_bound..|done]. }
  split; [done|]. rewrite Ei in E. by apply lxor_cancel_r in E.
Qed.

Lemma lxor_low_byte r d : Z.land (Z.lxor r d) 0xFF = Z.lxor (Z.land r 0xFF) (Z.land d 0xFF).
Proof.
  apply Z.bits_inj'. intros n _. rewrite Z.land_spec, !Z.lxor_spec, !Z.land_spec.
  destruct (Z.testbit r n), (Z.testbit d n), (Z.testbit 255 n); done.
Qed.

Lemma crc_step_inj_state r r' d :
  in_width 32 r -> in_width 32 r' -> crc_step r d = crc_step r' d -> r = r'.
Proof.
  intros Hr Hr' E. destruct (crc_step_cancel _ _ _ _ Hr Hr' E) as [El Eh].
  rewrite !lxor_low_byte in El. apply lxor_cancel_r in El. rewrite !low_byte in El.
  rewrite !Z.shiftr_div_pow2 in Eh by lia. change (2 ^ 8) with 256 in Eh.
  rewrite (Z.div_mod r 256), (Z.div_mod r' 256) by lia. congruence.
Qed.

Lemma crc_step_inj_byte r d d' :
  in_width 32 r -> in_width 8 d -> in_width 8 d' -> crc_step r d = crc_step r d' -> d = d'.
Proof.
  intros Hr Hd Hd' E. destruct (crc_step_cancel _ _ _ _ Hr Hr E) as [El _].
  rewrite !lxor_low_byte in El. rewrite !(Z.lxor_comm (Z.land r _)) in El.
  apply lxor_cancel_r in El. rewrite !low_byte in El. unfold in_width in *.
  change (2 ^ 8) with 256 in *. by rewrite !Z.mod_small in El by lia.
Qed.

Lemma crc_loop_inj data r r' :
  in_width 32 r -> in_width 32 r' -> crc_loop r data = crc_loop r' data -> r = r'.
Proof.
  revert r r'. induction data as [|d data IH]; intros r r' Hr Hr' E; [done|].
  eapply crc_step_inj_state, IH; [done|done| | |exact E]; by apply crc_step_width.
Qed.

Lemma crc_start_width : in_width 32 0xFFFFFFFF.
Proof. evaluate. Qed.

(** ** The properties *)

(** the checksum detects a changed byte.  It is a 32-bit value, and two
    byte strings that differ in exactly one byte have different checksums. *)
Theorem ComputeCRC32_detects pre d d' post :
  in_width 8 d -> in_width 8 d' -> d <> d' ->
  in_width 32 (ComputeCRC32 (pre ++ d :: post)) /\
  ComputeCRC32 (pre ++ d :: post) <> ComputeCRC32 (pre ++ d' :: post).
Proof.
  intros Hd Hd' Hne. split.
  - apply lxor_width; [lia|apply crc_loop_width|]; apply crc_start_width.
  - unfold ComputeCRC32. intros E. apply lxor_cancel_r in E. unfold crc_loop in E.
    rewrite !fold_left_app in E. cbn [fold_left] in E. fold (crc_loop 0xFFFFFFFF pre) in E.
    pose proof (crc_loop_width pre _ crc_start_width) as Hr.
    apply (crc_loop_inj post) in E; [|by apply crc_step_width..].
    by apply crc_step_inj_byte in E.
Qed.

(** The table is not the one of CRC-32.  Exactly these 21 entries differ
    from the bitwise definition, so the checksum of the byte 68 differs from
    its CRC-32, although the one of the standard's test string "123456789"
    does not. *)
Theorem crc_table_differs :
  filter (fun i => entry i <> crc_entry i) (seqZ 0 256)
  = [187; 198; 199; 234; 235; 238; 239; 242; 243; 244; 245; 246; 247; 248; 249; 250; 251; 252; 253; 254; 255] /\
  ComputeCRC32 [68] <> crc32_spec [68] /\
  (let test := [0x31; 0x32; 0x33; 0x34; 0x35; 0x36; 0x37; 0x38; 0x39] in
   ComputeCRC32 test = 0xCBF43926 /\ crc32_spec test = 0xCBF43926).
Proof. split; [by vm_compute|]. split; [by vm_compute|]. by vm_compute. Qed.

Lemma ComputeCRC32_detects_witness :
  in_width 32 (ComputeCRC32 ([1; 2] ++ 3 :: [4])) /\
  ComputeCRC32 ([1; 2] ++ 3 :: [4]) <> ComputeCRC32 ([1; 2] ++ 7 :: [4]).
Proof. apply ComputeCRC32_detects; [evaluate|evaluate|done]. Defined.
