(* ===== verification/StateFile.v ===== *)
(** * The state file

    [client/BlockStateManager.cpp]: the records of the state file, [Save], which
    writes a temporary file and moves it over the old one, and [Load]. *)

From Stdlib Require Import Sorted.
From S2P Require Import Prelude.
From S2P Require Import BlockHasher.
From S2P Require Import BlockStateManager.
From S2P Require Import Crc32.

(** ** Block records *)

Definition STATE_FILE_MAGIC : Z := 0x534B4C42.
Definition STATE_FILE_VERSION : Z := 1.
Definition BLOCK_RECORD_SIZE : Z := 48.
Definition HEADER_SIZE : Z := 64.

Definition block_flags (b : BlockState) : Z :=
  Z.lor (if b_Changed b then 1 else 0) (Z.shiftl (Z.land (b_Ack b) 7) 1).

(** [mem]: the memory from the pointer [out] to the end of its block; [None]
    when a copy leaves it. *)
Definition SerializeBlock (b : BlockState) (mem : list Z) : option (list Z) :=
  mem ← memcpy_to 0 (zeros BLOCK_RECORD_SIZE) mem;
  mem ← memcpy_to 0 (le_enc 4 (block_flags b)) mem;
  mem ← memcpy_to 4 (le_enc 8 (b_BlockIndex b)) mem;
  mem ← memcpy_to 12 (le_enc 8 (b_VersionId b)) mem;
  memcpy_to 20 (b_Hash b) mem.

Definition DeserializeBlock (mem : list Z) : option BlockState :=
  flags ← memcpy_from 0 4 mem;
  idx ← memcpy_from 4 8 mem;
  vid ← memcpy_from 12 8 mem;
  hash ← memcpy_from 20 32 mem;
  Some {| b_BlockIndex := le_dec idx; b_Offset := u64 (le_dec idx * BLOCK_SIZE); b_Hash := hash;
          b_VersionId := le_dec vid; b_Ack := Z.land (Z.shiftr (le_dec flags) 1) 7;
          b_Changed := negb (Z.land (le_dec flags) 1 =? 0) |}.

(** ** Version records *)

(** [wcsncpy_s(typeBuf, type, 15)] into a zeroed array of 16 units, and the
    string read from it. *)
Definition type_buf (u : list Z) : list Z :=
  let k := take 15 (c_str u) in concat (map (le_enc 2) (k ++ zeros (16 - zlen k))).
Definition type_of_buf (buf : list Z) : list Z :=
  c_str (map (fun i => rd_le (2 * i) 2 buf) (seqZ 0 16)).

(** The nine pieces a version is written in. *)
Definition version_chunks (v : VersionRecord) : list (list Z) :=
  [le_enc 8 (v_VersionId v); le_enc 4 (u32 (v_DevNo v)); type_buf (v_VersionType v);
   le_enc 8 (v_SnapshotTime v); le_enc 8 (v_TotalBlocks v); le_enc 8 (v_ChangedBlocks v);
   le_enc 8 (v_TotalSize v); le_enc 8 (v_AckedBlocks v); le_enc 8 (v_CreateTimestamp v)].

(** One [ReadFile] of [n] bytes: the bytes and the rest of the file, if there
    are that many. *)
Definition read_n (n : Z) (file : list Z) : option (list Z * list Z) :=
  if zlen file <? n then None else Some (sub 0 n file, drop (Z.to_nat n) file).

Definition read_version (file : list Z) : option (VersionRecord * list Z) :=
  '(verId, f) ← read_n 8 file; '(dev, f) ← read_n 4 f; '(typ, f) ← read_n 32 f;
  '(snap, f) ← read_n 8 f; '(tBlocks, f) ← read_n 8 f; '(cBlocks, f) ← read_n 8 f;
  '(tSize, f) ← read_n 8 f; '(aBlocks, f) ← read_n 8 f; '(create, f) ← read_n 8 f;
  Some ({| v_VersionId := le_dec verId; v_DevNo := s32 (le_dec dev); v_VersionType := type_of_buf typ;
           v_SnapshotTime := le_dec snap; v_TotalBlocks := le_dec tBlocks;
           v_ChangedBlocks := le_dec cBlocks; v_TotalSize := le_dec tSize;
           v_AckedBlocks := le_dec aBlocks; v_CreateTimestamp := le_dec create |}, f).

(** The loop over [n] versions, with the table and the next identifier. *)
Fixpoint read_versions (n : nat) (file : list Z) (vs : vmap) (next : Z) : vmap * Z :=
  match n with
  | O => (vs, next)
  | S n' =>
      match read_version file with
      | None => (vs, next)
      | Some (v, rest) =>
          read_versions n' rest (vm_set (v_VersionId v) v vs)
            (if next <=? v_VersionId v then u64 (v_VersionId v + 1) else next)
      end
  end.

(** ** Saving *)

(** The first 36 bytes of the header, and all of it. *)
Definition header_fields (m : Manager) : list Z :=
  le_enc 4 STATE_FILE_MAGIC ++ le_enc 4 STATE_FILE_VERSION ++ le_enc 4 (u32 (m_devNo m))
  ++ le_enc 4 BLOCK_RECORD_SIZE ++ le_enc 8 BLOCK_SIZE ++ le_enc 8 (m_totalBlocks m)
  ++ le_enc 4 (u32 (zlen (m_versions m))).
Definition file_header (m : Manager) (crc32 : Z) : list Z :=
  header_fields m ++ le_enc 4 crc32 ++ zeros 24.

(** The records of the blocks, written through one buffer; [mem] is that
    buffer and what follows it in memory. *)
Fixpoint block_records (bs : list BlockState) (mem : list Z) : option (list (list Z)) :=
  match bs with
  | [] => Some []
  | b :: rest =>
      mem' ← SerializeBlock b mem;
      recs ← block_records rest mem';
      Some (take (Z.to_nat BLOCK_RECORD_SIZE) mem' :: recs)
  end.

(** The calls of [WriteFile] one after the other; call [k] for [n] bytes
    writes [accept k n] of them, and its result is ignored. *)
Fixpoint write_all (accept : nat -> Z -> Z) (k : nat) (chunks : list (list Z)) (file : list Z) : list Z :=
  match chunks with
  | [] => file
  | c :: rest => write_all accept (S k) rest (file ++ take (Z.to_nat (accept k (zlen c))) c)
  end.

Definition set_dirty (d : bool) (m : Manager) : Manager :=
  {| m_initialized := m_initialized m; m_dirty := d; m_devNo := m_devNo m;
     m_totalBlocks := m_totalBlocks m; m_blocks := m_blocks m; m_versions := m_versions m;
     m_nextVersionId := m_nextVersionId m |}.

(** [create_ok], [move_ok]: the results of creating the temporary file and of
    moving it; [file]: the state file before and after.  [slack]: memory behind
    the record buffer that takes what a record writes over its end; the code owns
    none, so its own saves are those with [slack = []].  [None]: a record leaves
    the buffer and [slack]. *)
Definition Save (accept : nat -> Z -> Z) (create_ok move_ok : bool) (slack : list Z)
    (m : Manager) (file : option (list Z)) : option (bool * Manager * option (list Z)) :=
  if negb (m_initialized m) then Some (false, m, file)
  else if negb create_ok then Some (false, m, file)
  else
    recs ← block_records (m_blocks m) (zeros BLOCK_RECORD_SIZE ++ slack);
    let chunks := file_header m 0 :: recs ++ concat (map (fun '(_, v) => version_chunks v) (m_versions m)) in
    let tmp := write_all accept 0 chunks [] in
    let header := file_header m (ComputeCRC32 (header_fields m)) in
    let n := Z.to_nat (accept (length chunks) HEADER_SIZE) in
    let tmp := take n header ++ drop n tmp in
    if move_ok then Some (true, set_dirty false m, Some tmp)
    else Some (false, m, file).

(** ** Loading *)

(** [Overrun]: a record reads behind its buffer; [Throws]: [reserve] fails. *)
Inductive LoadResult := Loaded (ok : bool) (m : Manager) | Overrun | Throws.

(** The loop over [n] records: the blocks and the rest of the file; a short
    read takes what is left. *)
Fixpoint read_records (n : nat) (slack file : list Z) (bs : list BlockState)
    : option (list BlockState * list Z) :=
  match n with
  | O => Some (bs, file)
  | S n' =>
      match read_n BLOCK_RECORD_SIZE file with
      | None => Some (bs, [])
      | Some (rec, rest) => b ← DeserializeBlock (rec ++ slack); read_records n' slack rest (bs ++ [b])
      end
  end.

Definition set_total (t : Z) (m : Manager) : Manager :=
  {| m_initialized := m_initialized m; m_dirty := m_dirty m; m_devNo := m_devNo m;
     m_totalBlocks := t; m_blocks := m_blocks m; m_versions := m_versions m;
     m_nextVersionId := m_nextVersionId m |}.

(** [max_size]: the number of blocks a vector can hold. *)
Definition Load (max_size : Z) (slack : list Z) (m : Manager) (file : option (list Z)) : LoadResult :=
  match file with
  | None => Loaded false m
  | Some f =>
      match read_n HEADER_SIZE f with
      | None => Loaded false m
      | Some (header, f) =>
          let totalBlocks := rd_le 24 8 header in
          let m := set_total totalBlocks m in
          let savedCRC := rd_le 36 4 header in
          let computedCRC := ComputeCRC32 (sub 0 36 header ++ zeros 4 ++ sub 40 24 header) in
          if negb (savedCRC =? computedCRC) then Loaded false m
          else if negb (rd_le 0 4 header =? STATE_FILE_MAGIC)
                  || negb (rd_le 12 4 header =? BLOCK_RECORD_SIZE) then Loaded false m
          else if max_size <? totalBlocks then Throws
          else
            match read_records (Z.to_nat totalBlocks) slack f [] with
            | None => Overrun
            | Some (bs, f) =>
                let '(vs, next) := read_versions (Z.to_nat (rd_le 32 4 header)) f [] 0 in
                Loaded true {| m_initialized := m_initialized m; m_dirty := m_dirty m;
                               m_devNo := s32 (rd_le 8 4 header); m_totalBlocks := totalBlocks;
                               m_blocks := bs; m_versions := vs; m_nextVersionId := next |}
            end
      end
  end.

(** [Initialize] for the disk [devNo]; its result is [true] in any case. *)
Definition Initialize (max_size : Z) (slack : list Z) (devNo : Z) (file : option (list Z)) (m : Manager)
    : LoadResult :=
  let m := {| m_initialized := true; m_dirty := m_dirty m; m_devNo := devNo;
              m_totalBlocks := m_totalBlocks m; m_blocks := m_blocks m;
              m_versions := m_versions m; m_nextVersionId := m_nextVersionId m |} in
  match Load max_size slack m file with
  | Loaded _ m' => Loaded true m'
  | r => r
  end.

(** The destructor saves what was modified. *)
Definition Destroy (accept : nat -> Z -> Z) (create_ok move_ok : bool) (slack : list Z)
    (m : Manager) (file : option (list Z)) : option (option (list Z)) :=
  if m_dirty m && m_initialized m then
    '(_, file') ← Save accept create_ok move_ok slack m file; Some file'
  else Some file.

(** ** Lemmas on records *)

Lemma memcpy_fill off src pre rest :
  zlen pre = off -> zlen src <= zlen rest ->
  memcpy_to off src (pre ++ rest) = Some (pre ++ src ++ drop (length src) rest).
Proof.
  intros <- Hl. rewrite memcpy_to_Some by (rewrite ?length_app; lia). f_equal.
  rewrite Nat2Z.id, take_app_length. do 2 f_equal.
  rewrite drop_app_ge by lia. f_equal. lia.
Qed.

Lemma memcpy_from_here off n pre d r :
  zlen pre = off -> zlen d = n -> memcpy_from off n (pre ++ d ++ r) = Some d.
Proof.
  intros <- <-. unfold memcpy_from. rewrite !length_app, !(proj2 (Z.leb_le _ _)) by lia. cbn [andb].
  rewrite sub_skip, Z.sub_diag by lia. by rewrite sub_here.
Qed.

Definition block_wf (b : BlockState) : Prop :=
  in_width 64 (b_BlockIndex b) /\ in_width 64 (b_VersionId b) /\ 0 <= b_Ack b <= 7 /\
  zlen (b_Hash b) = 32.

(** The 52 bytes of a block. *)
Definition block_bytes (b : BlockState) : list Z :=
  le_enc 4 (block_flags b) ++ le_enc 8 (b_BlockIndex b) ++ le_enc 8 (b_VersionId b) ++ b_Hash b.

Lemma block_flags_spec b :
  0 <= b_Ack b <= 7 ->
  in_width 32 (block_flags b) /\ Z.land (Z.shiftr (block_flags b) 1) 7 = b_Ack b /\
  negb (Z.land (block_flags b) 1 =? 0) = b_Changed b.
Proof.
  intros Ha. unfold block_flags.
  assert (b_Ack b = 0 \/ b_Ack b = 1 \/ b_Ack b = 2 \/ b_Ack b = 3 \/ b_Ack b = 4 \/ b_Ack b = 5
          \/ b_Ack b = 6 \/ b_Ack b = 7) as Hc by lia.
  repeat destruct Hc as [->|Hc]; try rewrite Hc; destruct (b_Changed b);
    (split; [evaluate|split; reflexivity]).
Qed.

Lemma SerializeBlock_spec b mem :
  block_wf b -> 52 <= zlen mem -> SerializeBlock b mem = Some (block_bytes b ++ drop 52 mem).
Proof.
  intros (_ & _ & _ & Hh) Hm. unfold SerializeBlock, BLOCK_RECORD_SIZE.
  pose proof (zeros_length 48 ltac:(lia)) as Hz.
  rewrite <- (app_nil_l mem), memcpy_fill by (done || lia). cbn [mbind option_bind app].
  set (mem1 := zeros 48 ++ drop (length (zeros 48)) mem).
  assert (zlen mem1 = zlen mem /\ drop 52 mem1 = drop 52 mem) as [Hl Hd].
  { unfold mem1. rewrite length_app, length_drop, drop_app_ge, drop_drop by lia.
    split; [lia|]. f_equal; lia. }
  rewrite <- Hd. clearbody mem1. rewrite <- (app_nil_l mem1) at 1.
  rewrite memcpy_fill by (rewrite ?le_enc_length; done || lia). cbn [mbind option_bind app].
  rewrite memcpy_fill by (rewrite ?le_enc_length, ?length_drop; lia). cbn [mbind option_bind].
  rewrite app_assoc, memcpy_fill by (rewrite ?length_app, ?le_enc_length, ?length_drop; lia).
  cbn [mbind option_bind].
  rewrite app_assoc, memcpy_fill by (rewrite ?length_app, ?le_enc_length, ?length_drop; lia).
  unfold block_bytes. rewrite <- !app_assoc, !drop_drop, !le_enc_length. do 6 f_equal. lia.
Qed.

Lemma DeserializeBlock_spec b hash r :
  block_wf b -> zlen hash = 32 ->
  DeserializeBlock (le_enc 4 (block_flags b) ++ le_enc 8 (b_BlockIndex b)
                    ++ le_enc 8 (b_VersionId b) ++ hash ++ r)
  = Some {| b_BlockIndex := b_BlockIndex b; b_Offset := u64 (b_BlockIndex b * BLOCK_SIZE);
            b_Hash := hash; b_VersionId := b_VersionId b; b_Ack := b_Ack b; b_Changed := b_Changed b |}.
Proof.
  intros (Hi & Hv & Ha & _) Hh. destruct (block_flags_spec b Ha) as (Hf & Ef & Ec).
  unfold DeserializeBlock. set (f := le_enc 4 _). set (i := le_enc 8 (b_BlockIndex b)).
  set (v := le_enc 8 (b_VersionId b)).
  assert (zlen f = 4 /\ zlen i = 8 /\ zlen v = 8) as (Hlf & Hli & Hlv) by (unfold f, i, v; by rewrite !le_enc_length).
  pose proof (memcpy_from_here 0 4 [] f (i ++ v ++ hash ++ r) eq_refl Hlf) as E0. cbn [app] in E0.
  rewrite E0. cbn [mbind option_bind].
  rewrite (memcpy_from_here 4 8 f) by done. cbn [mbind option_bind].
  rewrite (app_assoc f i), (memcpy_from_here 12 8 (f ++ i)) by len_solve. cbn [mbind option_bind].
  rewrite (app_assoc (f ++ i) v), (memcpy_from_here 20 32 ((f ++ i) ++ v)) by len_solve.
  cbn [mbind option_bind].
  unfold f, i, v. rewrite !le_dec_enc by done. by rewrite Ef, Ec.
Qed.

(** ** Lemmas on versions *)

Lemma read_n_here n d r : zlen d = n -> read_n n (d ++ r) = Some (d, r).
Proof.
  intros <-. unfold read_n. test_false (zlen (d ++ r) <? zlen d).
  by rewrite sub_here, Nat2Z.id, drop_app_length.
Qed.

Definition version_wf (v : VersionRecord) : Prop :=
  in_width 64 (v_VersionId v) /\ - 2 ^ 31 <= v_DevNo v < 2 ^ 31 /\
  (zlen (v_VersionType v) <= 15 /\ Forall (fun x => 0 < x < 2 ^ 16) (v_VersionType v)) /\
  in_width 64 (v_SnapshotTime v) /\ in_width 64 (v_TotalBlocks v) /\
  in_width 64 (v_ChangedBlocks v) /\ in_width 64 (v_TotalSize v) /\
  in_width 64 (v_AckedBlocks v) /\ in_width 64 (v_CreateTimestamp v).

Lemma c_str_app_zero u r : Forall (fun x => 0 < x < 2 ^ 16) u -> c_str (u ++ 0 :: r) = u.
Proof.
  induction 1 as [|x u Hx Hu IH]; [done|]. cbn [app c_str].
  replace (x =? 0) with false by lia. by rewrite IH.
Qed.

Lemma c_str_nonzero u : Forall (fun x => 0 < x < 2 ^ 16) u -> c_str u = u.
Proof.
  induction 1 as [|x u Hx Hu IH]; [done|]. cbn [c_str].
  replace (x =? 0) with false by lia. by rewrite IH.
Qed.

(** Units written one after the other are read back by index. *)
Lemma read_units us pre :
  Forall (in_width 16) us ->
  map (fun i => rd_le (zlen pre + 2 * i) 2 (pre ++ concat (map (le_enc 2) us))) (seqZ 0 (zlen us)) = us.
Proof.
  intros Hu. revert pre. induction Hu as [|x us Hx Hu IH]; intros pre; [done|].
  cbn [map concat length]. rewrite seqZ_cons by lia. cbn [map]. f_equal.
  - rewrite rd_le_skip by lia. replace (zlen pre + 2 * 0 - zlen pre) with 0 by lia. by apply (rd_le_here 2).
  - replace (Z.pred (Z.of_nat (S (length us)))) with (zlen us) by lia.
    rewrite <- (IH (pre ++ le_enc 2 x)) at 2.
    rewrite <- (fmap_add_seqZ 1 0). change (Z.add 1 <$> ?l) with (map (Z.add 1) l). rewrite map_map.
    rewrite app_assoc. apply map_ext. intros i. rewrite length_app, le_enc_length. f_equal. lia.
Qed.

Lemma type_buf_roundtrip u :
  zlen u <= 15 -> Forall (fun x => 0 < x < 2 ^ 16) u ->
  zlen (type_buf u) = 32 /\ type_of_buf (type_buf u) = u.
Proof.
  intros Hl Hu. unfold type_buf, type_of_buf. rewrite c_str_nonzero, take_ge by (done || lia).
  set (us := u ++ zeros (16 - zlen u)).
  assert (zlen us = 16) as Hus by (unfold us; rewrite length_app, Nat2Z.inj_add, zeros_length; lia).
  assert (Forall (in_width 16) us) as Hw.
  { apply Forall_app. split; [eapply Forall_impl; [exact Hu|]; unfold in_width; cbn; lia|].
    apply Forall_replicate. unfold in_width. lia. }
  split.
  - assert (forall l, zlen (concat (map (le_enc 2) l)) = 2 * zlen l) as ->; [|lia].
    induction l as [|x l IH]; [done|]. cbn [map concat]. rewrite length_app, le_enc_length. cbn [length]. lia.
  - pose proof (read_units us [] Hw) as Hr. rewrite Hus in Hr. cbn [app length] in Hr.
    rewrite (map_ext _ (fun i => rd_le (0 + 2 * i) 2 (concat (map (le_enc 2) us)))) by (intros; f_equal; lia).
    change (Z.of_nat 0) with 0 in Hr. rewrite Hr. unfold us.
    assert (zeros (16 - zlen u) = 0 :: zeros (15 - zlen u)) as ->.
    { unfold zeros. by replace (Z.to_nat (16 - zlen u)) with (S (Z.to_nat (15 - zlen u))) by lia. }
    by apply c_str_app_zero.
Qed.

Lemma signed_wrap32 x : - 2 ^ 31 <= x < 2 ^ 31 -> s32 (u32 x) = x.
Proof.
  intros Hx. unfold signed, wrap. rewrite Z.mod_mod by lia. change (2 ^ (32 - 1)) with (2 ^ 31).
  destruct (Z.lt_ge_cases x 0).
  - replace (x mod 2 ^ 32) with (x + 2 ^ 32) by (apply Z.mod_unique with (-1); lia). case_if; lia.
  - rewrite Z.mod_small by lia. case_if; lia.
Qed.

Lemma read_version_here v r :
  version_wf v -> read_version (concat (version_chunks v) ++ r) = Some (v, r).
Proof.
  intros (H1 & H2 & (H3 & H3') & H4 & H5 & H6 & H7 & H8 & H9).
  destruct (type_buf_roundtrip _ H3 H3') as [Hl Ht].
  unfold version_chunks. cbn [concat]. rewrite app_nil_r, <- !app_assoc. unfold read_version.
  do 9 (rewrite read_n_here by (rewrite ?le_enc_length; done); cbn [mbind option_bind]).
  rewrite !le_dec_enc by (done || by apply (wrap_range 32)). rewrite signed_wrap32, Ht by done.
  by destruct v.
Qed.

Definition file_version_ok (kv : Z * VersionRecord) : Prop :=
  v_VersionId (snd kv) = fst kv /\ version_wf (snd kv) /\ fst kv < 2 ^ 64 - 1.

Lemma read_versions_ok vs acc next r :
  StronglySorted Z.lt (map fst vs) -> Forall file_version_ok vs ->
  Forall (fun k => k < next) (map fst acc) -> Forall (fun k => next <= k) (map fst vs) -> 0 <= next ->
  read_versions (length vs) (concat (concat (map (fun '(_, v) => version_chunks v) vs)) ++ r) acc next
  = (acc ++ vs, match last (map fst vs) with Some k => k + 1 | None => next end).
Proof.
  revert acc next. induction vs as [|[k v] vs IH]; intros acc next Hs Hok Hacc Hvs Hn.
  { cbn. by rewrite app_nil_r. }
  cbn [map fst] in Hs, Hvs. apply StronglySorted_inv in Hs as [Hs Hlt].
  apply Forall_cons_1 in Hok as [(Hk & Hwf & Hk64) Hok]. apply Forall_cons_1 in Hvs as [Hkn Hvs].
  cbn [fst snd] in *. cbn [length read_versions map concat]. rewrite concat_app, <- app_assoc.
  rewrite read_version_here, Hk by done. replace (next <=? k) with true by lia.
  rewrite wrap_small by (unfold in_width; lia).
  rewrite vm_set_fresh by (eapply Forall_impl; [exact Hacc|]; cbn; lia).
  rewrite IH.
  - rewrite <- app_assoc. cbn [map fst app]. f_equal. rewrite last_cons. by destruct (last (map fst vs)).
  - done.
  - done.
  - rewrite map_app. apply Forall_app. split; [eapply Forall_impl; [exact Hacc|]; cbn; lia|].
    constructor; [cbn; lia|constructor].
  - eapply Forall_impl; [exact Hlt|]. cbn. lia.
  - lia.
Qed.

(** ** Lemmas on saving *)

Lemma block_records_ok bs mem :
  Forall block_wf bs -> 52 <= zlen mem -> exists recs, block_records bs mem = Some recs.
Proof.
  intros Hbs. revert mem. induction Hbs as [|b bs Hb Hbs IH]; intros mem Hm; [by eexists|].
  cbn [block_records]. rewrite SerializeBlock_spec by done. cbn [mbind option_bind].
  destruct (IH (block_bytes b ++ drop 52 mem)) as [recs ->].
  - destruct Hb as (_ & _ & _ & Hh). unfold block_bytes. rewrite !length_app, !le_enc_length, length_drop. lia.
  - by eexists.
Qed.

Lemma SerializeBlock_short b mem : block_wf b -> zlen mem < 52 -> SerializeBlock b mem = None.
Proof.
  intros (_ & _ & _ & Hh) Hm. unfold SerializeBlock. destruct (memcpy_to 0 (zeros _) mem) as [m1|] eqn:E1; [|done].
  cbn [mbind option_bind]. destruct (memcpy_to 0 _ m1) as [m2|] eqn:E2; [|done]. cbn [mbind option_bind].
  destruct (memcpy_to 4 _ m2) as [m3|] eqn:E3; [|done]. cbn [mbind option_bind].
  destruct (memcpy_to 12 _ m3) as [m4|] eqn:E4; [|done]. cbn [mbind option_bind].
  apply memcpy_to_length in E1, E2, E3, E4. unfold memcpy_to. by test_false (20 + zlen (b_Hash b) <=? zlen m4).
Qed.

(** When [Save] leaves its memory: with the first block, unless four bytes behind
    the buffer take what is too much. *)
Lemma Save_overruns accept create_ok move_ok slack m file :
  Forall block_wf (m_blocks m) ->
  Save accept create_ok move_ok slack m file = None <->
  m_initialized m = true /\ create_ok = true /\ m_blocks m <> [] /\ zlen slack < 4.
Proof.
  intros Hb. unfold Save. destruct (m_initialized m); cbn [negb]; [|split; [done|by intros [? _]]].
  destruct create_ok; cbn [negb]; [|split; [done|by intros (_ & ? & _)]].
  assert (zlen (zeros BLOCK_RECORD_SIZE ++ slack) = 48 + zlen slack) as Hl.
  { rewrite length_app, Nat2Z.inj_add, zeros_length; unfold BLOCK_RECORD_SIZE; lia. }
  destruct (block_records (m_blocks m) _) as [recs|] eqn:E; cbn [mbind option_bind].
  - split; [by destruct move_ok|]. intros (_ & _ & Hne & Hs).
    destruct Hb as [|b bs Hb _]; [done|]. cbn [block_records] in E. by rewrite SerializeBlock_short in E by (done || lia).
  - split; [intros _|done]. split_and!; try done; [by intros Hn; rewrite Hn in E|].
    destruct (Z.lt_ge_cases (zlen slack) 4) as [|Hs]; [done|].
    destruct (block_records_ok (m_blocks m) (zeros BLOCK_RECORD_SIZE ++ slack) Hb) as [recs Hr]; [lia|congruence].
Qed.

Lemma Save_empty accept create_ok move_ok slack slack' m file :
  m_blocks m = [] -> Save accept create_ok move_ok slack m file = Save accept create_ok move_ok slack' m file.
Proof. intros Hn. unfold Save. by rewrite Hn. Qed.

Lemma write_all_healthy chunks k file :
  write_all (fun _ n => n) k chunks file = file ++ concat chunks.
Proof.
  revert k file. induction chunks as [|c chunks IH]; intros k file; cbn [write_all concat].
  - by rewrite app_nil_r.
  - by rewrite IH, Nat2Z.id, firstn_all, <- app_assoc.
Qed.

Lemma write_all_full k chunks file : write_all (fun _ _ => 0) k chunks file = file.
Proof.
  revert k file. induction chunks as [|c chunks IH]; intros k file; cbn [write_all]; [done|].
  by rewrite IH, app_nil_r.
Qed.

Lemma header_fields_length m : zlen (header_fields m) = 36.
Proof. unfold header_fields. by rewrite !length_app, !le_enc_length. Qed.

Lemma file_header_length m crc : zlen (file_header m crc) = 64.
Proof.
  unfold file_header. rewrite !length_app, le_enc_length, !Nat2Z.inj_add, header_fields_length.
  by rewrite zeros_length.
Qed.

Lemma header_total m r : in_width 64 (m_totalBlocks m) -> rd_le 24 8 (header_fields m ++ r) = m_totalBlocks m.
Proof.
  intros Ht. unfold header_fields. rewrite <- !app_assoc.
  do 5 (rewrite rd_le_skip by (rewrite le_enc_length; lia); rewrite le_enc_length).
  by apply (rd_le_here 8).
Qed.

(** What [Load] compares in a header that [Save] wrote. *)
Lemma header_crc m crc :
  in_width 32 crc ->
  rd_le 36 4 (file_header m crc) = crc /\
  sub 0 36 (file_header m crc) ++ zeros 4 ++ sub 40 24 (file_header m crc) = header_fields m ++ zeros 28.
Proof.
  intros Hc. pose proof (header_fields_length m) as Hl. unfold file_header. split.
  - rewrite rd_le_skip, Hl by lia. by apply (rd_le_here 4).
  - rewrite sub_here by done. rewrite sub_skip, Hl by lia.
    rewrite sub_skip by (rewrite le_enc_length; lia). rewrite le_enc_length.
    rewrite sub_all by (by rewrite zeros_length). done.
Qed.

(** The file [Save] leaves on a disk that accepts everything. *)
Lemma Save_healthy slack m file :
  m_initialized m = true -> Forall block_wf (m_blocks m) -> 4 <= zlen slack ->
  exists body, Save (fun _ n => n) true true slack m file
  = Some (true, set_dirty false m, Some (file_header m (ComputeCRC32 (header_fields m)) ++ body)).
Proof.
  intros Hi Hb Hs. unfold Save. rewrite Hi. cbn [negb].
  destruct (block_records_ok (m_blocks m) (zeros BLOCK_RECORD_SIZE ++ slack) Hb) as [recs ->].
  { rewrite length_app, Nat2Z.inj_add, zeros_length; unfold BLOCK_RECORD_SIZE; lia. }
  cbn [mbind option_bind]. rewrite write_all_healthy. cbn [app concat].
  rewrite take_ge by (pose proof (file_header_length m (ComputeCRC32 (header_fields m))); unfold HEADER_SIZE; lia).
  by eexists.
Qed.

Lemma ComputeCRC32_width data : in_width 32 (ComputeCRC32 data).
Proof. apply lxor_width; [lia|apply crc_loop_width|]; apply crc_start_width. Qed.

(** ** The properties *)

(** the records are larger than their buffer.  A record buffer has 48
    bytes, but writing a block and reading one copy 52, so both leave the
    buffer of the code.  When the memory behind it takes the four bytes, what
    is written and read back, 48 bytes in the file, is the block with the last
    four bytes of its hash replaced by what lies behind the reader's buffer. *)
Theorem block_record_overruns b slack slack' :
  block_wf b -> 4 <= zlen slack -> 4 <= zlen slack' ->
  SerializeBlock b (zeros BLOCK_RECORD_SIZE) = None /\
  (forall rec, zlen rec = BLOCK_RECORD_SIZE -> DeserializeBlock rec = None) /\
  exists mem, SerializeBlock b (zeros BLOCK_RECORD_SIZE ++ slack) = Some mem /\
    DeserializeBlock (take (Z.to_nat BLOCK_RECORD_SIZE) mem ++ slack')
    = Some {| b_BlockIndex := b_BlockIndex b; b_Offset := u64 (b_BlockIndex b * BLOCK_SIZE);
              b_Hash := take 28 (b_Hash b) ++ take 4 slack'; b_VersionId := b_VersionId b;
              b_Ack := b_Ack b; b_Changed := b_Changed b |}.
Proof.
  intros Hb Hs Hs'. pose proof Hb as (_ & _ & _ & Hh). unfold BLOCK_RECORD_SIZE. split; [|split].
  - unfold SerializeBlock, BLOCK_RECORD_SIZE.
    repeat match goal with
    | |- (memcpy_to ?o ?s ?m ≫= _) = None =>
        let E := fresh "E" in destruct (memcpy_to o s m) as [?|] eqn:E; [|done];
        apply memcpy_to_length in E; cbn [mbind option_bind]
    end.
    unfold memcpy_to. pose proof (zeros_length 48). case_if; [lia|done].
  - intros rec Hr. unfold DeserializeBlock, memcpy_from. by rewrite Hr.
  - rewrite SerializeBlock_spec by (done || (rewrite length_app; pose proof (zeros_length 48); lia)).
    eexists. split; [done|]. unfold block_bytes.
    rewrite <- (take_drop 28 (b_Hash b)) at 1. rewrite <- !app_assoc, (app_assoc (le_enc 4 _)), (app_assoc _ (le_enc 8 (b_VersionId b))), (app_assoc _ (take 28 _)).
    rewrite take_app_length' by (rewrite !length_app, !le_enc_length, length_take; lia).
    rewrite <- !app_assoc. rewrite <- (take_drop 4 slack') at 1. rewrite (app_assoc (take 28 _)).
    apply DeserializeBlock_spec; [done|]. rewrite length_app, !length_take. lia.
Qed.

(** the version table.  The versions of a manager, written one after the
    other, are read back as the same table, and the next identifier follows
    the last one. *)
Theorem version_table_roundtrip m r :
  versions_ok m -> Forall (fun '(_, v) => version_wf v /\ v_VersionId v < 2 ^ 64 - 1) (m_versions m) ->
  read_versions (length (m_versions m))
    (concat (concat (map (fun '(_, v) => version_chunks v) (m_versions m))) ++ r) [] 0
  = (m_versions m, match last (map fst (m_versions m)) with Some k => k + 1 | None => 0 end).
Proof.
  intros (Hs & _ & Hid) Hwf.
  assert (Forall file_version_ok (m_versions m)) as Hok.
  { rewrite Forall_forall in Hid, Hwf |- *. intros [k v] Hin.
    pose proof (Hid _ Hin) as E. destruct (Hwf _ Hin) as [? ?]. cbv beta iota in E. subst k. done. }
  apply read_versions_ok; [done|done|constructor| |done].
  rewrite Forall_map. eapply Forall_impl; [exact Hok|]. intros [k v] (E & (Hv & _) & _).
  cbn [fst snd] in *. unfold in_width in Hv. lia.
Qed.

(** [Load] on a file that a healthy [Save] wrote. *)
Lemma saved_state_rejected slack slack' max_size m m0 file devNo :
  m_initialized m = true -> Forall block_wf (m_blocks m) -> in_width 64 (m_totalBlocks m) ->
  4 <= zlen slack ->
  let r := crc_loop 0xFFFFFFFF (header_fields m) in
  crc_loop r (zeros 28) <> r ->
  exists saved, Save (fun _ n => n) true true slack m file = Some (true, set_dirty false m, Some saved) /\
    Initialize max_size slack' devNo (Some saved) m0
    = Loaded true (set_total (m_totalBlocks m)
        {| m_initialized := true; m_dirty := m_dirty m0; m_devNo := devNo;
           m_totalBlocks := m_totalBlocks m0; m_blocks := m_blocks m0;
           m_versions := m_versions m0; m_nextVersionId := m_nextVersionId m0 |}).
Proof.
  intros Hi Hb Ht Hs r Hr. destruct (Save_healthy slack m file Hi Hb Hs) as [body E].
  eexists. split; [exact E|]. set (crc := ComputeCRC32 (header_fields m)) in *.
  destruct (header_crc m crc (ComputeCRC32_width _)) as [H1 H2].
  unfold Initialize, Load. rewrite read_n_here by apply file_header_length.
  rewrite H1, H2. assert (rd_le 24 8 (file_header m crc) = m_totalBlocks m) as ->
    by (unfold file_header; by apply header_total).
  replace (crc =? ComputeCRC32 (header_fields m ++ zeros 28)) with false; [done|].
  symmetry. apply Z.eqb_neq. unfold crc, ComputeCRC32, crc_loop. rewrite fold_left_app.
  intros Ecrc. apply lxor_cancel_r in Ecrc. by apply Hr.
Qed.

(** C28: a saved state is not loaded.  [Save] on a disk that accepts everything
    reports success and clears the dirty flag.  [Load] computes the checksum
    over more bytes than [Save] did; so unless the 28 zero bytes it takes in
    addition happen to leave the checksum register as it was, the next
    [Initialize] ignores the file: apart from the number of blocks the
    manager is as without one. *)
Theorem saved_state_not_loaded slack slack' max_size m m0 file devNo :
  m_initialized m = true -> Forall block_wf (m_blocks m) -> in_width 64 (m_totalBlocks m) ->
  4 <= zlen slack ->
  let r := crc_loop 0xFFFFFFFF (header_fields m) in
  crc_loop r (zeros 28) <> r ->
  exists saved, Save (fun _ n => n) true true slack m file = Some (true, set_dirty false m, Some saved) /\
    Initialize max_size slack' devNo (Some saved) m0
    = Loaded true (set_total (m_totalBlocks m)
        {| m_initialized := true; m_dirty := m_dirty m0; m_devNo := devNo;
           m_totalBlocks := m_totalBlocks m0; m_blocks := m_blocks m0;
           m_versions := m_versions m0; m_nextVersionId := m_nextVersionId m0 |}).
Proof. apply saved_state_rejected. Qed.

(** Write errors are ignored.  When the disk is full and no call of
    [WriteFile] writes anything, [Save] still reports success, and the old
    state file has been replaced by an empty one. *)
Theorem Save_ignores_write_errors slack m file :
  m_initialized m = true -> Forall block_wf (m_blocks m) -> 4 <= zlen slack ->
  Save (fun _ _ => 0) true true slack m file = Some (true, set_dirty false m, Some []).
Proof.
  intros Hi Hb Hs. unfold Save. rewrite Hi. cbn [negb].
  destruct (block_records_ok (m_blocks m) (zeros BLOCK_RECORD_SIZE ++ slack) Hb) as [recs ->].
  { rewrite length_app, Nat2Z.inj_add, zeros_length; unfold BLOCK_RECORD_SIZE; lia. }
  cbn [mbind option_bind]. by rewrite write_all_full.
Qed.

(** ** Examples *)

Definition demo_block : BlockState :=
  {| b_BlockIndex := 3; b_Offset := 3 * BLOCK_SIZE; b_Hash := replicate 32 7; b_VersionId := 1;
     b_Ack := Acknowledged; b_Changed := true |}.
Definition demo_record : VersionRecord :=
  {| v_VersionId := 1; v_DevNo := 0; v_VersionType := [70; 85]; v_SnapshotTime := 5; v_TotalBlocks := 1;
     v_ChangedBlocks := 1; v_TotalSize := 9; v_AckedBlocks := 1; v_CreateTimestamp := 6 |}.
Definition demo_state : Manager :=
  {| m_initialized := true; m_dirty := true; m_devNo := 0; m_totalBlocks := 1;
     m_blocks := [demo_block]; m_versions := [(1, demo_record)]; m_nextVersionId := 2 |}.

Lemma state_block_wf : block_wf demo_block.
Proof. unfold block_wf. evaluate. Qed.

Lemma block_record_overruns_witness :
  exists mem, SerializeBlock demo_block (zeros 48 ++ [1; 2; 3; 4]) = Some mem /\
    DeserializeBlock (take 48 mem ++ [9; 9; 9; 9])
    = Some (set_Hash (replicate 28 7 ++ [9; 9; 9; 9]) demo_block).
Proof.
  apply (block_record_overruns demo_block [1; 2; 3; 4] [9; 9; 9; 9] state_block_wf); cbn; lia.
Defined.

Lemma version_table_roundtrip_witness :
  read_versions 1 (concat (concat (map (fun '(_, v) => version_chunks v) [(1, demo_record)])) ++ [5]) [] 0
  = ([(1, demo_record)], 2).
Proof.
  apply (version_table_roundtrip demo_state [5]).
  - split; [repeat constructor|]. split; [by repeat constructor|by repeat constructor].
  - constructor; [|constructor]. split; [|by vm_compute]. unfold version_wf.
    do 2 (split; [by vm_compute|]). split; [split; [by vm_compute|evaluate]|].
    do 5 (split; [by vm_compute|]). by vm_compute.
Defined.

Lemma saved_state_not_loaded_witness :
  exists saved, Save (fun _ n => n) true true (zeros 4) demo_state None
                = Some (true, set_dirty false demo_state, Some saved) /\
    Initialize 1000 (zeros 4) 0 (Some saved) Manager_new
    = Loaded true (set_total 1 {| m_initialized := true; m_dirty := false; m_devNo := 0;
                                  m_totalBlocks := 0; m_blocks := []; m_versions := [];
                                  m_nextVersionId := 0 |}).
Proof.
  apply (saved_state_not_loaded (zeros 4) (zeros 4) 1000 demo_state Manager_new None 0).
  - done.
  - constructor; [exact state_block_wf|constructor].
  - evaluate.
  - vm_compute. discriminate.
  - vm_compute. discriminate.
Defined.

Lemma Save_ignores_write_errors_witness :
  Save (fun _ _ => 0) true true (zeros 4) demo_state (Some [1; 2; 3])
  = Some (true, set_dirty false demo_state, Some []).
Proof.
  apply Save_ignores_write_errors; [done| |vm_compute; discriminate].
  constructor; [exact state_block_wf|constructor].
Defined.
