(* ===== verification/StateInv.v ===== *)
(** * Well-formed block states

    The type of a [BlockStateManager]'s state: what holds of every manager the
    program can build, whatever operations it calls.  [StateFile] needs it of
    the managers it saves; [BlockStateManager] gives the operations. *)

From S2P Require Import Prelude.
From S2P Require Import BlockHasher.
From S2P Require Import BlockStateManager.
From S2P Require Import StateFile.

(** ** The invariant *)

(** The block at a place: its own index and offset, and fields of their types. *)
Definition block_at (i : nat) (b : BlockState) : Prop :=
  b_BlockIndex b = Z.of_nat i /\ b_Offset b = u64 (Z.of_nat i * BLOCK_SIZE) /\ block_wf b.

(** Blocks and versions together: every block belongs to a recorded version. *)
Definition tables_typed (p : list BlockState * vmap) : Prop :=
  (forall i b, fst p !! i = Some b -> block_at i b /\ is_Some (vm_find (b_VersionId b) (snd p))) /\
  Forall (fun kv => version_wf (snd kv)) (snd p).

Record Manager_typed (m : Manager) : Prop := {
  mt_versions : versions_ok m;
  mt_next : in_width 64 (m_nextVersionId m);
  mt_devNo : - 2 ^ 31 <= m_devNo m < 2 ^ 31;
  mt_total : in_width 64 (m_totalBlocks m);
  mt_length : m_blocks m = [] \/ zlen (m_blocks m) = m_totalBlocks m;
  mt_tables : tables_typed (m_blocks m, m_versions m) }.

(** The operations, with arguments of their types. *)
Inductive state_op :=
| OpCreate (type : list Z) (snap total size now : Z)
| OpManage (o : mgr_op).
Definition run_state_op (m : Manager) (o : state_op) : Manager :=
  match o with
  | OpCreate type snap total size now => snd (CreateVersion type snap total size now m)
  | OpManage o => run_mgr_op o m
  end.
Definition run_state_ops (ops : list state_op) (m : Manager) : Manager := fold_left run_state_op ops m.

Definition hash_typed (h : list Z) : Prop := zlen h = 32.
Definition status_typed (st : Z) : Prop := Pending <= st <= Skipped.
Definition op_typed (o : state_op) : Prop :=
  match o with
  | OpCreate type snap total size now =>
      (zlen type <= 15 /\ Forall (fun x => 0 < x < 2 ^ 16) type) /\
      in_width 64 snap /\ in_width 64 total /\ in_width 64 size /\ in_width 64 now
  | OpManage (OpInitFull _ mf) =>
      in_width 64 (m_TotalBlocks mf) /\ Forall (fun e => hash_typed (e_Hash e)) (m_Entries mf)
  | OpManage (OpInitEmpty _ total) => in_width 64 total
  | OpManage (OpSetHash _ h) => hash_typed h
  | OpManage (OpUpdate _ _ hashes) => Forall (fun e => hash_typed (e_Hash e)) hashes
  | OpManage (OpAck o) => status_typed (status_of o)
  end.

(** The versions a sequence of operations creates. *)
Definition creates (ops : list state_op) : Z :=
  zlen (filter (fun o => match o with OpCreate _ _ _ _ _ => true | _ => false end = true) ops).

(** ** The tables *)

Lemma find_set_some k k' v vs : is_Some (vm_find k vs) -> is_Some (vm_find k (vm_set k' v vs)).
Proof. rewrite vm_find_set. by destruct (k =? k'). Qed.

Lemma set_typed k v vs :
  version_wf v -> Forall (fun kv => version_wf (snd kv)) vs -> Forall (fun kv => version_wf (snd kv)) (vm_set k v vs).
Proof.
  intros Hv. induction 1 as [|[k1 v1] vs H1 Hvs IH]; cbn [vm_set]; [by apply Forall_singleton|].
  destruct (k <? k1); [by do 2 (constructor; [done|])|]. destruct (k =? k1); by constructor.
Qed.

Lemma find_typed k v vs : vm_find k vs = Some v -> Forall (fun kv => version_wf (snd kv)) vs -> version_wf v.
Proof. intros Hf Hv. rewrite Forall_forall in Hv. by apply (Hv _ (vm_find_elem _ _ _ Hf)). Qed.

Lemma counts_typed c a v : version_wf v -> in_width 64 c -> in_width 64 a -> version_wf (set_counts c a v).
Proof. intros (? & ? & ? & ? & ? & _ & ? & _ & ?) Hc Ha. unfold version_wf. do 8 (split; [done|]). done. Qed.

(** Replacing a version's counts, and a block in its place. *)
Lemma tables_set_version bs vs k v c a :
  tables_typed (bs, vs) -> vm_find k vs = Some v -> in_width 64 c -> in_width 64 a ->
  tables_typed (bs, vm_set k (set_counts c a v) vs).
Proof.
  intros [Hb Hv] Hf Hc Ha. split; cbn [fst snd] in *.
  - intros i b Hi. destruct (Hb i b Hi). split; [done|by apply find_set_some].
  - apply set_typed; [|done]. apply counts_typed; [by eapply find_typed|done..].
Qed.

Lemma tables_set_block bs vs i b b' :
  tables_typed (bs, vs) -> bs !! i = Some b -> (block_at i b -> block_at i b') ->
  is_Some (vm_find (b_VersionId b') vs) -> tables_typed (<[i := b']> bs, vs).
Proof.
  intros [Hb Hv] Hi Hat Hown. split; cbn [fst snd] in *; [|done]. intros j c Hj.
  destruct (decide (i = j)) as [<-|Hne].
  - rewrite list_lookup_insert_eq in Hj by (by eapply lookup_lt_Some). injection Hj as <-.
    split; [apply Hat, (Hb _ _ Hi)|done].
  - rewrite list_lookup_insert_ne in Hj by done. by apply Hb.
Qed.

(** A block with other fields of their types is at the same place. *)
Lemma block_at_change i b b' :
  b_BlockIndex b' = b_BlockIndex b -> b_Offset b' = b_Offset b -> in_width 64 (b_VersionId b') ->
  0 <= b_Ack b' <= 7 -> hash_typed (b_Hash b') -> block_at i b -> block_at i b'.
Proof.
  intros E1 E2 Hv Ha Hh (Hi & Ho & Hw & _). unfold block_at, block_wf. rewrite E1, E2.
  split; [done|]. split; [done|]. split; [done|]. split; [done|]. by split.
Qed.

Lemma block_at_Ack i b st : status_typed st -> block_at i b -> block_at i (set_Ack st b).
Proof.
  intros Hst Hat. pose proof Hat as (_ & _ & _ & Hv & _ & Hh). apply (block_at_change i b); try done.
  unfold status_typed, Pending, Skipped in Hst. cbn. lia.
Qed.
Lemma block_at_Hash i b h : hash_typed h -> block_at i b -> block_at i (set_Hash h b).
Proof. intros Hh Hat. pose proof Hat as (_ & _ & _ & Hv & Ha & _). by apply (block_at_change i b). Qed.
Lemma block_at_unchanged i b : block_at i b -> block_at i (mark_unchanged b).
Proof. intros Hat. pose proof Hat as (_ & _ & _ & Hv & _ & Hh). by apply (block_at_change i b). Qed.
Lemma block_at_changed i b vid h : in_width 64 vid -> hash_typed h -> block_at i b -> block_at i (mark_changed vid h b).
Proof. intros Hv Hh. by apply block_at_change. Qed.

Lemma block_in_width i b bs vs : tables_typed (bs, vs) -> bs !! i = Some b -> in_width 64 (b_VersionId b).
Proof. intros [Hb _] Hi. by destruct (Hb i b Hi) as [(_ & _ & _ & ? & _) _]. Qed.

(** *** Acknowledgements *)

Lemma ack_block_typed i st p : status_typed st -> tables_typed p -> tables_typed (ack_block i st p).
Proof.
  intros Hst. destruct p as [bs vs]. intros Hp. unfold ack_block. destruct (bs !! _) as [b|] eqn:Hi; [|done].
  assert (is_Some (vm_find (b_VersionId b) vs)) as Hown by (by apply Hp in Hi as [_ ?]).
  assert (tables_typed (<[Z.to_nat i := set_Ack st b]> bs, vs)) as Hp'.
  { eapply tables_set_block; [done|done|by apply block_at_Ack|done]. }
  unfold count_ack. case_match; [|done]. destruct (vm_find (b_VersionId b) vs) as [ver|] eqn:Ev; [|done].
  apply tables_set_version; [done|done| |by apply wrap_range].
  destruct Hp as [_ Hv]. by apply (find_typed _ _ _ Ev) in Hv as (? & ? & ? & ? & ? & ? & _).
Qed.

Lemma ack_steps_typed steps p :
  Forall (fun s => status_typed (snd s)) steps -> tables_typed p -> tables_typed (ack_steps steps p).
Proof.
  intros Hs. revert p. induction Hs as [|[i st] steps Hst _ IH]; intros p Hp; [done|].
  change (ack_steps ((i, st) :: steps) p) with (ack_steps steps (ack_block i st p)). by apply IH, ack_block_typed.
Qed.

Lemma steps_of_typed o n : status_typed (status_of o) -> Forall (fun s => status_typed (snd s)) (steps_of o n).
Proof.
  destruct o as [i st|s c st|l st]; cbn [status_of steps_of]; intros Hst; [by apply Forall_singleton|..];
    apply Forall_map, Forall_forall; done.
Qed.

(** *** Incremental updates *)

Lemma mark_loop_typed vid changed bs vs count :
  in_width 64 vid -> is_Some (vm_find vid vs) -> Forall (fun e => hash_typed (snd e)) changed ->
  in_width 64 count -> tables_typed (bs, vs) ->
  let '(bs', count') := mark_loop vid changed bs count in
  tables_typed (bs', vs) /\ in_width 64 count' /\ length bs' = length bs.
Proof.
  intros Hvid Hown Hh. revert bs count. induction Hh as [|[i h] changed Hi _ IH]; intros bs count Hc Hp;
    cbn [mark_loop]; [done|].
  destruct (bs !! Z.to_nat i) as [b|] eqn:Eb; [|by apply IH].
  specialize (IH (<[Z.to_nat i := mark_changed vid h b]> bs) (u64 (count + 1))).
  destruct (mark_loop _ _ _ _) as [bs' count']. rewrite length_insert in IH. apply IH; [by apply wrap_range|].
  eapply tables_set_block; [done|done|by apply block_at_changed|done].
Qed.

Lemma unchanged_typed bs vs : tables_typed (bs, vs) -> tables_typed (map mark_unchanged bs, vs).
Proof.
  intros [Hb Hv]. split; [|done]. intros i b. cbn [fst snd] in *. change (@map) with (@fmap list _).
  intros Hi. apply list_lookup_fmap_Some in Hi as (c & -> & Hc). apply Hb in Hc as [Hat Hown].
  split; [by apply block_at_unchanged|done].
Qed.

(** *** First blocks *)

Lemma fresh_blocks_typed vid total hash vs :
  in_width 64 vid -> in_width 64 total -> (forall i, hash_typed (hash i)) -> is_Some (vm_find vid vs) ->
  Forall (fun kv => version_wf (snd kv)) vs ->
  tables_typed (map (fun i => fresh_block vid (hash i) i) (seqZ 0 total), vs).
Proof.
  intros Hvid Ht Hh Hown Hv. split; [|done]. cbn [fst snd]. intros i b Hi.
  change (@map) with (@fmap list _) in Hi. apply list_lookup_fmap_Some in Hi as (k & -> & Hk).
  apply lookup_seqZ in Hk as [-> Hk]. rewrite Z.add_0_l. unfold in_width in *.
  split; [|done]. split; [done|]. split; [done|]. split; [cbn; unfold in_width; lia|]. split; [done|].
  split; [cbn; unfold Pending; lia|apply Hh].
Qed.

(** ** The managers *)

(** The operations that leave the number of the disk and the next identifier
    alone, as a change of the tables. *)
Lemma typed_modified m total bs vs :
  Manager_typed m -> versions_ok (modified total bs vs m) -> tables_typed (bs, vs) -> in_width 64 total ->
  bs = [] \/ zlen bs = total -> Manager_typed (modified total bs vs m).
Proof. intros [_ Hn Hd _ _ _] Hok Ht Htot Hlen. by constructor. Qed.

Lemma init_typed vid total hash m :
  Manager_typed m -> in_width 64 total -> (forall i, hash_typed (hash i)) ->
  Manager_typed (snd (init_blocks vid total hash m)).
Proof.
  intros Hm Ht Hh. unfold init_blocks. destruct (vm_find vid _) as [ver|] eqn:Ev; [|done]. cbn [snd].
  pose proof (mt_versions m Hm) as Hok. destruct (mt_tables m Hm) as [_ Hv]. cbn [snd] in Hv.
  pose proof (find_typed _ _ _ Ev Hv) as Hw. pose proof Hw as (Hvid & _ & _ & _ & _ & _ & _ & Hack & _).
  assert (v_VersionId ver = vid) as E.
  { destruct Hok as (_ & _ & Hid). rewrite Forall_forall in Hid. apply (Hid _ (vm_find_elem _ _ _ Ev)). }
  rewrite E in Hvid. apply typed_modified; [done| | |done|].
  - by apply (versions_ok_set m _ vid (set_counts total (v_AckedBlocks ver) ver) ver).
  - apply fresh_blocks_typed; [done|done|done| |].
    + rewrite vm_find_set, Z.eqb_refl. by eexists.
    + apply set_typed; [by apply counts_typed|done].
  - right. rewrite length_map, length_seqZ. unfold in_width in Ht. lia.
Qed.

Lemma update_typed vid changed hashes m :
  Manager_typed m -> Forall (fun e => hash_typed (e_Hash e)) hashes ->
  Manager_typed (snd (UpdateIncrementalBlocks vid changed hashes m)).
Proof.
  intros Hm Hh. unfold UpdateIncrementalBlocks. destruct (negb _); [done|].
  destruct (m_blocks m) as [|b0 bs0] eqn:Eb; [done|]. rewrite <- Eb.
  destruct (vm_find vid _) as [ver|] eqn:Ev; [|done]. pose proof (mt_versions m Hm) as Hok.
  pose proof (find_typed _ _ _ Ev (proj2 (mt_tables m Hm))) as (Hvid & _).
  assert (v_VersionId ver = vid) as E.
  { destruct Hok as (_ & _ & Hid). rewrite Forall_forall in Hid. apply (Hid _ (vm_find_elem _ _ _ Ev)). }
  rewrite E in Hvid.
  pose proof (mark_loop_typed vid (zip changed (map e_Hash hashes)) (map mark_unchanged (m_blocks m))
    (m_versions m) 0 Hvid (ex_intro _ _ Ev)) as Hl.
  destruct (mark_loop _ _ _ _) as [bs count]. destruct Hl as (Ht & Hc & Hlen).
  { apply Forall_forall. intros [i h] Hin%elem_of_zip_r. change (@map) with (@fmap list _) in Hin.
    apply list_elem_of_fmap in Hin as (e & -> & He). rewrite Forall_forall in Hh. by apply Hh. }
  { unfold in_width. lia. }
  { apply unchanged_typed, Hm. }
  cbn [snd]. apply typed_modified; [done| | |apply Hm|].
  - by apply (versions_ok_set m _ vid (set_counts count 0 ver) ver).
  - apply tables_set_version; [done|done|done|unfold in_width; lia].
  - right. rewrite Hlen, length_map. destruct (mt_length m Hm) as [H0|H0]; [by rewrite H0 in Eb|done].
Qed.

Lemma ack_op_total o m :
  m_totalBlocks (run_ack_op o m) = m_totalBlocks m /\ m_devNo (run_ack_op o m) = m_devNo m.
Proof.
  assert (forall i st m, m_totalBlocks (snd (SetBlockAck i st m)) = m_totalBlocks m /\
    m_devNo (snd (SetBlockAck i st m)) = m_devNo m) as Hone.
  { intros i st m0. unfold SetBlockAck. destruct (m_blocks m0 !! _); [|done]. by destruct (ack_block _ _ _). }
  destruct o as [i st|s c st|l st]; cbn [run_ack_op]; [apply Hone| |].
  - unfold SetBlockAckRange. by destruct (fold_left _ _ _).
  - unfold SetBlockAckList. cbn [snd]. revert m. induction l as [|i l IH]; intros m; cbn [fold_left]; [done|].
    destruct (IH (snd (SetBlockAck i st m))) as [-> ->]. apply Hone.
Qed.

Lemma ack_typed o m : Manager_typed m -> status_typed (status_of o) -> Manager_typed (run_ack_op o m).
Proof.
  intros Hm Hst. pose proof (run_ack_op_steps o m) as Hs. cbv zeta in Hs.
  set (steps := steps_of o _) in Hs. destruct (run_mgr_op_keeps (OpAck o) m (mt_versions m Hm)) as [Hok _].
  pose proof (ack_steps_typed steps _ (steps_of_typed o _ Hst) (mt_tables m Hm)) as Ht.
  pose proof (ack_steps_length steps (m_blocks m, m_versions m)) as Hl.
  rewrite <- Hs in Ht, Hl. cbn [fst] in Hl. destruct (ack_op_total o m) as [Et Ed]. cbn [run_mgr_op] in Hok.
  constructor; [done|rewrite run_ack_op_next; apply Hm|rewrite Ed; apply Hm|rewrite Et; apply Hm| |done].
  rewrite Et. destruct (mt_length m Hm) as [H0|H0]; [left|right; lia].
  apply nil_length_inv. by rewrite Hl, H0.
Qed.

Lemma set_hash_typed i h m : Manager_typed m -> hash_typed h -> Manager_typed (snd (SetBlockHash i h m)).
Proof.
  intros Hm Hh. unfold SetBlockHash. destruct (m_blocks m !! _) as [b|] eqn:Eb; [|done]. cbn [snd].
  apply typed_modified; [done|apply Hm| |apply Hm|].
  - eapply tables_set_block; [apply Hm|done|by apply block_at_Hash|].
    by apply (proj1 (mt_tables m Hm)) in Eb as [_ ?].
  - rewrite length_insert. destruct (mt_length m Hm) as [H0|H0]; [|by right]. by rewrite H0 in Eb.
Qed.

Lemma create_typed type snap total size now m :
  Manager_typed m -> op_typed (OpCreate type snap total size now) -> m_nextVersionId m < 2 ^ 64 - 1 ->
  Manager_typed (snd (CreateVersion type snap total size now m)) /\
  m_nextVersionId (snd (CreateVersion type snap total size now m)) = m_nextVersionId m + 1.
Proof.
  intros Hm (Hty & Hsn & Hto & Hsi & Hno) Hn. pose proof (mt_next m Hm) as Hw. unfold in_width in Hw.
  assert (versions_ok (snd (CreateVersion type snap total size now m))) as Hok.
  { pose proof (mt_versions m Hm) as (Hs & Hlt & Hid). unfold CreateVersion, versions_ok. cbn [snd v_VersionId m_versions m_nextVersionId].
    rewrite vm_set_fresh, wrap_small, map_app by (done || (unfold in_width; lia)). cbn [map fst].
    split; [by apply StronglySorted_snoc|]. split; apply Forall_app; (split; [|by apply Forall_singleton; cbn; lia]); [|done].
    eapply Forall_impl; [exact Hlt|]. cbn. lia. }
  split; [|by apply wrap_small; unfold in_width; lia].
  constructor; [done| |apply Hm|apply Hm|apply Hm|].
  - by apply wrap_range.
  - destruct (mt_tables m Hm) as [Hb Hv]. unfold CreateVersion. cbn [snd fst m_blocks m_versions v_VersionId].
    split; cbn [snd fst] in *.
    + intros i b Hi. destruct (Hb i b Hi). split; [done|by apply find_set_some].
    + apply set_typed; [|done]. unfold version_wf. cbn. pose proof (mt_devNo m Hm).
      do 8 (split; [done || (unfold in_width; lia)|]). done.
Qed.

Lemma creates_nonneg ops : 0 <= creates ops.
Proof. unfold creates. lia. Qed.

Lemma manage_typed o m : Manager_typed m -> op_typed (OpManage o) ->
  Manager_typed (run_mgr_op o m) /\ m_nextVersionId (run_mgr_op o m) = m_nextVersionId m.
Proof.
  intros Hm Ho. destruct o as [vid mf|vid total|i h|vid changed hashes|o]; cbn [run_mgr_op op_typed] in *.
  - destruct Ho as [Ht Hh]. split.
    + apply init_typed; [done|done|]. intros i. destruct (m_Entries mf !! _) as [e|] eqn:Ee; [|done].
      rewrite Forall_forall in Hh. apply Hh. by eapply list_elem_of_lookup_2.
    + unfold InitFullBlocks, init_blocks. by destruct (vm_find _ _).
  - split; [by apply init_typed|]. unfold InitFullBlocksEmpty, init_blocks. by destruct (vm_find _ _).
  - split; [by apply set_hash_typed|]. unfold SetBlockHash. by destruct (m_blocks m !! _).
  - split; [by apply update_typed|]. unfold UpdateIncrementalBlocks. destruct (negb _); [done|].
    destruct (m_blocks m); [done|]. destruct (vm_find _ _); [|done]. by destruct (mark_loop _ _ _ _).
  - split; [by apply ack_typed|apply run_ack_op_next].
Qed.

Lemma run_typed ops m :
  Manager_typed m -> Forall op_typed ops -> m_nextVersionId m + creates ops < 2 ^ 64 ->
  Manager_typed (run_state_ops ops m) /\ m_nextVersionId (run_state_ops ops m) = m_nextVersionId m + creates ops.
Proof.
  revert m. induction ops as [|o ops IH]; intros m Hm Ho Hn; [by change (creates []) with 0; rewrite Z.add_0_r|].
  apply Forall_cons_1 in Ho as [Ho Hops]. cbn [run_state_ops fold_left].
  pose proof (creates_nonneg ops) as H0. unfold creates in Hn, H0 |- *. rewrite filter_cons in Hn |- *.
  destruct o as [type snap total size now|o].
  - rewrite decide_True in Hn |- * by done. cbn [length] in Hn |- *.
    destruct (create_typed type snap total size now m Hm Ho ltac:(lia)) as [Hm' En].
    destruct (IH _ Hm' Hops ltac:(cbn [run_state_op]; rewrite En; unfold creates; lia)) as [? En'].
    split; [done|]. refine (eq_trans En' _). cbn [run_state_op]. rewrite En. unfold creates. lia.
  - rewrite decide_False in Hn |- * by done. destruct (manage_typed o m Hm Ho) as [Hm' En].
    destruct (IH _ Hm' Hops ltac:(cbn [run_state_op]; rewrite En; unfold creates; lia)) as [? En'].
    split; [done|]. refine (eq_trans En' _). cbn [run_state_op]. by rewrite En.
Qed.

(** A new manager, and one whose file was absent or rejected. *)
Lemma empty_typed init dirty devNo total :
  - 2 ^ 31 <= devNo < 2 ^ 31 -> in_width 64 total ->
  Manager_typed {| m_initialized := init; m_dirty := dirty; m_devNo := devNo; m_totalBlocks := total;
                   m_blocks := []; m_versions := []; m_nextVersionId := 0 |}.
Proof. intros Hd Ht. constructor; try done; [split; [|split]; constructor|by left]. Qed.

(** ** The property *)

(** C12: the type of the block states.  Starting from a new manager or any other
    well-formed one, any sequence of operations with arguments of their types -
    creating versions, setting up, updating and acknowledging blocks, with
    indexes in or out of range and versions that exist or not - keeps it well
    formed: every block stands at its index with the offset of its place, a
    status of the enumeration, a hash of 32 bytes and a version that is
    recorded; the versions are in order with fields of their widths, and their
    identifiers are not used twice.  Saving such a manager goes wrong in one way:
    with a block and without four more bytes of memory behind the buffer of 48 -
    the code has none - it writes behind the buffer; otherwise, on a disk that
    takes every byte, it succeeds. *)
Theorem manager_well_typed m ops :
  Manager_typed m -> Forall op_typed ops -> m_nextVersionId m + creates ops < 2 ^ 64 ->
  let m' := run_state_ops ops m in
  Manager_typed m' /\ m_nextVersionId m' = m_nextVersionId m + creates ops /\
  (forall i b, m_blocks m' !! i = Some b ->
     block_at i b /\ v_VersionId (GetVersion (b_VersionId b) m') = b_VersionId b) /\
  forall slack file,
    (forall accept create_ok move_ok, Save accept create_ok move_ok slack m' file = None <->
       m_initialized m' = true /\ create_ok = true /\ m_blocks m' <> [] /\ zlen slack < 4) /\
    (m_initialized m' = true -> m_blocks m' = [] \/ 4 <= zlen slack ->
     exists saved, Save (fun _ n => n) true true slack m' file = Some (true, set_dirty false m', Some saved)).
Proof.
  intros Hm Hops Hn m'. destruct (run_typed ops m Hm Hops Hn) as [Hm' En]. fold m' in Hm', En.
  pose proof (mt_versions m' Hm') as (_ & _ & Hid).
  pose proof (mt_tables m' Hm') as [Hb _]. cbn [fst snd] in Hb.
  assert (Forall block_wf (m_blocks m')) as Hwf.
  { apply Forall_lookup_2. intros i b Hi. by destruct (Hb i b Hi) as [(_ & _ & ?) _]. }
  split; [done|]. split; [done|]. split; [|intros slack file; split].
  - intros i b Hi. destruct (Hb i b Hi) as [Hat [v Hf]]. split; [done|]. unfold GetVersion. rewrite Hf.
    rewrite Forall_forall in Hid. apply (Hid _ (vm_find_elem _ _ _ Hf)).
  - intros accept create_ok move_ok. by apply Save_overruns.
  - intros Hi [Hnil|Hs].
    + rewrite (Save_empty _ _ _ slack (zeros 4)) by done. by destruct (Save_healthy (zeros 4) m' file Hi Hwf) as [? ?]; [|eexists].
    + by destruct (Save_healthy slack m' file Hi Hwf Hs) as [? ?]; eexists.
Qed.

(** ** A backup of two blocks *)

Definition demo_state_ops : list state_op :=
  [OpCreate [70; 85; 76; 76] 1 2 2097152 1; OpManage (OpInitEmpty 0 2); OpManage (OpSetHash 1 (replicate 32 9));
   OpManage (OpAck (AckRange 0 5 Acknowledged)); OpManage (OpInitEmpty 7 9)].

(** An initialised manager without blocks. *)
Definition demo_opened : Manager :=
  {| m_initialized := true; m_dirty := false; m_devNo := 0; m_totalBlocks := 0; m_blocks := [];
     m_versions := []; m_nextVersionId := 0 |}.

Lemma manager_well_typed_witness :
  let m' := run_state_ops demo_state_ops demo_opened in
  Manager_typed m' /\ m_nextVersionId m' = 1 /\ zlen (m_blocks m') = 2 /\
  Save (fun _ n => n) true true [] m' None = None /\
  exists saved, Save (fun _ n => n) true true (zeros 4) m' None = Some (true, set_dirty false m', Some saved).
Proof.
  destruct (manager_well_typed demo_opened demo_state_ops) as (Hm & Hn & _ & Hs).
  - by apply empty_typed.
  - unfold demo_state_ops. repeat (constructor; [evaluate|]). constructor.
  - by vm_compute.
  - split; [exact Hm|]. split; [by vm_compute|]. split; [by vm_compute|]. split.
    + apply (Hs [] None). split_and!; [by vm_compute|done|by vm_compute|done].
    + apply (Hs (zeros 4) None); [by vm_compute|]. right. by vm_compute.
Defined.
