(* ===== verification/Pipeline.v ===== *)
(** * The pipelined transfer

    [client/BackupEngine.{h,cpp}]: the window of blocks in flight, and
    [PipelineTransferBlocks] with its two threads: the loop that reads, hashes,
    compresses and sends the blocks, and the acknowledgement receiver that
    releases their slots.  A run is a sequence of atomic steps of the two; what
    the scheduler, the network and the server decide is the event of a step. *)

From S2P Require Import Prelude.
From S2P Require Import Protocol.
From S2P Require Import BlockHasher.
From S2P Require Import DataCompressor.
From S2P Require Import NetworkClient.
From S2P Require Import BlockStateManager.

(** ** The window *)

Record PipelineSlot := {
  InUse : bool; BlockIndex : Z; BlockData : list Z; Compressed : list Z; RawSize : Z;
  Hash : list Z; SendFailed : bool }.

Definition PipelineSlot_new : PipelineSlot :=
  {| InUse := false; BlockIndex := 0; BlockData := []; Compressed := []; RawSize := 0;
     Hash := zeros 32; SendFailed := false |}.

Definition set_InUse (u : bool) (s : PipelineSlot) : PipelineSlot :=
  {| InUse := u; BlockIndex := BlockIndex s; BlockData := BlockData s; Compressed := Compressed s;
     RawSize := RawSize s; Hash := Hash s; SendFailed := SendFailed s |}.
Definition set_BlockData (d : list Z) (s : PipelineSlot) : PipelineSlot :=
  {| InUse := InUse s; BlockIndex := BlockIndex s; BlockData := d; Compressed := Compressed s;
     RawSize := RawSize s; Hash := Hash s; SendFailed := SendFailed s |}.
Definition set_slot_Hash (h : list Z) (s : PipelineSlot) : PipelineSlot :=
  {| InUse := InUse s; BlockIndex := BlockIndex s; BlockData := BlockData s;
     Compressed := Compressed s; RawSize := RawSize s; Hash := h; SendFailed := SendFailed s |}.
Definition set_Compressed (c : list Z) (s : PipelineSlot) : PipelineSlot :=
  {| InUse := InUse s; BlockIndex := BlockIndex s; BlockData := BlockData s; Compressed := c;
     RawSize := RawSize s; Hash := Hash s; SendFailed := SendFailed s |}.

(** The members both threads use. *)
Record Shared := {
  m_window : list PipelineSlot; m_inFlightCount : Z; m_ackedCount : Z; m_failedCount : Z;
  m_pipelineError : bool; blockState : Manager }.

Definition set_window (w : list PipelineSlot) (s : Shared) : Shared :=
  {| m_window := w; m_inFlightCount := m_inFlightCount s; m_ackedCount := m_ackedCount s;
     m_failedCount := m_failedCount s; m_pipelineError := m_pipelineError s;
     blockState := blockState s |}.
Definition set_inFlight (n : Z) (s : Shared) : Shared :=
  {| m_window := m_window s; m_inFlightCount := n; m_ackedCount := m_ackedCount s;
     m_failedCount := m_failedCount s; m_pipelineError := m_pipelineError s;
     blockState := blockState s |}.
Definition set_acks (acked failed : Z) (s : Shared) : Shared :=
  {| m_window := m_window s; m_inFlightCount := m_inFlightCount s; m_ackedCount := acked;
     m_failedCount := failed; m_pipelineError := m_pipelineError s; blockState := blockState s |}.
Definition set_error (s : Shared) : Shared :=
  {| m_window := m_window s; m_inFlightCount := m_inFlightCount s; m_ackedCount := m_ackedCount s;
     m_failedCount := m_failedCount s; m_pipelineError := true; blockState := blockState s |}.
Definition set_blockState (m : Manager) (s : Shared) : Shared :=
  {| m_window := m_window s; m_inFlightCount := m_inFlightCount s; m_ackedCount := m_ackedCount s;
     m_failedCount := m_failedCount s; m_pipelineError := m_pipelineError s; blockState := m |}.

Definition ResetPipelineWindow (windowSize : Z) (m : Manager) : Shared :=
  {| m_window := replicate (Z.to_nat windowSize) PipelineSlot_new; m_inFlightCount := 0;
     m_ackedCount := 0; m_failedCount := 0; m_pipelineError := false; blockState := m |}.

(** The first slot with a property: the loops of the three functions. *)
Fixpoint find_slot (p : PipelineSlot -> bool) (w : list PipelineSlot) : option nat :=
  match w with
  | [] => None
  | s :: w' => if p s then Some O else S <$> find_slot p w'
  end.

Definition is_free (s : PipelineSlot) : bool := negb (InUse s).
Definition holds (blockIndex : Z) (s : PipelineSlot) : bool :=
  InUse s && (BlockIndex s =? blockIndex).

(** [None] while the condition is waited for; [timeout]: the time is over. *)
Definition AcquireSlot (timeout : bool) (s : Shared) : option (option nat * Shared) :=
  if m_pipelineError s then Some (None, s)
  else match find_slot is_free (m_window s) with
       | Some k => Some (Some k, set_window (alter (set_InUse true) k (m_window s)) s)
       | None => if timeout then Some (None, s) else None
       end.

Definition ReleaseSlot (blockIndex : Z) (s : Shared) : bool * Shared :=
  match find_slot (holds blockIndex) (m_window s) with
  | None => (false, s)
  | Some k =>
      (true, set_window (alter (fun sl => set_Compressed [] (set_BlockData [] (set_InUse false sl)))
                           k (m_window s)) s)
  end.

(** The condition is seen at any step.  In the code [m_inFlightCount] and
    [m_pipelineError] change without [m_windowMutex], so the notification can
    come between the test and the wait; the wait then lasts until its time limit,
    tests again, and the answer is the same. *)
Definition WaitForAllAcks (timeout : bool) (s : Shared) : option bool :=
  if (m_inFlightCount s =? 0) || m_pipelineError s then Some true
  else if timeout then Some false else None.

(** ** The two threads *)

(** Where the loop of [PipelineTransferBlocks] is: block [i], slot [k]. *)
Inductive MainPc :=
| AtLoop (i : Z)                  (* the loop's condition, then the error test *)
| Acquiring (i : Z)               (* in AcquireSlot *)
| Claimed (i : Z) (k : nat)       (* the slot is taken, nothing written to it *)
| Filled (i : Z) (k : nat)        (* next: read the block *)
| DataRead (i : Z) (k : nat)      (* next: hash it *)
| Hashed (i : Z) (k : nat)        (* next: SetBlockHash *)
| HashStored (i : Z) (k : nat)    (* next: compress *)
| Ready (i : Z) (k : nat)         (* next: send *)
| JustSent (i : Z) (k : nat)      (* next: the two counts *)
| Counted (i : Z) (k : nat)       (* next: clear the block's data *)
| Draining                        (* after the loop *)
| Waiting                         (* in WaitForAllAcks *)
| Stopping                        (* in StopAckReceiver *)
| Finished.

(** Where the callback is. *)
Inductive AckPc :=
| AckIdle
| AckEntered (c : AckCall)        (* next: SetBlockAck *)
| AckMarked (c : AckCall)         (* next: the count of its status *)
| AckCounted (c : AckCall)        (* next: ReleaseSlot *)
| AckReleased (found : bool)      (* next: the count of blocks in flight *)
| AckExited.                      (* the receiver has ended *)

(** The local variables of the loop, [stats.FailedBlocks] among them. *)
Record Locals := { sentCount : Z; totalCompressed : Z; skippedCount : Z; statsFailed : Z }.

(** The state of a run.  [wire] and [released] record what happened: the
    blocks sent and the calls whose slot search is over. *)
Record Run := {
  shared : Shared; main : MainPc; locals : Locals; ack : AckPc;
  wire : list client_call; released : list AckCall }.

Definition go_main (pc : MainPc) (sh : Shared) (r : Run) : Run :=
  {| shared := sh; main := pc; locals := locals r; ack := ack r; wire := wire r;
     released := released r |}.
Definition set_locals (l : Locals) (r : Run) : Run :=
  {| shared := shared r; main := main r; locals := l; ack := ack r; wire := wire r;
     released := released r |}.
Definition go_ack (a : AckPc) (sh : Shared) (r : Run) : Run :=
  {| shared := sh; main := main r; locals := locals r; ack := a; wire := wire r;
     released := released r |}.
Definition log_sent (k : client_call) (r : Run) : Run :=
  {| shared := shared r; main := main r; locals := locals r; ack := ack r;
     wire := wire r ++ [k]; released := released r |}.
Definition log_released (c : AckCall) (r : Run) : Run :=
  {| shared := shared r; main := main r; locals := locals r; ack := ack r; wire := wire r;
     released := released r ++ [c] |}.

(** A step that cannot be taken now, one with undefined behaviour, or the next
    state. *)
Inductive Outcome := Blocked | Undefined | Next (r : Run).

Inductive Event :=
| MainGo                          (* the loop goes on *)
| MainTimeout                     (* a wait of the loop reaches its time limit *)
| MainSend (sent : bool)          (* SendBlockNoWait returns *)
| AckCalled (c : AckCall)         (* the receiver calls the callback *)
| AckFailed (code : Z)            (* its last call, after an error *)
| AckGo.                          (* the callback goes on *)

Definition CONNECTION_ERROR : Z := 2 ^ 64 - 1.
Definition ack_status (c : AckCall) : Z := if cb_status c =? 0 then Acknowledged else Failed.

(** The arguments of a transfer. *)
Record Job `{CompressApi} := {
  job_devNo : Z; job_versionId : Z; job_totalBlocks : Z; job_totalSize : Z;
  job_hasher : bool; job_compressor : Compressor }.

Section transfer.
Context `{Source} `{CompressApi} (job : Job).

Definition block_size (i : Z) : Z :=
  if i =? u64 (job_totalBlocks job - 1) then
    let remain := u64 (job_totalSize job - u64 (i * BLOCK_SIZE)) in
    if (remain <? BLOCK_SIZE) && (0 <? remain) then u32 remain else BLOCK_SIZE
  else BLOCK_SIZE.

(** The slot is given back without a message; [stats.FailedBlocks] and
    [skippedCount] count the block. *)
Definition free_slot (k : nat) (s : Shared) : Shared :=
  set_window (alter (fun sl => set_BlockData [] (set_InUse false sl)) k (m_window s)) s.
Definition skip_block (i : Z) (k : nat) (r : Run) : Run :=
  let l := locals r in
  set_locals {| sentCount := sentCount l; totalCompressed := totalCompressed l;
                skippedCount := u64 (skippedCount l + 1); statsFailed := u64 (statsFailed l + 1) |}
    (go_main (AtLoop (i + 1)) (free_slot k (shared r)) r).

(** Changes of slot [k], [BlockIndex] and the others together or one field. *)
Definition with_slot (k : nat) (f : PipelineSlot -> PipelineSlot) (s : Shared) : Shared :=
  set_window (alter f k (m_window s)) s.
Definition fill_slot (i : Z) (s : PipelineSlot) : PipelineSlot :=
  {| InUse := InUse s; BlockIndex := i; BlockData := resize (block_size i) (BlockData s);
     Compressed := Compressed s; RawSize := block_size i; Hash := Hash s; SendFailed := false |}.

(** [ReadFile] into the slot's data: the block must fit. *)
Definition read_block (i : Z) (k : nat) (sl : PipelineSlot) (r : Run) : Outcome :=
  let sh := shared r in
  if zlen (BlockData sl) <? block_size i then Undefined
  else match ReadAt (u64 (i * BLOCK_SIZE)) (block_size i) with
       | None => Next (skip_block i k r)
       | Some d =>
           Next (go_main (DataRead i k)
                   (with_slot k (fun sl => set_BlockData
                      (d ++ drop (Z.to_nat (block_size i)) (BlockData sl)) sl) sh) r)
       end.

Definition hash_block (i : Z) (k : nat) (sl : PipelineSlot) (r : Run) : Outcome :=
  match memcpy_from 0 (block_size i) (BlockData sl) with
  | None => Undefined
  | Some d =>
      match ComputeBlockHash (job_hasher job) d with
      | None => Next (skip_block i k r)
      | Some h => Next (go_main (Hashed i k) (with_slot k (set_slot_Hash h) (shared r)) r)
      end
  end.

Definition compress_block (i : Z) (k : nat) (sl : PipelineSlot) (r : Run) : Outcome :=
  match memcpy_from 0 (block_size i) (BlockData sl) with
  | None => Undefined
  | Some d =>
      match Compress (job_compressor job) d (Compressed sl) with
      | None => Undefined
      | Some (false, _) => Next (skip_block i k r)
      | Some (true, c) =>
          let l := locals r in
          Next (set_locals {| sentCount := sentCount l;
                              totalCompressed := u64 (totalCompressed l + zlen c);
                              skippedCount := skippedCount l; statsFailed := statsFailed l |}
                  (go_main (Ready i k) (with_slot k (set_Compressed c) (shared r)) r))
      end
  end.

(** The call [SendBlockNoWait] makes of the slot. *)
Definition sent_call (i : Z) (sl : PipelineSlot) : client_call :=
  CallBlock false (job_devNo job) i (block_size i) (Compressed sl) (Hash sl) (job_versionId job).

(** [sentCount++; m_inFlightCount++]. *)
Definition count_sent (i : Z) (k : nat) (r : Run) : Run :=
  let l := locals r in
  set_locals {| sentCount := u64 (sentCount l + 1); totalCompressed := totalCompressed l;
                skippedCount := skippedCount l; statsFailed := statsFailed l |}
    (go_main (Counted i k) (set_inFlight (s32 (m_inFlightCount (shared r) + 1)) (shared r)) r).

(** A step of the loop that uses slot [k]. *)
Definition use_slot (k : nat) (r : Run) (f : PipelineSlot -> Outcome) : Outcome :=
  match m_window (shared r) !! k with None => Undefined | Some sl => f sl end.

(** Clearing the slot's data after the send is one step here, so these are the
    runs in which it does not overlap with [ReleaseSlot] on the same slot;
    [PipelineRace] has its beginning and its end, and the overlap. *)
Definition main_step (r : Run) : Outcome :=
  let sh := shared r in
  match main r with
  | AtLoop i =>
      if negb (i <? job_totalBlocks job) then Next (go_main Draining sh r)
      else if m_pipelineError sh then Next (go_main Draining sh r)
      else Next (go_main (Acquiring i) sh r)
  | Acquiring i =>
      match AcquireSlot false sh with
      | None => Blocked
      | Some (None, sh') => Next (go_main Draining sh' r)
      | Some (Some k, sh') => Next (go_main (Claimed i k) sh' r)
      end
  | Claimed i k => use_slot k r (fun _ => Next (go_main (Filled i k) (with_slot k (fill_slot i) sh) r))
  | Filled i k => use_slot k r (fun sl => read_block i k sl r)
  | DataRead i k => use_slot k r (fun sl => hash_block i k sl r)
  | Hashed i k =>
      use_slot k r (fun sl =>
        Next (go_main (HashStored i k)
                (set_blockState (snd (SetBlockHash i (Hash sl) (blockState sh))) sh) r))
  | HashStored i k => use_slot k r (fun sl => compress_block i k sl r)
  | Ready _ _ => Blocked
  | JustSent i k => Next (count_sent i k r)
  | Counted i k => Next (go_main (AtLoop (i + 1)) (with_slot k (set_BlockData []) sh) r)
  | Draining =>
      if (0 <? m_inFlightCount sh) && negb (m_pipelineError sh) then Next (go_main Waiting sh r)
      else Next (go_main Stopping sh r)
  | Waiting =>
      match WaitForAllAcks false sh with
      | None => Blocked
      | Some _ => Next (go_main Stopping sh r)
      end
  | Stopping =>
      match ack r with AckIdle | AckExited => Next (go_main Finished sh r) | _ => Blocked end
  | Finished => Blocked
  end.

Definition timeout_step (r : Run) : Outcome :=
  let sh := shared r in
  match main r with
  | Acquiring i =>
      match AcquireSlot true sh with
      | None => Blocked
      | Some (None, sh') => Next (go_main Draining sh' r)
      | Some (Some k, sh') => Next (go_main (Claimed i k) sh' r)
      end
  | Waiting =>
      match WaitForAllAcks true sh with
      | None => Blocked
      | Some _ => Next (go_main Stopping sh r)
      end
  | _ => Blocked
  end.

Definition send_step (sent : bool) (r : Run) : Outcome :=
  match main r with
  | Ready i k =>
      use_slot k r (fun sl =>
        if sent then Next (log_sent (sent_call i sl) (go_main (JustSent i k) (shared r) r))
        else Next (go_main Draining (set_error (free_slot k (shared r))) r))
  | _ => Blocked
  end.

(** The callback's entry: a connection error, or the acknowledgement of a
    block. *)
Definition enter_callback (c : AckCall) (after_error : AckPc) (r : Run) : Outcome :=
  match ack r, main r with
  | _, Finished => Blocked
  | AckIdle, _ =>
      if cb_blockIndex c =? CONNECTION_ERROR then Next (go_ack after_error (set_error (shared r)) r)
      else Next (go_ack (AckEntered c) (shared r) r)
  | _, _ => Blocked
  end.

Definition ack_step (r : Run) : Outcome :=
  let sh := shared r in
  match ack r with
  | AckIdle | AckExited => Blocked
  | AckEntered c =>
      Next (go_ack (AckMarked c)
              (set_blockState (snd (SetBlockAck (cb_blockIndex c) (ack_status c) (blockState sh))) sh) r)
  | AckMarked c =>
      Next (go_ack (AckCounted c)
              (if cb_status c =? 0 then set_acks (u64 (m_ackedCount sh + 1)) (m_failedCount sh) sh
               else set_acks (m_ackedCount sh) (u64 (m_failedCount sh + 1)) sh) r)
  | AckCounted c =>
      let '(found, sh') := ReleaseSlot (cb_blockIndex c) sh in
      Next (log_released c (go_ack (AckReleased found) sh' r))
  | AckReleased found =>
      Next (go_ack AckIdle (if (found : bool) then set_inFlight (s32 (m_inFlightCount sh - 1)) sh else sh) r)
  end.

Definition step (e : Event) (r : Run) : Outcome :=
  match e with
  | MainGo => main_step r
  | MainTimeout => timeout_step r
  | MainSend sent => send_step sent r
  | AckCalled c => enter_callback c AckIdle r
  | AckFailed code => enter_callback (error_call code) AckExited r
  | AckGo => ack_step r
  end.

(** The steps of a list of events. *)
Fixpoint steps (es : list Event) (r : Run) : Outcome :=
  match es with
  | [] => Next r
  | e :: es' => match step e r with Next r' => steps es' r' | o => o end
  end.

Definition Run_start (windowSize : Z) (m : Manager) : Run :=
  {| shared := ResetPipelineWindow windowSize m; main := AtLoop 0;
     locals := {| sentCount := 0; totalCompressed := 0; skippedCount := 0; statsFailed := 0 |};
     ack := AckIdle; wire := []; released := [] |}.

(** The statistics of a finished run: [SentBlocks], [AckedBlocks],
    [FailedBlocks], [SkippedBlocks] and [CompressedBytes]. *)
Record BackupStats := {
  SentBlocks : Z; AckedBlocks : Z; FailedBlocks : Z; SkippedBlocks : Z; CompressedBytes : Z }.

Definition transfer_stats (r : Run) : BackupStats :=
  {| SentBlocks := sentCount (locals r); AckedBlocks := m_ackedCount (shared r);
     FailedBlocks := u64 (statsFailed (locals r) + m_failedCount (shared r));
     SkippedBlocks := skippedCount (locals r); CompressedBytes := totalCompressed (locals r) |}.

(** ** The simulated transfer *)

(** One block of the loop in the simulation: [m_ackedCount],
    [stats.FailedBlocks], [sentCount] and the block states. *)
Definition dry_block (i : Z) (st : Z * Z * Z * Manager) : Z * Z * Z * Manager :=
  let '(acked, failed, sent, m) := st in
  match (d ← ReadAt (u64 (i * BLOCK_SIZE)) (block_size i);
         ComputeBlockHash (job_hasher job) d) with
  | None => (acked, u64 (failed + 1), sent, m)
  | Some h =>
      (u64 (acked + 1), failed, u64 (sent + 1),
       snd (SetBlockAck i Acknowledged (snd (SetBlockHash i h m))))
  end.

Definition dry_run (m : Manager) : Z * Z * Z * Manager :=
  fold_left (fun st i => dry_block i st) (seqZ 0 (job_totalBlocks job)) (0, 0, 0, m).
End transfer.
