(* ===== verification/PipelineInv.v ===== *)
(** * The window invariant

    The window seen as a list of pairs (in use, block index), and what its
    slots mean for the blocks in flight.  The transitions of this view are
    those of [Pipeline]: claiming a slot, filling it, giving it back, sending
    its block, releasing it. *)

From Stdlib Require Import Sorted.
From S2P Require Import Prelude.
From S2P Require Import BlockStateManager.
From S2P Require Import Pipeline.

(** ** The view *)

Abbreviation view := (list (bool * Z)).

(** The block and slot the loop works on, and whether its index is written. *)
Abbreviation current := (option (Z * nat * bool)).

Definition cur_slot (cur : current) : option nat :=
  match cur with Some (_, k, _) => Some k | None => None end.

(** A block sent whose slot is still to be released. *)
Definition live (ws rel : list Z) (b : Z) : Prop := b ∈ ws /\ b ∉ rel.

Record window_ok (vw : view) (ws rel : list Z) (cur : current) (bound : Z) : Prop := {
  w_bound : 0 <= bound;
  w_sorted : StronglySorted Z.lt ws;
  w_range : Forall (fun b => 0 <= b < bound) ws;
  w_rel : NoDup rel;
  w_rel_sent : rel ⊆ ws;
  w_holder b : live ws rel b -> exists k, vw !! k = Some (true, b) /\ cur_slot cur <> Some k;
  w_live k b : vw !! k = Some (true, b) -> cur_slot cur <> Some k -> live ws rel b;
  w_inj j k b : vw !! j = Some (true, b) -> vw !! k = Some (true, b) ->
    cur_slot cur <> Some j -> cur_slot cur <> Some k -> j = k;
  w_stale j u b : vw !! j = Some (u, b) -> u = false \/ cur_slot cur = Some j -> live ws rel b ->
    exists k, (k < j)%nat /\ vw !! k = Some (true, b) /\ cur_slot cur <> Some k;
  w_cur : match cur with
          | None => True
          | Some (i, k, filled) =>
              i = bound /\ (i = 0 -> k = 0%nat) /\
              exists b, vw !! k = Some (true, b) /\ (filled = true -> b = i)
          end;
  w_index j u b : vw !! j = Some (u, b) -> cur_slot cur <> Some j -> b = 0 \/ 0 <= b < bound;
  w_cur_index k b i : cur = Some (i, k, false) -> vw !! k = Some (true, b) -> b = 0 \/ 0 <= b < bound;
}.

Fixpoint find_view (p : bool * Z -> bool) (w : view) : option nat :=
  match w with
  | [] => None
  | s :: w' => if p s then Some O else S <$> find_view p w'
  end.

Lemma find_view_Some p w k :
  find_view p w = Some k ->
  exists x, w !! k = Some x /\ p x = true /\
    forall j y, (j < k)%nat -> w !! j = Some y -> p y = false.
Proof.
  revert k. induction w as [|x w IH]; intros k; cbn [find_view]; [done|].
  destruct (p x) eqn:E.
  - intros [= <-]. exists x. split_and!; [done|done|]. intros; lia.
  - destruct (find_view p w) as [k'|]; cbn; [|done]. intros [= <-].
    destruct (IH k' eq_refl) as (y & Hy & Hp & Hlt). exists y. split_and!; [done|done|].
    intros [|j] z Hj Hz; [by injection Hz as <-|]. apply (Hlt j z); [lia|done].
Qed.

Lemma find_view_None p w k x : find_view p w = None -> w !! k = Some x -> p x = false.
Proof.
  revert k. induction w as [|y w IH]; intros k; cbn [find_view]; [done|].
  destruct (p y) eqn:E; [done|]. destruct (find_view p w); [done|]. intros _.
  destruct k as [|k]; cbn; [by intros [= <-]|by apply IH].
Qed.

Lemma find_view_is_Some p w k x :
  w !! k = Some x -> p x = true -> exists k', find_view p w = Some k'.
Proof.
  intros Hx Hp. destruct (find_view p w) as [k'|] eqn:E; [eauto|].
  pose proof (find_view_None _ _ _ _ E Hx). congruence.
Qed.

(** ** Transitions *)

(** A lookup in an updated view. *)
Ltac view_cases :=
  repeat match goal with
  | H : <[_ := _]> _ !! _ = Some _ |- _ =>
      apply list_lookup_insert_Some in H as [(? & ? & _) | [? H]]; simplify_eq
  end.

(** In a slot of the loop's own there is no block in flight. *)
Lemma not_live_bound vw ws rel cur bound : window_ok vw ws rel cur bound -> ~ live ws rel bound.
Proof.
  intros Hok [Hin _]. pose proof (w_range _ _ _ _ _ Hok) as Hr. rewrite Forall_forall in Hr.
  apply Hr in Hin. lia.
Qed.

Lemma in_use_slot vw ws rel cur bound k b :
  window_ok vw ws rel cur bound -> vw !! k = Some (true, b) -> cur_slot cur <> Some k -> live ws rel b.
Proof. intros Hok. apply (w_live _ _ _ _ _ Hok). Qed.

(** The first slot is the one the first block takes. *)
Lemma first_slot vw ws rel k :
  window_ok vw ws rel None 0 -> find_view (fun x => negb (fst x)) vw = Some k -> k = 0%nat.
Proof.
  intros Hok (x & Hx & _ & Hlt)%find_view_Some. destruct k as [|k]; [done|].
  destruct (vw !! 0%nat) as [[u b]|] eqn:E.
  - pose proof (Hlt 0%nat _ ltac:(lia) E) as Hu. cbn in Hu. apply negb_false_iff in Hu as ->.
    destruct (w_live _ _ _ _ _ Hok _ _ E) as [Hin _]; [done|].
    pose proof (w_range _ _ _ _ _ Hok) as Hr. rewrite Forall_forall in Hr. apply Hr in Hin. lia.
  - apply lookup_ge_None in E. apply lookup_lt_Some in Hx. lia.
Qed.

(** Slots other than [k] keep what they hold. *)
Ltac other_slot k' :=
  exists k'; rewrite list_lookup_insert_ne by congruence; split_and?; (done || congruence).

Lemma window_claim vw ws rel bound k b :
  window_ok vw ws rel None bound -> find_view (fun x => negb (fst x)) vw = Some k ->
  vw !! k = Some (false, b) ->
  window_ok (<[k := (true, b)]> vw) ws rel (Some (bound, k, false)) bound.
Proof.
  intros Hok Hk Hb. pose proof (lookup_lt_Some _ _ _ Hb) as Hlt.
  pose proof (fun E => first_slot vw ws rel k (eq_ind bound (window_ok vw ws rel None) Hok 0 E) Hk) as Hf.
  destruct Hok. constructor; try done; cbn [cur_slot] in *.
  - intros b' (k' & Hk' & _)%w_holder0. other_slot k'.
  - intros k' b' H Hne. view_cases; try done. by apply (w_live0 k').
  - intros. view_cases; try done. by eapply w_inj0.
  - intros j u b' H Hu Hl. assert (exists k', (k' < j)%nat /\ vw !! k' = Some (true, b')) as (k' & ? & Hk').
    { view_cases.
      - destruct (w_stale0 _ _ _ Hb) as (k' & ? & ? & _); [by left|done|eauto].
      - destruct (w_stale0 _ _ _ H) as (k' & ? & ? & _); [by left; destruct Hu; congruence|done|eauto]. }
    other_slot k'.
  - split_and!; [done|done|]. exists b. by rewrite list_lookup_insert_eq.
  - intros j u b' H Hne. view_cases; try done. by apply (w_index0 j u).
  - intros k' b' i [= <- <-] H. view_cases. by eapply w_index0.
Qed.

Lemma window_fill vw ws rel bound i k :
  window_ok vw ws rel (Some (i, k, false)) bound ->
  window_ok (<[k := (true, i)]> vw) ws rel (Some (i, k, true)) bound.
Proof.
  intros Hok. pose proof (not_live_bound _ _ _ _ _ Hok) as Hnb.
  destruct Hok. destruct w_cur0 as (-> & Hz & b & Hb & _).
  pose proof (lookup_lt_Some _ _ _ Hb). constructor; try done; cbn [cur_slot] in *.
  - intros b' (k' & Hk' & ?)%w_holder0. other_slot k'.
  - intros k' b' H' Hne. view_cases; try done. by apply (w_live0 k').
  - intros. view_cases; try done. by eapply w_inj0.
  - intros j u b' H' Hu Hl. view_cases; try done.
    destruct (w_stale0 _ _ _ H') as (k' & ? & ? & ?); [done|done|]. other_slot k'.
  - split_and!; [done|done|]. exists bound. by rewrite list_lookup_insert_eq.
  - intros j u b' H' Hne. view_cases; try done. by apply (w_index0 j u).
Qed.

Lemma window_skip vw ws rel bound i k :
  window_ok vw ws rel (Some (i, k, true)) bound ->
  window_ok (<[k := (false, i)]> vw) ws rel None (i + 1).
Proof.
  intros Hok. pose proof (not_live_bound _ _ _ _ _ Hok) as Hnb.
  destruct Hok. destruct w_cur0 as (-> & Hz & b & Hb & Hbi). rewrite Hbi in Hb by done.
  pose proof (lookup_lt_Some _ _ _ Hb). constructor; try done; cbn [cur_slot] in *.
  - lia.
  - eapply Forall_impl; [exact w_range0|]. cbn. lia.
  - intros b' (k' & Hk' & ?)%w_holder0. other_slot k'.
  - intros k' b' H' _. view_cases. apply (w_live0 k'); congruence.
  - intros. view_cases. eapply w_inj0; (done || congruence).
  - intros j u b' H' Hu Hl. view_cases; try done.
    destruct (w_stale0 _ _ _ H') as (k' & ? & ? & ?); [destruct Hu; [by left|done]|done|]. other_slot k'.
  - intros j u b' H' _. view_cases; [lia|]. destruct (w_index0 j u b' H'); [congruence|by left|lia].
Qed.

Lemma window_send vw ws rel bound i k :
  window_ok vw ws rel (Some (i, k, true)) bound -> window_ok vw (ws ++ [i]) rel None (i + 1).
Proof.
  intros Hok. pose proof (not_live_bound _ _ _ _ _ Hok) as Hnb.
  destruct Hok. destruct w_cur0 as (-> & Hz & b & Hb & Hbi). rewrite Hbi in Hb by done.
  assert (bound ∉ ws) as Hni by (intros Hin; rewrite Forall_forall in w_range0; apply w_range0 in Hin; lia).
  assert (forall b', live (ws ++ [bound]) rel b' <-> live ws rel b' \/ b' = bound) as Hl.
  { intros b'. unfold live. rewrite elem_of_app, list_elem_of_singleton.
    split; [tauto|]. intros [[? ?]| ->]; [tauto|]. split; [by right|]. by intros ?%w_rel_sent0. }
  constructor; try done; cbn [cur_slot] in *.
  - lia.
  - apply StronglySorted_snoc; [done|]. eapply Forall_impl; [exact w_range0|]. cbn. lia.
  - apply Forall_app. split; [|constructor; [lia|done]]. eapply Forall_impl; [exact w_range0|]. cbn. lia.
  - intros b' Hin. apply elem_of_app. left. by apply w_rel_sent0.
  - intros b' [(k' & Hk' & ?)%w_holder0| ->]%Hl; eauto.
  - intros k' b' H' _. apply Hl. destruct (decide (k' = k)) as [->|]; [right; congruence|].
    left. apply (w_live0 k'); congruence.
  - intros j k' b' Hj Hk' _ _. destruct (decide (j = k)) as [->|], (decide (k' = k)) as [->|]; [done| | |].
    + assert (b' = bound) as -> by congruence. destruct Hnb. apply (w_live0 k'); congruence.
    + assert (b' = bound) as -> by congruence. destruct Hnb. apply (w_live0 j); congruence.
    + eapply w_inj0; (done || congruence).
  - intros j u b' Hj [-> |?] Hlv; [|done]. assert (j <> k) by congruence.
    apply Hl in Hlv as [Hlv| ->].
    + destruct (w_stale0 _ _ _ Hj) as (k' & ? & ? & ?); [by left|done|eauto].
    + destruct (w_index0 j false bound Hj) as [Hb0|]; [congruence| |lia].
      exists k. rewrite (Hz Hb0) in *. split_and!; [lia|done|done].
  - intros j u b' Hj _. destruct (decide (j = k)) as [->|]; [right; simplify_eq; lia|].
    destruct (w_index0 j u b' Hj); [congruence|by left|lia].
Qed.

(** The slot [ReleaseSlot] finds for a block in flight is the block's own. *)
Lemma release_finds vw ws rel cur bound b k :
  window_ok vw ws rel cur bound -> live ws rel b ->
  find_view (fun x => fst x && (snd x =? b)) vw = Some k ->
  vw !! k = Some (true, b) /\ cur_slot cur <> Some k.
Proof.
  intros Hok Hl ([u b'] & Hx & Hp & Hlt)%find_view_Some. cbn in Hp. reflect_Z. subst u b'.
  split; [done|]. intros Hc. destruct Hok.
  destruct (w_stale0 k true b Hx) as (k' & Hk' & Hb & _); [by right|done|].
  pose proof (Hlt k' _ Hk' Hb) as Hf. cbn in Hf. by rewrite Z.eqb_refl in Hf.
Qed.

Lemma window_release vw ws rel cur bound b k :
  window_ok vw ws rel cur bound -> live ws rel b -> vw !! k = Some (true, b) ->
  cur_slot cur <> Some k ->
  window_ok (<[k := (false, b)]> vw) ws (rel ++ [b]) cur bound.
Proof.
  intros Hok [Hin Hnr] Hb Hk. destruct Hok. pose proof (lookup_lt_Some _ _ _ Hb).
  assert (forall b', live ws (rel ++ [b]) b' <-> live ws rel b' /\ b' <> b) as Hl.
  { intros b'. unfold live. rewrite elem_of_app, list_elem_of_singleton. tauto. }
  constructor; try done.
  - apply NoDup_app. split_and!; [done| |apply NoDup_singleton].
    intros b' ? ->%list_elem_of_singleton. done.
  - intros b' [?| ->%list_elem_of_singleton]%elem_of_app; [by apply w_rel_sent0|done].
  - intros b' [(k' & Hk' & ?)%w_holder0 ?]%Hl. assert (k <> k') by congruence. other_slot k'.
  - intros k' b' H' Hne. view_cases. apply Hl. split; [by apply (w_live0 k')|]. intros ->.
    pose proof (w_inj0 k k' b). naive_solver.
  - intros. view_cases. by eapply w_inj0.
  - intros j u b' H' Hu [Hlv Hne]%Hl. view_cases.
    destruct (w_stale0 _ _ _ H' Hu Hlv) as (k' & ? & ? & ?).
    assert (k <> k') by congruence. other_slot k'.
  - destruct cur as [[[i k'] f]|]; [|done]. destruct w_cur0 as (? & ? & b' & ? & ?).
    split_and!; [done|done|]. exists b'. rewrite list_lookup_insert_ne; [done|]. cbn in Hk. congruence.
  - intros j u b' H' Hne. view_cases; [|by eapply w_index0]. by eapply (w_index0 j true).
  - intros k' b' i -> H'. cbn in Hk. view_cases. by eapply w_cur_index0.
Qed.

(** ** Counting *)

Lemma StronglySorted_NoDup (l : list Z) : StronglySorted Z.lt l -> NoDup l.
Proof.
  induction 1 as [|x l Hs IH Hx]; [constructor|]. constructor; [|done].
  rewrite Forall_forall in Hx. intros ?%Hx. lia.
Qed.

(** Every block in flight has a slot of its own: no more blocks are in flight
    than the window has slots. *)
Lemma in_flight_bound vw ws rel cur bound :
  window_ok vw ws rel cur bound -> (length ws <= length rel + length vw)%nat.
Proof.
  intros []. pose proof (StronglySorted_NoDup _ w_sorted0) as Hnd.
  assert (ws ⊆+ rel ++ map snd vw) as Hs%submseteq_length.
  { apply NoDup_submseteq; [done|]. intros b Hb. apply elem_of_app.
    destruct (decide (b ∈ rel)) as [|Hn]; [by left|right].
    destruct (w_holder0 b (conj Hb Hn)) as (k & Hk & _).
    apply list_elem_of_fmap. exists (true, b). split; [done|]. by eapply list_elem_of_lookup_2. }
  rewrite length_app, length_map in Hs. lia.
Qed.

(** As many blocks released as sent: all of them, and the slots are free. *)
Lemma all_released vw ws rel bound :
  window_ok vw ws rel None bound -> length rel = length ws ->
  rel ≡ₚ ws /\ Forall (fun x => fst x = false) vw.
Proof.
  intros [] Hlen. assert (rel ≡ₚ ws) as Hp.
  { apply submseteq_length_Permutation; [by apply NoDup_submseteq|lia]. }
  split; [done|]. apply Forall_lookup. intros k [[] b] Hk; [|done].
  destruct (w_live0 k b Hk) as [Hb Hn]; [done|]. by rewrite <- Hp in Hb.
Qed.

(** A window without a free slot has a block in flight. *)
Lemma full_window vw ws rel bound :
  window_ok vw ws rel None bound -> (0 < length vw)%nat ->
  find_view (fun x => negb (fst x)) vw = None -> exists b, live ws rel b.
Proof.
  intros [] Hlen Hf. destruct (lookup_lt_is_Some_2 vw 0 Hlen) as [[u b] Hb].
  pose proof (find_view_None _ _ _ _ Hf Hb) as Hu. cbn in Hu. apply negb_false_iff in Hu as ->.
  exists b. by apply (w_live0 0%nat).
Qed.
