(* ===== verification/PipelineSpec.v ===== *)
(** * What the pipelined transfer promises

    Reachable states of [Pipeline] when the server acknowledges blocks it has
    received, each once: the window, the counts, what is on the wire and the
    block states; then the result of a finished transfer and its termination,
    and what other peers can do. *)

From Stdlib Require Import Sorted.
From S2P Require Import Prelude.
From S2P Require Import Protocol.
From S2P Require Import BlockHasher.
From S2P Require Import DataCompressor.
From S2P Require Import NetworkClient.
From S2P Require Import BlockStateManager.
From S2P Require Import Pipeline.
From S2P Require Import PipelineInv.

(** ** Runs *)

Definition call_index (k : client_call) : Z :=
  match k with CallBlock _ _ i _ _ _ _ => i | _ => 0 end.

Definition wire_ix (r : Run) : list Z := map call_index (wire r).
Definition released_ix (r : Run) : list Z := map cb_blockIndex (released r).

(** The call in progress whose slot is not released yet. *)
Definition pending (r : Run) : list AckCall :=
  match ack r with AckEntered c | AckMarked c | AckCounted c => [c] | _ => [] end.

(** The server's part: it acknowledges a block after receiving it, once.  A
    [patient] run has no timeout. *)
Definition fair (patient : bool) (e : Event) (r : Run) : Prop :=
  match e with
  | AckCalled c => live (wire_ix r) (map cb_blockIndex (released r ++ pending r)) (cb_blockIndex c)
  | MainTimeout => patient = false
  | _ => True
  end.

Section runs.
Context `{Source} `{CompressApi} (job : Job) (windowSize : Z) (m0 : Manager) (patient : bool).

Inductive reachable : Run -> Prop :=
| reach_start : reachable (Run_start windowSize m0)
| reach_step e r r' :
    reachable r -> fair patient e r -> step job e r = Next r' -> reachable r'.

(** ** The window *)

Definition slot_view (s : PipelineSlot) : bool * Z := (InUse s, BlockIndex s).
Definition window_view (r : Run) : view := map slot_view (m_window (shared r)).

Definition main_cur (pc : MainPc) : current :=
  match pc with
  | Claimed i k => Some (i, k, false)
  | Filled i k | DataRead i k | Hashed i k | HashStored i k | Ready i k => Some (i, k, true)
  | _ => None
  end.

(** How far the loop is. *)
Definition main_bound (pc : MainPc) (bound : Z) : Prop :=
  match pc with
  | AtLoop i => i = bound /\ bound <= job_totalBlocks job
  | Acquiring i | Claimed i _ | Filled i _ | DataRead i _ | Hashed i _ | HashStored i _ | Ready i _ =>
      i = bound /\ bound < job_totalBlocks job
  | JustSent i _ | Counted i _ => bound = i + 1 /\ bound <= job_totalBlocks job
  | _ => bound <= job_totalBlocks job
  end.

Record win_ok (r : Run) (bound : Z) : Prop := {
  win_len : length (m_window (shared r)) = Z.to_nat windowSize;
  win_view : window_ok (window_view r) (wire_ix r) (released_ix r) (main_cur (main r)) bound;
  win_bound : main_bound (main r) bound;
  win_pending : Forall (fun c => live (wire_ix r) (released_ix r) (cb_blockIndex c)) (pending r);
  win_found : forall f, ack r = AckReleased f -> f = true;
}.

(** *** The window and its view *)

Lemma find_slot_view p q w :
  (forall s, p s = q (slot_view s)) -> find_slot p w = find_view q (map slot_view w).
Proof.
  intros Hpq. induction w as [|s w IH]; cbn [find_slot find_view map]; [done|].
  rewrite Hpq. by rewrite IH.
Qed.

Lemma find_free_view w : find_slot is_free w = find_view (fun x => negb (fst x)) (map slot_view w).
Proof. by apply find_slot_view. Qed.

Lemma find_holds_view b w :
  find_slot (holds b) w = find_view (fun x => fst x && (snd x =? b)) (map slot_view w).
Proof. by apply find_slot_view. Qed.

Lemma view_lookup w k x :
  map slot_view w !! k = Some x -> exists s, w !! k = Some s /\ slot_view s = x.
Proof.
  change (map slot_view) with (fmap (M := list) slot_view). rewrite list_lookup_fmap.
  destruct (w !! k) as [s|]; cbn; [|done]. intros [= <-]. eauto.
Qed.

Lemma view_lookup_of w k s : w !! k = Some s -> map slot_view w !! k = Some (slot_view s).
Proof.
  change (map slot_view) with (fmap (M := list) slot_view). rewrite list_lookup_fmap. by intros ->.
Qed.

Lemma view_same f k w :
  (forall s, slot_view (f s) = slot_view s) -> map slot_view (alter f k w) = map slot_view w.
Proof.
  intros Hf. revert k. induction w as [|s w IH]; intros [|k]; cbn; [done|done| |].
  - by rewrite Hf.
  - f_equal. apply IH.
Qed.

Lemma view_alter f k w s :
  w !! k = Some s -> map slot_view (alter f k w) = <[k := slot_view (f s)]> (map slot_view w).
Proof.
  revert k. induction w as [|s' w IH]; intros [|k]; cbn; [done|done|by intros [= ->]|].
  intros Hs. f_equal. by apply IH.
Qed.

(** Slot [k] of a step in the loop exists, and holds what [main_cur] says. *)
Lemma cur_slot_at r bound i k f :
  win_ok r bound -> main_cur (main r) = Some (i, k, f) ->
  exists sl, m_window (shared r) !! k = Some sl /\ InUse sl = true /\ (f = true -> BlockIndex sl = i).
Proof.
  intros [] E. destruct win_view0. rewrite E in w_cur. destruct w_cur as (_ & _ & b & Hb & Hbi).
  apply view_lookup in Hb as (sl & Hs & Hv). exists sl. unfold slot_view in Hv.
  injection Hv as -> ->. by split_and!.
Qed.

(** A step of the loop that leaves the view alone. *)
Lemma win_main_same r bound pc sh l :
  win_ok r bound -> map slot_view (m_window sh) = window_view r ->
  main_cur pc = main_cur (main r) -> main_bound pc bound ->
  win_ok {| shared := sh; main := pc; locals := l; ack := ack r; wire := wire r;
            released := released r |} bound.
Proof.
  intros [] Hv Hc Hb. constructor; cbn; try done.
  - unfold window_view in Hv. rewrite <- (length_map slot_view), Hv, length_map. done.
  - unfold window_view in *. cbn. rewrite Hv, Hc. done.
Qed.

Lemma win_skip r bound i k sl :
  win_ok r bound -> main_cur (main r) = Some (i, k, true) -> main_bound (main r) bound ->
  m_window (shared r) !! k = Some sl -> bound < job_totalBlocks job ->
  win_ok (skip_block i k r) (i + 1).
Proof.
  intros Hok Hc Hb Hs Hlt. destruct (cur_slot_at _ _ _ _ _ Hok Hc) as (sl' & Hs' & _ & Hbi).
  assert (sl' = sl) as -> by congruence. destruct Hok. rewrite Hc in win_view0.
  pose proof (w_cur _ _ _ _ _ win_view0) as (-> & _).
  constructor; cbn; try done.
  - by rewrite length_alter.
  - unfold window_view. cbn. rewrite (view_alter _ _ _ sl) by done.
    replace (slot_view _) with (false, bound) by (unfold slot_view; cbn; by rewrite Hbi).
    change (map slot_view (m_window (shared r))) with (window_view r). by eapply window_skip.
  - lia.
Qed.

(** A step of the loop that uses its slot without leaving the view: the
    changes of the payload. *)
Lemma win_payload r bound pc k f l :
  win_ok r bound -> (forall s, slot_view (f s) = slot_view s) ->
  main_cur pc = main_cur (main r) -> main_bound pc bound ->
  win_ok (set_locals l (go_main pc (with_slot k f (shared r)) r)) bound.
Proof.
  intros. apply (win_main_same r bound pc (with_slot k f (shared r)) l); try done. cbn. by apply view_same.
Qed.

Lemma use_slot_Next k r f r' :
  use_slot k r f = Next r' -> exists sl, m_window (shared r) !! k = Some sl /\ f sl = Next r'.
Proof. unfold use_slot. destruct (_ !! k); [eauto|done]. Qed.

Lemma win_acquire r bound i t k sh :
  win_ok r bound -> main r = Acquiring i -> AcquireSlot t (shared r) = Some (Some k, sh) ->
  win_ok (go_main (Claimed i k) sh r) bound.
Proof.
  intros Hok Hm Ha. unfold AcquireSlot in Ha. destruct (m_pipelineError _); [done|].
  destruct (find_slot is_free _) as [k'|] eqn:Ef; [|by destruct t]. injection Ha as -> <-.
  rewrite find_free_view in Ef. pose proof (find_view_Some _ _ _ Ef) as ([u b] & Hb & Hu & _).
  cbn in Hu. apply negb_true_iff in Hu as ->.
  destruct Hok. rewrite Hm in *. destruct win_bound0 as [-> Hlt].
  apply view_lookup in Hb as (sl & Hs & Hv). constructor; cbn; try done.
  - by rewrite length_alter.
  - unfold window_view. cbn. rewrite (view_alter _ _ _ sl) by done.
    replace (slot_view (set_InUse true sl)) with (true, b) by (injection Hv as _ <-; done).
    apply window_claim; [done|done|]. rewrite <- Hv. by apply view_lookup_of.
Qed.

Lemma acquire_fails t (sh sh' : Shared) : AcquireSlot t sh = Some (None, sh') -> sh' = sh.
Proof.
  unfold AcquireSlot. intros E. destruct (m_pipelineError sh); [congruence|].
  destruct (find_slot _ _); [congruence|]. destruct t; congruence.
Qed.

Lemma acquire_gives_up t (sh sh' : Shared) :
  AcquireSlot t sh = Some (None, sh') -> m_pipelineError sh = true \/ t = true.
Proof.
  unfold AcquireSlot. intros E. destruct (m_pipelineError sh); [by left|].
  destruct (find_slot _ _); [congruence|]. destruct t; [by right|congruence].
Qed.

Lemma acquire_only_window t (sh sh' : Shared) k :
  AcquireSlot t sh = Some (Some k, sh') -> exists w, sh' = set_window w sh.
Proof.
  unfold AcquireSlot. intros E. destruct (m_pipelineError sh); [congruence|].
  destruct (find_slot _ _); [injection E as _ <-; eauto|]. destruct t; congruence.
Qed.

(** Leaving the loop. *)
Lemma win_leave r bound pc :
  win_ok r bound -> main_cur (main r) = None -> main_cur pc = None ->
  bound <= job_totalBlocks job -> main_bound pc bound -> win_ok (go_main pc (shared r) r) bound.
Proof. intros ? Hc Hp ? ?. apply win_main_same; [done|done| |done]. by rewrite Hp, Hc. Qed.

Lemma main_bound_le pc bound : main_bound pc bound -> bound <= job_totalBlocks job.
Proof. destruct pc; cbn; lia. Qed.

Lemma win_main r bound r' :
  win_ok r bound -> main_step job r = Next r' -> exists bound', win_ok r' bound'.
Proof.
  intros Hok E. pose proof (win_bound _ _ Hok) as Hb. pose proof (main_bound_le _ _ Hb) as Hle.
  unfold main_step in E. destruct (main r) as [i|i|i k|i k|i k|i k|i k|i k|i k|i k| | | |] eqn:Hm;
    cbn in Hb; try done.
  - destruct (i <? job_totalBlocks job) eqn:Hi; reflect_Z; cbn [negb] in E.
    + destruct (m_pipelineError _); injection E as <-; exists bound; apply win_leave; rewrite ?Hm; try done; cbn; lia.
    + injection E as <-; exists bound; apply win_leave; rewrite ?Hm; done.
  - destruct (AcquireSlot false _) as [[[k|] sh]|] eqn:Ha; [| |done]; injection E as <-; exists bound.
    + by eapply win_acquire.
    + rewrite (acquire_fails _ _ _ Ha). apply win_leave; rewrite ?Hm; done.
  - apply use_slot_Next in E as (sl & Hs & [= <-]). exists bound. destruct Hok. rewrite Hm in *.
    constructor; cbn; try done.
    + by rewrite length_alter.
    + unfold window_view. cbn. rewrite (view_alter _ _ _ sl) by done.
      destruct (w_cur _ _ _ _ _ win_view0) as (_ & _ & b & Hb' & _).
      replace (slot_view _) with (true, i); [by eapply window_fill|].
      apply view_lookup in Hb' as (sl' & ? & Hv). assert (sl' = sl) as -> by congruence.
      injection Hv as Hu _. unfold slot_view. cbn. by rewrite Hu.
  - apply use_slot_Next in E as (sl & Hs & E). unfold read_block in E. case_if_in E; [done|].
    destruct (ReadAt _ _) as [d|]; injection E as <-.
    + exists bound. apply (win_payload r _ _ _ _ (locals r)); rewrite ?Hm; done.
    + eexists. eapply win_skip; rewrite ?Hm; (done || apply Hb).
  - apply use_slot_Next in E as (sl & Hs & E). unfold hash_block in E.
    destruct (memcpy_from _ _ _) as [d|]; [|done]. destruct (ComputeBlockHash _ _) as [h|]; injection E as <-.
    + exists bound. apply (win_payload r _ _ _ _ (locals r)); rewrite ?Hm; done.
    + eexists. eapply win_skip; rewrite ?Hm; (done || apply Hb).
  - apply use_slot_Next in E as (sl & Hs & [= <-]). exists bound.
    apply (win_main_same r); rewrite ?Hm; done.
  - apply use_slot_Next in E as (sl & Hs & E). unfold compress_block in E.
    destruct (memcpy_from _ _ _) as [d|]; [|done].
    destruct (Compress _ _ _) as [[[] c]|]; [| |done]; injection E as <-.
    + exists bound. apply (win_payload r); rewrite ?Hm; done.
    + eexists. eapply win_skip; rewrite ?Hm; (done || apply Hb).
  - injection E as <-. exists bound. apply (win_main_same r); rewrite ?Hm; done.
  - injection E as <-. exists bound. destruct Hb as [-> Hb].
    apply (win_payload r _ _ _ _ (locals r)); rewrite ?Hm; done.
  - case_if_in E; injection E as <-; exists bound; apply win_leave; rewrite ?Hm; done.
  - destruct (WaitForAllAcks _ _); [|done]. injection E as <-. exists bound.
    apply win_leave; rewrite ?Hm; done.
  - destruct (ack r); try done; injection E as <-; exists bound; apply win_leave; rewrite ?Hm; done.
Qed.

Lemma wire_ix_sent r k : map call_index (wire r ++ [k]) = wire_ix r ++ [call_index k].
Proof. unfold wire_ix. by rewrite map_app. Qed.

Lemma live_sent ws rel b i : live ws rel b -> live (ws ++ [i]) rel b.
Proof. intros [? ?]. split; [|done]. apply elem_of_app. by left. Qed.

Lemma win_send r bound b r' :
  win_ok r bound -> send_step job b r = Next r' -> exists bound', win_ok r' bound'.
Proof.
  intros Hok E. pose proof (win_bound _ _ Hok) as Hb.
  unfold send_step in E. destruct (main r) as [ | | | | | | |i k| | | | | | ] eqn:Hm; try done.
  destruct Hb as [-> Hlt]. apply use_slot_Next in E as (sl & Hs & E). destruct b; injection E as <-.
  - exists (bound + 1). destruct Hok. rewrite Hm in *. constructor; cbn; try done.
    + rewrite wire_ix_sent. by eapply window_send.
    + lia.
    + rewrite wire_ix_sent.
      eapply Forall_impl; [exact win_pending0|]. cbn. intros c. apply live_sent.
  - assert (win_ok (skip_block bound k r) (bound + 1)) as [].
    { eapply win_skip; rewrite ?Hm; try done. }
    exists (bound + 1). constructor; cbn; try done; try lia.
Qed.

Lemma win_timeout r bound r' :
  win_ok r bound -> timeout_step r = Next r' -> exists bound', win_ok r' bound'.
Proof.
  intros Hok E. pose proof (win_bound _ _ Hok) as Hb. pose proof (main_bound_le _ _ Hb) as Hle.
  unfold timeout_step in E. exists bound.
  destruct (main r) as [ |i| | | | | | | | | | | | ] eqn:Hm; try done.
  - destruct (AcquireSlot true _) as [[[k|] sh]|] eqn:Ha; [| |done]; injection E as <-.
    + by eapply win_acquire.
    + rewrite (acquire_fails _ _ _ Ha). apply win_leave; rewrite ?Hm; done.
  - destruct (WaitForAllAcks _ _); [|done]. injection E as <-. apply win_leave; rewrite ?Hm; done.
Qed.

(** The callback's entry, in two cases. *)
Lemma enter_callback_cases c a r r' :
  enter_callback c a r = Next r' ->
  ack r = AckIdle /\ main r <> Finished /\
  (cb_blockIndex c = CONNECTION_ERROR /\ r' = go_ack a (set_error (shared r)) r \/
   cb_blockIndex c <> CONNECTION_ERROR /\ r' = go_ack (AckEntered c) (shared r) r).
Proof.
  unfold enter_callback. destruct (ack r); try (by destruct (main r)).
  intros E. split; [done|]. destruct (main r); try done; (split; [done|]);
    case_if_in E; injection E as <-; auto.
Qed.

Lemma win_call r bound c r' :
  win_ok r bound -> fair patient (AckCalled c) r -> enter_callback c AckIdle r = Next r' ->
  win_ok r' bound.
Proof.
  intros Hok Hl (Hi & _ & [[? ->]|[Hne ->]])%enter_callback_cases; destruct Hok.
  - constructor; cbn; done.
  - constructor; cbn; try done. constructor; [|constructor].
    cbn in Hl. unfold pending in Hl. by rewrite Hi, app_nil_r in Hl.
Qed.

Lemma win_failed r bound code r' :
  win_ok r bound -> enter_callback (error_call code) AckExited r = Next r' -> win_ok r' bound.
Proof.
  intros Hok (Hi & _ & [[? ->]|[Hne ->]])%enter_callback_cases; [|done].
  destruct Hok. constructor; cbn; done.
Qed.

(** [ReleaseSlot] of a block in flight finds its slot. *)
Lemma release_slot r bound b :
  win_ok r bound -> live (wire_ix r) (released_ix r) b ->
  exists k sl, find_slot (holds b) (m_window (shared r)) = Some k /\
    m_window (shared r) !! k = Some sl /\ slot_view sl = (true, b) /\
    cur_slot (main_cur (main r)) <> Some k.
Proof.
  intros [] Hl. destruct (w_holder _ _ _ _ _ win_view0 b Hl) as (k0 & Hk0 & _).
  destruct (find_view_is_Some (fun x => fst x && (snd x =? b)) _ _ _ Hk0) as [k Hk].
  { cbn. by rewrite Z.eqb_refl. }
  pose proof (release_finds _ _ _ _ _ _ _ win_view0 Hl Hk) as [Hb Hc].
  rewrite find_holds_view. apply view_lookup in Hb as (sl & Hs & Hv). exists k, sl. by split_and!.
Qed.

Lemma win_ack r bound r' :
  win_ok r bound -> ack_step r = Next r' -> win_ok r' bound.
Proof.
  intros Hok E. unfold ack_step in E. destruct (ack r) as [|c|c|c|f|] eqn:Ha; [done| | | | |done].
  - injection E as <-. destruct Hok. unfold pending in *. rewrite Ha in *. by constructor.
  - destruct Hok. unfold pending in *. rewrite Ha in *.
    destruct (cb_status c =? 0); injection E as <-; by constructor.
  - destruct (release_slot r bound (cb_blockIndex c) Hok) as (k & sl & Hf & Hs & Hv & Hc).
    { destruct Hok. unfold pending in win_pending0. rewrite Ha in win_pending0.
      by apply Forall_cons_1 in win_pending0 as []. }
    unfold ReleaseSlot in E. rewrite Hf in E. injection E as <-. destruct Hok.
    unfold pending in *. rewrite Ha in *. apply Forall_cons_1 in win_pending0 as [Hl _].
    constructor; cbn; try done.
    + by rewrite length_alter.
    + unfold window_view, released_ix. cbn. rewrite (view_alter _ _ _ sl) by done. rewrite map_app.
      replace (slot_view _) with (false, cb_blockIndex c) by (injection Hv as _ <-; done).
      apply window_release; try done. rewrite <- Hv. by apply view_lookup_of.
    + by intros f [= <-].
  - injection E as <-. destruct Hok. unfold pending in *. rewrite Ha in *.
    destruct f; by constructor.
Qed.

Lemma win_step e r r' bound :
  win_ok r bound -> fair patient e r -> step job e r = Next r' -> exists bound', win_ok r' bound'.
Proof.
  intros Hok Hf E. destruct e; cbn in E.
  - by eapply win_main.
  - by eapply win_timeout.
  - by eapply win_send.
  - exists bound. by eapply win_call.
  - exists bound. by eapply win_failed.
  - exists bound. by eapply win_ack.
Qed.

Hypothesis total_ok : 0 <= job_totalBlocks job < 2 ^ 64.

Lemma reachable_win r : reachable r -> exists bound, win_ok r bound.
Proof.
  induction 1 as [|e r r' _ [bound IH] Hf E]; [|by eapply win_step].
  exists 0. constructor; cbn; try done; try lia.
  - by rewrite length_replicate.
  - unfold window_view. cbn. assert (forall k x, map slot_view (replicate (Z.to_nat windowSize) PipelineSlot_new) !! k = Some x -> x = (false, 0)) as Hz.
    { intros k x (sl & Hs & <-)%view_lookup. apply lookup_replicate in Hs as [-> _]. done. }
    constructor; cbn; try done; try lia; try by constructor.
    + by intros b [?%not_elem_of_nil _].
    + intros k b E%Hz. done.
    + intros j k b E%Hz. done.
    + intros j u b _ _ [?%not_elem_of_nil _]. done.
    + intros j u b E%Hz _. injection E as _ ->. by left.
Qed.

(** ** The counts *)

(** The block sent and not counted, the block released and not counted, the
    calls whose status is counted. *)
Definition sending (r : Run) : Z := match main r with JustSent _ _ => 1 | _ => 0 end.
Definition releasing (r : Run) : Z := match ack r with AckReleased _ => 1 | _ => 0 end.
Definition counted (r : Run) : list AckCall :=
  released r ++ match ack r with AckCounted c => [c] | _ => [] end.

Definition successes (l : list AckCall) : Z := zlen (filter (fun c => cb_status c = 0) l).
Definition rejections (l : list AckCall) : Z := zlen (filter (fun c => cb_status c <> 0) l).

(** The blocks the loop is done with: sent or skipped. *)
Definition main_progress (r : Run) (n : Z) : Prop :=
  match main r with
  | AtLoop i | Acquiring i | Claimed i _ | Filled i _ | DataRead i _ | Hashed i _
  | HashStored i _ | Ready i _ => n = i
  | JustSent i _ | Counted i _ => n = i + 1
  | _ => n <= job_totalBlocks job /\
         (patient = true -> m_pipelineError (shared r) = true \/ n = job_totalBlocks job)
  end.

Record count_ok (r : Run) : Prop := {
  cnt_inflight : m_inFlightCount (shared r)
                 = (zlen (wire r) - sending r) - (zlen (released r) - releasing r);
  cnt_acked : m_ackedCount (shared r) = u64 (successes (counted r));
  cnt_failed : m_failedCount (shared r) = u64 (rejections (counted r));
  cnt_sent : sentCount (locals r) = zlen (wire r) - sending r;
  cnt_skipped : skippedCount (locals r) = statsFailed (locals r) /\ 0 <= skippedCount (locals r);
  cnt_progress : main_progress r (zlen (wire r) + skippedCount (locals r));
}.

Hypothesis window_size_ok : 0 < windowSize < 2 ^ 31 - 1.

Lemma s32_id x : - 2 ^ 31 <= x < 2 ^ 31 -> s32 x = x.
Proof.
  intros Hx. unfold signed, wrap. change (32 - 1) with 31.
  destruct (Z.lt_ge_cases x 0).
  - replace (x mod 2 ^ 32) with (x + 2 ^ 32) by (apply Z.mod_unique with (-1); lia).
    replace (x + 2 ^ 32 <? 2 ^ 31) with false by lia. lia.
  - rewrite Z.mod_small by lia. replace (x <? 2 ^ 31) with true by lia. done.
Qed.

(** Between none and the window's size, up to the counts under way. *)
Lemma in_flight_range r bound :
  win_ok r bound -> 0 <= zlen (wire r) - zlen (released r) <= windowSize.
Proof.
  intros []. pose proof (in_flight_bound _ _ _ _ _ win_view0) as Hb. destruct win_view0.
  assert (released_ix r ⊆+ wire_ix r) as Hs%submseteq_length by by apply NoDup_submseteq.
  unfold window_view, wire_ix, released_ix in *. rewrite !length_map in *. lia.
Qed.

Lemma u64_succ x : u64 (u64 x + 1) = u64 (x + 1).
Proof. unfold wrap. by rewrite Zplus_mod_idemp_l. Qed.

Lemma successes_snoc l c :
  successes (l ++ [c]) = successes l + (if cb_status c =? 0 then 1 else 0).
Proof.
  unfold successes. rewrite filter_app, filter_cons, filter_nil, length_app.
  destruct (decide _), (cb_status c =? 0) eqn:E; reflect_Z; cbn [length]; (lia || done).
Qed.

Lemma rejections_snoc l c :
  rejections (l ++ [c]) = rejections l + (if cb_status c =? 0 then 0 else 1).
Proof.
  unfold rejections. rewrite filter_app, filter_cons, filter_nil, length_app.
  destruct (decide _), (cb_status c =? 0) eqn:E; reflect_Z; cbn [length]; (lia || done).
Qed.

(** A step of the loop that counts nothing. *)
Lemma count_main_same r pc sh l :
  count_ok r -> m_inFlightCount sh = m_inFlightCount (shared r) ->
  m_ackedCount sh = m_ackedCount (shared r) -> m_failedCount sh = m_failedCount (shared r) ->
  sentCount l = sentCount (locals r) -> skippedCount l = skippedCount (locals r) ->
  statsFailed l = statsFailed (locals r) ->
  let r' := {| shared := sh; main := pc; locals := l; ack := ack r; wire := wire r;
               released := released r |} in
  sending r' = sending r -> main_progress r' (zlen (wire r) + skippedCount (locals r)) -> count_ok r'.
Proof.
  intros [] E1 E2 E3 E4 E5 E6 r' Es Hp.
  constructor; rewrite ?Es; cbn -[sending counted]; rewrite ?E1, ?E2, ?E3, ?E4, ?E5, ?E6; done.
Qed.

Lemma count_skip r i k :
  count_ok r -> sending r = 0 -> main_progress r (zlen (wire r) + skippedCount (locals r)) ->
  zlen (wire r) + skippedCount (locals r) = i -> i < 2 ^ 64 - 1 -> count_ok (skip_block i k r).
Proof.
  intros [] Es Hp Hi Hlt. destruct cnt_skipped0 as [Hsk Hnn].
  constructor; cbn; rewrite <- ?Hsk, ?wrap_small by (unfold in_width; lia); try done; try lia.
  by rewrite cnt_inflight0, Es.
Qed.

Lemma count_main r bound r' :
  win_ok r bound -> count_ok r -> main_step job r = Next r' -> count_ok r'.
Proof.
  intros Hw Hok E. pose proof (win_bound _ _ Hw) as Hb. pose proof (in_flight_range _ _ Hw) as Hr.
  pose proof (cnt_progress _ Hok) as Hp. unfold main_progress in Hp. unfold main_step in E.
  assert (sending r = match main r with JustSent _ _ => 1 | _ => 0 end) as Hs by done.
  destruct (main r) as [i|i|i k|i k|i k|i k|i k|i k|i k|i k| | | |] eqn:Hm; cbn in Hb; try done.
  - destruct (i <? job_totalBlocks job) eqn:Hi; reflect_Z; cbn [negb] in E.
    + destruct (m_pipelineError _) eqn:He; injection E as <-; apply (count_main_same r); try done.
      cbn. rewrite He. split; [lia|by left].
    + injection E as <-; apply (count_main_same r); try done. cbn. split; [lia|]. right. lia.
  - destruct (AcquireSlot false _) as [[[k|] sh]|] eqn:Ha; [| |done]; injection E as <-.
    + destruct (acquire_only_window _ _ _ _ Ha) as [w ->]. by apply (count_main_same r).
    + destruct (acquire_gives_up _ _ _ Ha) as [He|]; [|done]. rewrite (acquire_fails _ _ _ Ha).
      apply (count_main_same r); try done. cbn. split; [lia|by left].
  - apply use_slot_Next in E as (sl & _ & [= <-]). by apply (count_main_same r).
  - apply use_slot_Next in E as (sl & _ & E). unfold read_block in E. case_if_in E; [done|].
    destruct (ReadAt _ _) as [d|]; injection E as <-; [by apply (count_main_same r)|].
    apply count_skip; rewrite ?Hm; (done || lia || idtac). unfold main_progress. by rewrite Hm.
  - apply use_slot_Next in E as (sl & _ & E). unfold hash_block in E.
    destruct (memcpy_from _ _ _) as [d|]; [|done].
    destruct (ComputeBlockHash _ _) as [h|]; injection E as <-; [by apply (count_main_same r)|].
    apply count_skip; rewrite ?Hm; (done || lia || idtac). unfold main_progress. by rewrite Hm.
  - apply use_slot_Next in E as (sl & _ & [= <-]). by apply (count_main_same r).
  - apply use_slot_Next in E as (sl & _ & E). unfold compress_block in E.
    destruct (memcpy_from _ _ _) as [d|]; [|done].
    destruct (Compress _ _ _) as [[[] c]|]; [| |done]; injection E as <-;
      [by apply (count_main_same r)|].
    apply count_skip; rewrite ?Hm; (done || lia || idtac). unfold main_progress. by rewrite Hm.
  - injection E as <-. destruct Hok. destruct cnt_skipped0. rewrite Hs in *.
    assert (releasing r = 0 \/ releasing r = 1) by (unfold releasing; destruct (ack r); auto).
    constructor; cbn -[counted]; try done.
    + rewrite cnt_inflight0, s32_id; unfold releasing in *; cbn; lia.
    + rewrite cnt_sent0, wrap_small; [lia|]. unfold in_width. lia.
  - injection E as <-. by apply (count_main_same r).
  - case_if_in E; injection E as <-; by apply (count_main_same r).
  - destruct (WaitForAllAcks _ _); [|done]. injection E as <-. by apply (count_main_same r).
  - destruct (ack r) eqn:Ha; try done; injection E as <-; by apply (count_main_same r).
Qed.

Lemma count_send r bound b r' :
  win_ok r bound -> count_ok r -> send_step job b r = Next r' -> count_ok r'.
Proof.
  intros Hw Hok E. pose proof (win_bound _ _ Hw) as Hb.
  pose proof (cnt_progress _ Hok) as Hp. unfold main_progress in Hp. unfold send_step in E.
  assert (sending r = match main r with JustSent _ _ => 1 | _ => 0 end) as Hs by done.
  destruct (main r) as [ | | | | | | |i k| | | | | | ] eqn:Hm; try done.
  apply use_slot_Next in E as (sl & _ & E). destruct Hok. destruct b; injection E as <-.
  - constructor; cbn -[counted]; try done; rewrite ?length_app; cbn [length]; try lia.
    all: rewrite ?cnt_inflight0, ?cnt_sent0, Hs; unfold releasing; cbn; lia.
  - cbn in Hb. constructor; cbn -[counted]; try done.
    + by rewrite cnt_inflight0, Hs.
    + by rewrite cnt_sent0, Hs.
    + split; [lia|by left].
Qed.

Lemma count_timeout r bound r' :
  win_ok r bound -> count_ok r -> patient = false -> timeout_step r = Next r' -> count_ok r'.
Proof.
  intros Hw Hok Hpt E. pose proof (win_bound _ _ Hw) as Hb.
  pose proof (cnt_progress _ Hok) as Hp. unfold main_progress in Hp. unfold timeout_step in E.
  assert (sending r = match main r with JustSent _ _ => 1 | _ => 0 end) as Hs by done.
  destruct (main r) as [ |i| | | | | | | | | | | | ] eqn:Hm; try done; cbn in Hb.
  - destruct (AcquireSlot true _) as [[[k|] sh]|] eqn:Ha; [| |done]; injection E as <-.
    + destruct (acquire_only_window _ _ _ _ Ha) as [w ->]. by apply (count_main_same r).
    + rewrite (acquire_fails _ _ _ Ha). apply (count_main_same r); try done. cbn.
      split; [lia|congruence].
  - destruct (WaitForAllAcks _ _); [|done]. injection E as <-. by apply (count_main_same r).
Qed.

(** A step of the callback: the loop's own counts stay. *)
Lemma progress_ack r sh a rel :
  m_pipelineError sh = m_pipelineError (shared r) \/ m_pipelineError sh = true ->
  main_progress r (zlen (wire r) + skippedCount (locals r)) ->
  main_progress {| shared := sh; main := main r; locals := locals r; ack := a; wire := wire r;
                   released := rel |} (zlen (wire r) + skippedCount (locals r)).
Proof.
  unfold main_progress. cbn. intros [->| ->] Hp; [done|].
  destruct (main r); try done; (split; [apply Hp|by left]).
Qed.

Lemma count_call r c a r' :
  count_ok r -> a = AckIdle \/ a = AckExited -> enter_callback c a r = Next r' -> count_ok r'.
Proof.
  intros Hok Ha (Hi & _ & Hr)%enter_callback_cases.
  destruct Hok; unfold counted, releasing in *; rewrite Hi in *.
  destruct Hr as [[_ ->]|[_ ->]], Ha as [->| ->]; constructor; cbn; try done.
  all: by apply progress_ack; [first [by left|by right]|].
Qed.

Lemma count_ack_step r bound r' :
  win_ok r bound -> count_ok r -> ack_step r = Next r' -> count_ok r'.
Proof.
  intros Hw Hok E. pose proof (in_flight_range _ _ Hw) as Hr. unfold ack_step in E.
  assert (releasing r = match ack r with AckReleased _ => 1 | _ => 0 end) as Hs by done.
  assert (sending r = 0 \/ sending r = 1) as Hse by (unfold sending; destruct (main r); auto).
  destruct (ack r) as [|c|c|c|f|] eqn:Ha; [done| | | | |done].
  - injection E as <-. destruct Hok; unfold counted in *; rewrite Ha, Hs in *; constructor; cbn; try done.
  - destruct Hok. unfold counted in *. rewrite Ha, Hs in *. rewrite !app_nil_r in *.
    destruct (cb_status c =? 0) eqn:Hc; injection E as <-; constructor; cbn; try done;
      rewrite ?successes_snoc, ?rejections_snoc, Hc, ?Z.add_0_r, ?cnt_acked0, ?cnt_failed0, ?u64_succ; done.
  - destruct (release_slot r bound (cb_blockIndex c) Hw) as (k & sl & Hf & _).
    { destruct Hw. unfold pending in win_pending0. rewrite Ha in win_pending0.
      by apply Forall_cons_1 in win_pending0 as []. }
    unfold ReleaseSlot in E. rewrite Hf in E. injection E as <-. destruct Hok.
    unfold counted in *. rewrite Ha, Hs in *. constructor; cbn; rewrite ?app_nil_r; try done.
    rewrite cnt_inflight0, length_app. unfold sending. cbn. lia.
  - rewrite (win_found _ _ Hw f Ha) in E. injection E as <-. destruct Hok.
    unfold counted in *. rewrite Ha, Hs in *. constructor; cbn; try done.
    rewrite cnt_inflight0, s32_id; unfold sending in *; cbn; lia.
Qed.

Lemma reachable_ok r : reachable r -> (exists bound, win_ok r bound) /\ count_ok r.
Proof.
  induction 1 as [|e r r' Hr [[bound Hw] Hc] Hf E].
  { split; [apply reachable_win; constructor|]. by constructor. }
  split; [by eapply win_step|]. destruct e; cbn in E.
  - by eapply count_main.
  - by eapply count_timeout.
  - by eapply count_send.
  - eapply count_call; [done| |done]. by left.
  - eapply count_call; [done| |done]. by right.
  - by eapply count_ack_step.
Qed.
End runs.
