(* ===== verification/PipelineResult.v ===== *)
(** * What the pipelined transfer delivers

    What the slots hold, what is on the wire and what becomes of the block
    states in the runs of [PipelineSpec]; the result of a finished transfer, its
    termination, and what the threads and other peers can do wrong. *)

From Stdlib Require Import Sorted.
From S2P Require Import Prelude.
From S2P Require Import Protocol.
From S2P Require Import BlockHasher.
From S2P Require Import DataCompressor.
From S2P Require Import NetworkClient.
From S2P Require Import BlockStateManager.
From S2P Require Import Pipeline.
From S2P Require Import PipelineInv.
From S2P Require Import PipelineSpec.

Section runs.
Context `{Source} `{CompressApi} (job : Job) (windowSize : Z) (m0 : Manager) (patient : bool).
Hypothesis total_ok : 0 <= job_totalBlocks job < 2 ^ 64.
Hypothesis window_size_ok : 0 < windowSize < 2 ^ 31 - 1.

#[local] Abbreviation win_ok := (win_ok job windowSize).
#[local] Abbreviation reachable := (reachable job windowSize m0 patient).

(** ** What the loop prepares and sends *)

(** Block [i] read, hashed and compressed. *)
Definition read_as (i : Z) (d : list Z) : Prop :=
  ReadAt (u64 (i * BLOCK_SIZE)) (block_size job i) = Some d.
Definition hashed_as (i : Z) (d h : list Z) : Prop :=
  read_as i d /\ ComputeBlockHash (job_hasher job) d = Some h.
Definition prepared (i : Z) (d h c : list Z) : Prop :=
  hashed_as i d h /\ exists out, Compress (job_compressor job) d out = Some (true, c).

(** What the loop's slot holds at each point. *)
Definition slot_ok (pc : MainPc) (w : list PipelineSlot) : Prop :=
  match pc with
  | Filled i k => exists sl, w !! k = Some sl /\ zlen (BlockData sl) = block_size job i
  | DataRead i k => exists sl, w !! k = Some sl /\ read_as i (BlockData sl)
  | Hashed i k | HashStored i k =>
      exists sl, w !! k = Some sl /\ hashed_as i (BlockData sl) (Hash sl)
  | Ready i k =>
      exists sl, w !! k = Some sl /\ prepared i (BlockData sl) (Hash sl) (Compressed sl)
  | _ => True
  end.

Definition call_prepared (k : client_call) : Prop :=
  exists i d h c, prepared i d h c /\
    k = CallBlock false (job_devNo job) i (block_size job i) c h (job_versionId job).

Definition payload_ok (r : Run) : Prop :=
  slot_ok (main r) (m_window (shared r)) /\ Forall call_prepared (wire r).

Lemma block_size_range i : 0 < block_size job i <= BLOCK_SIZE.
Proof.
  unfold block_size. case_if; [|unfold BLOCK_SIZE; lia]. case_if; [|unfold BLOCK_SIZE; lia].
  rewrite wrap_small; unfold in_width, BLOCK_SIZE in *; lia.
Qed.

Lemma read_length i d : read_as i d -> zlen d = block_size job i.
Proof.
  unfold read_as, ReadAt. case_if; [done|]. destruct (ReadFile _ _) as [d'|]; [|done].
  case_if; [|done]. by intros [= <-].
Qed.

Lemma read_whole i d : read_as i d -> memcpy_from 0 (block_size job i) d = Some d.
Proof.
  intros Hd. pose proof (read_length i d Hd). pose proof (block_size_range i).
  unfold memcpy_from. rewrite H1, sub_all by done.
  by replace ((0 <=? 0) && (0 <=? block_size job i) && (0 + block_size job i <=? block_size job i))
    with true by (symmetry; rewrite !andb_true_iff, !Z.leb_le; lia).
Qed.

Lemma alter_here (f : PipelineSlot -> PipelineSlot) (k : nat) (w : list PipelineSlot) sl :
  w !! k = Some sl -> alter f k w !! k = Some (f sl).
Proof. intros E. by rewrite list_lookup_alter_eq, E. Qed.

Lemma resize_length n l : 0 <= n -> zlen (resize n l) = n.
Proof. intros Hn. unfold resize. len_solve. Qed.

Lemma payload_main r bound r' :
  win_ok r bound -> payload_ok r -> main_step job r = Next r' -> payload_ok r'.
Proof.
  intros Hw [Hs Hf] E. unfold main_step in E.
  destruct (main r) as [i|i|i k|i k|i k|i k|i k|i k|i k|i k| | | |] eqn:Hm; cbn in Hs; try done.
  - case_if_in E; [|case_if_in E]; by injection E as <-.
  - destruct (AcquireSlot false _) as [[[k|] sh]|] eqn:Ha; [| |done]; by injection E as <-.
  - apply use_slot_Next in E as (sl & Hsl & [= <-]). split; [|done]. cbn.
    eexists. split; [by apply alter_here|]. cbn. apply resize_length. pose proof (block_size_range i). lia.
  - destruct Hs as (sl' & Hsl' & Hd). apply use_slot_Next in E as (sl & Hsl & E). simplify_eq.
    unfold read_block in E. case_if_in E; [done|].
    destruct (ReadAt _ _) as [d|] eqn:Er; injection E as <-; [|by split]. split; [|done]. cbn.
    eexists. split; [by apply alter_here|]. cbn. rewrite drop_ge by lia. by rewrite app_nil_r.
  - destruct Hs as (sl' & Hsl' & Hd). apply use_slot_Next in E as (sl & Hsl & E). simplify_eq.
    unfold hash_block in E. rewrite read_whole in E by done.
    destruct (ComputeBlockHash _ _) as [h|] eqn:Eh; injection E as <-; [|by split]. split; [|done]. cbn.
    eexists. split; [by apply alter_here|]. by split.
  - apply use_slot_Next in E as (sl & Hsl & [= <-]). by split.
  - destruct Hs as (sl' & Hsl' & Hd). apply use_slot_Next in E as (sl & Hsl & E). simplify_eq.
    unfold compress_block in E. rewrite read_whole in E by apply Hd.
    destruct (Compress _ _ _) as [[[] c]|] eqn:Ec; [| |done]; injection E as <-; [|by split].
    split; [|done]. cbn. eexists. split; [by apply alter_here|]. split; [done|]. by eexists.
  - by injection E as <-.
  - by injection E as <-.
  - case_if_in E; by injection E as <-.
  - destruct (WaitForAllAcks _ _); [|done]. by injection E as <-.
  - destruct (ack r); try done; by injection E as <-.
Qed.

Lemma payload_send b r r' :
  payload_ok r -> send_step job b r = Next r' -> payload_ok r'.
Proof.
  intros [Hs Hf] E. unfold send_step in E.
  destruct (main r) as [ | | | | | | |i k| | | | | | ] eqn:Hm; try done.
  destruct Hs as (sl' & Hsl' & Hp). apply use_slot_Next in E as (sl & Hsl & E). simplify_eq.
  destruct b; injection E as <-; split; try done. cbn.
  apply Forall_app. split; [done|]. constructor; [|done]. eexists i, _, _, _. by split.
Qed.

Lemma payload_timeout r r' : payload_ok r -> timeout_step r = Next r' -> payload_ok r'.
Proof.
  intros [Hs Hf] E. unfold timeout_step in E. destruct (main r); try done.
  - destruct (AcquireSlot true _) as [[[k|] sh]|]; [| |done]; by injection E as <-.
  - destruct (WaitForAllAcks _ _); [|done]. by injection E as <-.
Qed.

(** The loop's slot is not the one released. *)
Lemma slot_ok_alter pc f k w :
  slot_ok pc w -> cur_slot (main_cur pc) <> Some k -> slot_ok pc (alter f k w).
Proof.
  intros Hs Hk. destruct pc; try done; cbn in Hk; destruct Hs as (sl & Hs & Hp);
    (exists sl; split; [rewrite list_lookup_alter_ne by congruence; done|done]).
Qed.

Lemma payload_ack r bound r' :
  win_ok r bound -> payload_ok r -> ack_step r = Next r' -> payload_ok r'.
Proof.
  intros Hw [Hs Hf] E. unfold ack_step in E. destruct (ack r) as [|c|c|c|f|] eqn:Ha; try done.
  - by injection E as <-.
  - destruct (cb_status c =? 0); by injection E as <-.
  - destruct (release_slot job windowSize r bound (cb_blockIndex c) Hw) as (k & sl & Hk & _ & _ & Hc).
    { destruct Hw. unfold pending in win_pending. rewrite Ha in win_pending.
      by apply Forall_cons_1 in win_pending as []. }
    unfold ReleaseSlot in E. rewrite Hk in E. injection E as <-. split; [|done].
    by apply slot_ok_alter.
  - injection E as <-. by destruct f.
Qed.

Lemma reachable_payload r : reachable r -> payload_ok r.
Proof.
  induction 1 as [|e r r' Hr IH Hf E]; [by split|].
  destruct (reachable_win _ _ _ _ total_ok r Hr) as [bound Hw]. destruct e; cbn in E.
  - by eapply payload_main.
  - by eapply payload_timeout.
  - by eapply payload_send.
  - apply enter_callback_cases in E as (_ & _ & [[_ ->]|[_ ->]]); by destruct IH.
  - apply enter_callback_cases in E as (_ & _ & [[_ ->]|[_ ->]]); by destruct IH.
  - by eapply payload_ack.
Qed.

(** ** No undefined behaviour *)

(** Reading yields bytes. *)
Definition reads_bytes : Prop := forall off n d, ReadAt off n = Some d -> bytes_ok d.

Lemma compress_total i d out :
  reads_bytes -> read_as i d -> Compress (job_compressor job) d out <> None.
Proof.
  intros Hb Hd. pose proof (read_length i d Hd). pose proof (block_size_range i).
  destruct (Compress_branches (job_compressor job) d out) as (ok & o & -> & _); [by eapply Hb| |done].
  unfold BLOCK_SIZE in *. lia.
Qed.

Lemma step_defined r e :
  reads_bytes -> reachable r -> step job e r <> Undefined.
Proof.
  intros Hb Hr. destruct (reachable_win _ _ _ _ total_ok r Hr) as [bound Hw].
  pose proof (reachable_payload r Hr) as [Hs _].
  assert (forall i k f, main_cur (main r) = Some (i, k, f) -> exists sl, m_window (shared r) !! k = Some sl) as Hc.
  { intros i k f Hm. destruct (cur_slot_at _ _ _ _ _ _ _ Hw Hm) as (sl & ? & _). eauto. }
  destruct e; cbn.
  - unfold main_step, use_slot. destruct (main r) as [i|i|i k|i k|i k|i k|i k|i k|i k|i k| | | |] eqn:Hm; cbn in Hc; try done.
    + case_if; [done|]. by case_if.
    + by destruct (AcquireSlot false _) as [[[k|] sh]|].
    + by destruct (Hc i k false eq_refl) as [sl ->].
    + destruct Hs as (sl & -> & Hl). unfold read_block. rewrite Hl, Z.ltb_irrefl. by destruct (ReadAt _ _).
    + destruct Hs as (sl & -> & Hl). unfold hash_block. rewrite read_whole by done. by destruct (ComputeBlockHash _ _).
    + by destruct Hs as (sl & -> & Hl).
    + destruct Hs as (sl & -> & Hl). unfold compress_block. rewrite read_whole by apply Hl.
      pose proof (compress_total i (BlockData sl) (Compressed sl) Hb (proj1 Hl)).
      by destruct (Compress _ _ _) as [[[] c]|].
    + by case_if.
    + by destruct (WaitForAllAcks _ _).
    + by destruct (ack r).
  - unfold timeout_step. destruct (main r); try done.
    + by destruct (AcquireSlot true _) as [[[k|] sh]|].
    + by destruct (WaitForAllAcks _ _).
  - unfold send_step, use_slot. destruct (main r); try done. destruct Hs as (sl & -> & _). by destruct sent.
  - unfold enter_callback. destruct (ack r), (main r); try done; by case_if.
  - unfold enter_callback. destruct (ack r), (main r); try done; by case_if.
  - unfold ack_step. destruct (ack r); try done. by destruct (ReleaseSlot _ _).
Qed.

(** ** The block states *)

(** The calls whose [SetBlockAck] is done, and what they make of the status of
    a block. *)
Definition applied (r : Run) : list AckCall :=
  released r ++ match ack r with AckMarked c | AckCounted c => [c] | _ => [] end.

Definition ack_of (l : list AckCall) (i a0 : Z) : Z :=
  fold_left (fun a c => if cb_blockIndex c =? i then ack_status c else a) l a0.

(** The parts of a block's state a transfer leaves alone. *)
Definition same_block (b b0 : BlockState) : Prop :=
  b_BlockIndex b = b_BlockIndex b0 /\ b_Offset b = b_Offset b0 /\
  b_VersionId b = b_VersionId b0 /\ b_Changed b = b_Changed b0.

Definition hash_recorded (m : Manager) (i : Z) (h : list Z) : Prop :=
  exists b, m_blocks m !! Z.to_nat i = Some b /\ b_Hash b = h.

Definition call_recorded (m : Manager) (k : client_call) : Prop :=
  match k with CallBlock _ _ i _ _ h _ => hash_recorded m i h | _ => True end.

Definition cur_recorded (m : Manager) (pc : MainPc) (w : list PipelineSlot) : Prop :=
  match pc with
  | HashStored i k | Ready i k => exists sl, w !! k = Some sl /\ hash_recorded m i (Hash sl)
  | _ => True
  end.

Record states_ok (r : Run) : Prop := {
  st_len : length (m_blocks (blockState (shared r))) = length (m_blocks m0);
  st_ack i b0 : m_blocks m0 !! i = Some b0 -> exists b,
    m_blocks (blockState (shared r)) !! i = Some b /\ same_block b b0 /\
    b_Ack b = ack_of (applied r) (Z.of_nat i) (b_Ack b0);
  st_wire : Forall (call_recorded (blockState (shared r))) (wire r);
  st_cur : cur_recorded (blockState (shared r)) (main r) (m_window (shared r));
}.

(** [SetBlockAck] and [SetBlockHash] change one block. *)
Lemma SetBlockHash_blocks i h m :
  m_blocks (snd (SetBlockHash i h m)) = alter (set_Hash h) (Z.to_nat i) (m_blocks m).
Proof.
  unfold SetBlockHash. destruct (m_blocks m !! Z.to_nat i) as [b|] eqn:E; cbn.
  - by apply list_insert_alter.
  - by rewrite list_alter_none.
Qed.

Lemma ack_of_snoc l c i a0 :
  ack_of (l ++ [c]) i a0 = if cb_blockIndex c =? i then ack_status c else ack_of l i a0.
Proof. unfold ack_of. by rewrite fold_left_app. Qed.

Lemma hash_recorded_ack m i h j st :
  hash_recorded m i h -> hash_recorded (snd (SetBlockAck j st m)) i h.
Proof.
  intros (b & Hb & Hh). unfold hash_recorded. rewrite SetBlockAck_blocks.
  destruct (decide (Z.to_nat j = Z.to_nat i)) as [->|].
  - rewrite list_lookup_alter_eq, Hb. by eexists.
  - rewrite list_lookup_alter_ne by done. by eexists.
Qed.

Lemma call_recorded_ack m k j st :
  call_recorded m k -> call_recorded (snd (SetBlockAck j st m)) k.
Proof. destruct k; try done. apply hash_recorded_ack. Qed.

(** A step that leaves the block states, the calls and the wire alone. *)
Lemma states_same r pc sh l a rel :
  states_ok r -> blockState sh = blockState (shared r) ->
  let r' := {| shared := sh; main := pc; locals := l; ack := a; wire := wire r; released := rel |} in
  applied r' = applied r -> cur_recorded (blockState (shared r)) pc (m_window sh) -> states_ok r'.
Proof.
  intros [] Hb r' Ha Hc. constructor; rewrite ?Ha; cbn [shared wire main r']; rewrite ?Hb; done.
Qed.

Lemma states_skip r i k : states_ok r -> states_ok (skip_block i k r).
Proof. intros Hok. by apply (states_same r). Qed.

Hypothesis blocks_ok : zlen (m_blocks m0) = job_totalBlocks job.

(** The hash of a block that is not on the wire changes. *)
Lemma states_set_hash r bound i k sl :
  win_ok r bound -> states_ok r -> main r = Hashed i k -> m_window (shared r) !! k = Some sl ->
  states_ok (go_main (HashStored i k)
    (set_blockState (snd (SetBlockHash i (Hash sl) (blockState (shared r)))) (shared r)) r).
Proof.
  intros Hw [] Hm Hsl. pose proof (win_bound _ _ _ _ Hw) as Hb. rewrite Hm in Hb. destruct Hb as [-> Hlt].
  pose proof (w_bound _ _ _ _ _ (win_view _ _ _ _ Hw)) as H0b.
  pose proof (w_range _ _ _ _ _ (win_view _ _ _ _ Hw)) as Hr.
  constructor; cbn.
  - by rewrite SetBlockHash_blocks, length_alter.
  - intros j b0 Hj. rewrite SetBlockHash_blocks. destruct (st_ack0 j b0 Hj) as (b & Hb & Hs & Ha).
    destruct (decide (Z.to_nat bound = j)) as [<-|].
    + rewrite list_lookup_alter_eq, Hb. by eexists.
    + rewrite list_lookup_alter_ne by done. by exists b.
  - rewrite Forall_forall in st_wire0 |- *. rewrite Forall_forall in Hr. intros c Hc. specialize (st_wire0 c Hc). destruct c; try done. cbn in *.
    assert (0 <= blockIndex < bound).
    { apply Hr. apply list_elem_of_fmap. eexists. by split; [|exact Hc]. }
    unfold hash_recorded. rewrite SetBlockHash_blocks. by rewrite list_lookup_alter_ne by lia.
  - exists sl. split; [done|]. unfold hash_recorded. rewrite SetBlockHash_blocks, list_lookup_alter_eq.
    destruct (lookup_lt_is_Some_2 (m_blocks m0) (Z.to_nat bound)) as [b0 Hb0]; [lia|].
    destruct (st_ack0 _ _ Hb0) as (b & -> & _). by eexists.
Qed.

Lemma states_main r bound r' :
  win_ok r bound -> states_ok r -> main_step job r = Next r' -> states_ok r'.
Proof.
  intros Hw Hok E. pose proof (st_cur _ Hok) as Hc. unfold main_step in E.
  destruct (main r) as [i|i|i k|i k|i k|i k|i k|i k|i k|i k| | | |] eqn:Hm; cbn in Hc; try done.
  - case_if_in E; [|case_if_in E]; injection E as <-; by apply (states_same r).
  - destruct (AcquireSlot false _) as [[[k|] sh]|] eqn:Ha; [| |done]; injection E as <-.
    + destruct (acquire_only_window _ _ _ _ Ha) as [w ->]. by apply (states_same r).
    + rewrite (acquire_fails _ _ _ Ha). by apply (states_same r).
  - apply use_slot_Next in E as (sl & _ & [= <-]). by apply (states_same r).
  - apply use_slot_Next in E as (sl & _ & E). unfold read_block in E. case_if_in E; [done|].
    destruct (ReadAt _ _); injection E as <-; [by apply (states_same r)|by apply states_skip].
  - apply use_slot_Next in E as (sl & _ & E). unfold hash_block in E. destruct (memcpy_from _ _ _); [|done].
    destruct (ComputeBlockHash _ _); injection E as <-; [by apply (states_same r)|by apply states_skip].
  - apply use_slot_Next in E as (sl & Hsl & [= <-]). by eapply states_set_hash.
  - apply use_slot_Next in E as (sl & _ & E). unfold compress_block in E. destruct (memcpy_from _ _ _); [|done].
    destruct (Compress _ _ _) as [[[] c]|]; [| |done]; injection E as <-; [|by apply states_skip].
    destruct Hc as (sl' & Hsl' & Hh). apply (states_same r); try done. cbn.
    eexists. split; [by apply alter_here|]. done.
  - injection E as <-. by apply (states_same r).
  - injection E as <-. by apply (states_same r).
  - case_if_in E; injection E as <-; by apply (states_same r).
  - destruct (WaitForAllAcks _ _); [|done]. injection E as <-. by apply (states_same r).
  - destruct (ack r) eqn:Ha; try done; injection E as <-; by apply (states_same r).
Qed.

Lemma states_send b r r' : states_ok r -> send_step job b r = Next r' -> states_ok r'.
Proof.
  intros Hok E. unfold send_step in E.
  destruct (main r) as [ | | | | | | |i k| | | | | | ] eqn:Hm; try done.
  apply use_slot_Next in E as (sl & Hsl & E). destruct b; injection E as <-; [|by apply (states_same r)].
  destruct Hok. rewrite Hm in st_cur0. destruct st_cur0 as (sl' & Hsl' & Hh). simplify_eq.
  constructor; cbn; try done. apply Forall_app. split; [done|]. by constructor.
Qed.

Lemma states_timeout r r' : states_ok r -> timeout_step r = Next r' -> states_ok r'.
Proof.
  intros Hok E. unfold timeout_step in E. destruct (main r); try done.
  - destruct (AcquireSlot true _) as [[[k|] sh]|] eqn:Ha; [| |done]; injection E as <-.
    + destruct (acquire_only_window _ _ _ _ Ha) as [w ->]. by apply (states_same r).
    + rewrite (acquire_fails _ _ _ Ha). by apply (states_same r).
  - destruct (WaitForAllAcks _ _); [|done]. injection E as <-. by apply (states_same r).
Qed.

Lemma cur_recorded_alter m pc f k w :
  cur_recorded m pc w -> cur_slot (main_cur pc) <> Some k -> cur_recorded m pc (alter f k w).
Proof.
  intros Hs Hk. destruct pc; try done; cbn in Hk; destruct Hs as (sl & Hs & Hp);
    (exists sl; split; [rewrite list_lookup_alter_ne by congruence; done|done]).
Qed.

Lemma states_mark r c :
  states_ok r -> ack r = AckEntered c -> 0 <= cb_blockIndex c ->
  states_ok (go_ack (AckMarked c)
    (set_blockState (snd (SetBlockAck (cb_blockIndex c) (ack_status c) (blockState (shared r))))
       (shared r)) r).
Proof.
  intros [] Ha Hc. unfold applied in st_ack0. rewrite Ha, app_nil_r in st_ack0. constructor; cbn.
  - by rewrite SetBlockAck_blocks, length_alter.
  - intros i b0 Hb0. destruct (st_ack0 i b0 Hb0) as (b & Hb & Hs & Hack).
    rewrite SetBlockAck_blocks. change (fold_left _ _ _) with (ack_of (released r ++ [c]) (Z.of_nat i) (b_Ack b0)).
    rewrite ack_of_snoc.
    destruct (cb_blockIndex c =? Z.of_nat i) eqn:Ei; reflect_Z.
    + rewrite Ei, Nat2Z.id, list_lookup_alter_eq, Hb. by eexists.
    + rewrite list_lookup_alter_ne by lia. by exists b.
  - eapply Forall_impl; [exact st_wire0|]. intros k. apply call_recorded_ack.
  - destruct (main r); try done; destruct st_cur0 as (sl & Hsl & Hh); exists sl;
      (split; [done|by apply hash_recorded_ack]).
Qed.

Lemma states_ack r bound r' :
  win_ok r bound -> states_ok r -> ack_step r = Next r' -> states_ok r'.
Proof.
  intros Hw Hok E. pose proof (win_pending _ _ _ _ Hw) as Hp.
  unfold pending in Hp. unfold ack_step in E. destruct (ack r) as [|c|c|c|f|] eqn:Ha; try done.
  - injection E as <-. apply states_mark; [done|done|].
    apply Forall_cons_1 in Hp as [[Hin _] _].
    pose proof (w_range _ _ _ _ _ (win_view _ _ _ _ Hw)) as Hr. rewrite Forall_forall in Hr.
    apply Hr in Hin. lia.
  - injection E as <-. apply (states_same r); [done| | |].
    + by destruct (cb_status c =? 0).
    + unfold applied. by rewrite Ha.
    + destruct (cb_status c =? 0); by apply st_cur.
  - apply Forall_cons_1 in Hp as [Hl _].
    destruct (release_slot job windowSize r bound (cb_blockIndex c) Hw Hl) as (k & sl & Hk & _ & _ & Hcur).
    unfold ReleaseSlot in E. rewrite Hk in E. injection E as <-.
    apply (states_same r); [done|done| |].
    + unfold applied. cbn. by rewrite Ha, app_nil_r.
    + cbn. apply cur_recorded_alter; [by apply st_cur|done].
  - injection E as <-. apply (states_same r); [done| | |].
    + by destruct f.
    + unfold applied. by rewrite Ha.
    + destruct f; by apply st_cur.
Qed.

Lemma reachable_states r : reachable r -> states_ok r.
Proof.
  induction 1 as [|e r r' Hr IH Hf E].
  { constructor; cbn; [done| |done|done]. intros i b0 Hb0. exists b0. by split. }
  destruct (reachable_win _ _ _ _ total_ok r Hr) as [bound Hw]. destruct e; cbn in E.
  - by eapply states_main.
  - by eapply states_timeout.
  - by eapply states_send.
  - apply enter_callback_cases in E as (Hi & _ & [[_ ->]|[_ ->]]); apply (states_same r);
      try done; try (by apply st_cur); unfold applied; cbn; by rewrite Hi.
  - apply enter_callback_cases in E as (Hi & _ & [[_ ->]|[_ ->]]); apply (states_same r);
      try done; try (by apply st_cur); unfold applied; cbn; by rewrite Hi.
  - by eapply states_ack.
Qed.

(** ** The end of a run *)

Record drain_ok (r : Run) : Prop := {
  dr_all : main r = Stopping \/ main r = Finished -> patient = true ->
    m_pipelineError (shared r) = true \/ length (released r) = length (wire r);
  dr_idle : main r = Finished -> ack r = AckIdle \/ ack r = AckExited;
  dr_exit : ack r = AckExited -> m_pipelineError (shared r) = true;
}.

(** No block is in flight once as many are released as were sent. *)
Lemma none_live r bound b :
  win_ok r bound -> length (released r) = length (wire r) ->
  ~ live (wire_ix r) (released_ix r) b.
Proof.
  intros [] Hl [Hin Hn]. apply Hn. assert (released_ix r ≡ₚ wire_ix r) as ->; [|done].
  apply submseteq_length_Permutation.
  - apply NoDup_submseteq; [by eapply w_rel|by eapply w_rel_sent].
  - unfold released_ix, wire_ix. rewrite !length_map. lia.
Qed.

(** As long as the counts differ there is one. *)
Lemma some_live r bound :
  win_ok r bound -> (length (released r) < length (wire r))%nat ->
  exists b, live (wire_ix r) (released_ix r) b.
Proof.
  intros [] Hl. destruct (decide (Forall (fun b => b ∈ released_ix r) (wire_ix r))) as [Hall|Hn].
  - assert (wire_ix r ⊆+ released_ix r) as Hs%submseteq_length.
    { apply NoDup_submseteq; [|by apply Forall_forall].
      eapply StronglySorted_NoDup, w_sorted, win_view. }
    unfold released_ix, wire_ix in Hs. rewrite !length_map in Hs. lia.
  - apply not_Forall_Exists in Hn; [|apply _]. apply Exists_exists in Hn as (b & ? & ?). by exists b.
Qed.

(** Leaving the wait, or not waiting, without an error: nothing in flight. *)
Lemma drained r bound :
  win_ok r bound -> count_ok job patient r -> sending r = 0 -> m_inFlightCount (shared r) <= 0 ->
  length (released r) = length (wire r).
Proof.
  intros Hw [] Hs Hle. assert (0 <= zlen (wire r) - zlen (released r) <= windowSize) by by eapply in_flight_range.
  assert (releasing r = 0 \/ releasing r = 1) by (unfold releasing; destruct (ack r); auto). lia.
Qed.

Lemma drain_main r bound r' :
  win_ok r bound -> count_ok job patient r -> drain_ok r -> main_step job r = Next r' -> drain_ok r'.
Proof.
  intros Hw Hc [] E. unfold main_step in E.
  assert (sending r = match main r with JustSent _ _ => 1 | _ => 0 end) as Hs by done.
  destruct (main r) as [i|i|i k|i k|i k|i k|i k|i k|i k|i k| | | |] eqn:Hm; try done;
    try (apply use_slot_Next in E as (sl & _ & E)).
  - case_if_in E; [|case_if_in E]; injection E as <-; constructor; cbn; naive_solver.
  - destruct (AcquireSlot false _) as [[[k|] sh]|] eqn:Ha; [| |done]; injection E as <-.
    + destruct (acquire_only_window _ _ _ _ Ha) as [w ->]. constructor; cbn; naive_solver.
    + rewrite (acquire_fails _ _ _ Ha). constructor; cbn; naive_solver.
  - injection E as <-. constructor; cbn; naive_solver.
  - unfold read_block in E. case_if_in E; [done|].
    destruct (ReadAt _ _); injection E as <-; constructor; cbn; naive_solver.
  - unfold hash_block in E. destruct (memcpy_from _ _ _); [|done].
    destruct (ComputeBlockHash _ _); injection E as <-; constructor; cbn; naive_solver.
  - injection E as <-. constructor; cbn; naive_solver.
  - unfold compress_block in E. destruct (memcpy_from _ _ _); [|done].
    destruct (Compress _ _ _) as [[[] c]|]; [| |done]; injection E as <-; constructor; cbn; naive_solver.
  - injection E as <-. constructor; cbn; naive_solver.
  - injection E as <-. constructor; cbn; naive_solver.
  - case_if_in E; injection E as <-; (constructor; cbn; [|naive_solver|done]); [naive_solver|].
    intros _ _. destruct (m_pipelineError _); [by left|right]. destruct E0; [|done]. reflect_Z.
    by eapply drained.
  - destruct (WaitForAllAcks _ _) as [b|] eqn:Hwait; [|done]. injection E as <-.
    constructor; cbn; [|naive_solver|done]. intros _ _.
    unfold WaitForAllAcks in Hwait. destruct (m_pipelineError _); [by left|right].
    rewrite orb_false_r in Hwait. case_if_in Hwait; [|done]. eapply drained; try done. lia.
  - destruct (ack r) eqn:Ha; try done; injection E as <-; constructor; cbn; rewrite ?Ha; naive_solver.
Qed.

Lemma drain_ack r bound r' :
  win_ok r bound -> drain_ok r -> ack_step r = Next r' -> drain_ok r'.
Proof.
  intros Hw [] E. pose proof (win_pending _ _ _ _ Hw) as Hp. unfold pending in Hp. unfold ack_step in E.
  destruct (ack r) as [|c|c|c|f|] eqn:Ha; try done.
  - injection E as <-. constructor; cbn; naive_solver.
  - destruct (cb_status c =? 0); injection E as <-; constructor; cbn; naive_solver.
  - destruct (ReleaseSlot _ _) as [f sh] eqn:Hrel. injection E as <-.
    assert (m_pipelineError sh = m_pipelineError (shared r)) as Herr.
    { unfold ReleaseSlot in Hrel. by destruct (find_slot _ _); injection Hrel as _ <-. }
    constructor; cbn; [|naive_solver|done]. rewrite Herr. intros Hm Hpat.
    destruct (dr_all0 Hm Hpat) as [|Heq]; [by left|].
    apply Forall_cons_1 in Hp as [Hl _]. by destruct (none_live _ _ _ Hw Heq Hl).
  - injection E as <-. constructor; cbn; try naive_solver. destruct f; naive_solver.
Qed.

Lemma reachable_drain r : reachable r -> drain_ok r.
Proof.
  induction 1 as [|e r r' Hr IH Hf E]; [by constructor; cbn; [intros [|]| |]|].
  destruct (reachable_ok _ _ _ _ total_ok window_size_ok r Hr) as [[bound Hw] Hc]. destruct e; cbn in E.
  - by eapply drain_main.
  - cbn in Hf. unfold timeout_step in E. destruct IH. destruct (main r); try done.
    + destruct (AcquireSlot true _) as [[[k|] sh]|] eqn:Ha; [| |done]; injection E as <-.
      * destruct (acquire_only_window _ _ _ _ Ha) as [w ->]. constructor; cbn; naive_solver.
      * rewrite (acquire_fails _ _ _ Ha). constructor; cbn; naive_solver.
    + destruct (WaitForAllAcks _ _); [|done]. injection E as <-. constructor; cbn; naive_solver.
  - unfold send_step in E. destruct IH. destruct (main r); try done.
    apply use_slot_Next in E as (sl & _ & E). destruct sent; injection E as <-; constructor; cbn; naive_solver.
  - apply enter_callback_cases in E as (Hi & Hm & [[_ ->]|[_ ->]]); destruct IH; constructor; cbn; naive_solver.
  - apply enter_callback_cases in E as (Hi & Hm & [[_ ->]|[_ ->]]); destruct IH; constructor; cbn; naive_solver.
  - by eapply drain_ack.
Qed.
End runs.
