(* ===== verification/PipelineLive.v ===== *)
(** * The pipelined transfer: window, result, termination

    The window, the result and the end of the runs of [Pipeline], from the
    invariants of [PipelineSpec] and [PipelineResult]. *)

From Stdlib Require Import Sorted.
From S2P Require Import Prelude.
From S2P Require Import Protocol.
From S2P Require Import BlockHasher.
From S2P Require Import DataCompressor.
From S2P Require Import NetworkClient.
From S2P Require Import BlockStateManager.
From S2P Require Import Pipeline.
From S2P Require Import PipelineInv.
From S2P Require Import PipelineSpec.
From S2P Require Import PipelineResult.

(** The blocks the server has stored, as far as the callback knows. *)
Definition acknowledged (l : list AckCall) : list Z :=
  map cb_blockIndex (filter (fun c => cb_status c = 0) l).

(** What the transfer starts from: the blocks of a new full backup. *)
Definition new_backup (total : Z) (m : Manager) : Prop :=
  exists vid m1, InitFullBlocksEmpty vid total m1 = (true, m).

(** Sooner or later, however the steps are chosen: no run allowed by [allowed]
    avoids [P], and none stops before. *)
Inductive inevitably {S E} (allowed : E -> S -> Prop) (next : E -> S -> option S) (P : S -> Prop)
    (s : S) : Prop :=
| now : P s -> inevitably allowed next P s
| later :
    (exists e s', allowed e s /\ next e s = Some s') ->
    (forall e s', allowed e s -> next e s = Some s' -> inevitably allowed next P s') ->
    inevitably allowed next P s.

Lemma inevitably_measure {S E} (allowed : E -> S -> Prop) (next : E -> S -> option S)
    (I P : S -> Prop) (mu : S -> nat) s :
  (forall s, P s \/ ~ P s) ->
  (forall s e s', I s -> allowed e s -> next e s = Some s' -> I s' /\ (mu s' < mu s)%nat) ->
  (forall s, I s -> ~ P s -> exists e s', allowed e s /\ next e s = Some s') ->
  I s -> inevitably allowed next P s.
Proof.
  intros Hdec Hstep Hgo. remember (mu s) as n eqn:Hn. revert s Hn.
  induction n as [n IH] using lt_wf_ind. intros s -> HI.
  destruct (Hdec s) as [|HP]; [by apply now|]. apply later; [by apply Hgo|].
  intros e s' He Hs. destruct (Hstep s e s' HI He Hs) as [HI' Hlt]. by apply (IH _ Hlt).
Qed.

Definition next_run `{Source} `{CompressApi} (job : Job) (e : Event) (r : Run) : option Run :=
  match step job e r with Next r' => Some r' | _ => None end.

(** ** Lemmas on the outcome *)

Lemma acknowledged_spec l i a0 :
  NoDup (map cb_blockIndex l) -> a0 <> Acknowledged ->
  ack_of l i a0 = Acknowledged <-> i ∈ acknowledged l.
Proof.
  intros Hnd Ha. induction l as [|c l IH] using rev_ind.
  { cbn. unfold acknowledged. cbn. split; [done|by intros ?%not_elem_of_nil]. }
  rewrite map_app in Hnd. apply NoDup_app in Hnd as (Hnd & Hdisj & _).
  rewrite ack_of_snoc. unfold acknowledged. rewrite filter_app, map_app, elem_of_app, filter_cons, filter_nil.
  fold (acknowledged l). unfold ack_status. destruct (cb_blockIndex c =? i) eqn:Ei; reflect_Z.
  - assert (i ∉ acknowledged l) as Hni.
    { intros Hin. apply (Hdisj i).
      - unfold acknowledged in Hin. apply list_elem_of_fmap in Hin as (c' & -> & Hc').
        apply list_elem_of_fmap. exists c'. split; [done|]. by apply list_elem_of_filter in Hc' as [].
      - cbn. rewrite Ei. apply list_elem_of_singleton. done. }
    destruct (decide (cb_status c = 0)) as [->|Hc]; cbn.
    + rewrite Ei, list_elem_of_singleton. split; [by right|done].
    + replace (cb_status c =? 0) with false by lia. rewrite elem_of_nil. unfold Failed, Acknowledged. naive_solver lia.
  - rewrite IH by done. split; [by left|]. intros [|Hin]; [done|].
    destruct (decide _); cbn in Hin; [|by apply not_elem_of_nil in Hin].
    by apply list_elem_of_singleton in Hin as ->.
Qed.

Lemma successes_acknowledged l : successes l = zlen (acknowledged l).
Proof. unfold acknowledged. by rewrite length_map. Qed.

Lemma successes_rejections l : successes l + rejections l = zlen l.
Proof.
  induction l as [|c l IH] using rev_ind; [done|].
  rewrite successes_snoc, rejections_snoc, length_app. cbn [length]. destruct (_ =? 0); lia.
Qed.

Lemma new_backup_blocks total m i b :
  new_backup total m -> m_blocks m !! i = Some b ->
  b_BlockIndex b = Z.of_nat i /\ b_Changed b = true /\ b_Ack b = Pending.
Proof.
  intros (vid & m1 & E) Hb. unfold InitFullBlocksEmpty, init_blocks in E.
  destruct (vm_find _ _); [|done]. injection E as <-. cbn in Hb.
  change (map ?f) with (fmap (M := list) f) in Hb. rewrite list_lookup_fmap in Hb.
  destruct (seqZ 0 total !! i) as [j|] eqn:Ej; [|done]. injection Hb as <-.
  apply lookup_seqZ in Ej as [-> _]. cbn. split_and!; [lia|done|done].
Qed.

Lemma new_backup_length total m : 0 <= total -> new_backup total m -> zlen (m_blocks m) = total.
Proof.
  intros Ht (vid & m1 & E). unfold InitFullBlocksEmpty, init_blocks in E.
  destruct (vm_find _ _); [|done]. injection E as <-. cbn. rewrite length_map, length_seqZ. lia.
Qed.

(** The pending blocks, by the rule for each. *)
Lemma pending_blocks (A : list Z) bs off :
  (forall (i : nat) b, bs !! i = Some b ->
     b_BlockIndex b = off + Z.of_nat i /\ (NeedsUpload b = true <-> off + Z.of_nat i ∉ A)) ->
  map b_BlockIndex (filter (fun b => NeedsUpload b = true) bs)
  = filter (fun i => i ∉ A) (seqZ off (zlen bs)).
Proof.
  revert off. induction bs as [|b bs IH]; intros off Hall; [done|].
  replace (zlen (b :: bs)) with (Z.succ (zlen bs)) by (cbn [length]; lia).
  rewrite seqZ_cons by lia. rewrite !filter_cons.
  destruct (Hall 0%nat b eq_refl) as [Hi Hn]. rewrite Z.add_0_r in Hi, Hn.
  rewrite Z.pred_succ. rewrite <- (IH (Z.succ off)).
  - destruct (decide (NeedsUpload b = true)), (decide (off ∉ A)); cbn [map]; rewrite ?Hi; tauto || done.
  - intros i b' Hb'. destruct (Hall (S i) b' Hb') as [-> Hn'].
    replace (off + Z.of_nat (S i)) with (Z.succ off + Z.of_nat i) in * by lia. done.
Qed.

(** ** The measure *)

(** Steps the loop has left, at most; what is left of the callback. *)
Definition main_rank (total : Z) (pc : MainPc) : Z :=
  match pc with
  | AtLoop i => 12 * (total - i) + 4
  | Acquiring i => 12 * (total - i) + 3
  | Claimed i _ => 12 * (total - i) + 2
  | Filled i _ => 12 * (total - i) + 1
  | DataRead i _ => 12 * (total - i)
  | Hashed i _ => 12 * (total - i) - 1
  | HashStored i _ => 12 * (total - i) - 2
  | Ready i _ => 12 * (total - i) - 3
  | JustSent i _ => 12 * (total - i) - 4
  | Counted i _ => 12 * (total - i) - 5
  | Draining => 3
  | Waiting => 2
  | Stopping => 1
  | Finished => 0
  end.

Definition ack_rank (a : AckPc) : Z :=
  match a with
  | AckEntered _ => 5 | AckMarked _ => 4 | AckCounted _ => 3 | AckReleased _ => 2
  | AckIdle => 1 | AckExited => 0
  end.

Definition uncalled (r : Run) : Z := zlen (wire r) - zlen (released r) - zlen (pending r).

Definition run_rank (total : Z) (r : Run) : Z :=
  6 * main_rank total (main r) + 5 * uncalled r + ack_rank (ack r).

(** ** Theorems *)

Section theorems.
Context `{Source} `{CompressApi} (job : Job) (windowSize : Z) (m0 : Manager).
Hypothesis total_ok : 0 <= job_totalBlocks job < 2 ^ 64.
Hypothesis window_size_ok : 0 < windowSize < 2 ^ 31 - 1.

(** The window, in every interleaving of the steps of [Pipeline]. *)
Lemma window_facts patient r :
  reads_bytes -> reachable job windowSize m0 patient r ->
  (forall e, step job e r <> Undefined) /\
  StronglySorted Z.lt (wire_ix r) /\ Forall (call_prepared job) (wire r) /\
  0 <= zlen (wire r) - zlen (released r) <= windowSize /\
  - 1 <= m_inFlightCount (shared r) <= windowSize + 1 /\
  (forall b, live (wire_ix r) (released_ix r) b -> exists k sl,
     find_slot (holds b) (m_window (shared r)) = Some k /\
     m_window (shared r) !! k = Some sl /\ InUse sl = true /\ BlockIndex sl = b).
Proof.
  intros Hb Hr. destruct (reachable_ok _ _ _ _ total_ok window_size_ok r Hr) as [[bound Hw] Hc].
  pose proof (reachable_payload _ _ _ _ total_ok r Hr) as [_ Hp].
  assert (0 <= zlen (wire r) - zlen (released r) <= windowSize) as Hrange by by eapply in_flight_range.
  split_and!; try done; try lia.
  - intros e. by eapply step_defined.
  - by eapply w_sorted, win_view.
  - rewrite (cnt_inflight _ _ _ Hc). unfold sending, releasing. destruct (main r), (ack r); lia.
  - rewrite (cnt_inflight _ _ _ Hc). unfold sending, releasing. destruct (main r), (ack r); lia.
  - intros b Hl. destruct (release_slot _ _ _ _ _ Hw Hl) as (k & sl & Hk & Hsl & Hv & _).
    injection Hv as Hu Hi. exists k, sl. by split_and!.
Qed.

(** C8: the result of a transfer.  When a run without timeouts has finished
    without a connection error, every block sent was acknowledged, every block
    was sent or skipped, the window is empty; the statistics are these
    numbers; and the blocks still to be uploaded are exactly the skipped ones
    and those the server rejected. *)
Theorem pipeline_result r :
  new_backup (job_totalBlocks job) m0 -> reachable job windowSize m0 true r ->
  main r = Finished -> m_pipelineError (shared r) = false ->
  let s := transfer_stats r in
  released_ix r ≡ₚ wire_ix r /\ m_inFlightCount (shared r) = 0 /\
  Forall (fun sl => InUse sl = false) (m_window (shared r)) /\
  SentBlocks s = zlen (wire r) /\ AckedBlocks s = zlen (acknowledged (released r)) /\
  SentBlocks s + SkippedBlocks s = job_totalBlocks job /\
  AckedBlocks s + FailedBlocks s = job_totalBlocks job /\
  map b_BlockIndex (GetPendingBlocks (blockState (shared r)))
  = filter (fun i => i ∉ acknowledged (released r)) (seqZ 0 (job_totalBlocks job)).
Proof.
  intros Hnew Hr Hm He s. destruct (reachable_ok _ _ _ _ total_ok window_size_ok r Hr) as [[bound Hw] Hc].
  pose proof (new_backup_length _ _ (proj1 total_ok) Hnew) as Hlen.
  pose proof (reachable_states _ _ _ _ total_ok Hlen r Hr) as Hst.
  pose proof (reachable_drain _ _ _ _ total_ok window_size_ok r Hr) as [Hall Hidle Hexit].
  destruct (Hall (or_intror Hm) eq_refl) as [|Heq]; [congruence|].
  assert (ack r = AckIdle) as Hack by (destruct (Hidle Hm) as [|Hx]; [done|apply Hexit in Hx; congruence]).
  destruct Hc. unfold main_progress, counted, sending, releasing in *. rewrite Hm, Hack, ?app_nil_r in *.
  destruct cnt_progress as [_ [|Htot]]; [done|congruence|].
  destruct Hw as [_ Hv _ _ _]. rewrite Hm in Hv.
  destruct (all_released _ _ _ _ Hv) as [Hperm Hfree].
  { unfold released_ix, wire_ix. rewrite !length_map. lia. }
  pose proof (successes_rejections (released r)) as Hsum.
  assert (0 <= successes (released r) /\ 0 <= rejections (released r)) as [] by (unfold successes, rejections; lia).
  assert (m_ackedCount (shared r) = successes (released r) /\
          m_failedCount (shared r) = rejections (released r)) as [Ea Ef].
  { rewrite cnt_acked, cnt_failed, !wrap_small; unfold in_width; lia. }
  destruct cnt_skipped as [Hsk Hnn]. unfold s, transfer_stats. cbn. rewrite <- Hsk, Ea, Ef, cnt_sent.
  split_and!; try done; try lia.
  - apply Forall_map in Hfree. exact Hfree.
  - by rewrite successes_acknowledged.
  - rewrite wrap_small; unfold in_width; lia.
  - unfold GetPendingBlocks. replace (job_totalBlocks job) with (zlen (m_blocks (blockState (shared r)))).
    2:{ rewrite <- Hlen. f_equal. apply (st_len _ _ Hst). }
    apply pending_blocks. intros i b Hb.
    destruct (lookup_lt_is_Some_2 (m_blocks m0) i) as [b0 Hb0].
    { rewrite <- (st_len _ _ Hst). by eapply lookup_lt_Some. }
    destruct (new_backup_blocks _ _ _ _ Hnew Hb0) as (Hi & Hch & Hpend).
    destruct (st_ack _ _ Hst i b0 Hb0) as (b' & Hb' & (Hsi & _ & _ & Hsc) & Hack').
    simplify_eq. rewrite Z.add_0_l. split; [congruence|].
    unfold applied in Hack'. rewrite Hack, app_nil_r, Hpend in Hack'.
    rewrite <- (acknowledged_spec (released r) (Z.of_nat i) Pending), <- Hack';
      [|apply (w_rel _ _ _ _ _ Hv)|done].
    unfold NeedsUpload. rewrite Hsc, Hch. cbn [andb]. rewrite negb_true_iff, Z.eqb_neq. done.
Qed.

Lemma uncalled_nonneg r bound : win_ok job windowSize r bound -> 0 <= uncalled r.
Proof.
  intros [_ Hv _ Hp _]. unfold uncalled.
  assert (released_ix r ++ map cb_blockIndex (pending r) ⊆+ wire_ix r) as Hs%submseteq_length.
  { apply NoDup_submseteq.
    - destruct (pending r) as [|c l] eqn:E; [rewrite app_nil_r; by eapply w_rel|].
      assert (l = []) as -> by (unfold pending in E; destruct (ack r); try done; by injection E as <- <-).
      apply Forall_cons_1 in Hp as [[_ Hn] _]. apply NoDup_app. split_and!.
      + by eapply w_rel.
      + intros b Hb ->%list_elem_of_singleton. done.
      + apply NoDup_singleton.
    - intros b [Hb|Hb]%elem_of_app; [by eapply w_rel_sent|].
      apply list_elem_of_fmap in Hb as (c & -> & Hc). rewrite Forall_forall in Hp. by apply Hp in Hc as []. }
  unfold released_ix, wire_ix in Hs. rewrite length_app, !length_map in Hs. lia.
Qed.

Lemma run_rank_nonneg r bound : win_ok job windowSize r bound -> 0 <= run_rank (job_totalBlocks job) r.
Proof.
  intros Hw. pose proof (uncalled_nonneg r bound Hw). pose proof (win_bound _ _ _ _ Hw) as Hb.
  assert (0 <= ack_rank (ack r)) by (destruct (ack r); cbn; lia).
  assert (0 <= main_rank (job_totalBlocks job) (main r)) by (destruct (main r); cbn in *; lia).
  unfold run_rank. lia.
Qed.

(** A step of the loop that sends nothing. *)
Lemma rank_main r bound r' :
  win_ok job windowSize r bound -> main_step job r = Next r' ->
  run_rank (job_totalBlocks job) r' < run_rank (job_totalBlocks job) r.
Proof.
  intros Hw E. pose proof (win_bound _ _ _ _ Hw) as Hb. unfold main_step in E.
  assert (forall i k, main_rank (job_totalBlocks job) (AtLoop (i + 1)) < main_rank (job_totalBlocks job) (main r) ->
            run_rank (job_totalBlocks job) (skip_block i k r) < run_rank (job_totalBlocks job) r) as Hskip.
  { intros i k Hlt. unfold run_rank, uncalled, pending. cbn [main ack wire released skip_block go_main set_locals]. lia. }
  destruct (main r) as [i|i|i k|i k|i k|i k|i k|i k|i k|i k| | | |] eqn:Hm; cbn in Hb; try done;
    try (apply use_slot_Next in E as (sl & _ & E)).
  - case_if_in E; [|case_if_in E]; injection E as <-; unfold run_rank, uncalled, pending; cbn; rewrite Hm; cbn; lia.
  - destruct (AcquireSlot false _) as [[[k|] sh]|]; [| |done]; injection E as <-;
      unfold run_rank, uncalled, pending; cbn; rewrite Hm; cbn; lia.
  - injection E as <-; unfold run_rank, uncalled, pending; cbn; rewrite Hm; cbn; lia.
  - unfold read_block in E. case_if_in E; [done|]. destruct (ReadAt _ _); injection E as <-.
    + unfold run_rank, uncalled, pending; cbn; rewrite Hm; cbn; lia.
    + apply Hskip. cbn. lia.
  - unfold hash_block in E. destruct (memcpy_from _ _ _); [|done].
    destruct (ComputeBlockHash _ _); injection E as <-.
    + unfold run_rank, uncalled, pending; cbn; rewrite Hm; cbn; lia.
    + apply Hskip. cbn. lia.
  - injection E as <-; unfold run_rank, uncalled, pending; cbn; rewrite Hm; cbn; lia.
  - unfold compress_block in E. destruct (memcpy_from _ _ _); [|done].
    destruct (Compress _ _ _) as [[[] c]|]; [| |done]; injection E as <-.
    + unfold run_rank, uncalled, pending; cbn; rewrite Hm; cbn; lia.
    + apply Hskip. cbn. lia.
  - injection E as <-; unfold run_rank, uncalled, pending; cbn; rewrite Hm; cbn; lia.
  - injection E as <-; unfold run_rank, uncalled, pending; cbn; rewrite Hm; cbn; lia.
  - case_if_in E; injection E as <-; unfold run_rank, uncalled, pending; cbn; rewrite Hm; cbn; lia.
  - destruct (WaitForAllAcks _ _); [|done]. injection E as <-.
    unfold run_rank, uncalled, pending; cbn; rewrite Hm; cbn; lia.
  - destruct (ack r) eqn:Ha; try done; injection E as <-;
      unfold run_rank, uncalled, pending; cbn; rewrite Hm, Ha; cbn; lia.
Qed.

Lemma rank_step e r bound r' :
  win_ok job windowSize r bound -> fair true e r -> step job e r = Next r' ->
  run_rank (job_totalBlocks job) r' < run_rank (job_totalBlocks job) r.
Proof.
  intros Hw Hf E. destruct e; cbn in E, Hf; [by eapply rank_main|done| | | |].
  - unfold send_step in E. pose proof (win_bound _ _ _ _ Hw) as Hb.
    destruct (main r) as [ | | | | | | |i k| | | | | | ] eqn:Hm; try done. cbn in Hb.
    apply use_slot_Next in E as (sl & _ & E). destruct sent; injection E as <-;
      unfold run_rank, uncalled, pending; cbn; rewrite ?length_app, Hm; cbn; lia.
  - apply enter_callback_cases in E as (Hi & _ & [[Hc ->]|[_ ->]]).
    + destruct Hf as [Hin _]. pose proof (w_range _ _ _ _ _ (win_view _ _ _ _ Hw)) as Hr.
      rewrite Forall_forall in Hr. apply Hr in Hin. unfold CONNECTION_ERROR in Hc.
      pose proof (main_bound_le _ _ _ (win_bound _ _ _ _ Hw)). lia.
    + unfold run_rank, uncalled, pending. cbn. rewrite Hi. cbn. lia.
  - apply enter_callback_cases in E as (Hi & _ & [[Hc ->]|[Hc ->]]); [|done].
    unfold run_rank, uncalled, pending. cbn. rewrite Hi. cbn. lia.
  - unfold ack_step in E. destruct (ack r) as [|c|c|c|f|] eqn:Ha; try done.
    + injection E as <-. unfold run_rank, uncalled, pending. cbn. rewrite Ha. cbn. lia.
    + injection E as <-. unfold run_rank, uncalled, pending. cbn. rewrite Ha. cbn. lia.
    + destruct (ReleaseSlot _ _). injection E as <-. unfold run_rank, uncalled, pending. cbn.
      rewrite Ha, length_app. cbn. lia.
    + injection E as <-. unfold run_rank, uncalled, pending. cbn. rewrite Ha. cbn. lia.
Qed.

(** The receiver can go on while a block is in flight. *)
Lemma receiver_goes_on r b :
  main r <> Finished -> ack r <> AckExited -> live (wire_ix r) (released_ix r) b ->
  b <> CONNECTION_ERROR -> exists e r', fair true e r /\ step job e r = Next r'.
Proof.
  intros Hm Hx Hl Hb. destruct (ack r) as [|c|c|c|f|] eqn:Ha.
  - set (c := {| cb_devNo := job_devNo job; cb_blockIndex := b; cb_hash := []; cb_status := 0 |}).
    exists (AckCalled c), (go_ack (AckEntered c) (shared r) r). split.
    + cbn. unfold pending. rewrite Ha, app_nil_r. exact Hl.
    + cbn. unfold enter_callback. rewrite Ha. cbn. replace (b =? CONNECTION_ERROR) with false by lia.
      by destruct (main r).
  - exists AckGo. eexists. split; [done|]. cbn. unfold ack_step. by rewrite Ha.
  - exists AckGo. eexists. split; [done|]. cbn. unfold ack_step. by rewrite Ha.
  - exists AckGo. cbn. unfold ack_step. rewrite Ha. destruct (ReleaseSlot _ _). by eexists.
  - exists AckGo. eexists. split; [done|]. cbn. unfold ack_step. by rewrite Ha.
  - done.
Qed.

Lemma live_not_error r bound b :
  win_ok job windowSize r bound -> live (wire_ix r) (released_ix r) b -> b <> CONNECTION_ERROR.
Proof.
  intros Hw [Hin _]. pose proof (w_range _ _ _ _ _ (win_view _ _ _ _ Hw)) as Hr.
  rewrite Forall_forall in Hr. apply Hr in Hin. unfold CONNECTION_ERROR.
  pose proof (main_bound_le _ _ _ (win_bound _ _ _ _ Hw)). lia.
Qed.

(** A step of the loop that is neither blocked nor undefined. *)
Lemma main_goes_on r :
  main_step job r <> Blocked -> (forall e, step job e r <> Undefined) ->
  exists e r', fair true e r /\ step job e r = Next r'.
Proof.
  intros Hb Hu. exists MainGo. pose proof (Hu MainGo) as Hm. cbn in *.
  destruct (main_step job r) as [| |r'] eqn:E; [done|done|]. by exists r'.
Qed.

Lemma run_goes_on r :
  reads_bytes -> reachable job windowSize m0 true r -> main r <> Finished ->
  exists e r', fair true e r /\ step job e r = Next r'.
Proof.
  intros Hrb Hr Hm. destruct (reachable_ok _ _ _ _ total_ok window_size_ok r Hr) as [[bound Hw] Hc].
  pose proof (dr_exit _ _ (reachable_drain _ _ _ _ total_ok window_size_ok r Hr)) as Hx.
  assert (forall e, step job e r <> Undefined) as Hu by (intros e; by eapply step_defined).
  assert (ack r <> AckExited -> ack r <> AckIdle ->
          exists e r', fair true e r /\ step job e r = Next r') as Hbusy.
  { intros H1 H2. exists AckGo. cbn. unfold ack_step. destruct (ack r); try done; try by eexists.
    destruct (ReleaseSlot _ _). by eexists. }
  destruct (main_step job r) eqn:E; [|by destruct (Hu MainGo)|by eexists MainGo, _].
  unfold main_step, use_slot in E.
  destruct (main r) as [i|i|i k|i k|i k|i k|i k|i k|i k|i k| | | |] eqn:Hpc; try done;
    try (by destruct (m_window (shared r) !! k)).
  - repeat case_if_in E; done.
  - unfold AcquireSlot in E. destruct (m_pipelineError _) eqn:He; [done|].
    destruct (find_slot is_free _) as [k|] eqn:Ef; [done|]. rewrite find_free_view in Ef.
    pose proof (win_view _ _ _ _ Hw) as Hv. pose proof (win_len _ _ _ _ Hw) as Hlen. rewrite Hpc in Hv.
    destruct (full_window _ _ _ _ Hv) as [b Hl].
    { unfold window_view. rewrite length_map. lia. } { exact Ef. }
    assert (ack r <> AckExited) by (intros Ha; apply Hx in Ha; congruence).
    apply (receiver_goes_on r b); try done; [congruence|]. by eapply live_not_error.
  - destruct (m_window (shared r) !! k) as [sl|]; [|done]. exfalso. revert E. unfold read_block.
    case_if; [done|]. by destruct (ReadAt _ _).
  - destruct (m_window (shared r) !! k) as [sl|]; [|done]. exfalso. revert E. unfold hash_block.
    destruct (memcpy_from _ _ _); [|done]. by destruct (ComputeBlockHash _ _).
  - destruct (m_window (shared r) !! k) as [sl|]; [|done]. exfalso. revert E. unfold compress_block.
    destruct (memcpy_from _ _ _); [|done]. by destruct (Compress _ _ _) as [[[] ?]|].
  - destruct (cur_slot_at _ _ _ _ _ _ _ Hw ltac:(by rewrite Hpc)) as (sl & Hs & _).
    exists (MainSend true). eexists. split; [done|]. cbn. unfold send_step, use_slot. rewrite Hpc, Hs. done.
  - repeat case_if_in E; done.
  - unfold WaitForAllAcks in E. destruct (m_inFlightCount (shared r) =? 0) eqn:Hi, (m_pipelineError _) eqn:He; try done.
    assert (ack r <> AckExited) as Hne by (intros Ha; apply Hx in Ha; congruence).
    destruct (ack r) eqn:Ha; try (apply Hbusy; done).
    assert (0 <= zlen (wire r) - zlen (released r) <= windowSize) by by eapply in_flight_range.
    reflect_Z. rewrite (cnt_inflight _ _ _ Hc) in Hi. unfold sending, releasing in Hi. rewrite Hpc, Ha in Hi.
    destruct (some_live job windowSize m0 r bound Hw) as [b Hl]; [lia|].
    apply (receiver_goes_on r b); try done; [congruence|congruence|]. by eapply live_not_error.
  - destruct (ack r) eqn:Ha; try done; apply Hbusy; done.
Qed.

(** C7: a transfer comes to an end.  Without timeouts, and with a server that
    acknowledges each block it has received, every run reaches the end of
    [PipelineTransferBlocks] whatever the interleaving of the threads, the
    failures of reading, hashing, compressing and sending, and the connection
    errors: no run goes on forever, and none gets stuck with a full window or
    in the wait for the last acknowledgements. *)
Theorem pipeline_terminates r :
  reads_bytes -> reachable job windowSize m0 true r ->
  inevitably (fair true) (next_run job) (fun r => main r = Finished) r.
Proof.
  intros Hrb Hr.
  apply (inevitably_measure _ _ (reachable job windowSize m0 true) _
           (fun r => Z.to_nat (run_rank (job_totalBlocks job) r))); [| | |done].
  - intros s. destruct (main s); ((left; reflexivity) || (right; discriminate)).
  - intros s e s' Hs Hf E. unfold next_run in E. destruct (step job e s) as [| |s1] eqn:Es; try done.
    injection E as <-. split; [by eapply reach_step|].
    destruct (reachable_ok _ _ _ _ total_ok window_size_ok s Hs) as [[bound Hw] _].
    pose proof (rank_step e s bound s1 Hw Hf Es). pose proof (run_rank_nonneg _ _ Hw).
    assert (exists bound', win_ok job windowSize s1 bound') as [bound' Hw'] by by eapply win_step.
    pose proof (run_rank_nonneg _ _ Hw'). lia.
  - intros s Hs Hm. destruct (run_goes_on s Hrb Hs Hm) as (e & s' & Hf & E).
    exists e, s'. split; [done|]. unfold next_run. by rewrite E.
Qed.

(** The server's acknowledgement of a block. *)
Definition ok_call (i : Z) : AckCall :=
  {| cb_devNo := job_devNo job; cb_blockIndex := i; cb_hash := zeros 32; cb_status := 0 |}.

(** A sequence of allowed steps. *)
Fixpoint fair_steps (patient : bool) (es : list Event) (r : Run) : Prop :=
  match es with
  | [] => True
  | e :: es' => fair patient e r /\ forall r', step job e r = Next r' -> fair_steps patient es' r'
  end.

Lemma reachable_steps patient es r r' :
  reachable job windowSize m0 patient r -> fair_steps patient es r -> steps job es r = Next r' ->
  reachable job windowSize m0 patient r'.
Proof.
  revert r. induction es as [|e es IH]; intros r Hr Hf E; cbn in *; [by injection E as <-|].
  destruct Hf as [He Hf]. destruct (step job e r) as [| |r1] eqn:E1; try done.
  apply (IH r1); [by eapply reach_step|by apply Hf|done].
Qed.

(** The block is sent and answered at once. *)
Definition answer_at_once (i : Z) : list Event :=
  [MainSend true; MainGo; AckCalled (ok_call i); AckGo; AckGo].

Lemma answer_steps r i k sl :
  main r = Ready i k -> ack r = AckIdle -> m_window (shared r) !! k = Some sl ->
  (i =? CONNECTION_ERROR) = false ->
  exists r', steps job (answer_at_once i) r = Next r' /\ main r' = Counted i k /\
    ack r' = AckCounted (ok_call i) /\ m_window (shared r') = m_window (shared r) /\
    wire r' = wire r ++ [sent_call job i sl] /\ released r' = released r.
Proof.
  intros Hm Ha Hs Hi. eexists. split.
  { cbn. unfold send_step, use_slot. rewrite Hm, Hs. cbn. unfold enter_callback. cbn. rewrite Ha, Hi. done. }
  done.
Qed.

Lemma answer_fair patient r i k sl :
  main r = Ready i k -> ack r = AckIdle -> m_window (shared r) !! k = Some sl ->
  i ∉ released_ix r -> fair_steps patient (answer_at_once i) r.
Proof.
  intros Hm Ha Hs Hn. split; [done|]. cbn -[wire_ix]. unfold send_step, use_slot. rewrite Hm, Hs.
  intros r1 [= <-]. split; [done|]. cbn -[wire_ix]. intros r2 [= <-]. split; [|done].
  unfold pending. cbn -[wire_ix]. rewrite Ha, app_nil_r. split; [|done].
  unfold wire_ix. cbn. rewrite map_app. apply elem_of_app. right. by apply list_elem_of_singleton.
Qed.

(** two threads clear one slot.  Whenever the loop is about to send a
    block and the receiver is idle, a server that answers at once leads to a
    state where the next step of the loop clears [BlockData] of the slot, which
    it does without [m_windowMutex], and the next step of the callback is
    [ReleaseSlot], which clears the vectors of the same slot. *)
Theorem release_races_with_clear patient r i k :
  reachable job windowSize m0 patient r -> main r = Ready i k -> ack r = AckIdle ->
  exists r', steps job (answer_at_once i) r = Next r' /\
    reachable job windowSize m0 patient r' /\
    main r' = Counted i k /\ ack r' = AckCounted (ok_call i) /\
    find_slot (holds i) (m_window (shared r')) = Some k.
Proof.
  intros Hr Hm Ha. destruct (reachable_win _ _ _ _ total_ok r Hr) as [bound Hw].
  pose proof (win_bound _ _ _ _ Hw) as Hb. rewrite Hm in Hb. destruct Hb as [-> Hlt].
  destruct (cur_slot_at _ _ _ _ _ _ _ Hw ltac:(by rewrite Hm)) as (sl & Hsl & Hu & Hbi).
  assert (bound ∉ released_ix r) as Hnr.
  { intros Hin. apply (w_rel_sent _ _ _ _ _ (win_view _ _ _ _ Hw)) in Hin.
    pose proof (w_range _ _ _ _ _ (win_view _ _ _ _ Hw)) as Hrange. rewrite Forall_forall in Hrange.
    apply Hrange in Hin. lia. }
  assert ((bound =? CONNECTION_ERROR) = false) as Hne.
  { apply Z.eqb_neq. pose proof (w_bound _ _ _ _ _ (win_view _ _ _ _ Hw)). unfold CONNECTION_ERROR. lia. }
  destruct (answer_steps r bound k sl Hm Ha Hsl Hne) as (r' & E & Hm' & Ha' & Hwin & Hwire & Hrel).
  assert (reachable job windowSize m0 patient r') as Hr'.
  { by eapply reachable_steps; [exact Hr|eapply answer_fair|]. }
  exists r'. split_and!; try done. destruct (reachable_win _ _ _ _ total_ok r' Hr') as [bound' Hw'].
  assert (live (wire_ix r') (released_ix r') bound) as Hl.
  { unfold wire_ix, released_ix. rewrite Hwire, Hrel, map_app. split; [|done].
    apply elem_of_app. right. by apply list_elem_of_singleton. }
  destruct (release_slot _ _ _ _ _ Hw' Hl) as (k' & sl' & Hk' & Hsl' & Hv' & _). rewrite Hk'. f_equal.
  pose proof (win_view _ _ _ _ Hw') as Hv. rewrite Hm' in Hv.
  apply (w_inj _ _ _ _ _ Hv k' k bound); try done.
  - rewrite <- Hv'. by apply view_lookup_of.
  - assert (slot_view sl = (true, bound)) as <- by (unfold slot_view; rewrite Hu, Hbi; done).
    apply view_lookup_of. by rewrite Hwin.
Qed.

(** a server that answers too early.  If the first thing the server sends
    is an acknowledgement of block 0, before the block was read, the callback
    takes the slot from under the loop, and the loop's [ReadFile] writes a
    block into a vector of no bytes. *)
Theorem early_acknowledgement :
  0 < job_totalBlocks job ->
  steps job [MainGo; MainGo; MainGo; AckCalled (ok_call 0); AckGo; AckGo; AckGo; MainGo]
    (Run_start windowSize m0) = Undefined.
Proof.
  intros Ht. unfold Run_start, ResetPipelineWindow.
  destruct (Z.to_nat windowSize) as [|n] eqn:En; [lia|]. cbn [replicate].
  cbn -[block_size SetBlockAck CONNECTION_ERROR]. replace (0 <? job_totalBlocks job) with true by lia.
  cbn -[block_size SetBlockAck CONNECTION_ERROR]. change (match CONNECTION_ERROR with Z0 => true | _ => false end) with false.
  cbn -[block_size SetBlockAck]. unfold read_block. cbn -[block_size].
  pose proof (block_size_range job 0) as [Hb _]. change (Z.of_nat 0) with 0. apply Z.ltb_lt in Hb. by rewrite Hb.
Qed.
End theorems.

(** ** Examples *)

#[export] Instance live_dec ws rel b : Decision (live ws rel b).
Proof. unfold live. apply _. Defined.
#[export] Instance fair_dec patient e r : Decision (fair patient e r).
Proof. destruct e; cbn [fair]; apply _. Defined.

(** A run by its events, when all are allowed and enabled. *)
Fixpoint run_fair `{Source} `{CompressApi} (job : Job) (patient : bool) (es : list Event) (r : Run)
    : option Run :=
  match es with
  | [] => Some r
  | e :: es' =>
      if decide (fair patient e r) then r' ← next_run job e r; run_fair job patient es' r' else None
  end.

Lemma run_fair_reachable `{Source} `{CompressApi} (job : Job) windowSize m0 patient es r r' :
  reachable job windowSize m0 patient r -> run_fair job patient es r = Some r' ->
  reachable job windowSize m0 patient r'.
Proof.
  revert r. induction es as [|e es IH]; intros r Hr E; cbn in E; [by injection E as <-|].
  destruct (decide _) as [Hf|]; [|done]. unfold next_run in E.
  destruct (step job e r) as [| |r1] eqn:E1; try done. cbn in E. apply (IH r1); [by eapply reach_step|done].
Qed.

(** One block of three bytes, a window of two slots. *)
Definition demo_job_source : Source := demo_source [5; 6; 7] (take 2).
Definition demo_job : @Job demo_api :=
  {| job_devNo := 7; job_versionId := 0; job_totalBlocks := 1; job_totalSize := 3;
     job_hasher := true; job_compressor := demo_compressor |}.
Definition demo_states : Manager :=
  snd (InitFullBlocksEmpty 0 1 (snd (CreateVersion [70] 0 1 3 0 Manager_new))).

Lemma demo_new_backup : new_backup 1 demo_states.
Proof. exists 0, (snd (CreateVersion [70] 0 1 3 0 Manager_new)). by vm_compute. Qed.

(** The loop as far as the block is ready to be sent, and the whole run. *)
Definition to_ready : list Event := replicate 7 MainGo.
Definition whole_run (a : AckCall) : list Event :=
  to_ready ++ [MainSend true] ++ replicate 4 MainGo ++ [AckCalled a] ++ replicate 4 AckGo ++ [MainGo; MainGo].

Definition demo_start : Run := Run_start 2 demo_states.
Definition demo_ready : Run :=
  default demo_start (@run_fair demo_job_source demo_api demo_job true to_ready demo_start).
Definition demo_end : Run :=
  default demo_start
    (@run_fair demo_job_source demo_api demo_job true (whole_run (@ok_call demo_api demo_job 0)) demo_start).

Lemma demo_ready_reachable : @reachable demo_job_source demo_api demo_job 2 demo_states true demo_ready.
Proof.
  apply (@run_fair_reachable demo_job_source demo_api demo_job 2 demo_states true to_ready demo_start);
    [constructor|by vm_compute].
Qed.

Lemma demo_end_reachable : @reachable demo_job_source demo_api demo_job 2 demo_states true demo_end.
Proof.
  apply (@run_fair_reachable demo_job_source demo_api demo_job 2 demo_states true
           (whole_run (@ok_call demo_api demo_job 0)) demo_start); [constructor|by vm_compute].
Qed.

Lemma demo_reads_bytes : @reads_bytes demo_job_source.
Proof.
  intros off n d E. unfold ReadAt in E. cbn in E. case_if_in E; [|done]. injection E as <-.
  apply bytes_ok_sub. evaluate.
Qed.

Lemma pipeline_result_witness :
  map b_BlockIndex (GetPendingBlocks (blockState (shared demo_end))) = [] /\
  SentBlocks (transfer_stats demo_end) + SkippedBlocks (transfer_stats demo_end) = 1.
Proof.
  destruct (@pipeline_result demo_job_source demo_api demo_job 2 demo_states
              ltac:(cbn; lia) ltac:(lia) demo_end demo_new_backup demo_end_reachable)
    as (_ & _ & _ & _ & _ & Hs & _ & Hp); [by vm_compute|by vm_compute|].
  split; [|exact Hs]. rewrite Hp. by vm_compute.
Defined.

Lemma pipeline_terminates_witness :
  inevitably (fair true) (@next_run demo_job_source demo_api demo_job) (fun r => main r = Finished)
    demo_start.
Proof.
  apply (@pipeline_terminates demo_job_source demo_api demo_job 2 demo_states
           ltac:(cbn; lia) ltac:(lia) demo_start demo_reads_bytes).
  constructor.
Defined.

Lemma release_races_with_clear_witness :
  exists r', @steps demo_job_source demo_api demo_job (answer_at_once demo_job 0) demo_ready = Next r' /\
    main r' = Counted 0 0 /\ ack r' = AckCounted (ok_call demo_job 0).
Proof.
  destruct (@release_races_with_clear demo_job_source demo_api demo_job 2 demo_states
              ltac:(cbn; lia) true demo_ready 0 0%nat demo_ready_reachable)
    as (r' & ? & _ & ? & ? & _); [by vm_compute|by vm_compute|]. by exists r'.
Defined.

Lemma early_acknowledgement_witness :
  @steps demo_job_source demo_api demo_job
    [MainGo; MainGo; MainGo; AckCalled (ok_call demo_job 0); AckGo; AckGo; AckGo; MainGo] demo_start
  = Undefined.
Proof.
  apply (@early_acknowledgement demo_job_source demo_api demo_job 2 demo_states); [lia|cbn; lia].
Defined.
