(* ===== verification/PipelineRace.v ===== *)
(** * The pipelined transfer: the steps that are not atomic

    In [Pipeline] the loop's [slot.BlockData.clear()] and the callback's
    [ReleaseSlot] are one step each.  Here they begin and end: [ReleaseSlot] holds
    [m_windowMutex] in between, the loop's [clear] and [shrink_to_fit] hold
    nothing.  Both on one slot at the same time is undefined. *)

From Stdlib Require Import Sorted.
From S2P Require Import Prelude.
From S2P Require Import Protocol.
From S2P Require Import BlockHasher.
From S2P Require Import DataCompressor.
From S2P Require Import NetworkClient.
From S2P Require Import BlockStateManager.
From S2P Require Import Pipeline.
From S2P Require Import PipelineInv.
From S2P Require Import PipelineSpec.
From S2P Require Import PipelineResult.
From S2P Require Import PipelineLive.

(** ** Definitions *)

(** A run, and whether the loop is inside [clear] and the callback inside
    [ReleaseSlot]. *)
Record Fine := { coarse : Run; clearing : bool; releasing : bool }.

(** Neither is under way. *)
Definition calm (r : Run) : Fine := {| coarse := r; clearing := false; releasing := false |}.

Inductive FineEvent := BeginClear | EndClear | BeginRelease | EndRelease | Whole (e : Event).
Inductive FineOutcome := FineBlocked | FineUndefined | FineNext (f : Fine).

(** The slot the loop clears is the one [ReleaseSlot] finds. *)
Definition same_slot (r : Run) : bool :=
  match main r, ack r with
  | Counted _ k, AckCounted c => bool_decide (find_slot (holds (cb_blockIndex c)) (m_window (shared r)) = Some k)
  | _, _ => false
  end.

(** The steps that are not atomic, and those of the loop that lock
    [m_windowMutex]: [AcquireSlot] and [WaitForAllAcks]. *)
Definition is_split (e : Event) (r : Run) : bool :=
  match e, main r, ack r with
  | MainGo, Counted _ _, _ => true
  | AckGo, _, AckCounted _ => true
  | _, _, _ => false
  end.
Definition locks (e : Event) (r : Run) : bool :=
  match e, main r with
  | (MainGo | MainTimeout), (Acquiring _ | Waiting) => true
  | _, _ => false
  end.

Definition with_flags (clear release : bool) (o : Outcome) : FineOutcome :=
  match o with
  | Blocked => FineBlocked
  | Undefined => FineUndefined
  | Next r => FineNext {| coarse := r; clearing := clear; releasing := release |}
  end.

Section machine.
Context `{Source} `{CompressApi} (job : Job).

Definition fine_step (e : FineEvent) (f : Fine) : FineOutcome :=
  let r := coarse f in
  match e with
  | BeginClear =>
      match main r with
      | Counted _ _ =>
          if clearing f then FineBlocked
          else if releasing f && same_slot r then FineUndefined
          else FineNext {| coarse := r; clearing := true; releasing := releasing f |}
      | _ => FineBlocked
      end
  | EndClear => if clearing f then with_flags false (releasing f) (main_step job r) else FineBlocked
  | BeginRelease =>
      match ack r with
      | AckCounted _ =>
          if releasing f then FineBlocked
          else if clearing f && same_slot r then FineUndefined
          else FineNext {| coarse := r; clearing := clearing f; releasing := true |}
      | _ => FineBlocked
      end
  | EndRelease => if releasing f then with_flags (clearing f) false (ack_step r) else FineBlocked
  | Whole e =>
      if is_split e r || releasing f && locks e r then FineBlocked
      else with_flags (clearing f) (releasing f) (step job e r)
  end.

Definition fine_fair (patient : bool) (e : FineEvent) (f : Fine) : Prop :=
  match e with Whole e => fair patient e (coarse f) | _ => True end.

Inductive fine_reachable (windowSize : Z) (m0 : Manager) (patient : bool) : Fine -> Prop :=
| fine_start :
    fine_reachable windowSize m0 patient (calm (Run_start windowSize m0))
| fine_next e f f' :
    fine_reachable windowSize m0 patient f -> fine_fair patient e f -> fine_step e f = FineNext f' ->
    fine_reachable windowSize m0 patient f'.
End machine.

(** ** Lemmas *)

Lemma with_flags_Next c l o f : with_flags c l o = FineNext f -> o = Next (coarse f) /\ clearing f = c /\ releasing f = l.
Proof. destruct o; cbn; [done|done|]. by intros [= <-]. Qed.
Lemma with_flags_Undefined c l o : with_flags c l o = FineUndefined -> o = Undefined.
Proof. by destruct o. Qed.

Lemma same_slot_where r : same_slot r = true -> exists i k c, main r = Counted i k /\ ack r = AckCounted c.
Proof. unfold same_slot. destruct (main r), (ack r); try done. intros _. by do 3 eexists. Qed.

Lemma find_slot_Some p w k : find_slot p w = Some k -> exists sl, w !! k = Some sl /\ p sl = true.
Proof.
  revert k. induction w as [|s w IH]; intros k; cbn [find_slot]; [done|].
  destruct (p s) eqn:Hp; [intros [= <-]; by exists s|].
  destruct (find_slot p w) as [k'|]; cbn; [|done]. intros [= <-]. by apply IH.
Qed.

(** The index of a slot, which [ReleaseSlot] leaves alone. *)
Lemma ReleaseSlot_slot b s k sl :
  m_window s !! k = Some sl ->
  exists sl', m_window (snd (ReleaseSlot b s)) !! k = Some sl' /\ BlockIndex sl' = BlockIndex sl /\
    (InUse sl' = InUse sl \/ BlockIndex sl = b).
Proof.
  intros Hs. unfold ReleaseSlot. destruct (find_slot (holds b) (m_window s)) as [k'|] eqn:Ef; cbn [snd]; [|by exists sl; auto].
  destruct (decide (k' = k)) as [->|Hne]; cbn.
  - rewrite list_lookup_alter_eq, Hs. eexists. split; [done|]. split; [done|]. right.
    apply find_slot_Some in Ef as (sl0 & Hs0 & Hh). rewrite Hs in Hs0. injection Hs0 as <-.
    unfold holds in Hh. apply andb_prop in Hh as [_ ?%Z.eqb_eq]. done.
  - rewrite list_lookup_alter_ne by done. by exists sl; auto.
Qed.

Section facts.
Context `{Source} `{CompressApi} (job : Job) (windowSize : Z) (m0 : Manager).
Hypothesis total_ok : 0 <= job_totalBlocks job < 2 ^ 64.
Hypothesis window_size_ok : 0 < windowSize < 2 ^ 31 - 1.
Abbreviation reachable := (reachable job windowSize m0).
Abbreviation fine_reachable := (fine_reachable job windowSize m0).

(** The slot of the block just sent: it holds the block until it is released. *)
Definition sent_slot (r : Run) : Prop :=
  match main r with
  | JustSent i k | Counted i k =>
      exists sl, m_window (shared r) !! k = Some sl /\ BlockIndex sl = i /\ (InUse sl = true \/ i ∈ released_ix r)
  | _ => True
  end.

Lemma sent_slot_keep r r' :
  main r' = main r -> m_window (shared r') = m_window (shared r) -> released r' = released r ->
  sent_slot r -> sent_slot r'.
Proof. unfold sent_slot, released_ix. by intros -> -> ->. Qed.

Lemma reachable_sent_slot patient r : reachable patient r -> sent_slot r.
Proof.
  induction 1 as [|e r r' Hr IH Hf E]; [done|].
  destruct e as [| |sent|c|code|]; cbn [step] in E.
  - unfold main_step in E. unfold sent_slot in *.
    destruct (main r) as [i|i|i k|i k|i k|i k|i k|i k|i k|i k| | | |] eqn:Hm; try done;
      try (apply use_slot_Next in E as (sl & _ & E)).
    + repeat case_if_in E; by injection E as <-.
    + destruct (AcquireSlot false _) as [[[k|] sh]|]; [| |done]; by injection E as <-.
    + by injection E as <-.
    + unfold read_block in E. case_if_in E; [done|]. by destruct (ReadAt _ _); injection E as <-.
    + unfold hash_block in E. destruct (memcpy_from _ _ _); [|done]. by destruct (ComputeBlockHash _ _); injection E as <-.
    + by injection E as <-.
    + unfold compress_block in E. destruct (memcpy_from _ _ _); [|done].
      destruct (Compress _ _ _) as [[[] c]|]; [| |done]; by injection E as <-.
    + by injection E as <-.
    + by injection E as <-.
    + repeat case_if_in E; by injection E as <-.
    + destruct (WaitForAllAcks _ _); [|done]. by injection E as <-.
    + destruct (ack r); try done; by injection E as <-.
  - unfold timeout_step in E. unfold sent_slot. destruct (main r) as [i|i|i k|i k|i k|i k|i k|i k|i k|i k| | | |]; try done.
    + destruct (AcquireSlot true _) as [[[k|] sh]|]; [| |done]; by injection E as <-.
    + destruct (WaitForAllAcks _ _); [|done]. by injection E as <-.
  - unfold send_step in E. destruct (main r) as [i|i|i k|i k|i k|i k|i k|i k|i k|i k| | | |] eqn:Hm; try done.
    apply use_slot_Next in E as (sl & Hsl & E). case_if_in E; injection E as <-; [|done].
    destruct (reachable_win _ _ _ _ total_ok r Hr) as [bound Hw].
    destruct (cur_slot_at _ _ _ _ _ _ _ Hw ltac:(by rewrite Hm)) as (sl' & Hs & Hu & Hi).
    exists sl'. cbn. rewrite Hs. split_and!; [done|by apply Hi|by left].
  - unfold enter_callback in E. destruct (ack r), (main r) eqn:Hm; try done; case_if_in E; injection E as <-;
      unfold sent_slot in *; cbn; by rewrite Hm in *.
  - unfold enter_callback in E. destruct (ack r), (main r) eqn:Hm; try done; case_if_in E; injection E as <-;
      unfold sent_slot in *; cbn; by rewrite Hm in *.
  - unfold ack_step in E. destruct (ack r) as [|c|c|c|found|]; try done.
    + injection E as <-. by eapply sent_slot_keep.
    + injection E as <-. eapply sent_slot_keep; [..|exact IH]; cbn; try done. by case_if.
    + destruct (ReleaseSlot _ _) as [found sh] eqn:Er. injection E as <-. unfold sent_slot in *. cbn.
      assert (forall i k, (exists sl, m_window (shared r) !! k = Some sl /\ BlockIndex sl = i /\
                (InUse sl = true \/ i ∈ released_ix r)) ->
              exists sl, m_window sh !! k = Some sl /\ BlockIndex sl = i /\
                (InUse sl = true \/ i ∈ map cb_blockIndex (released r ++ [c]))) as Hk.
      { intros i k (sl & Hsl & <- & Hu). destruct (ReleaseSlot_slot (cb_blockIndex c) _ _ _ Hsl) as (sl' & Hs' & Hi' & Hu').
        rewrite Er in Hs'. exists sl'. split; [done|]. split; [done|]. rewrite map_app, elem_of_app.
        destruct Hu as [Hu|Hu]; [|by right; left].
        destruct Hu' as [->|Hb]; [by left|]. right. right. rewrite Hb. by apply list_elem_of_singleton. }
      destruct (main r); auto.
    + injection E as <-. eapply sent_slot_keep; [..|exact IH]; cbn; try done. by destruct found.
Qed.

(** [ReleaseSlot] finds the slot of the block just sent only for its own
    acknowledgement. *)
Lemma same_slot_own patient r i k c :
  reachable patient r -> main r = Counted i k -> ack r = AckCounted c ->
  same_slot r = bool_decide (cb_blockIndex c = i).
Proof.
  intros Hr Hm Ha. unfold same_slot. rewrite Hm, Ha. apply bool_decide_ext.
  pose proof (reachable_sent_slot patient r Hr) as Hs. unfold sent_slot in Hs. rewrite Hm in Hs.
  destruct Hs as (sl & Hsl & Hi & Hu). destruct (reachable_win _ _ _ _ total_ok r Hr) as [bound Hw].
  assert (live (wire_ix r) (released_ix r) (cb_blockIndex c)) as Hl.
  { pose proof (win_pending _ _ _ _ Hw) as Hp. unfold pending in Hp. rewrite Ha in Hp. by apply Forall_cons_1 in Hp as [? _]. }
  split.
  - intros Hf. apply find_slot_Some in Hf as (sl' & Hsl' & Hh). rewrite Hsl in Hsl'. injection Hsl' as <-.
    unfold holds in Hh. apply andb_prop in Hh as [_ Hh%Z.eqb_eq]. congruence.
  - intros <-. destruct (release_slot _ _ _ _ _ Hw Hl) as (k' & sl' & -> & Hsl' & Hv' & _). f_equal.
    destruct Hu as [Hu|Hu]; [|by destruct Hl]. pose proof (win_view _ _ _ _ Hw) as Hv. rewrite Hm in Hv.
    apply (w_inj _ _ _ _ _ Hv k' k (cb_blockIndex c)); try done.
    + rewrite <- Hv'. by apply view_lookup_of.
    + replace (true, cb_blockIndex c) with (slot_view sl) by (unfold slot_view; by rewrite Hu, Hi).
      by apply view_lookup_of.
Qed.

(** A run of this machine is a run of [Pipeline], and each of those is one here,
    with nothing between the beginning and the end of a step. *)
Lemma fine_coarse patient f : fine_reachable patient f -> reachable patient (coarse f).
Proof.
  induction 1 as [|e f f' Hf Hr Hfair E]; [constructor|]. destruct e as [| | | |e]; cbn [fine_step] in E.
  - destruct (main (coarse f)); try done. repeat case_if_in E; try done; by injection E as <-.
  - case_if_in E; [|done]. apply with_flags_Next in E as [E _]. by apply (reach_step _ _ _ _ MainGo (coarse f)).
  - destruct (ack (coarse f)); try done. repeat case_if_in E; try done; by injection E as <-.
  - case_if_in E; [|done]. apply with_flags_Next in E as [E _]. by apply (reach_step _ _ _ _ AckGo (coarse f)).
  - case_if_in E; [done|]. apply with_flags_Next in E as [E _]. by apply (reach_step _ _ _ _ e (coarse f)).
Qed.

Lemma coarse_fine patient r : reachable patient r -> fine_reachable patient (calm r).
Proof.
  induction 1 as [|e r r' Hr IH Hf E]; [constructor|]. destruct (is_split e r) eqn:Hs.
  - destruct e; cbn in Hs; try done.
    + destruct (main r) eqn:Hm; try done.
      apply (fine_next _ _ _ _ EndClear {| coarse := r; clearing := true; releasing := false |}); [|done|].
      * eapply (fine_next _ _ _ _ BeginClear); [exact IH|done|]. cbn. by rewrite Hm.
      * cbn. cbn in E. by rewrite E.
    + destruct (main r), (ack r) eqn:Ha; try done;
        (apply (fine_next _ _ _ _ EndRelease {| coarse := r; clearing := false; releasing := true |});
         [eapply (fine_next _ _ _ _ BeginRelease); [exact IH|done|]; cbn; by rewrite Ha|done|cbn; cbn in E; by rewrite E]).
  - apply (fine_next _ _ _ _ (Whole e) (calm r)); [done|done|]. cbn. by rewrite Hs, E.
Qed.

(** ** Theorems *)

(** The race is there.  Whenever the loop is about to send a block and the
    receiver is idle, a server that answers at once leads to a run in which the
    loop has begun to clear the slot's data and the callback to release the
    slot. *)
Theorem clear_race_reachable patient r i k :
  reachable patient r -> main r = Ready i k -> ack r = AckIdle ->
  exists f, fine_reachable patient f /\ clearing f = true /\ releasing f = false /\ main (coarse f) = Counted i k /\
    ack (coarse f) = AckCounted (ok_call job i) /\ fine_step job BeginRelease f = FineUndefined.
Proof.
  intros Hr Hm Ha.
  destruct (release_races_with_clear job windowSize m0 total_ok patient r i k Hr Hm Ha) as (r' & _ & Hr' & Hm' & Ha' & Hf).
  exists {| coarse := r'; clearing := true; releasing := false |}. cbn. rewrite Ha'. split_and!; try done.
  - eapply (fine_next _ _ _ _ BeginClear); [by apply coarse_fine|done|]. cbn. by rewrite Hm'.
  - unfold same_slot. rewrite Hm', Ha'. cbn. by rewrite Hf, bool_decide_eq_true_2.
Qed.

(** C6: the window.  Under a server that acknowledges what it received, once,
    and whatever the two threads' interleaving, timeouts and failures: the one
    step that is undefined is the race of the loop's [clear] of the block it has
    just sent with the [ReleaseSlot] of this block's acknowledgement, when one
    begins before the other has ended.  Up to there the blocks sent are in
    ascending order, each with the data, hash and compressed data of its place
    in the source; the blocks sent and not acknowledged are never more than the
    window has slots, and each has a slot of its own.  [m_inFlightCount] counts
    them up to one block under way on either side, so it can be -1. *)
Theorem pipeline_window patient f :
  reads_bytes -> fine_reachable patient f ->
  let r := coarse f in
  (forall e, fine_step job e f = FineUndefined <->
     exists i k c, main r = Counted i k /\ ack r = AckCounted c /\ cb_blockIndex c = i /\
       (e = BeginClear /\ clearing f = false /\ releasing f = true \/
        e = BeginRelease /\ releasing f = false /\ clearing f = true)) /\
  StronglySorted Z.lt (wire_ix r) /\ Forall (call_prepared job) (wire r) /\
  0 <= zlen (wire r) - zlen (released r) <= windowSize /\
  - 1 <= m_inFlightCount (shared r) <= windowSize + 1 /\
  (forall b, live (wire_ix r) (released_ix r) b -> exists k sl,
     find_slot (holds b) (m_window (shared r)) = Some k /\
     m_window (shared r) !! k = Some sl /\ InUse sl = true /\ BlockIndex sl = b).
Proof.
  intros Hb Hf r. pose proof (fine_coarse patient f Hf) as Hr. fold r in Hr.
  destruct (window_facts job windowSize m0 total_ok window_size_ok patient r Hb Hr) as (Hdef & Hrest).
  split; [|exact Hrest]. intros e. split.
  - intros E. destruct e as [| | | |e]; cbn [fine_step] in E; fold r in E.
    + destruct (main r) as [| | | | | | | | |i k| | | |] eqn:Hm; try done. destruct (clearing f); [done|].
      destruct (releasing f && same_slot r) eqn:Hs; [|done]. apply andb_prop in Hs as [Hl Hs].
      destruct (same_slot_where r Hs) as (i' & k' & c & Hm' & Ha). rewrite Hm in Hm'. injection Hm' as <- <-.
      rewrite (same_slot_own patient r i k c Hr Hm Ha) in Hs. apply bool_decide_eq_true in Hs.
      exists i, k, c. split_and!; try done. by left.
    + case_if_in E; [|done]. by apply with_flags_Undefined, (Hdef MainGo) in E.
    + destruct (ack r) as [| | |c| |] eqn:Ha; try done. destruct (releasing f); [done|].
      destruct (clearing f && same_slot r) eqn:Hs; [|done]. apply andb_prop in Hs as [Hc Hs].
      destruct (same_slot_where r Hs) as (i & k & c' & Hm & Ha'). rewrite Ha in Ha'. injection Ha' as <-.
      rewrite (same_slot_own patient r i k c Hr Hm Ha) in Hs. apply bool_decide_eq_true in Hs.
      exists i, k, c. split_and!; try done. by right.
    + case_if_in E; [|done]. by apply with_flags_Undefined, (Hdef AckGo) in E.
    + case_if_in E; [done|]. by apply with_flags_Undefined, (Hdef e) in E.
  - intros (i & k & c & Hm & Ha & Hi & He). pose proof (same_slot_own patient r i k c Hr Hm Ha) as Hs.
    rewrite bool_decide_eq_true_2 in Hs by done.
    destruct He as [(-> & Hc & Hl)|(-> & Hl & Hc)]; cbn [fine_step]; fold r; by rewrite ?Hm, ?Ha, Hc, Hl, Hs.
Qed.
End facts.

(** ** Examples *)

(** The run of [PipelineLive] that is ready to send, then the race. *)
Lemma pipeline_window_witness :
  exists f, @fine_step demo_job_source demo_api demo_job BeginRelease f = FineUndefined /\
    @fine_reachable demo_job_source demo_api demo_job 2 demo_states true f /\
    0 <= zlen (wire (coarse f)) - zlen (released (coarse f)) <= 2.
Proof.
  destruct (@clear_race_reachable demo_job_source demo_api demo_job 2 demo_states ltac:(cbn; lia) true demo_ready 0 0%nat
    demo_ready_reachable) as (f & Hf & Hc & Hl & Hm & Ha & _); [by vm_compute|by vm_compute|].
  destruct (@pipeline_window demo_job_source demo_api demo_job 2 demo_states ltac:(cbn; lia) ltac:(lia) true f
    demo_reads_bytes Hf) as (Hu & _ & _ & Hrange & _).
  exists f. split; [|by split]. apply Hu. exists 0, 0%nat, (ok_call demo_job 0). split_and!; try done. by right.
Defined.
