(* ===== verification/PipelineSaves.v ===== *)
(** * The saves of a running transfer

    The loop of [PipelineTransferBlocks] saves the block states after every
    hundred blocks it sent.  [Pipeline] leaves these saves out; here they are
    steps of their own, between the two threads' steps, with the state file they
    write.  They change nothing of the transfer, and nothing of a transfer that
    is interrupted can be taken up again from the file. *)

From S2P Require Import Prelude.
From S2P Require Import Protocol.
From S2P Require Import BlockHasher.
From S2P Require Import DataCompressor.
From S2P Require Import NetworkClient.
From S2P Require Import BlockStateManager.
From S2P Require Import Crc32.
From S2P Require Import StateFile.
From S2P Require Import StateInv.
From S2P Require Import Pipeline.

(** ** Definitions *)

(** A run with the state file; [s_due]: the loop is at [state.Save()]. *)
Record SRun := { s_run : Run; s_due : bool; s_file : option (list Z) }.

(** The answers of a save: the bytes a write takes, and whether the temporary
    file is created and moved. *)
Inductive SEvent := Ev (e : Event) | DoSave (accept : nat -> Z -> Z) (create_ok move_ok : bool).
Inductive SOutcome := SBlocked | SUndefined | SNext (s : SRun).

Definition main_event (e : Event) : bool :=
  match e with MainGo | MainTimeout | MainSend _ => true | _ => false end.

(** The step after which the loop tests [sentCount % 100]. *)
Definition clears_data (e : Event) (r : Run) : bool :=
  match e, main r with MainGo, Counted _ _ => true | _, _ => false end.
Definition save_due (l : Locals) : bool := (sentCount l mod 100 =? 0) && (0 <? sentCount l).

Definition with_manager (m : Manager) (r : Run) : Run :=
  {| shared := set_blockState m (shared r); main := main r; locals := locals r; ack := ack r;
     wire := wire r; released := released r |}.

Section saves.
Context `{Source} `{CompressApi} (job : Job) (slack : list Z).

Definition sstep (ev : SEvent) (s : SRun) : SOutcome :=
  match ev with
  | Ev e =>
      if s_due s && main_event e then SBlocked
      else match step job e (s_run s) with
           | Blocked => SBlocked
           | Undefined => SUndefined
           | Next r =>
               SNext {| s_run := r; s_due := s_due s || (clears_data e (s_run s) && save_due (locals r));
                        s_file := s_file s |}
           end
  | DoSave accept create_ok move_ok =>
      if negb (s_due s) then SBlocked
      else match Save accept create_ok move_ok slack (blockState (shared (s_run s))) (s_file s) with
           | None => SUndefined
           | Some (_, m, file) =>
               SNext {| s_run := with_manager m (s_run s); s_due := false; s_file := file |}
           end
  end.

Fixpoint ssteps (es : list SEvent) (s : SRun) : SOutcome :=
  match es with
  | [] => SNext s
  | ev :: es' => match sstep ev s with SNext s' => ssteps es' s' | o => o end
  end.

(** ** The saves change nothing but the dirty flag *)

Definition clean (r : Run) : Run := with_manager (set_dirty false (blockState (shared r))) r.
Definition clean_outcome (o : Outcome) : Outcome := match o with Next r => Next (clean r) | o => o end.

(** The events of the two threads. *)
Definition erase (es : list SEvent) : list Event :=
  concat (map (fun ev => match ev with Ev e => [e] | DoSave _ _ _ => [] end) es).

Lemma clean_main_step r : clean_outcome (main_step job (clean r)) = clean_outcome (main_step job r).
Proof.
  destruct r as [[w n a f err m] pc l ak wi re]. unfold main_step, clean, with_manager. cbn.
  destruct pc as [i|i|i k|i k|i k|i k|i k|i k|i k|i k| | | |]; cbn.
  - by repeat case_match.
  - unfold AcquireSlot. cbn. by repeat (case_match; simplify_eq).
  - unfold use_slot. cbn. by destruct (w !! k).
  - unfold use_slot, read_block. cbn. by repeat case_match.
  - unfold use_slot, hash_block. cbn. by repeat case_match.
  - unfold use_slot. cbn. destruct (w !! k); [|done]. unfold SetBlockHash. cbn. by destruct (m_blocks m !! _).
  - unfold use_slot, compress_block. cbn. destruct (w !! k); [|done]. by repeat (case_match; simplify_eq).
  - done.
  - done.
  - done.
  - by case_match.
  - unfold WaitForAllAcks. cbn. by repeat case_match.
  - by repeat case_match.
  - done.
Qed.

Lemma clean_step e r : clean_outcome (step job e (clean r)) = clean_outcome (step job e r).
Proof.
  destruct e as [| |sent|c|code|]; cbn [step]; [apply clean_main_step|..];
    destruct r as [[w n a f err m] pc l ak wi re]; unfold clean, with_manager; cbn.
  - unfold timeout_step. cbn. destruct pc; try done.
    + unfold AcquireSlot. cbn. by repeat (case_match; simplify_eq).
    + unfold WaitForAllAcks. cbn. by repeat (case_match; simplify_eq).
  - unfold send_step. cbn. destruct pc; try done. unfold use_slot. cbn. destruct (w !! k); [|done]. by destruct sent.
  - unfold enter_callback. cbn. by repeat case_match.
  - unfold enter_callback. cbn. by repeat case_match.
  - unfold ack_step. cbn. destruct ak as [|c|c|c|found|]; try done.
    + unfold SetBlockAck. cbn. by destruct (m_blocks m !! _).
    + by case_match.
    + unfold ReleaseSlot. cbn. by destruct (find_slot _ _).
    + by destruct found.
Qed.

Lemma clean_step_eq e r r2 : clean r = clean r2 -> clean_outcome (step job e r) = clean_outcome (step job e r2).
Proof. intros E. rewrite <- clean_step, E. apply clean_step. Qed.

Lemma Save_manager accept create_ok move_ok m file ok m' file' :
  Save accept create_ok move_ok slack m file = Some (ok, m', file') -> set_dirty false m' = set_dirty false m.
Proof.
  unfold Save. case_match; [by intros [= _ <- _]|]. case_match; [by intros [= _ <- _]|].
  destruct (block_records _ _); [|done]. cbn [mbind option_bind]. destruct move_ok; by intros [= _ <- _].
Qed.

(** A run with saves is a run without them. *)
Lemma erased es : forall s r, clean r = clean (s_run s) ->
  match ssteps es s with
  | SNext s' => exists r', steps job (erase es) r = Next r' /\ clean r' = clean (s_run s')
  | _ => True
  end.
Proof.
  induction es as [|ev es IH]; intros s r Hr; cbn [ssteps]; [by exists r|].
  destruct ev as [e|accept create_ok move_ok]; cbn [sstep].
  - destruct (s_due s && main_event e); [done|]. pose proof (clean_step_eq e r (s_run s) Hr) as E.
    destruct (step job e (s_run s)) as [| |r1]; [done..|]. cbn [clean_outcome] in E.
    destruct (step job e r) as [| |r2] eqn:E2; [done..|].
    assert (clean r2 = clean r1) as E' by exact (f_equal (fun o => match o with Next x => x | _ => clean r1 end) E).
    change (erase (Ev e :: es)) with (e :: erase es). cbn [steps]. rewrite E2. by apply IH.
  - destruct (negb (s_due s)); [done|].
    destruct (Save _ _ _ _ _ _) as [[[ok m] file]|] eqn:E; [|done]. change (erase (_ :: es)) with (erase es).
    apply IH. rewrite Hr. apply Save_manager in E. unfold clean. cbn. by rewrite E.
Qed.

(** ** What a save finds *)

(** SHA-256 digests have 32 bytes. *)
Class DigestLaws := digest_length : forall b d h, ComputeBlockHash b d = Some h -> hash_typed h.

(** The manager of a run and the hashes of the slots are of their types, and the
    header of a save is that of the first. *)
Record run_typed (m0 : Manager) (r : Run) : Prop := {
  rt_manager : Manager_typed (blockState (shared r));
  rt_initialized : m_initialized (blockState (shared r)) = true;
  rt_hashes : Forall (fun sl => hash_typed (Hash sl)) (m_window (shared r));
  rt_header : header_fields (blockState (shared r)) = header_fields m0;
  rt_devNo : m_devNo (blockState (shared r)) = m_devNo m0;
  rt_total : m_totalBlocks (blockState (shared r)) = m_totalBlocks m0;
  rt_blocks : length (m_blocks (blockState (shared r))) = length (m_blocks m0) }.

Lemma typed_go m0 r m w pc sh l ak wi re :
  run_typed m0 r -> blockState sh = m -> m_window sh = w ->
  m = blockState (shared r) -> Forall (fun sl => hash_typed (Hash sl)) w ->
  run_typed m0 {| shared := sh; main := pc; locals := l; ack := ak; wire := wi; released := re |}.
Proof. intros [? ? ? ? ? ? ?] <- <- E Hw. constructor; cbn; rewrite ?E; done. Qed.

Lemma typed_manager m0 r m :
  run_typed m0 r -> Manager_typed m -> m_initialized m = m_initialized (blockState (shared r)) ->
  m_devNo m = m_devNo (blockState (shared r)) -> m_totalBlocks m = m_totalBlocks (blockState (shared r)) ->
  length (m_versions m) = length (m_versions (blockState (shared r))) ->
  length (m_blocks m) = length (m_blocks (blockState (shared r))) -> run_typed m0 (with_manager m r).
Proof.
  intros [? ? ? Hh ? ? ?] Hm Hi Hd Ht Hl Hlb. constructor; cbn; rewrite ?Hi, ?Hd, ?Ht, ?Hlb; try done.
  rewrite <- Hh. unfold header_fields. by rewrite Hd, Ht, Hl.
Qed.

Lemma alter_hashes f k w :
  (forall sl, hash_typed (Hash sl) -> hash_typed (Hash (f sl))) ->
  Forall (fun sl => hash_typed (Hash sl)) w -> Forall (fun sl => hash_typed (Hash sl)) (alter f k w).
Proof.
  intros Hf Hw. apply Forall_lookup_2. intros i sl Hi. destruct (decide (k = i)) as [->|Hne].
  - rewrite list_lookup_alter_eq in Hi. apply fmap_Some in Hi as (sl' & Hs & ->).
    apply Hf. rewrite Forall_lookup in Hw. by eapply Hw.
  - rewrite list_lookup_alter_ne in Hi by done. rewrite Forall_lookup in Hw. by eapply Hw.
Qed.

Lemma SetBlockHash_same i h m :
  let m' := snd (SetBlockHash i h m) in
  m_initialized m' = m_initialized m /\ m_devNo m' = m_devNo m /\ m_totalBlocks m' = m_totalBlocks m /\
  length (m_versions m') = length (m_versions m) /\ length (m_blocks m') = length (m_blocks m).
Proof. unfold SetBlockHash. destruct (m_blocks m !! _); [|done]. cbn. by rewrite ?length_alter, ?length_insert. Qed.

Lemma SetBlockAck_same i st m :
  versions_ok m -> let m' := snd (SetBlockAck i st m) in
  m_initialized m' = m_initialized m /\ m_devNo m' = m_devNo m /\ m_totalBlocks m' = m_totalBlocks m /\
  length (m_versions m') = length (m_versions m) /\ length (m_blocks m') = length (m_blocks m).
Proof.
  intros Hv. destruct (run_mgr_op_keeps (OpAck (AckOne i st)) m Hv) as [_ Hk]. cbn [run_mgr_op run_ack_op] in Hk.
  destruct (ack_op_total (AckOne i st) m) as [? ?]. cbn [run_ack_op] in *. cbv zeta. split; [|split; [done|split; [done|split]]].
  - unfold SetBlockAck. destruct (m_blocks m !! _); [|done]. by destruct (ack_block _ _ _).
  - apply (f_equal length) in Hk. by rewrite !length_map in Hk.
  - unfold SetBlockAck. destruct (m_blocks m !! _); [|done]. destruct (ack_block _ _ _) as [bs vs] eqn:E. cbn.
    pose proof (ack_block_length i st (m_blocks m, m_versions m)) as Hl. by rewrite E in Hl.
Qed.

(** A step that touches no manager: what is left is the window. *)
Ltac same_manager Ht := eapply typed_go; [exact Ht|reflexivity|reflexivity|reflexivity|]; cbn.

Lemma skip_typed m0 i k r : run_typed m0 r -> run_typed m0 (skip_block i k r).
Proof.
  intros Ht. same_manager Ht. apply alter_hashes; [done|apply Ht].
Qed.

Lemma main_typed `{!DigestLaws} m0 r r' : run_typed m0 r -> main_step job r = Next r' -> run_typed m0 r'.
Proof.
  intros Ht. unfold main_step. destruct (main r) as [i|i|i k|i k|i k|i k|i k|i k|i k|i k| | | |].
  - repeat case_match; intros [= <-]; same_manager Ht; apply Ht.
  - unfold AcquireSlot. repeat case_match; simplify_eq; intros [= <-]; same_manager Ht; try apply Ht.
    apply alter_hashes; [done|apply Ht].
  - unfold use_slot. destruct (_ !! k); [|done]. intros [= <-]. same_manager Ht. apply alter_hashes; [done|apply Ht].
  - unfold use_slot, read_block. destruct (_ !! k); [|done]. case_match; [done|].
    destruct (ReadAt _ _); intros [= <-]; [|by apply skip_typed]. same_manager Ht. apply alter_hashes; [done|apply Ht].
  - unfold use_slot, hash_block. destruct (_ !! k); [|done]. destruct (memcpy_from _ _ _); [|done].
    destruct (ComputeBlockHash _ _) as [h|] eqn:Eh; intros [= <-]; [|by apply skip_typed].
    same_manager Ht. apply alter_hashes; [|apply Ht]. intros sl _. by apply digest_length in Eh.
  - unfold use_slot. destruct (_ !! k) as [sl|] eqn:Ek; [|done]. intros [= <-].
    destruct (SetBlockHash_same i (Hash sl) (blockState (shared r))) as (? & ? & ? & ? & ?).
    assert (run_typed m0 (with_manager (snd (SetBlockHash i (Hash sl) (blockState (shared r)))) r)) as Ht'.
    { apply typed_manager; try done. apply set_hash_typed; [apply Ht|].
      pose proof (rt_hashes _ _ Ht) as Hh. rewrite Forall_lookup in Hh. by eapply Hh. }
    same_manager Ht'. apply Ht'.
  - unfold use_slot, compress_block. destruct (_ !! k); [|done]. destruct (memcpy_from _ _ _); [|done].
    destruct (Compress _ _ _) as [[[] c]|]; [| |done]; intros [= <-]; [|by apply skip_typed].
    same_manager Ht. apply alter_hashes; [done|apply Ht].
  - done.
  - intros [= <-]. same_manager Ht. apply Ht.
  - intros [= <-]. same_manager Ht. apply alter_hashes; [done|apply Ht].
  - case_match; intros [= <-]; same_manager Ht; apply Ht.
  - destruct (WaitForAllAcks _ _); [|done]. intros [= <-]. same_manager Ht. apply Ht.
  - destruct (ack r); try done; intros [= <-]; same_manager Ht; apply Ht.
  - done.
Qed.

Lemma ack_typed_step m0 r r' : run_typed m0 r -> ack_step r = Next r' -> run_typed m0 r'.
Proof.
  intros Ht. unfold ack_step. destruct (ack r) as [|c|c|c|found|]; try done.
  - intros [= <-].
    destruct (SetBlockAck_same (cb_blockIndex c) (ack_status c) _ (mt_versions _ (rt_manager _ _ Ht))) as (? & ? & ? & ? & ?).
    assert (run_typed m0 (with_manager (snd (SetBlockAck (cb_blockIndex c) (ack_status c) (blockState (shared r)))) r)) as Ht'.
    { apply typed_manager; try done. apply (ack_typed (AckOne (cb_blockIndex c) (ack_status c))); [apply Ht|].
      unfold ack_status. cbn. unfold status_typed, Pending, Skipped, Acknowledged, Failed. case_match; lia. }
    same_manager Ht'. apply Ht'.
  - intros [= <-]. case_match; same_manager Ht; apply Ht.
  - unfold ReleaseSlot. destruct (find_slot _ _); intros [= <-]; same_manager Ht; [|apply Ht].
    apply alter_hashes; [done|apply Ht].
  - intros [= <-]. destruct found; same_manager Ht; apply Ht.
Qed.

Lemma step_typed `{!DigestLaws} m0 e r r' : run_typed m0 r -> step job e r = Next r' -> run_typed m0 r'.
Proof.
  intros Ht. destruct e as [| |sent|c|code|]; cbn [step].
  - by apply main_typed.
  - unfold timeout_step. destruct (main r); try done.
    + unfold AcquireSlot. repeat case_match; simplify_eq; intros [= <-]; same_manager Ht; try apply Ht.
      apply alter_hashes; [done|apply Ht].
    + destruct (WaitForAllAcks _ _); [|done]. intros [= <-]. same_manager Ht. apply Ht.
  - unfold send_step, use_slot. destruct (main r); try done. destruct (_ !! _); [|done].
    destruct sent; intros [= <-]; same_manager Ht; [apply Ht|]. apply alter_hashes; [done|apply Ht].
  - unfold enter_callback. destruct (ack r), (main r); try done; case_match; intros [= <-]; same_manager Ht; apply Ht.
  - unfold enter_callback. destruct (ack r), (main r); try done; case_match; intros [= <-]; same_manager Ht; apply Ht.
  - by apply ack_typed_step.
Qed.

(** ** The file of a save *)

(** What a new client knows from a file: it starts without blocks and versions,
    so without an acknowledged or a pending block. *)
Definition forgotten (m0 : Manager) (file : option (list Z)) : Prop :=
  forall max_size slack', exists m,
    StateFile.Initialize max_size slack' (m_devNo m0) file Manager_new = Loaded true m /\
    m_totalBlocks m = m_totalBlocks m0 /\ m_blocks m = [] /\ GetVersionHistory m = [] /\
    GetPendingBlocks m = [] /\ GetLastAcknowledgedBlock m = 0.

Definition healthy (ev : SEvent) : Prop :=
  match ev with Ev _ => True | DoSave accept _ _ => forall k n, accept k n = n end.

Lemma write_all_ext accept k chunks file :
  (forall k n, accept k n = n) -> write_all accept k chunks file = write_all (fun _ n => n) k chunks file.
Proof.
  intros Ha. revert k file. induction chunks as [|c chunks IH]; intros k file; [done|]. cbn [write_all].
  by rewrite Ha, IH.
Qed.

(** A save overruns its buffer when there is a block and no memory behind it. *)
Definition overruns (m0 : Manager) : Prop := m_blocks m0 <> [] /\ zlen slack < 4.

Lemma typed_blocks m0 r : run_typed m0 r -> Forall block_wf (m_blocks (blockState (shared r))).
Proof.
  intros Ht. apply Forall_lookup_2. intros i b Hb.
  by destruct (proj1 (mt_tables _ (rt_manager _ _ Ht)) i b Hb) as [(_ & _ & ?) _].
Qed.

Lemma typed_no_blocks m0 r : run_typed m0 r -> m_blocks (blockState (shared r)) = [] <-> m_blocks m0 = [].
Proof.
  intros Ht. pose proof (rt_blocks _ _ Ht) as Hl.
  split; intros Hn; apply nil_length_inv; rewrite Hn in Hl; cbn in Hl; lia.
Qed.

Lemma Save_none m0 r accept create_ok move_ok file :
  run_typed m0 r ->
  Save accept create_ok move_ok slack (blockState (shared r)) file = None <-> create_ok = true /\ overruns m0.
Proof.
  intros Ht. rewrite Save_overruns by by eapply typed_blocks. unfold overruns.
  rewrite (typed_no_blocks m0 r Ht), (rt_initialized _ _ Ht). tauto.
Qed.

Lemma Save_forgotten m0 r accept create_ok move_ok file ok m file' :
  run_typed m0 r -> (forall k n, accept k n = n) ->
  let crc := crc_loop 0xFFFFFFFF (header_fields m0) in crc_loop crc (zeros 28) <> crc ->
  Save accept create_ok move_ok slack (blockState (shared r)) file = Some (ok, m, file') ->
  file' = file \/ forgotten m0 file'.
Proof.
  intros Ht Ha crc Hcrc E.
  assert (create_ok && move_ok = true \/ file' = file) as [Hok|Hf]; [| |by left].
  { unfold Save in E. repeat (case_match; [injection E as _ _ <-; by right|]).
    destruct (block_records _ _); [|done]. cbn [mbind option_bind] in E. destruct move_ok; [|injection E as _ _ <-; by right].
    left. by destruct create_ok. }
  right. intros max_size slack'. apply andb_true_iff in Hok as [-> ->].
  assert (exists sl, 4 <= zlen sl /\ Save accept true true sl (blockState (shared r)) file = Some (ok, m, file'))
    as (sl & Hsl & E4).
  { destruct (Z.lt_ge_cases (zlen slack) 4) as [Hlt|]; [|by exists slack].
    exists (zeros 4). split; [done|]. rewrite <- E. apply Save_empty. apply (typed_no_blocks m0 r Ht).
    destruct (m_blocks m0) eqn:Hn; [done|]. exfalso. rewrite (proj2 (Save_none m0 r accept true true file Ht)) in E; [done|].
    split; [done|]. split; [by rewrite Hn|done]. }
  destruct (saved_state_rejected sl slack' max_size (blockState (shared r)) Manager_new file (m_devNo m0))
    as (saved & E1 & E2).
  - apply Ht.
  - by eapply typed_blocks.
  - apply Ht.
  - done.
  - by rewrite (rt_header _ _ Ht).
  - assert (Save accept true true sl (blockState (shared r)) file
            = Save (fun _ n => n) true true sl (blockState (shared r)) file) as E3.
    { unfold Save. case_match; [done|]. destruct (block_records _ _); [|done]. cbn [mbind option_bind].
      by rewrite write_all_ext, Ha. }
    rewrite E3, E1 in E4. injection E4 as _ _ <-. eexists. split; [exact E2|]. split; [apply Ht|done].
Qed.

(** ** Runs with saves *)

Definition srun_ok (m0 : Manager) (f0 : option (list Z)) (s : SRun) : Prop :=
  run_typed m0 (s_run s) /\ (s_due s = true -> save_due (locals (s_run s)) = true) /\
  (s_file s = f0 \/ forgotten m0 (s_file s)).

Lemma callback_locals e r r' : main_event e = false -> step job e r = Next r' -> locals r' = locals r.
Proof.
  intros He. destruct e as [| |sent|c|code|]; [done..| | |]; cbn [step].
  - unfold enter_callback. destruct (ack r), (main r); try done; destruct (_ =? _); by intros [= <-].
  - unfold enter_callback. destruct (ack r), (main r); try done; destruct (_ =? _); by intros [= <-].
  - unfold ack_step. destruct (ack r) as [|c|c|c|found|]; try done; [by intros [= <-]..| |by intros [= <-]].
    destruct (ReleaseSlot _ _). by intros [= <-].
Qed.

(** A save leaves the manager as it was, up to the dirty flag. *)
Lemma saved_typed m0 r accept create_ok move_ok file ok m file' :
  run_typed m0 r -> Save accept create_ok move_ok slack (blockState (shared r)) file = Some (ok, m, file') ->
  run_typed m0 (with_manager m r).
Proof.
  intros [[Hv Hn Hdv Htot Hlen Htab] Hi Hh Hhd Hdn Htt Hbl] Em%Save_manager.
  assert (forall {A} (f : Manager -> A), (forall m, f (set_dirty false m) = f m) -> f m = f (blockState (shared r))) as Hsame.
  { intros A f Hfd. by rewrite <- (Hfd m), <- (Hfd (blockState _)), Em. }
  pose proof (Hsame _ m_devNo (fun _ => eq_refl)) as E1. pose proof (Hsame _ m_totalBlocks (fun _ => eq_refl)) as E2.
  pose proof (Hsame _ m_initialized (fun _ => eq_refl)) as E3. pose proof (Hsame _ m_blocks (fun _ => eq_refl)) as E4.
  pose proof (Hsame _ m_versions (fun _ => eq_refl)) as E5. pose proof (Hsame _ m_nextVersionId (fun _ => eq_refl)) as E6.
  pose proof (Hsame _ header_fields (fun _ => eq_refl)) as E7. clear Hsame.
  constructor; cbn [with_manager set_blockState shared blockState m_window]; [|congruence|done|congruence|congruence|congruence|congruence].
  unfold versions_ok in Hv. constructor; unfold versions_ok; rewrite ?E1, ?E2, ?E4, ?E5, ?E6; assumption.
Qed.

Lemma sstep_ok `{!DigestLaws} m0 f0 ev s s' :
  (let crc := crc_loop 0xFFFFFFFF (header_fields m0) in crc_loop crc (zeros 28) <> crc) ->
  healthy ev -> srun_ok m0 f0 s -> sstep ev s = SNext s' -> srun_ok m0 f0 s'.
Proof.
  intros Hcrc Hev (Ht & Hd & Hf). destruct ev as [e|accept create_ok move_ok]; cbn [sstep].
  - destruct (s_due s && main_event e) eqn:Eb; [done|]. destruct (step job e (s_run s)) as [| |r] eqn:E; [done..|].
    intros [= <-]. split; [by eapply step_typed|]. cbn [s_run s_due s_file]. split; [|done].
    destruct (s_due s); cbn [orb andb] in *.
    + intros _. rewrite (callback_locals e _ _ Eb E). by apply Hd.
    + intros Hc. by apply andb_true_iff in Hc as [_ ?].
  - destruct (negb (s_due s)) eqn:Eb; [done|]. destruct (Save _ _ _ _ _ _) as [[[ok m] file]|] eqn:E; [|done].
    intros [= <-]. split; [|split; [done|]]; cbn [s_run s_file s_due].
    + by apply (saved_typed _ _ _ _ _ _ _ _ _ Ht E).
    + destruct (Save_forgotten m0 _ _ _ _ _ _ _ _ Ht Hev Hcrc E) as [->|?]; [done|by right].
Qed.

Lemma ssteps_ok `{!DigestLaws} m0 f0 es s :
  (let crc := crc_loop 0xFFFFFFFF (header_fields m0) in crc_loop crc (zeros 28) <> crc) ->
  Forall healthy es -> srun_ok m0 f0 s ->
  match ssteps es s with SNext s' => srun_ok m0 f0 s' | _ => True end.
Proof.
  intros Hcrc He. revert s. induction He as [|ev es Hev _ IH]; intros s Hok; [done|]. cbn [ssteps].
  destruct (sstep ev s) as [| |s'] eqn:E; [done..|]. apply IH. by eapply sstep_ok.
Qed.

(** What is undefined is so without saves, or a save overruns its buffer. *)
Lemma erased_undefined `{!DigestLaws} m0 es : forall s r,
  run_typed m0 (s_run s) -> clean r = clean (s_run s) ->
  ssteps es s = SUndefined -> steps job (erase es) r = Undefined \/ overruns m0.
Proof.
  induction es as [|ev es IH]; intros s r Ht Hr; cbn [ssteps]; [done|].
  destruct ev as [e|accept create_ok move_ok]; cbn [sstep].
  - destruct (s_due s && main_event e); [done|]. pose proof (clean_step_eq e r (s_run s) Hr) as E.
    change (erase (Ev e :: es)) with (e :: erase es). cbn [steps].
    destruct (step job e (s_run s)) as [| |r1] eqn:E1, (step job e r) as [| |r2]; try done; [by left|].
    intros Hu. eapply IH; [| |exact Hu]; cbn [s_run].
    + by eapply step_typed.
    + exact (f_equal (fun o => match o with Next x => x | _ => clean r1 end) E).
  - destruct (negb (s_due s)) eqn:Ed; [done|].
    destruct (Save _ _ _ _ _ _) as [[[ok m] file]|] eqn:E; [|by apply (Save_none m0) in E as [_ ?]; [right|]].
    intros Hu. change (erase (_ :: es)) with (erase es). eapply IH; [| |exact Hu]; cbn [s_run].
    + by apply (saved_typed _ _ _ _ _ _ _ _ _ Ht E).
    + rewrite Hr. apply Save_manager in E. unfold clean. cbn. by rewrite E.
Qed.
End saves.

(** Every run without saves is one with the saves at their places. *)
Lemma inserted `{Source} `{CompressApi} (job : Job) slack `{!DigestLaws} m0 es : forall s r r',
  ~ overruns slack m0 -> run_typed m0 (s_run s) -> s_due s = false -> clean r = clean (s_run s) ->
  steps job es r = Next r' ->
  exists es' s', erase es' = es /\ ssteps job slack es' s = SNext s' /\ clean r' = clean (s_run s').
Proof.
  induction es as [|e es IH]; intros s r r' Hs Ht Hd Hr; cbn [steps].
  { intros [= <-]. by exists [], s. }
  pose proof (clean_step_eq job e r (s_run s) Hr) as E.
  destruct (step job e r) as [| |r1]; [done..|]. destruct (step job e (s_run s)) as [| |r2] eqn:E2; [done..|].
  assert (clean r1 = clean r2) as E' by exact (f_equal (fun o => match o with Next x => x | _ => clean r1 end) E).
  pose proof (step_typed job m0 _ _ _ Ht E2) as Ht2. intros Hes.
  set (due := clears_data e (s_run s) && save_due (locals r2)).
  destruct due eqn:Edue; subst due.
  - destruct (Save (fun _ n => n) true true slack (blockState (shared r2)) (s_file s)) as [[[ok m] file]|] eqn:ES;
      [|by apply (Save_none slack m0) in ES as [_ ?]].
    destruct (IH {| s_run := with_manager m r2; s_due := false; s_file := file |} r1 r') as (es' & s' & <- & Hrun & Hc);
      [done|by apply (saved_typed _ _ _ _ _ _ _ _ _ _ Ht2 ES)|done| |done|].
    { rewrite E'. apply Save_manager in ES. unfold clean. cbn. by rewrite ES. }
    exists (Ev e :: DoSave (fun _ n => n) true true :: es'), s'. split; [done|]. split; [|done].
    cbn [ssteps sstep]. rewrite Hd, E2. cbn [andb orb]. rewrite Edue. cbn [ssteps sstep s_due negb s_run s_file].
    by rewrite ES.
  - destruct (IH {| s_run := r2; s_due := false; s_file := s_file s |} r1 r') as (es' & s' & <- & Hrun & Hc); try done.
    exists (Ev e :: es'), s'. split; [done|]. split; [|done]. cbn [ssteps sstep]. rewrite Hd, E2. cbn [andb orb].
    by rewrite Edue.
Qed.

(** ** The property *)

(** C13: the saves during a transfer.  From any state of a transfer whose manager
    is well formed, in every interleaving of the loop, the callback and the saves
    after every hundred blocks: the run is one of [Pipeline]'s runs up to the
    dirty flag, and a save is made only when the number of blocks sent is a
    positive multiple of a hundred.  The records overrun their buffer: with a
    block in the manager, and no four bytes behind the buffer to take what is too
    much, the first save that creates its file is undefined, and nothing else is
    that is defined without saves; so the runs of [Pipeline] occur, with the saves
    at their places, where the memory behind the buffer takes it.  On a disk that
    takes every byte the state file is then the one of before the transfer or one
    of which the next [Initialize] takes the number of blocks and nothing else -
    no block, no version, no acknowledgement - so a transfer that is interrupted
    cannot be taken up where it was (unless the checksum's register is left alone
    by 28 zero bytes). *)
Theorem progress_saves `{Source} `{CompressApi} (job : Job) slack `{!DigestLaws} r file es :
  let m0 := blockState (shared r) in
  Manager_typed m0 -> m_initialized m0 = true ->
  Forall (fun sl => hash_typed (Hash sl)) (m_window (shared r)) ->
  (let crc := crc_loop 0xFFFFFFFF (header_fields m0) in crc_loop crc (zeros 28) <> crc) ->
  let s0 := {| s_run := r; s_due := false; s_file := file |} in
  (Forall healthy es ->
   match ssteps job slack es s0 with
   | SNext s =>
       (exists r', steps job (erase es) r = Next r' /\ clean r' = clean (s_run s)) /\
       (s_due s = true -> 0 < sentCount (locals (s_run s)) /\ sentCount (locals (s_run s)) mod 100 = 0) /\
       (s_file s = file \/ forgotten m0 (s_file s)) /\
       (s_due s = true -> forall accept create_ok move_ok,
          sstep job slack (DoSave accept create_ok move_ok) s = SUndefined <->
          create_ok = true /\ m_blocks m0 <> [] /\ zlen slack < 4)
   | SUndefined => steps job (erase es) r = Undefined \/ m_blocks m0 <> [] /\ zlen slack < 4
   | SBlocked => True
   end) /\
  (m_blocks m0 = [] \/ 4 <= zlen slack -> forall events r', steps job events r = Next r' ->
   exists es' s', erase es' = events /\ ssteps job slack es' s0 = SNext s' /\ clean r' = clean (s_run s')).
Proof.
  intros m0 Hm Hi Hh Hcrc s0. assert (run_typed m0 r) as Ht by by constructor. split.
  - intros Hes. pose proof (erased job slack es s0 r eq_refl) as He.
    pose proof (ssteps_ok job slack m0 file es s0 Hcrc Hes) as Hok.
    pose proof (erased_undefined job slack m0 es s0 r Ht eq_refl) as Hu.
    destruct (ssteps job slack es s0) as [| |s]; [done|by apply Hu|]. split; [done|].
    destruct Hok as (Hts & Hd & Hf); [by split; [|split; [|left]]|]. split; [|split; [done|]].
    + intros Hdue. apply Hd in Hdue. unfold save_due in Hdue. lia.
    + intros Hdue accept create_ok move_ok. rewrite <- (Save_none slack m0 _ accept create_ok move_ok (s_file s) Hts).
      cbn [sstep]. rewrite Hdue. cbn [negb]. by destruct (Save _ _ _ _ _ _) as [[[? ?] ?]|].
  - intros Hs events r'. apply inserted with (m0 := m0); try done. unfold overruns. intros [? ?]. destruct Hs; [done|lia].
Qed.

(** ** The hundredth block *)

Definition digest_source : Source := {|
  SetFilePointerEx := fun _ => true; ReadFile := fun _ n => Some (zeros n); HashHandle := unit;
  BCryptCreateHash := Some tt; BCryptHashData := fun h _ => Some h; BCryptFinishHash := fun _ => Some (zeros 32) |}.
Lemma digest_source_laws : @DigestLaws digest_source.
Proof. intros b d h. unfold ComputeBlockHash. destruct b; [|done]. by intros [= <-]. Qed.

Definition hundred_job : @Job demo_api :=
  {| job_devNo := 0; job_versionId := 0; job_totalBlocks := 200; job_totalSize := 200 * BLOCK_SIZE;
     job_hasher := true; job_compressor := Compressor_new |}.
(** Two blocks, one of them acknowledged. *)
Definition hundred_states : Manager := run_state_ops demo_state_ops demo_opened.
Definition hundred_sent : Run :=
  {| shared := ResetPipelineWindow 2 hundred_states; main := Counted 99 0;
     locals := {| sentCount := 100; totalCompressed := 0; skippedCount := 0; statsFailed := 0 |};
     ack := AckIdle; wire := []; released := [] |}.
Definition hundred_start : SRun := {| s_run := hundred_sent; s_due := false; s_file := None |}.
Definition hundred_steps (slack : list Z) (es : list SEvent) : SOutcome :=
  @ssteps digest_source demo_api hundred_job slack es hundred_start.
Definition whole_save : SEvent := DoSave (fun _ n => n) true true.

Lemma hundred_typed : Manager_typed hundred_states.
Proof.
  apply StateInv.run_typed; [by apply empty_typed| |by vm_compute].
  unfold demo_state_ops. repeat (constructor; [evaluate|]). constructor.
Qed.

(** With memory behind the buffer the save of the two blocks is forgotten; as the
    code is, it is undefined. *)
Lemma progress_saves_witness :
  (exists s, hundred_steps (zeros 4) [Ev MainGo; whole_save; Ev MainGo] = SNext s /\
     is_Some (s_file s) /\ forgotten hundred_states (s_file s)) /\
  exists s, hundred_steps [] [Ev MainGo] = SNext s /\
    @sstep digest_source demo_api hundred_job [] whole_save s = SUndefined.
Proof.
  pose proof (fun slack es => @progress_saves digest_source demo_api hundred_job slack digest_source_laws hundred_sent None
    es hundred_typed eq_refl ltac:(repeat constructor) ltac:(by vm_compute)) as Hp. cbv zeta in Hp.
  fold hundred_start in Hp. split.
  - destruct (Hp (zeros 4) [Ev MainGo; whole_save; Ev MainGo]) as [Hq _]. fold (hundred_steps (zeros 4)) in Hq.
    assert (match hundred_steps (zeros 4) [Ev MainGo; whole_save; Ev MainGo] with
            | SNext s => bool_decide (is_Some (s_file s)) | _ => false end = true) as E by (vm_compute; reflexivity).
    unfold hundred_steps in *.
    destruct (ssteps _ _ _ _) as [| |s]; try done. apply bool_decide_eq_true in E. exists s. split; [done|]. split; [done|].
    destruct Hq as (_ & _ & [Hf|Hf] & _); [by repeat constructor| |done]. rewrite Hf in E. by destruct E.
  - destruct (Hp [] [Ev MainGo]) as [Hq _].
    assert (match hundred_steps [] [Ev MainGo] with SNext s => s_due s | _ => false end = true) as E
      by (vm_compute; reflexivity).
    unfold hundred_steps in *. destruct (ssteps _ _ _ _) as [| |s]; try done. exists s. split; [done|].
    destruct Hq as (_ & _ & _ & Hu); [by repeat constructor|]. apply (Hu E). split_and!; [done|by vm_compute|done].
Defined.
