(* ===== verification/PipelineEndToEnd.v ===== *)
(** * The pipelined transfer end to end

    A transfer of a readable source that finishes has sent the blocks of the
    image in order, each once; a server that receives them ends up with the
    image.  The client's compression is that of [DataCompressor], inflated by
    the server. *)

From Stdlib Require Import Sorted.
From S2P Require Import Prelude.
From S2P Require Import Protocol.
From S2P Require Import MessageParser.
From S2P Require Import DiskMap.
From S2P Require Import BlockProcessor.
From S2P Require Import Server.
From S2P Require Import ServerSpec.
From S2P Require Import NetworkClient.
From S2P Require Import EndToEnd.
From S2P Require Import BlockHasher.
From S2P Require Import DataCompressor.
From S2P Require Import BlockStateManager.
From S2P Require Import Pipeline.
From S2P Require Import PipelineInv.
From S2P Require Import PipelineSpec.
From S2P Require Import PipelineResult.
From S2P Require Import PipelineLive.

(** The client's parts and the server's library fit together: the source is
    the image, the hashes are the server's, and what the compressor makes of a
    block is what the server inflates. *)
Class Linked `{Source} `{CompressApi} `{BackupEnv} (image : list Z) (c : Compressor) := {
  linked_source : source_is image SHA256;
  linked_compress d out :
    bytes_ok d -> 0 < zlen d <= BLOCK_SIZE -> Compress c d out = Some (true, compress d);
}.

(** The client and the server each define the size of a block. *)
Ltac sizes := unfold Protocol.BLOCK_SIZE, BlockHasher.BLOCK_SIZE in *.

(** The blocks of an image. *)
Definition block_count (image : list Z) : Z := (zlen image + BLOCK_SIZE - 1) / BLOCK_SIZE.

(** A sorted list of [n] indexes out of [n] is all of them. *)
Lemma sorted_length lo hi l :
  StronglySorted Z.lt l -> Forall (fun b => lo <= b < hi) l -> zlen l <= Z.max 0 (hi - lo).
Proof.
  intros Hs. revert lo. induction Hs as [|x l Hs IH Hx]; intros lo Hr; cbn [length]; [lia|].
  apply Forall_cons_1 in Hr as [Hxr Hr]. specialize (IH (x + 1)). rewrite Forall_forall in *.
  assert (zlen l <= Z.max 0 (hi - (x + 1))); [|lia]. apply IH. intros b Hb.
  specialize (Hx b Hb). specialize (Hr b Hb). lia.
Qed.

Lemma sorted_all l a n :
  StronglySorted Z.lt l -> Forall (fun b => a <= b < a + n) l -> zlen l = n -> l = seqZ a n.
Proof.
  intros Hs. revert a n. induction Hs as [|x l Hs IH Hx]; intros a n Hr Hl; cbn [length] in Hl.
  { by subst n. }
  apply Forall_cons_1 in Hr as [Hxr Hr].
  assert (Forall (fun b => x + 1 <= b < a + n) l) as Hr'.
  { rewrite Forall_forall in *. intros b Hb. specialize (Hx b Hb). specialize (Hr b Hb). lia. }
  pose proof (sorted_length _ _ _ Hs Hr') as Hlen. assert (x = a) as -> by lia.
  rewrite seqZ_cons by lia. f_equal. apply IH; [|lia].
  eapply Forall_impl; [exact Hr'|]. cbn. lia.
Qed.

Section linked.
Context `{Source} `{CompressApi} `{BackupEnv}.
Context (image : list Z) (devno versionId windowSize : Z) (c : Compressor) (m0 : Manager).
Context `{!Linked image c}.
Hypothesis image_ok : bytes_ok image.
Hypothesis image_small : zlen image < 2 ^ 63.
Hypothesis window_size_ok : 0 < windowSize < 2 ^ 31 - 1.

Definition image_job : Job :=
  {| job_devNo := devno; job_versionId := versionId; job_totalBlocks := block_count image;
     job_totalSize := zlen image; job_hasher := true; job_compressor := c |}.

Lemma block_count_range : 0 <= block_count image < 2 ^ 44.
Proof. unfold block_count; sizes. Z.to_euclidean_division_equations. lia. Qed.

Lemma block_index_bound i : 0 <= i < block_count image -> block_index_ok image i.
Proof.
  intros Hi. split; [lia|]. unfold block_count in *; sizes. Z.to_euclidean_division_equations. lia.
Qed.

Lemma image_block_size i :
  0 <= i < block_count image -> block_size image_job i = Z.min BLOCK_SIZE (zlen image - i * BLOCK_SIZE).
Proof.
  intros Hi. pose proof block_count_range. pose proof (block_index_bound i Hi) as [_ Hlt].
  unfold block_size. cbn [job_totalBlocks job_totalSize image_job].
  rewrite (wrap_small 64 (block_count image - 1)) by (unfold in_width; lia).
  assert ((i =? block_count image - 1) = true \/ (i =? block_count image - 1) = false /\ (i + 1) * BLOCK_SIZE <= zlen image)
    as [->|[-> Hle]].
  { destruct (i =? block_count image - 1) eqn:E; reflect_Z; [by left|right]. split; [done|].
    unfold block_count in *; sizes. Z.to_euclidean_division_equations. lia. }
  - rewrite (wrap_small 64 (i * BLOCK_SIZE)) by (unfold in_width; sizes; lia).
    rewrite wrap_small by (unfold in_width; sizes; lia).
    destruct ((_ <? BLOCK_SIZE) && _) eqn:E; reflect_Z.
    + rewrite wrap_small by (unfold in_width; sizes; lia). lia.
    + destruct E; reflect_Z; sizes; lia.
  - sizes. lia.
Qed.

Lemma image_read i :
  0 <= i < block_count image -> read_as image_job i (block_of image i).
Proof.
  intros Hi. pose proof block_count_range. pose proof (block_index_bound i Hi) as [_ Hlt].
  unfold read_as. rewrite image_block_size by done.
  rewrite wrap_small by (unfold in_width; sizes; lia).
  rewrite (ReadAt_ok image SHA256 linked_source) by (sizes; lia).
  f_equal. unfold block_of, sub. destruct (Z.le_gt_cases BLOCK_SIZE (zlen image - i * BLOCK_SIZE)).
  - by rewrite Z.min_l by lia.
  - rewrite Z.min_r by lia. rewrite !take_ge; [done| |]; rewrite length_drop; sizes; lia.
Qed.

Lemma read_is_block i d :
  0 <= i < block_count image -> read_as image_job i d -> d = block_of image i.
Proof. intros Hi Hd. pose proof (image_read i Hi) as Hr. unfold read_as in *. congruence. Qed.

Lemma block_of_ok i :
  0 <= i < block_count image -> bytes_ok (block_of image i) /\ 0 < zlen (block_of image i) <= BLOCK_SIZE.
Proof.
  intros Hi. split; [by apply bytes_ok_sub|]. apply block_of_length. by apply block_index_bound.
Qed.

Lemma hash_is_block d : ComputeBlockHash true d = Some (SHA256 d).
Proof. apply linked_source. Qed.

Lemma total_ok : 0 <= job_totalBlocks image_job < 2 ^ 64.
Proof. cbn. pose proof block_count_range. lia. Qed.

(** No block is skipped. *)
Lemma no_skips r : reachable image_job windowSize m0 true r -> skippedCount (locals r) = 0.
Proof.
  induction 1 as [|e r r' Hr IH Hf E]; [done|].
  destruct (reachable_win _ _ _ _ total_ok r Hr) as [bound Hw].
  pose proof (reachable_payload _ _ _ _ total_ok r Hr) as [Hs _].
  pose proof (win_bound _ _ _ _ Hw) as Hb. pose proof (w_bound _ _ _ _ _ (win_view _ _ _ _ Hw)) as H0b.
  destruct e; cbn in E.
  - unfold main_step in E. destruct (main r) as [i|i|i k|i k|i k|i k|i k|i k|i k|i k| | | |]; try done; cbn in Hb, Hs.
    + case_if_in E; [|case_if_in E]; by injection E as <-.
    + destruct (AcquireSlot false _) as [[[k|] sh]|]; [| |done]; by injection E as <-.
    + apply use_slot_Next in E as (sl & _ & [= <-]). done.
    + destruct Hs as (sl' & Hsl' & Hl). apply use_slot_Next in E as (sl & Hsl & E). simplify_eq.
      unfold read_block in E. case_if_in E; [done|].
      rewrite (image_read i) in E by (cbn in Hb; lia). by injection E as <-.
    + destruct Hs as (sl' & Hsl' & Hl). apply use_slot_Next in E as (sl & Hsl & E). simplify_eq.
      unfold hash_block in E. rewrite (read_whole image_job i _ Hl) in E. cbn [job_hasher image_job] in E.
      rewrite hash_is_block in E. by injection E as <-.
    + apply use_slot_Next in E as (sl & _ & [= <-]). done.
    + destruct Hs as (sl' & Hsl' & Hl). apply use_slot_Next in E as (sl & Hsl & E). simplify_eq.
      unfold compress_block in E. rewrite (read_whole image_job i _ (proj1 Hl)) in E. cbn [job_compressor image_job] in E.
      rewrite (read_is_block i _ ltac:(cbn in Hb; lia) (proj1 Hl)) in E.
      pose proof (block_of_ok i ltac:(cbn in Hb; lia)) as [? ?].
      rewrite linked_compress in E by done. by injection E as <-.
    + by injection E as <-.
    + by injection E as <-.
    + case_if_in E; by injection E as <-.
    + destruct (WaitForAllAcks _ _); [|done]. by injection E as <-.
    + destruct (ack r); try done; by injection E as <-.
  - done.
  - unfold send_step in E. destruct (main r); try done. apply use_slot_Next in E as (sl & _ & E).
    destruct sent; by injection E as <-.
  - by apply enter_callback_cases in E as (_ & _ & [[_ ->]|[_ ->]]).
  - by apply enter_callback_cases in E as (_ & _ & [[_ ->]|[_ ->]]).
  - unfold ack_step in E. destruct (ack r); try done; try by injection E as <-.
    destruct (ReleaseSlot _ _). by injection E as <-.
Qed.

Lemma call_is_block k :
  call_prepared image_job k -> 0 <= call_index k < block_count image ->
  k = block_call devno versionId image (call_index k).
Proof.
  intros (i & d & h & z & [[Hd Hh] [out Hz]] & ->). cbn [call_index]. intros Hi.
  pose proof (read_length _ _ _ Hd) as Hl. rewrite (read_is_block i d Hi Hd) in *.
  cbn [job_hasher job_compressor image_job] in *. rewrite hash_is_block in Hh.
  pose proof (block_of_ok i Hi) as [? ?]. rewrite linked_compress in Hz by done.
  injection Hh as <-. injection Hz as <-. unfold block_call. cbn [call_index]. by rewrite Hl.
Qed.

(** What a finished transfer has sent. *)
Lemma wire_is_image r :
  new_backup (block_count image) m0 -> reachable image_job windowSize m0 true r ->
  main r = Finished -> m_pipelineError (shared r) = false ->
  wire r = map (block_call devno versionId image) (seqZ 0 (block_count image)).
Proof.
  intros Hnew Hr Hm He.
  destruct (reachable_ok _ _ _ _ total_ok window_size_ok r Hr) as [[bound Hw] Hc].
  pose proof (cnt_progress _ _ _ Hc) as Hp. unfold main_progress in Hp. rewrite Hm, (no_skips r Hr) in Hp.
  destruct Hp as [_ [|Htot]]; [done|congruence|]. cbn [job_totalBlocks image_job] in Htot.
  pose proof (main_bound_le _ _ _ (win_bound _ _ _ _ Hw)) as Hle. cbn [job_totalBlocks image_job] in Hle.
  pose proof (win_view _ _ _ _ Hw) as Hv.
  assert (Forall (fun b => 0 <= b < 0 + block_count image) (wire_ix r)) as Hrange.
  { eapply Forall_impl; [exact (w_range _ _ _ _ _ Hv)|]. cbn. lia. }
  rewrite <- (sorted_all (wire_ix r) 0 (block_count image));
    [|exact (w_sorted _ _ _ _ _ Hv)|exact Hrange|unfold wire_ix; rewrite length_map; lia].
  pose proof (reachable_payload _ _ _ _ total_ok r Hr) as [_ Hp].
  unfold wire_ix in *. rewrite map_map, <- (map_id (wire r)) at 1. apply map_ext_Forall.
  rewrite Forall_map in Hrange. apply Forall_forall. intros k Hk. rewrite Forall_forall in Hp, Hrange.
  apply call_is_block; [by apply Hp|]. specialize (Hrange k Hk). cbn in Hrange. lia.
Qed.
End linked.

(** a transfer that finishes backs up the disk.  A readable image, a
    compressor whose output the server inflates, and a run of the two threads
    that finishes without a timeout or a connection error: the calls the loop
    made, after the greeting, are one per block of the image in order; and once
    all of them are executed on a connection, the server that reads the bytes
    has the image on its disk and answers each block with its hash. *)
Theorem pipeline_backs_up `{Source} `{CompressApi} `{LibraryLaws} `{!BackupEnv} {Net} `{SocketLaws Net}
    image devno versionId vtype windowSize comp `{!Linked image comp} m0 r
    disks (c c' : Client Net) bs bf f files :
  bytes_ok image -> in_width 32 devno -> in_width 32 versionId -> Forall (in_width 16) vtype ->
  zlen image < 2 ^ 63 -> 0 < windowSize < 2 ^ 31 - 1 ->
  new_backup (block_count image) m0 ->
  reachable (image_job image devno versionId comp) windowSize m0 true r ->
  main r = Finished -> m_pipelineError (shared r) = false ->
  disks_match disks files -> disks !! devno = Some bf -> files !! bf_fd bf = Some f ->
  length f = length image -> m_connected c = true -> outgoing (net c) = [] ->
  exec_calls (CallHello versionId devno (block_count image) (zlen image) vtype :: wire r) c
  = Some (bs, c') -> Forall (eq true) bs ->
  exists s, serve disks (stream (outgoing (net c'))).1.1 (fresh_session files) = (s, false) /\
    s_files s = <[bf_fd bf := image]> files /\
    s_acks s = plain_ack devno OK :: map (ok_ack devno image) (seqZ 0 (block_count image)).
Proof.
  intros Himg Hdev Hver Hvt Hlen Hws Hnew Hr Hm He Hdm Hd Hf Hl Hc Ho Hrun Hbs.
  pose proof (block_count_range image Hlen) as Hcount.
  rewrite (wire_is_image image devno versionId windowSize comp m0) in Hrun by done.
  assert (zlen (seqZ 0 (block_count image)) = block_count image) as Hz by (rewrite length_seqZ; lia).
  rewrite <- Hz in Hrun at 1.
  eapply (backup_end_to_end disks devno versionId vtype image (seqZ 0 (block_count image)));
    [exact Himg|exact Hdev|exact Hver|exact Hvt| |exact Hlen| |exact Hdm|exact Hd|exact Hf|exact Hl| |exact Hc
    |exact Ho|exact Hrun|exact Hbs].
  - apply Forall_forall. intros i Hi. apply elem_of_seqZ in Hi. apply block_index_bound. lia.
  - lia.
  - intros i Hi Hn. exfalso. apply Hn, elem_of_seqZ. destruct Hi as [Hi0 Hi].
    unfold block_count in *. sizes. Z.to_euclidean_division_equations. lia.
Qed.

(** ** Examples

    The server inflates the stored blocks the client falls back to, for a
    compression API that returns nothing. *)

Definition stored_api : CompressApi :=
  {| Handle := unit; CreateCompressor := Some tt; api_Compress := fun _ _ _ => ApiDone [];
     CreateDecompressor := Some tt; api_Decompress := fun _ _ _ => None |}.
Definition stored_compressor : @Compressor stored_api :=
  snd (@Initialize stored_api (@Compressor_new stored_api)).

Definition zlib_library : Library := {|
  uncompress2 cap src :=
    match zlib_decode stored_decoder src with
    | Some d => if cap <? zlen d then (-5, []) else (0, d)
    | None => (-3, [])
    end;
  SHA256 := @SHA256 demo_library; pwrite := @pwrite demo_library |}.

Lemma zlib_library_laws : @LibraryLaws zlib_library.
Proof.
  destruct demo_library_laws. constructor; try done.
  intros cap src Hc. cbn. destruct (zlib_decode _ _); [case_if|]; cbn; lia.
Qed.

Lemma put_bytes total bs out out' :
  bytes_ok bs -> bytes_ok out -> put total bs out = Written out' -> bytes_ok out'.
Proof. unfold put. intros ? ? E. case_if_in E; [|done]. injection E as <-. by apply bytes_ok_app. Qed.

Lemma stored_header_bytes fin n : bytes_ok (stored_header fin n).
Proof.
  unfold stored_header. repeat constructor; try (apply wrap_range; lia); unfold in_width; destruct fin; lia.
Qed.

Lemma stored_loop_bytes fuel total input offset out out' :
  bytes_ok input -> bytes_ok out -> stored_loop fuel total input offset out = Written out' ->
  bytes_ok out'.
Proof.
  intros Hin. revert offset out. induction fuel as [|fuel IH]; intros offset out Ho E; cbn [stored_loop] in E;
    (case_if_in E; [|by injection E as <-]); [done|].
  destruct (put total (stored_header _ _) out) as [o1| |] eqn:E1; try done. cbn [wbind] in E.
  destruct (put total (sub _ _ _) o1) as [o2| |] eqn:E2; try done. cbn [wbind] in E.
  eapply IH; [|exact E]. eapply put_bytes; [| |exact E2]; [by apply bytes_ok_sub|].
  eapply put_bytes; [| |exact E1]; [apply stored_header_bytes|done].
Qed.

Lemma CreateStoredZlib_bytes input out :
  bytes_ok input -> CreateStoredZlib input = Written out -> bytes_ok out.
Proof.
  intros Hin E. unfold CreateStoredZlib in E.
  destruct (put _ [0x78; 0x01] []) as [o1| |] eqn:E1; try done. cbn [wbind] in E.
  destruct (stored_loop _ _ _ _ o1) as [o2| |] eqn:E2; try done. cbn [wbind] in E.
  eapply put_bytes; [| |exact E].
  - unfold be4. repeat constructor; apply wrap_range; lia.
  - eapply stored_loop_bytes; [done| |exact E2]. eapply put_bytes; [| |exact E1]; evaluate.
Qed.

Definition stored_form (raw : list Z) : list Z :=
  match CreateStoredZlib raw with Written out => out | _ => [] end.

Lemma stored_form_ok raw :
  bytes_ok raw -> 0 < zlen raw <= BLOCK_SIZE ->
  CreateStoredZlib raw = Written (stored_form raw) /\ zlib_decode stored_decoder (stored_form raw) = Some raw /\
  zlen (stored_form raw) <= BLOCK_SIZE * 2.
Proof.
  intros Hb Hr. destruct (CreateStoredZlib_ok raw Hb) as (out & E & Hl & Hd & _); [sizes; lia|].
  unfold stored_form. rewrite E. split_and!; [done|done|]. rewrite Hl. unfold stored_size.
  rewrite wrap_small by (unfold in_width; sizes; lia). sizes. Z.to_euclidean_division_equations. lia.
Qed.

#[export] Instance zlib_env : @BackupEnv zlib_library.
Proof.
  refine (@Build_BackupEnv zlib_library stored_form _ _ _ (@SHA256_bytes _ demo_env) (@pwrite_whole _ demo_env)).
  - intros raw Hb Hr. cbn. destruct (stored_form_ok raw Hb Hr) as (_ & -> & _). case_if; [|done].
    unfold RAW_BUF_SIZE in *. sizes. lia.
  - intros raw Hb Hr. apply stored_form_ok; done.
  - intros raw Hb. unfold stored_form. destruct (CreateStoredZlib raw) eqn:E; [|constructor..].
    by eapply CreateStoredZlib_bytes.
Defined.

Definition e2e_image : list Z := [9; 8; 7; 6].
Definition e2e_source : Source := demo_source e2e_image (@SHA256 zlib_library).

Lemma e2e_linked : @Linked e2e_source stored_api zlib_library zlib_env e2e_image stored_compressor.
Proof.
  constructor; [apply demo_source_ok|]. intros d out Hb Hd.
  destruct (stored_form_ok d Hb Hd) as (E & _). cbn. by rewrite E.
Qed.

Definition e2e_states : Manager :=
  snd (InitFullBlocksEmpty 0 1 (snd (CreateVersion [70] 0 1 4 0 Manager_new))).
Definition e2e_job : @Job stored_api := @image_job stored_api e2e_image 7 1 stored_compressor.
Definition e2e_end : Run :=
  default (Run_start 2 e2e_states)
    (@run_fair e2e_source stored_api e2e_job true (whole_run (@ok_call stored_api e2e_job 0))
       (Run_start 2 e2e_states)).

Lemma pipeline_backs_up_witness :
  let c := demo_client (ack_bytes (plain_ack 7 OK)) in
  exists bs c' s,
    exec_calls (CallHello 1 7 1 4 [70; 85] :: wire e2e_end) c = Some (bs, c') /\
    @serve zlib_library demo_disks (stream (outgoing (net c'))).1.1 (fresh_session demo_files)
    = (s, false) /\ s_files s = <[3 := e2e_image]> demo_files.
Proof.
  set (c := demo_client (ack_bytes (plain_ack 7 OK))).
  destruct (exec_calls (CallHello 1 7 1 4 [70; 85] :: wire e2e_end) c) as [[bs c']|] eqn:E;
    [|vm_compute in E; discriminate E].
  destruct (@pipeline_backs_up e2e_source stored_api zlib_library zlib_library_laws zlib_env
    DemoNet demo_socket demo_socket_laws e2e_image 7 1 [70; 85] 2 stored_compressor e2e_linked
    e2e_states e2e_end demo_disks c c' bs {| bf_fd := 3; bf_size_bytes := 4; bf_path := [] |}
    [1; 2; 3; 4] demo_files) as (s & Hs & Hf & _).
  - evaluate.
  - unfold in_width. lia.
  - unfold in_width. lia.
  - evaluate.
  - cbn. lia.
  - lia.
  - exists 0, (snd (CreateVersion [70] 0 1 4 0 Manager_new)). by vm_compute.
  - apply (@run_fair_reachable e2e_source stored_api e2e_job 2 e2e_states true
      (whole_run (@ok_call stored_api e2e_job 0)) (Run_start 2 e2e_states)); [constructor|by vm_compute].
  - by vm_compute.
  - by vm_compute.
  - apply demo_disks_match.
  - reflexivity.
  - reflexivity.
  - reflexivity.
  - reflexivity.
  - reflexivity.
  - exact E.
  - vm_compute in E. injection E as <- _. repeat constructor.
  - exists bs, c', s. by split_and!.
Defined.
