(* ===== verification/PipelineNetwork.v ===== *)
(** * The pipelined transfer over a connection

    [PipelineTransferBlocks] with the connection it uses: a block's send is
    [SendBlockNoWait] on the client's socket, and the receiver's calls are what
    its loop reads from it.  [over] is every interleaving, [drive] a schedule
    that runs one to the end; the theorems say what is on the wire. *)

From Stdlib Require Import Sorted.
From S2P Require Import Prelude.
From S2P Require Import Protocol.
From S2P Require Import MessageParser.
From S2P Require Import BlockProcessor.
From S2P Require Import NetworkClient.
From S2P Require Import EndToEnd.
From S2P Require Import BlockHasher.
From S2P Require Import DataCompressor.
From S2P Require Import BlockStateManager.
From S2P Require Import Pipeline.
From S2P Require Import PipelineInv.
From S2P Require Import PipelineSpec.
From S2P Require Import PipelineResult.
From S2P Require Import PipelineEndToEnd.

(** ** Definitions *)

Section over.
Context {Net : Type} `{Socket Net} `{Source} `{CompressApi}.
Context (job : Job) (windowSize : Z) (m0 : Manager) (c0 : Client Net).

(** The runs over the connection [c0].  The server acknowledges blocks it was
    sent, once each ([fair]); time limits, lost connections and malformed
    answers are allowed. *)
Inductive over : Run -> Client Net -> Prop :=
| over_start : over (Run_start windowSize m0) c0
| over_send r c i k sl b c' r' :
    over r c -> main r = Ready i k -> m_window (shared r) !! k = Some sl ->
    exec_call (sent_call job i sl) c = Some (b, c') -> step job (MainSend b) r = Next r' -> over r' c'
| over_receive r c call c' r' :
    over r c -> ack_turn c = Some (call, true, c') -> fair false (AckCalled call) r ->
    step job (AckCalled call) r = Next r' -> over r' c'
| over_lost r c code c' r' :
    over r c -> (code = -1 /\ c' = c \/ ack_turn c = Some (error_call code, false, c')) ->
    step job (AckFailed code) r = Next r' -> over r' c'
| over_local r c e r' :
    over r c -> e = MainGo \/ e = MainTimeout \/ e = AckGo -> step job e r = Next r' -> over r' c.

(** The schedule that lets the loop run until it waits, and then takes one
    message from the connection. *)
Fixpoint drive (fuel : nat) (r : Run) (c : Client Net) : option (Run * Client Net) :=
  match fuel with
  | O => None
  | S fuel' =>
      match main r with
      | Finished => Some (r, c)
      | Ready i k =>
          sl ← m_window (shared r) !! k;
          b ← exec_call (sent_call job i sl) c;
          let '(b, c') := b in
          match step job (MainSend b) r with Next r' => drive fuel' r' c' | _ => None end
      | _ =>
          match step job MainGo r with
          | Next r' => drive fuel' r' c
          | Undefined => None
          | Blocked =>
              match ack r with
              | AckIdle =>
                  t ← ack_turn c;
                  let '(call, go, c') := t in
                  if (go : bool) then
                    if decide (fair false (AckCalled call) r) then
                      match step job (AckCalled call) r with Next r' => drive fuel' r' c' | _ => None end
                    else None
                  else None
              | AckExited => None
              | _ => match step job AckGo r with Next r' => drive fuel' r' c | _ => None end
              end
          end
      end
  end.

Lemma drive_over fuel : forall r c r' c',
  over r c -> drive fuel r c = Some (r', c') -> over r' c' /\ main r' = Finished.
Proof.
  induction fuel as [|fuel IH]; intros r c r' c' Ho E; [done|].
  assert (forall r1, step job MainGo r = Next r1 -> over r1 c) as Hgo.
  { intros r1 E1. eapply over_local; [exact Ho|by left|done]. }
  assert (forall r1, step job AckGo r = Next r1 -> over r1 c) as Hack.
  { intros r1 E1. eapply over_local; [exact Ho|by right; right|done]. }
  cbn [drive] in E. destruct (main r) eqn:Hm.
  14: { by injection E as <- <-. }
  8: { destruct (m_window (shared r) !! k) as [sl|] eqn:Hsl; [|done]. cbn [mbind option_bind] in E.
       destruct (exec_call _ c) as [[b c1]|] eqn:Ec; [|done]. cbn [mbind option_bind] in E.
       destruct (step job (MainSend b) r) as [| |r1] eqn:Es; try done.
       eapply IH; [|exact E]. by eapply over_send. }
  all: destruct (step job MainGo r) as [| |r1] eqn:Es; [|done|by eapply IH; [by apply Hgo|]].
  all: destruct (ack r) eqn:Ha; try (destruct (step job AckGo r) as [| |r1] eqn:Ea;
         [done|done|by eapply IH; [by apply Hack|]]).
  all: destruct (ack_turn c) as [[[call go] c1]|] eqn:Et; [|done]; cbn [mbind option_bind] in E;
       destruct go; [|done]; destruct (decide _) as [Hf|]; [|done];
       destruct (step job (AckCalled call) r) as [| |r1] eqn:Ec; try done;
       eapply IH; [|exact E]; by eapply over_receive.
Qed.

Lemma over_reachable r c : over r c -> reachable job windowSize m0 false r.
Proof.
  induction 1 as [|r c i k sl b c' r' _ IH _ _ _ E|r c call c' r' _ IH _ Hf E|r c code c' r' _ IH _ E|r c e r' _ IH He E];
    [constructor|eapply reach_step; [exact IH| |exact E]..]; try done.
  by destruct He as [->|[->| ->]].
Qed.
End over.

(** ** What is on the wire *)

(** The loop has sent what it sends. *)
Definition past_sends (pc : MainPc) : bool :=
  match pc with Draining | Waiting | Stopping | Finished => true | _ => false end.

(** Only a send changes the record of the blocks sent. *)
Lemma step_keeps_wire `{Source} `{CompressApi} (job : Job) e r r' :
  (forall b, e <> MainSend b) -> step job e r = Next r' ->
  wire r' = wire r /\ (past_sends (main r) = true -> past_sends (main r') = true).
Proof.
  intros Hne E. destruct e as [| |b|call|code|]; cbn in E.
  - unfold main_step in E. destruct (main r) eqn:Hm; try done; cbn [past_sends].
    + case_if_in E; [|case_if_in E]; by injection E as <-.
    + destruct (AcquireSlot false _) as [[[k|] sh]|]; [| |done]; by injection E as <-.
    + by apply use_slot_Next in E as (sl & _ & [= <-]).
    + apply use_slot_Next in E as (sl & _ & E). unfold read_block in E. case_if_in E; [done|].
      destruct (ReadAt _ _); by injection E as <-.
    + apply use_slot_Next in E as (sl & _ & E). unfold hash_block in E.
      destruct (memcpy_from _ _ _); [|done]. destruct (ComputeBlockHash _ _); by injection E as <-.
    + by apply use_slot_Next in E as (sl & _ & [= <-]).
    + apply use_slot_Next in E as (sl & _ & E). unfold compress_block in E.
      destruct (memcpy_from _ _ _); [|done]. destruct (Compress _ _ _) as [[[] ?]|]; [by injection E as <-..|done].
    + by injection E as <-.
    + by injection E as <-.
    + case_if_in E; by injection E as <-.
    + destruct (WaitForAllAcks _ _); [|done]. by injection E as <-.
    + destruct (ack r); try done; by injection E as <-.
  - unfold timeout_step in E. destruct (main r) eqn:Hm; try done.
    + destruct (AcquireSlot true _) as [[[k|] sh]|]; [| |done]; by injection E as <-.
    + destruct (WaitForAllAcks _ _); [|done]. by injection E as <-.
  - by destruct (Hne b).
  - by apply enter_callback_cases in E as (_ & _ & [[_ ->]|[_ ->]]).
  - by apply enter_callback_cases in E as (_ & _ & [[_ ->]|[_ ->]]).
  - unfold ack_step in E. destruct (ack r); try done; try by injection E as <-.
    destruct (ReleaseSlot _ _). by injection E as <-.
Qed.

(** The part of a message a dropped connection leaves behind. *)
Definition broken_off (part : list Z) : Prop :=
  exists k, call_ok k /\ part `prefix_of` msg_bytes (call_msg k) /\ zlen part < msg_total (call_msg k).

Section wire.
Context {Net : Type} `{SocketLaws Net}.

(** A turn of the receiver sends nothing and does not connect. *)
Lemma ack_turn_quiet (c : Client Net) call go c' :
  ack_turn c = Some (call, go, c') ->
  outgoing (net c') = outgoing (net c) /\ (m_connected c = false -> m_connected c' = false).
Proof.
  unfold ack_turn. destruct (RecvAll_spec HEADER_SIZE c) as (h & c1 & -> & O1 & Hh); [done|]. cbn.
  destruct h as [h|]; [destruct Hh as (_ & _ & Hm)|intros [= <- <- <-]; by destruct Hh].
  case_if; [intros [= <- <- <-]; by rewrite Hm|]. case_if; [intros [= <- <- <-]; by rewrite Hm|].
  destruct (RecvAll_spec ACK_BODY_SIZE c1) as (b & c2 & -> & O2 & Hb); [done|]. cbn.
  destruct b as [b|]; intros [= <- <- <-]; (split; [congruence|]).
  - destruct Hb as (_ & _ & ->). by rewrite Hm.
  - by destruct Hb.
Qed.

(** A block is sent whole, or the connection is lost in the middle of it. *)
Lemma send_block_effect devno i raw data h v (c : Client Net) b c' :
  call_ok (CallBlock false devno i raw data h v) ->
  exec_call (CallBlock false devno i raw data h v) c = Some (b, c') ->
  if b then outgoing (net c') = outgoing (net c) ++ msg_bytes (call_msg (CallBlock false devno i raw data h v))
           /\ m_connected c = true
  else m_connected c' = false /\
    exists part, outgoing (net c') = outgoing (net c) ++ part /\ (part = [] \/ broken_off part) /\
      (m_connected c = false -> part = []).
Proof.
  intros Hk E. pose proof Hk as (_ & _ & _ & _ & _ & Hmax & _ & Hlen). cbn [exec_call] in E.
  unfold SendBlockNoWait in E. destruct (m_connected c) eqn:Hc; cbn [negb] in E.
  2:{ injection E as <- <-. split; [done|]. exists []. rewrite app_nil_r. auto. }
  destruct (send_parts_spec _ c (block_parts_sizes devno i raw data h v Hmax Hlen))
    as (ok & c1 & Hrun & _ & s & Ho & Hpre & Hs).
  rewrite Hrun in E. injection E as <- <-.
  assert (concat (map fst (block_parts devno i raw data (zlen data) h v))
          = msg_bytes (call_msg (CallBlock false devno i raw data h v))) as Hm by (cbn; by rewrite app_nil_r).
  rewrite Hm in *. destruct ok; destruct Hs as [Hs1 Hs2].
  - split; [|done]. rewrite Ho. by f_equal.
  - split; [done|]. exists s. split; [done|]. split; [right|done].
    eexists. split; [exact Hk|]. split; [exact Hpre|]. rewrite <- msg_bytes_length. lia.
Qed.
End wire.

Section linked.
Context {Net : Type} `{SocketLaws Net} `{Source} `{CompressApi} `{LibraryLaws} `{!BackupEnv}.
Context (image : list Z) (devno versionId windowSize : Z) (comp : Compressor) (m0 : Manager) (c0 : Client Net).
Context `{!Linked image comp}.
Hypothesis image_ok : bytes_ok image.
Hypothesis image_small : zlen image < 2 ^ 63.
Hypothesis window_size_ok : 0 < windowSize < 2 ^ 31 - 1.
Hypothesis devno_ok : in_width 32 devno.
Hypothesis version_ok : in_width 32 versionId.

Abbreviation job := (image_job image devno versionId comp).
Abbreviation over := (over job windowSize m0 c0).

(** In any run the blocks sent are blocks of the image, in order, each once. *)
Lemma wire_is_blocks r :
  reachable job windowSize m0 false r ->
  wire r = map (block_call devno versionId image) (wire_ix r) /\ StronglySorted Z.lt (wire_ix r) /\
  Forall (fun i => 0 <= i < block_count image) (wire_ix r).
Proof.
  intros Hr. pose proof (total_ok image devno versionId comp image_small) as Htot.
  destruct (reachable_win _ _ _ _ Htot r Hr) as [bound Hw].
  pose proof (win_view _ _ _ _ Hw) as Hv. pose proof (main_bound_le _ _ _ (win_bound _ _ _ _ Hw)) as Hle.
  assert (Forall (fun i => 0 <= i < block_count image) (wire_ix r)) as Hrange.
  { eapply Forall_impl; [exact (w_range _ _ _ _ _ Hv)|]. cbn in Hle |- *. lia. }
  split_and!; [|exact (w_sorted _ _ _ _ _ Hv)|exact Hrange].
  destruct (reachable_payload _ _ _ _ Htot r Hr) as [_ Hp]. unfold wire_ix in *.
  rewrite map_map, <- (map_id (wire r)) at 1. apply map_ext_Forall. rewrite Forall_map in Hrange.
  apply Forall_forall. intros k Hk. rewrite Forall_forall in Hp, Hrange.
  apply (call_is_block image devno versionId comp image_ok); [done|by apply Hp|by apply Hrange].
Qed.

Lemma wire_calls_ok r : reachable job windowSize m0 false r -> Forall call_ok (wire r).
Proof.
  intros Hr. destruct (wire_is_blocks r Hr) as (-> & _ & Hrange). apply Forall_map.
  eapply Forall_impl; [exact Hrange|]. intros i Hi. apply block_call_ok; try done.
  by apply block_index_bound.
Qed.

(** The block the loop is about to send is in order. *)
Lemma next_call_ok r i k sl :
  reachable job windowSize m0 false r -> main r = Ready i k -> m_window (shared r) !! k = Some sl ->
  call_ok (sent_call job i sl).
Proof.
  intros Hr Hm Hsl.
  destruct (step job (MainSend true) r) as [| |r1] eqn:E; cbn in E; unfold send_step, use_slot in E;
    rewrite Hm, Hsl in E; [done|done|].
  assert (reachable job windowSize m0 false r1) as Hr1.
  { eapply (reach_step _ _ _ _ (MainSend true)); [exact Hr|done|]. cbn. unfold send_step, use_slot. by rewrite Hm, Hsl. }
  pose proof (wire_calls_ok r1 Hr1) as Hk. injection E as <-. cbn in Hk.
  apply Forall_app in Hk as [_ Hk]. by apply Forall_cons_1 in Hk as [Hk _].
Qed.

(** What the client has put on the wire: the blocks its record says, and part
    of another one when the connection was lost while it was being sent. *)
Definition carried (r : Run) (c : Client Net) : Prop :=
  exists part, outgoing (net c) = outgoing (net c0) ++ concat (map msg_bytes (map call_msg (wire r))) ++ part /\
    (part = [] \/ broken_off part /\ m_connected c = false /\ past_sends (main r) = true).

Lemma over_carried r c : over r c -> carried r c.
Proof.
  induction 1 as [|r c i k sl b c' r' Ho IH Hm Hsl Ec E|r c call c' r' _ IH Ht _ E|r c code c' r' _ IH Hc E
                  |r c e r' _ IH He E].
  - exists []. cbn. rewrite !app_nil_r. auto.
  - pose proof (next_call_ok r i k sl (over_reachable _ _ _ _ _ _ Ho) Hm Hsl) as Hk.
    destruct IH as (part & Hout & [->|(_ & _ & Hp)]); [|by rewrite Hm in Hp].
    apply send_block_effect in Ec; [|exact Hk]. rewrite app_nil_r in Hout.
    cbn in E. unfold send_step, use_slot in E. rewrite Hm, Hsl in E. destruct b; injection E as <-.
    + destruct Ec as [Ho' _]. exists []. rewrite app_nil_r. cbn [wire log_sent go_main].
      rewrite !map_app, concat_app. cbn [map concat]. rewrite !app_nil_r. split; [|by left].
      rewrite Ho', Hout, <- app_assoc. done.
    + destruct Ec as (Hd & part & Ho' & Hp & _). exists part. cbn [wire go_main main].
      rewrite Ho', Hout, <- app_assoc. split; [done|]. destruct Hp as [|Hp]; [by left|right]. by split_and!.
  - apply step_keeps_wire in E as [Hw Hp]; [|done]. apply ack_turn_quiet in Ht as [Ho Hd].
    destruct IH as (part & Hout & Hpart). exists part. rewrite Ho, Hw. split; [done|].
    destruct Hpart as [|(? & ? & ?)]; [by left|right]. auto.
  - apply step_keeps_wire in E as [Hw Hp]; [|done].
    assert (outgoing (net c') = outgoing (net c) /\ (m_connected c = false -> m_connected c' = false)) as [Ho Hd].
    { destruct Hc as [[_ ->]|Ht]; [done|by eapply ack_turn_quiet]. }
    destruct IH as (part & Hout & Hpart). exists part. rewrite Ho, Hw. split; [done|].
    destruct Hpart as [|(? & ? & ?)]; [by left|right]. auto.
  - apply step_keeps_wire in E as [Hw Hp]; [|by destruct He as [->|[->| ->]]].
    destruct IH as (part & Hout & Hpart). exists part. rewrite Hw. split; [done|].
    destruct Hpart as [|(? & ? & ?)]; [by left|right]. auto.
Qed.

(** The count of blocks sent is the number of messages. *)
Lemma over_sent r c : over r c -> main r = Finished -> sentCount (locals r) = zlen (wire_ix r).
Proof.
  intros Ho Hm. pose proof (total_ok image devno versionId comp image_small) as Htot.
  destruct (reachable_ok _ _ _ _ Htot window_size_ok r (over_reachable _ _ _ _ _ _ Ho)) as [_ Hc].
  rewrite (cnt_sent _ _ _ Hc). unfold sending, wire_ix. rewrite Hm, length_map. lia.
Qed.
End linked.
