(* ===== verification/DiskParser.v ===== *)
(** * Partition tables

    [client/DiskParser.{h,cpp}]: the size and sectors of a disk, its MBR or GPT
    partition table, the content of each partition by its first sector, and
    the ranges no partition covers.  The device is the class [DiskDevice];
    [None] is a read or write outside a buffer. *)

From Stdlib Require Import Sorted.
From stdpp Require Import sorting.
From S2P Require Import Prelude.
From S2P Require Import DataCompressor.

(** ** Data *)

Inductive PartitionStyle := StyleUnknown | MBR | GPT.
Inductive PartitionContent :=
  | ContentUnknown | FilesystemNTFS | FilesystemFAT32 | FilesystemExFAT | FilesystemReFS
  | RawPartition | Reserved.

#[export] Instance PartitionContent_eq_dec : EqDecision PartitionContent.
Proof. solve_decision. Defined.

Record DiskRange := { r_Offset : Z; r_Size : Z }.

(** A GUID is its sixteen bytes in memory, a wide string its units. *)
Record GPTInfo := {
  PrimaryHeaderOffset : Z; BackupHeaderOffset : Z; PrimaryEntryOffset : Z; BackupEntryOffset : Z;
  EntryCount : Z; EntrySize : Z; DiskGuid : list Z }.

Inductive FsLabel :=
  | FsNone | FsMSR | FsESP | FsUnreadable | FsBitLocker | FsNTFS | FsReFS | FsExFAT | FsFAT32 | FsFAT16
  | FsRaw.

Record PartitionInfo := {
  p_Index : Z; p_Offset : Z; p_Size : Z; p_MbrType : Z; p_TypeGuid : list Z; p_PartitionGuid : list Z;
  p_Attributes : Z; p_Name : list Z; p_Content : PartitionContent; p_IsEncrypted : bool;
  p_FsName : FsLabel }.

Record DiskInfo := {
  d_DeviceNumber : Z; d_Size : Z; d_SectorSize : Z; d_Style : PartitionStyle; d_GPT : GPTInfo }.

Record DiskLayout := {
  Disk : DiskInfo; Partitions : list PartitionInfo; FreeRanges : list DiskRange;
  MetadataRanges : list DiskRange }.

Definition GPTInfo_zero : GPTInfo :=
  {| PrimaryHeaderOffset := 0; BackupHeaderOffset := 0; PrimaryEntryOffset := 0;
     BackupEntryOffset := 0; EntryCount := 0; EntrySize := 0; DiskGuid := zeros 16 |}.

Definition set_Disk (d : DiskInfo) (l : DiskLayout) : DiskLayout :=
  {| Disk := d; Partitions := Partitions l; FreeRanges := FreeRanges l;
     MetadataRanges := MetadataRanges l |}.
Definition set_Style (s : PartitionStyle) (l : DiskLayout) : DiskLayout :=
  let d := Disk l in
  set_Disk {| d_DeviceNumber := d_DeviceNumber d; d_Size := d_Size d; d_SectorSize := d_SectorSize d;
              d_Style := s; d_GPT := d_GPT d |} l.
Definition set_GPT (g : GPTInfo) (l : DiskLayout) : DiskLayout :=
  let d := Disk l in
  set_Disk {| d_DeviceNumber := d_DeviceNumber d; d_Size := d_Size d; d_SectorSize := d_SectorSize d;
              d_Style := d_Style d; d_GPT := g |} l.
Definition add_partition (p : PartitionInfo) (l : DiskLayout) : DiskLayout :=
  {| Disk := Disk l; Partitions := Partitions l ++ [p]; FreeRanges := FreeRanges l;
     MetadataRanges := MetadataRanges l |}.
Definition add_metadata (off size : Z) (l : DiskLayout) : DiskLayout :=
  {| Disk := Disk l; Partitions := Partitions l; FreeRanges := FreeRanges l;
     MetadataRanges := MetadataRanges l ++ [{| r_Offset := off; r_Size := size |}] |}.
Definition set_free (r : list DiskRange) (l : DiskLayout) : DiskLayout :=
  {| Disk := Disk l; Partitions := Partitions l; FreeRanges := r; MetadataRanges := MetadataRanges l |}.

Definition set_content (c : PartitionContent) (enc : bool) (fs : FsLabel) (p : PartitionInfo)
    : PartitionInfo :=
  {| p_Index := p_Index p; p_Offset := p_Offset p; p_Size := p_Size p; p_MbrType := p_MbrType p;
     p_TypeGuid := p_TypeGuid p; p_PartitionGuid := p_PartitionGuid p; p_Attributes := p_Attributes p;
     p_Name := p_Name p; p_Content := c; p_IsEncrypted := enc; p_FsName := fs |}.

(** *** The packed structures *)

Record MBRPartitionEntry := { mbr_Type : Z; mbr_StartLBA : Z; mbr_SectorCount : Z }.

Definition dec_MBRPartitionEntry (b : list Z) : MBRPartitionEntry :=
  {| mbr_Type := rd_le 4 1 b; mbr_StartLBA := rd_le 8 4 b; mbr_SectorCount := rd_le 12 4 b |}.

Record GPTHeader := {
  gh_Signature : list Z; gh_BackupLBA : Z; gh_DiskGuid : list Z; gh_PartitionEntryLBA : Z;
  gh_NumberOfPartitionEntries : Z; gh_SizeOfPartitionEntry : Z }.

Definition dec_GPTHeader (b : list Z) : GPTHeader :=
  {| gh_Signature := sub 0 8 b; gh_BackupLBA := rd_le 32 8 b; gh_DiskGuid := sub 56 16 b;
     gh_PartitionEntryLBA := rd_le 72 8 b; gh_NumberOfPartitionEntries := rd_le 80 4 b;
     gh_SizeOfPartitionEntry := rd_le 84 4 b |}.

(** The fixed part of an entry; its name is the string at offset 56. *)
Record GPTEntry := {
  ge_TypeGuid : list Z; ge_PartitionGuid : list Z; ge_FirstLBA : Z; ge_LastLBA : Z; ge_Attributes : Z }.

Definition dec_GPTEntry (b : list Z) : GPTEntry :=
  {| ge_TypeGuid := sub 0 16 b; ge_PartitionGuid := sub 16 16 b; ge_FirstLBA := rd_le 32 8 b;
     ge_LastLBA := rd_le 40 8 b; ge_Attributes := rd_le 48 8 b |}.

(** The wide string at the start of a range of memory: [None] when the range
    ends before a terminator. *)
Fixpoint wide_string (b : list Z) : option (list Z) :=
  match b with
  | lo :: hi :: b' =>
      if (lo =? 0) && (hi =? 0) then Some [] else rest ← wide_string b'; Some (lo + 256 * hi :: rest)
  | _ => None
  end.

(** ** The device *)

Class DiskDevice := {
  dev_Length : option Z;                 (* IOCTL_DISK_GET_LENGTH_INFO *)
  dev_BytesPerSector : option Z;         (* IOCTL_DISK_GET_DRIVE_GEOMETRY_EX *)
  dev_Seek : Z -> bool;                  (* SetFilePointerEx *)
  dev_Read : Z -> Z -> option (list Z);  (* ReadFile at that position *)
}.

Section parser.
Context `{DiskDevice}.

Definition Read (offset size : Z) : option (list Z) :=
  if negb (dev_Seek (s64 offset)) then None
  else match dev_Read (s64 offset) size with
       | None => None
       | Some d => if zlen d =? size then Some d else None
       end.

Definition QueryDiskSize (l : DiskLayout) : bool * DiskLayout :=
  let d := Disk l in
  let with_size n := set_Disk {| d_DeviceNumber := d_DeviceNumber d; d_Size := n;
                                 d_SectorSize := d_SectorSize d; d_Style := d_Style d;
                                 d_GPT := d_GPT d |} l in
  match dev_Length with Some n => (true, with_size (u64 n)) | None => (false, with_size 0) end.

Definition QuerySectorSize (l : DiskLayout) : bool * DiskLayout :=
  let d := Disk l in
  let with_sector n := set_Disk {| d_DeviceNumber := d_DeviceNumber d; d_Size := d_Size d;
                                   d_SectorSize := n; d_Style := d_Style d; d_GPT := d_GPT d |} l in
  match dev_BytesPerSector with
  | Some n => (true, with_sector n)
  | None => (false, with_sector 512)
  end.

(** [Read] into a zeroed [BYTE buffer[4096]]: the outcome of the read, or
    [None] when the bytes do not fit. *)
Definition SECTOR_BUFFER : Z := 4096.
Definition read_sector (offset size : Z) : option (option (list Z)) :=
  match Read offset size with
  | None => Some None
  | Some d => b ← memcpy_to 0 d (zeros SECTOR_BUFFER); Some (Some b)
  end.

(** ** The content of a partition *)

(** ["-FVE-FS-"], ["NTFS    "], ["ReFS"], ["EXFAT   "], ["FAT32   "],
    ["FAT16   "] and ["EFI PART"]. *)
Definition SIG_BITLOCKER : list Z := [0x2D; 0x46; 0x56; 0x45; 0x2D; 0x46; 0x53; 0x2D].
Definition SIG_NTFS : list Z := [0x4E; 0x54; 0x46; 0x53; 0x20; 0x20; 0x20; 0x20].
Definition SIG_REFS : list Z := [0x52; 0x65; 0x46; 0x53].
Definition SIG_EXFAT : list Z := [0x45; 0x58; 0x46; 0x41; 0x54; 0x20; 0x20; 0x20].
Definition SIG_FAT32 : list Z := [0x46; 0x41; 0x54; 0x33; 0x32; 0x20; 0x20; 0x20].
Definition SIG_FAT16 : list Z := [0x46; 0x41; 0x54; 0x31; 0x36; 0x20; 0x20; 0x20].
Definition SIG_EFI : list Z := [0x45; 0x46; 0x49; 0x20; 0x50; 0x41; 0x52; 0x54].

Definition ESP_GUID : list Z :=
  [0x28; 0x73; 0x2A; 0xC1; 0x1F; 0xF8; 0xD2; 0x11; 0xBA; 0x4B; 0x00; 0xA0; 0xC9; 0x3E; 0xC9; 0x3B].
Definition MSR_GUID : list Z :=
  [0x16; 0xE3; 0xC9; 0xE3; 0x5C; 0x0B; 0xB8; 0x4D; 0x81; 0x7D; 0xF9; 0x2D; 0xF0; 0x02; 0x15; 0xAE].

Definition matches (sector : list Z) (off : Z) (sig : list Z) : bool :=
  bool_decide (sub off (zlen sig) sector = sig).

Definition DetectPartitionContentGpt (p : PartitionInfo) : PartitionInfo :=
  if bool_decide (p_TypeGuid p = MSR_GUID) then set_content Reserved (p_IsEncrypted p) FsMSR p
  else if bool_decide (p_TypeGuid p = ESP_GUID) then set_content (p_Content p) (p_IsEncrypted p) FsESP p
  else p.

(** [if (p.FsName.empty()) p.FsName = name]. *)
Definition name_unless (old name : FsLabel) : FsLabel :=
  match old with FsNone => name | _ => old end.

Definition classify (sector : list Z) (p : PartitionInfo) : PartitionInfo :=
  let named c name := set_content c false (name_unless (p_FsName p) name) p in
  if matches sector 3 SIG_BITLOCKER then set_content FilesystemNTFS true FsBitLocker p
  else if matches sector 3 SIG_NTFS then named FilesystemNTFS FsNTFS
  else if matches sector 3 SIG_REFS then named FilesystemReFS FsReFS
  else if matches sector 3 SIG_EXFAT then named FilesystemExFAT FsExFAT
  else if matches sector 0x52 SIG_FAT32 then named FilesystemFAT32 FsFAT32
  else if matches sector 0x36 SIG_FAT16 then named FilesystemFAT32 FsFAT16
  else named RawPartition FsRaw.

Definition DetectPartitionContent (p : PartitionInfo) (sectorSize : Z) : option PartitionInfo :=
  r ← read_sector (p_Offset p) sectorSize;
  match r with
  | None => Some (set_content RawPartition false FsUnreadable p)
  | Some sector => Some (classify sector p)
  end.

(** ** The tables *)

Definition MBR_ENTRIES : Z := 446.
Definition mbr_entry (sector : list Z) (i : Z) : MBRPartitionEntry :=
  dec_MBRPartitionEntry (sub (MBR_ENTRIES + 16 * i) 16 sector).

Definition mbr_partition (i : Z) (e : MBRPartitionEntry) (sectorSize : Z) : PartitionInfo :=
  {| p_Index := i; p_Offset := u64 (mbr_StartLBA e * sectorSize);
     p_Size := u64 (mbr_SectorCount e * sectorSize); p_MbrType := mbr_Type e;
     p_TypeGuid := zeros 16; p_PartitionGuid := zeros 16; p_Attributes := 0; p_Name := [];
     p_Content := ContentUnknown; p_IsEncrypted := false; p_FsName := FsNone |}.

Fixpoint mbr_loop (n : nat) (i : Z) (sector : list Z) (sectorSize : Z) (l : DiskLayout)
    : option DiskLayout :=
  match n with
  | O => Some l
  | S n' =>
      let e := mbr_entry sector i in
      if mbr_Type e =? 0 then mbr_loop n' (i + 1) sector sectorSize l
      else
        p ← DetectPartitionContent (mbr_partition i e sectorSize) sectorSize;
        mbr_loop n' (i + 1) sector sectorSize (add_partition p l)
  end.

Definition ParseMBR (l : DiskLayout) : option (bool * DiskLayout) :=
  let sectorSize := d_SectorSize (Disk l) in
  r ← read_sector 0 sectorSize;
  match r with
  | None => Some (false, l)
  | Some buffer =>
      if negb (rd_le 510 1 buffer =? 0x55) || negb (rd_le 511 1 buffer =? 0xAA) then Some (false, l)
      else if mbr_Type (mbr_entry buffer 0) =? 0xEE then
        Some (true, add_metadata 0 sectorSize (set_Style GPT l))
      else
        l' ← mbr_loop 4 0 buffer sectorSize (add_metadata 0 sectorSize (set_Style MBR l));
        Some (true, l')
  end.

(** A merge sort stands for [std::sort]: the ranges do not depend on the order
    of partitions with one offset. *)
Definition offset_le (a b : PartitionInfo) : Prop := p_Offset a <= p_Offset b.
#[export] Instance offset_le_dec a b : Decision (offset_le a b).
Proof. unfold offset_le. apply _. Defined.

(** The scan from [current] on, over sorted partitions. *)
Fixpoint scan_free (size current : Z) (ps : list PartitionInfo) : list DiskRange :=
  match ps with
  | [] =>
      if (0 <? size) && (current <? size) then [{| r_Offset := current; r_Size := size - current |}]
      else []
  | p :: ps' =>
      let gap := if current <? p_Offset p
                 then [{| r_Offset := current; r_Size := p_Offset p - current |}] else [] in
      let partitionEnd := u64 (p_Offset p + p_Size p) in
      gap ++ scan_free size (if current <? partitionEnd then partitionEnd else current) ps'
  end.

Definition CalculateFreeSpace (l : DiskLayout) : DiskLayout :=
  let size := d_Size (Disk l) in
  match Partitions l with
  | [] => set_free (if 0 <? size then [{| r_Offset := 0; r_Size := size |}] else []) l
  | ps => set_free (scan_free size 0 (merge_sort offset_le ps)) l
  end.

Definition gpt_partition (i : Z) (e : GPTEntry) (name : list Z) (sectorSize : Z) : PartitionInfo :=
  {| p_Index := i; p_Offset := u64 (ge_FirstLBA e * sectorSize);
     p_Size := u64 ((ge_LastLBA e - ge_FirstLBA e + 1) * sectorSize); p_MbrType := 0;
     p_TypeGuid := ge_TypeGuid e; p_PartitionGuid := ge_PartitionGuid e;
     p_Attributes := ge_Attributes e; p_Name := name; p_Content := ContentUnknown;
     p_IsEncrypted := false; p_FsName := FsNone |}.

(** The entry at a pointer into the array: its fixed part, then its name. *)
Definition GPT_ENTRY_FIXED : Z := 56.
Definition entry_at (entries : list Z) (off : Z) : list Z := drop (Z.to_nat off) entries.

Fixpoint gpt_loop (n : nat) (i entrySize : Z) (entries : list Z) (sectorSize : Z) (l : DiskLayout)
    : option DiskLayout :=
  match n with
  | O => Some l
  | S n' =>
      let b := entry_at entries (u32 (i * entrySize)) in
      if zlen b <? 16 then None
      else if bool_decide (sub 0 16 b = zeros 16) then
        gpt_loop n' (i + 1) entrySize entries sectorSize l
      else if zlen b <? GPT_ENTRY_FIXED then None
      else
        name ← wide_string (drop (Z.to_nat GPT_ENTRY_FIXED) b);
        p ← DetectPartitionContent
              (DetectPartitionContentGpt (gpt_partition i (dec_GPTEntry b) name sectorSize)) sectorSize;
        gpt_loop n' (i + 1) entrySize entries sectorSize (add_partition p l)
  end.

Definition gpt_info (h : GPTHeader) (sectorSize : Z) : GPTInfo :=
  {| PrimaryHeaderOffset := sectorSize; BackupHeaderOffset := u64 (gh_BackupLBA h * sectorSize);
     PrimaryEntryOffset := u64 (gh_PartitionEntryLBA h * sectorSize);
     BackupEntryOffset := u64 (gh_BackupLBA h * sectorSize
                               - gh_NumberOfPartitionEntries h * gh_SizeOfPartitionEntry h);
     EntryCount := gh_NumberOfPartitionEntries h; EntrySize := gh_SizeOfPartitionEntry h;
     DiskGuid := gh_DiskGuid h |}.

Definition gpt_metadata (h : GPTHeader) (sectorSize entryArrayBytes : Z) (l : DiskLayout) : DiskLayout :=
  add_metadata (u64 (gh_BackupLBA h * sectorSize)) sectorSize
    (add_metadata (u64 (gh_BackupLBA h * sectorSize - entryArrayBytes)) entryArrayBytes
       (add_metadata (u64 (gh_PartitionEntryLBA h * sectorSize)) entryArrayBytes
          (add_metadata sectorSize sectorSize (add_metadata 0 sectorSize l)))).

(** The vector's constructor throws beyond [max_size]. *)
Definition VECTOR_MAX : Z := 2 ^ 63 - 1.

Definition ParseGPT (l : DiskLayout) : option (bool * DiskLayout) :=
  let sectorSize := d_SectorSize (Disk l) in
  r ← read_sector sectorSize sectorSize;
  match r with
  | None => Some (false, l)
  | Some gptSector =>
      let header := dec_GPTHeader gptSector in
      if negb (bool_decide (gh_Signature header = SIG_EFI)) then Some (false, l)
      else
        let l := set_GPT (gpt_info header sectorSize) l in
        let entryArrayBytes := gh_NumberOfPartitionEntries header * gh_SizeOfPartitionEntry header in
        if VECTOR_MAX <? entryArrayBytes then None
        else
          match Read (PrimaryEntryOffset (d_GPT (Disk l))) (u32 entryArrayBytes) with
          | None => Some (false, l)
          | Some d =>
              l' ← gpt_loop (Z.to_nat (gh_NumberOfPartitionEntries header)) 0
                     (gh_SizeOfPartitionEntry header) (d ++ zeros (entryArrayBytes - zlen d)) sectorSize l;
              Some (true, CalculateFreeSpace (gpt_metadata header sectorSize entryArrayBytes l'))
          end
  end.

Definition Parse (deviceNumber : Z) (l : DiskLayout) : option (bool * DiskLayout) :=
  let l := set_Disk {| d_DeviceNumber := deviceNumber; d_Size := 0; d_SectorSize := 512;
                       d_Style := StyleUnknown; d_GPT := GPTInfo_zero |} l in
  let '(_, l) := QueryDiskSize l in
  let '(_, l) := QuerySectorSize l in
  r ← ParseMBR l;
  match r with
  | (false, l) => Some (false, l)
  | (true, l) =>
      match d_Style (Disk l) with
      | GPT => ParseGPT l
      | _ => Some (true, CalculateFreeSpace l)
      end
  end.
End parser.
