(* ===== verification/DiskParserSpec.v ===== *)
(** * Partition tables: what the parser promises

    Free space as the complement of the partitions, the tables a partitioning
    tool writes and the layout read back from them, and the bounds outside
    which [Parse] leaves its buffers. *)

From stdpp Require Import sorting.
From S2P Require Import Prelude.
From S2P Require Import DataCompressor.
From S2P Require Import DiskParser.

(** ** Free space *)

Definition in_partition (x : Z) (p : PartitionInfo) : Prop :=
  p_Offset p <= x < p_Offset p + p_Size p.
Definition in_range (x : Z) (r : DiskRange) : Prop := r_Offset r <= x < r_Offset r + r_Size r.
Definition before (a b : DiskRange) : Prop := r_Offset a + r_Size a <= r_Offset b.

(** A partition whose end is a 64-bit number. *)
Definition partition_wf (p : PartitionInfo) : Prop :=
  0 <= p_Offset p /\ 0 <= p_Size p /\ p_Offset p + p_Size p < 2 ^ 64.

Lemma scan_free_step size current p ps :
  partition_wf p -> 0 <= current ->
  scan_free size current (p :: ps)
  = (if current <? p_Offset p then [{| r_Offset := current; r_Size := p_Offset p - current |}] else [])
    ++ scan_free size (Z.max current (p_Offset p + p_Size p)) ps.
Proof.
  intros (?&?&?) ?. cbn [scan_free]. rewrite (wrap_small 64) by (unfold in_width; lia).
  do 2 f_equal. case_if; lia.
Qed.

(** What the scan yields from [current] on. *)
Lemma scan_free_spec size ps x : forall current,
  StronglySorted offset_le ps -> Forall partition_wf ps -> 0 <= current ->
  Exists (in_range x) (scan_free size current ps) <->
  current <= x /\ ~ Exists (in_partition x) ps /\
  (x < size \/ Exists (fun p => x < p_Offset p) ps).
Proof.
  induction ps as [|p ps IH]; intros current Hs Hw Hc.
  - rewrite !Exists_nil. cbn [scan_free]. case_if.
    + rewrite Exists_cons, Exists_nil. unfold in_range. cbn. intuition lia.
    + rewrite Exists_nil. intuition lia.
  - apply Forall_cons in Hw as [Hp Hw]. apply StronglySorted_inv in Hs as [Hs Hle].
    pose proof Hp as (?&?&?). rewrite scan_free_step by done.
    rewrite Exists_app, IH by (done || lia). rewrite !Exists_cons.
    assert (x < p_Offset p -> ~ Exists (in_partition x) ps) as Hbelow.
    { intros Hx He. apply Exists_exists in He as (q & Hq & Hin).
      rewrite Forall_forall in Hle. specialize (Hle q Hq). unfold in_partition, offset_le in *. lia. }
    assert (Exists (in_range x) (if current <? p_Offset p
       then [{| r_Offset := current; r_Size := p_Offset p - current |}] else [])
       <-> current <= x < p_Offset p) as Hgap.
    { case_if; rewrite ?Exists_cons, Exists_nil; unfold in_range; cbn; intuition lia. }
    rewrite Hgap. change (in_partition x p) with (p_Offset p <= x < p_Offset p + p_Size p).
    destruct (Z.lt_ge_cases x (p_Offset p)), (Z.lt_ge_cases x (p_Offset p + p_Size p)); intuition lia.
Qed.

Lemma scan_free_sorted size ps : forall current,
  Forall partition_wf ps -> 0 <= current ->
  StronglySorted before (scan_free size current ps) /\
  Forall (fun r => current <= r_Offset r /\ 0 < r_Size r) (scan_free size current ps).
Proof.
  induction ps as [|p ps IH]; intros current Hw Hc.
  - cbn [scan_free]. case_if; [|by repeat constructor].
    split; repeat constructor; cbn; lia.
  - apply Forall_cons in Hw as [Hp Hw]. pose proof Hp as (?&?&?).
    rewrite scan_free_step by done.
    destruct (IH (Z.max current (p_Offset p + p_Size p))) as [IHs IHf]; [done|lia|].
    case_if; cbn [app].
    + split; constructor; cbn; [done| |lia|]; (eapply Forall_impl; [exact IHf|]);
        intros r [??]; unfold before; cbn; lia.
    + split; [done|]. eapply Forall_impl; [exact IHf|]. intros r [??]. cbn. lia.
Qed.

#[export] Instance offset_le_total : Total offset_le.
Proof. intros a b. unfold offset_le. lia. Qed.
#[export] Instance offset_le_trans : Transitive offset_le.
Proof. intros a b c. unfold offset_le. lia. Qed.

(** The early return for a disk without partitions is the scan of no
    partitions. *)
Lemma CalculateFreeSpace_scan l :
  CalculateFreeSpace l
  = set_free (scan_free (d_Size (Disk l)) 0 (merge_sort offset_le (Partitions l))) l.
Proof.
  unfold CalculateFreeSpace. destruct (Partitions l) as [|p ps] eqn:E; [|done].
  cbn [merge_sort]. unfold merge_sort. cbn. f_equal. case_if; [|done].
  by rewrite Z.sub_0_r.
Qed.

Lemma CalculateFreeSpace_Partitions l : Partitions (CalculateFreeSpace l) = Partitions l.
Proof. by rewrite CalculateFreeSpace_scan. Qed.

(** ** The tables on the disk *)

(** *** Images *)

(** The four partition entries of an MBR sector, after [boot] (446 bytes). *)
Definition enc_MBRPartitionEntry (boot chs : list Z) (e : MBRPartitionEntry) : list Z :=
  boot ++ [mbr_Type e] ++ chs ++ le_enc 4 (mbr_StartLBA e) ++ le_enc 4 (mbr_SectorCount e).

Definition enc_wide (s : list Z) : list Z := flat_map (le_enc 2) s.

(** A slot of the GPT array: empty, or an entry with its name. *)
Definition gpt_slot : Type := option (GPTEntry * list Z).

Definition slot_image (size : Z) (s : gpt_slot) : list Z :=
  match s with
  | None => zeros size
  | Some (e, name) =>
      ge_TypeGuid e ++ ge_PartitionGuid e ++ le_enc 8 (ge_FirstLBA e) ++ le_enc 8 (ge_LastLBA e)
      ++ le_enc 8 (ge_Attributes e) ++ enc_wide name ++ zeros (size - 56 - 2 * zlen name)
  end.

Definition gpt_header_image (h : GPTHeader) (mid usable rest : list Z) : list Z :=
  gh_Signature h ++ mid ++ le_enc 8 (gh_BackupLBA h) ++ usable ++ gh_DiskGuid h
  ++ le_enc 8 (gh_PartitionEntryLBA h) ++ le_enc 4 (gh_NumberOfPartitionEntries h)
  ++ le_enc 4 (gh_SizeOfPartitionEntry h) ++ rest.

Definition slot_wf (size : Z) (s : gpt_slot) : Prop :=
  match s with
  | None => True
  | Some (e, name) =>
      zlen (ge_TypeGuid e) = 16 /\ ge_TypeGuid e <> zeros 16 /\ zlen (ge_PartitionGuid e) = 16 /\
      in_width 64 (ge_FirstLBA e) /\ in_width 64 (ge_LastLBA e) /\ in_width 64 (ge_Attributes e) /\
      Forall (fun c => 0 < c < 2 ^ 16) name /\ 56 + 2 * zlen name + 2 <= size
  end.

Definition header_wf (h : GPTHeader) : Prop :=
  gh_Signature h = SIG_EFI /\ in_width 64 (gh_BackupLBA h) /\ zlen (gh_DiskGuid h) = 16 /\
  in_width 64 (gh_PartitionEntryLBA h) /\ in_width 32 (gh_NumberOfPartitionEntries h) /\
  in_width 32 (gh_SizeOfPartitionEntry h).

Lemma wide_string_enc s r :
  Forall (fun c => 0 < c < 2 ^ 16) s -> wide_string (enc_wide s ++ 0 :: 0 :: r) = Some s.
Proof.
  induction 1 as [|c s Hc Hs IH]; [done|].
  change (wide_string (c mod 256 :: c / 256 mod 256 :: (enc_wide s ++ 0 :: 0 :: r)) = Some (c :: s)).
  change (2 ^ 16) with 65536 in Hc. cbn [wide_string]. rewrite IH.
  case_if; [exfalso|]; [Z.to_euclidean_division_equations; lia|].
  cbn. do 2 f_equal. Z.to_euclidean_division_equations; lia.
Qed.

Lemma enc_wide_length s : zlen (enc_wide s) = 2 * zlen s.
Proof. induction s as [|c s IH]; [done|]. cbn [enc_wide flat_map]. rewrite length_app. unfold enc_wide in IH.
  rewrite le_enc_length. cbn [length]. lia. Qed.

(** A wide string that starts at an even place of a range ending in a zero
    unit ends in it. *)
Lemma wide_string_ends n : forall b, (length b = 2 * n)%nat -> wide_string (b ++ [0; 0]) <> None.
Proof.
  induction n as [|n IH]; intros b Hb.
  - destruct b; [done|cbn in Hb; lia].
  - destruct b as [|x [|y b]]; [cbn in Hb; lia..|]. cbn [app wide_string].
    case_if; [done|]. destruct (wide_string (b ++ [0; 0])) eqn:E'; [done|].
    exfalso. apply (IH b); [cbn in Hb; lia|done].
Qed.

(** *** Reading them back *)

(** One field of a layout: skip the fields in front of it, then decode it. *)
Ltac gpt_field :=
  repeat first [ rewrite rd_le_skip by (rewrite ?le_enc_length; lia)
               | rewrite sub_skip by (rewrite ?le_enc_length; lia) ];
  rewrite ?le_enc_length;
  match goal with
  | |- rd_le ?o _ _ = _ => replace o with 0 by lia
  | |- sub ?o _ _ = _ => replace o with 0 by lia
  end;
  first [by apply (rd_le_here 4) | by apply (rd_le_here 8) | by apply sub_here].

Lemma dec_GPTHeader_image h mid usable rest :
  header_wf h -> zlen mid = 24 -> zlen usable = 16 ->
  dec_GPTHeader (gpt_header_image h mid usable rest) = h.
Proof.
  intros (Hs & ? & ? & ? & ? & ?) ??. assert (zlen (gh_Signature h) = 8) by by rewrite Hs.
  destruct h as [sg bl dg pe n sz]. unfold dec_GPTHeader, gpt_header_image. cbn [gh_Signature gh_BackupLBA
    gh_DiskGuid gh_PartitionEntryLBA gh_NumberOfPartitionEntries gh_SizeOfPartitionEntry] in *.
  f_equal; gpt_field.
Qed.

Lemma gpt_header_image_app h mid usable rest z :
  gpt_header_image h mid usable rest ++ z = gpt_header_image h mid usable (rest ++ z).
Proof. unfold gpt_header_image. by rewrite <- !app_assoc. Qed.

Lemma slot_image_length size s : slot_wf size s -> 0 <= size -> zlen (slot_image size s) = size.
Proof.
  destruct s as [[e name]|]; cbn; intros H ?; [|by rewrite zeros_length].
  destruct H as (? & _ & ? & _ & _ & _ & _ & ?). rewrite !length_app, !le_enc_length.
  pose proof (enc_wide_length name). pose proof (zeros_length (size - 56 - 2 * zlen name)). lia.
Qed.

Lemma dec_slot_image size e name r :
  slot_wf size (Some (e, name)) ->
  let b := slot_image size (Some (e, name)) ++ r in
  dec_GPTEntry b = e /\ wide_string (drop (Z.to_nat GPT_ENTRY_FIXED) b) = Some name.
Proof.
  intros (? & _ & ? & ? & ? & ? & ? & ?). cbn zeta.
  destruct e as [tg pg f la at_]. cbn [slot_image ge_TypeGuid ge_PartitionGuid ge_FirstLBA ge_LastLBA
    ge_Attributes] in *. rewrite <- !app_assoc. split.
  - unfold dec_GPTEntry. f_equal; gpt_field.
  - set (tail := enc_wide name ++ _). rewrite !app_assoc. rewrite drop_app_length'.
    2:{ unfold GPT_ENTRY_FIXED. rewrite !length_app, !le_enc_length. lia. }
    unfold tail. assert (zeros (size - 56 - 2 * zlen name) = 0 :: 0 :: zeros (size - 58 - 2 * zlen name)) as ->.
    { unfold zeros. replace (Z.to_nat (size - 56 - 2 * zlen name))
        with (S (S (Z.to_nat (size - 58 - 2 * zlen name)))) by lia. done. }
    cbn [app]. by apply wide_string_enc.
Qed.

(** An MBR sector: boot code, four entries, the signature. *)
Definition mbr_image (code : list Z) (entries : list (list Z * list Z * MBRPartitionEntry)) (rest : list Z)
    : list Z :=
  code ++ flat_map (fun '(boot, chs, e) => enc_MBRPartitionEntry boot chs e) entries
  ++ 0x55 :: 0xAA :: rest.

Definition mbr_entry_wf (x : list Z * list Z * MBRPartitionEntry) : Prop :=
  let '(boot, chs, e) := x in
  zlen boot = 4 /\ zlen chs = 3 /\ in_width 8 (mbr_Type e) /\ in_width 32 (mbr_StartLBA e) /\
  in_width 32 (mbr_SectorCount e).

Lemma enc_MBR_length x :
  mbr_entry_wf x -> zlen (let '(boot, chs, e) := x in enc_MBRPartitionEntry boot chs e) = 16.
Proof.
  destruct x as [[boot chs] e]. intros (?&?&_). unfold enc_MBRPartitionEntry.
  rewrite !length_app, !le_enc_length. cbn [length]. lia.
Qed.

Lemma dec_MBR_enc boot chs e r :
  mbr_entry_wf (boot, chs, e) -> dec_MBRPartitionEntry (enc_MBRPartitionEntry boot chs e ++ r) = e.
Proof.
  intros (?&?&?&?&?). destruct e as [t lba n].
  unfold dec_MBRPartitionEntry, enc_MBRPartitionEntry. cbn [mbr_Type mbr_StartLBA mbr_SectorCount] in *.
  rewrite <- !app_assoc. f_equal.
  - rewrite rd_le_skip by lia. replace (4 - zlen boot) with 0 by lia. unfold rd_le. rewrite sub_here by done.
    change (le_dec [t]) with (t + 256 * 0). lia.
  - rewrite rd_le_skip by lia. rewrite rd_le_skip by (cbn [length]; lia). rewrite rd_le_skip by (cbn [length]; lia).
    replace (_ - _ - _ - _) with 0 by (cbn [length]; lia). by apply (rd_le_here 4).
  - rewrite rd_le_skip by lia. rewrite rd_le_skip by (cbn [length]; lia). rewrite rd_le_skip by (cbn [length]; lia).
    rewrite rd_le_skip by (rewrite le_enc_length; cbn [length]; lia).
    replace (_ - _ - _ - _ - _) with 0 by (rewrite le_enc_length; cbn [length]; lia). by apply (rd_le_here 4).
Qed.

Lemma dec_MBR_prefix b : dec_MBRPartitionEntry (take 16 b) = dec_MBRPartitionEntry b.
Proof. unfold dec_MBRPartitionEntry, rd_le. f_equal; f_equal; by apply (sub_prefix _ _ b 16). Qed.

(** The bytes of an aligned element of an array of elements of one size. *)
Lemma flat_map_drop {A} (f : A -> list Z) (size : Z) (l : list A) (k : nat) r :
  0 <= size -> Forall (fun x => zlen (f x) = size) l -> (k <= length l)%nat ->
  drop (Z.to_nat (Z.of_nat k * size)) (flat_map f l ++ r) = flat_map f (drop k l) ++ r.
Proof.
  intros Hs Hl Hk. rewrite <- (take_drop k l) at 1. rewrite flat_map_app, <- app_assoc.
  rewrite drop_app_length'; [done|].
  assert (zlen (flat_map f (take k l)) = Z.of_nat k * size) as E; [|lia].
  assert (length (take k l) = k) as Hlen by (rewrite length_take; lia).
  rewrite <- Hlen at 2. assert (Forall (fun x => zlen (f x) = size) (take k l)) as Ht by by apply Forall_take.
  clear -Ht Hs. induction Ht as [|x l' Hx Ht IH]; [done|].
  cbn [flat_map length]. rewrite length_app. lia.
Qed.

(** ** The content of a partition *)

Section parsed.
Context `{DiskDevice}.

(** [DetectPartitionContent] for a sector that fits the buffer. *)
Definition detected (s : Z) (p : PartitionInfo) : PartitionInfo :=
  match Read (p_Offset p) s with
  | None => set_content RawPartition false FsUnreadable p
  | Some d => classify (d ++ zeros (SECTOR_BUFFER - zlen d)) p
  end.

Lemma Read_length off s d : Read off s = Some d -> zlen d = s.
Proof.
  unfold Read. case_if; [done|]. destruct (dev_Read _ _) as [d'|]; [|done]. case_if; [|done].
  by intros [= <-].
Qed.

Lemma read_sector_ok off s :
  s <= SECTOR_BUFFER ->
  read_sector off s = Some (match Read off s with
                            | None => None
                            | Some d => Some (d ++ zeros (SECTOR_BUFFER - zlen d))
                            end).
Proof.
  intros Hs. unfold read_sector. destruct (Read off s) as [d|] eqn:E; [|done].
  apply Read_length in E. rewrite memcpy_to_Some by (rewrite ?zeros_length; unfold SECTOR_BUFFER in *; lia).
  cbn [mbind option_bind]. do 2 f_equal. change (Z.to_nat 0) with 0%nat. rewrite take_0. cbn [app].
  f_equal. unfold zeros. rewrite drop_replicate. f_equal. unfold SECTOR_BUFFER in *. lia.
Qed.

Lemma read_sector_large off s d :
  SECTOR_BUFFER < s -> Read off s = Some d -> read_sector off s = None.
Proof.
  intros Hs E. unfold read_sector. rewrite E. apply Read_length in E. unfold memcpy_to.
  rewrite zeros_length by done. case_if; [lia|done].
Qed.

Lemma DetectPartitionContent_ok p s :
  s <= SECTOR_BUFFER -> DetectPartitionContent p s = Some (detected s p).
Proof.
  intros Hs. unfold DetectPartitionContent, detected. rewrite read_sector_ok by done.
  cbn [mbind option_bind]. by destruct (Read (p_Offset p) s).
Qed.

(** A classified partition is a file system's or raw. *)
Definition classified (p : PartitionInfo) : Prop :=
  p_Content p <> ContentUnknown /\ p_Content p <> Reserved.

Lemma detected_classified s p : classified (detected s p).
Proof.
  unfold detected, classified. destruct (Read _ _) as [d|]; [|done]. unfold classify.
  repeat case_if; done.
Qed.

(** Nothing but the content, the encryption mark and the label changes. *)
Lemma detected_place s p :
  p_Offset (detected s p) = p_Offset p /\ p_Size (detected s p) = p_Size p /\
  p_Index (detected s p) = p_Index p.
Proof.
  unfold detected. destruct (Read _ _) as [d|]; [|done]. unfold classify. repeat case_if; done.
Qed.
(** ** The loops over the tables *)

Definition add_partitions (ps : list PartitionInfo) (l : DiskLayout) : DiskLayout :=
  {| Disk := Disk l; Partitions := Partitions l ++ ps; FreeRanges := FreeRanges l;
     MetadataRanges := MetadataRanges l |}.

Lemma add_partitions_nil l : add_partitions [] l = l.
Proof. destruct l. unfold add_partitions. cbn. by rewrite app_nil_r. Qed.

Lemma add_partitions_cons p ps l : add_partitions ps (add_partition p l) = add_partitions (p :: ps) l.
Proof. unfold add_partitions, add_partition. cbn. by rewrite <- app_assoc. Qed.

(** What the entries of an MBR and the slots of a GPT stand for, from index
    [i] on. *)
Fixpoint mbr_partitions (s i : Z) (es : list MBRPartitionEntry) : list PartitionInfo :=
  match es with
  | [] => []
  | e :: es' =>
      if mbr_Type e =? 0 then mbr_partitions s (i + 1) es'
      else detected s (mbr_partition i e s) :: mbr_partitions s (i + 1) es'
  end.

Fixpoint gpt_partitions (s i : Z) (slots : list gpt_slot) : list PartitionInfo :=
  match slots with
  | [] => []
  | None :: slots' => gpt_partitions s (i + 1) slots'
  | Some (e, name) :: slots' =>
      detected s (DetectPartitionContentGpt (gpt_partition i e name s)) :: gpt_partitions s (i + 1) slots'
  end.

(** What of a partition comes from its entry, and what the entries of a table
    say: the entries in use, with their places in bytes modulo 2^64. *)
Definition Place : Type := Z * Z * Z * Z * (list Z * list Z * Z * list Z).
Definition place (p : PartitionInfo) : Place :=
  (p_Index p, p_Offset p, p_Size p, p_MbrType p, (p_TypeGuid p, p_PartitionGuid p, p_Attributes p, p_Name p)).
Definition mbr_place (s : Z) (ie : Z * MBRPartitionEntry) : option Place :=
  let '(i, e) := ie in
  if mbr_Type e =? 0 then None
  else Some (i, u64 (mbr_StartLBA e * s), u64 (mbr_SectorCount e * s), mbr_Type e, (zeros 16, zeros 16, 0, [])).
Definition gpt_place (s : Z) (ie : Z * gpt_slot) : option Place :=
  let '(i, slot) := ie in
  '(e, name) ← slot;
  Some (i, u64 (ge_FirstLBA e * s), u64 ((ge_LastLBA e - ge_FirstLBA e + 1) * s), 0,
        (ge_TypeGuid e, ge_PartitionGuid e, ge_Attributes e, name)).
(** The elements with their indexes from [i] on. *)
Definition indexed {A} (i : Z) (l : list A) : list (Z * A) := zip (seqZ i (zlen l)) l.

Lemma indexed_cons {A} i x (l : list A) : indexed i (x :: l) = (i, x) :: indexed (i + 1) l.
Proof.
  unfold indexed. cbn [length]. rewrite seqZ_cons by lia. cbn [zip zip_with]. do 3 f_equal; lia.
Qed.

Lemma place_detected s p : place (detected s p) = place p.
Proof.
  unfold detected. destruct (Read _ _) as [d|]; [|done]. unfold classify. repeat case_if; done.
Qed.
Lemma place_gpt_content p : place (DetectPartitionContentGpt p) = place p.
Proof. unfold DetectPartitionContentGpt. by repeat case_if. Qed.

Lemma mbr_places s i es : map place (mbr_partitions s i es) = omap (mbr_place s) (indexed i es).
Proof.
  revert i. induction es as [|e es IH]; intros i; [done|]. rewrite indexed_cons. cbn [mbr_partitions omap list_omap mbr_place].
  destruct (mbr_Type e =? 0); [by apply IH|]. cbn [map]. by rewrite place_detected, IH.
Qed.
Lemma gpt_places s i slots : map place (gpt_partitions s i slots) = omap (gpt_place s) (indexed i slots).
Proof.
  revert i. induction slots as [|[[e name]|] slots IH]; intros i; [done| |]; rewrite indexed_cons;
    cbn [gpt_partitions omap list_omap gpt_place mbind option_bind]; [|by apply IH].
  cbn [map]. by rewrite place_detected, place_gpt_content, IH.
Qed.

Lemma mbr_loop_ok s sector es : forall i l,
  s <= SECTOR_BUFFER -> (forall j e, es !! j = Some e -> mbr_entry sector (i + Z.of_nat j) = e) ->
  mbr_loop (length es) i sector s l = Some (add_partitions (mbr_partitions s i es) l).
Proof.
  induction es as [|e es IH]; intros i l Hs He; [by rewrite add_partitions_nil|].
  cbn [length mbr_loop mbr_partitions].
  pose proof (He 0%nat e eq_refl) as He0. rewrite Z.add_0_r in He0. rewrite He0.
  assert (forall j e', es !! j = Some e' -> mbr_entry sector (i + 1 + Z.of_nat j) = e') as He'.
  { intros j e' Hj. rewrite <- (He (S j) e' Hj). f_equal. lia. }
  destruct (mbr_Type e =? 0); [by apply IH|].
  rewrite DetectPartitionContent_ok by done. cbn [mbind option_bind].
  rewrite IH by done. by rewrite add_partitions_cons.
Qed.

Lemma gpt_loop_ok s size slots2 : forall slots1 l,
  s <= SECTOR_BUFFER -> 56 < size -> Forall (slot_wf size) (slots1 ++ slots2) ->
  zlen (slots1 ++ slots2) * size < 2 ^ 32 ->
  gpt_loop (length slots2) (zlen slots1) size (flat_map (slot_image size) (slots1 ++ slots2)) s l
  = Some (add_partitions (gpt_partitions s (zlen slots1) slots2) l).
Proof.
  induction slots2 as [|slot slots2 IH]; intros slots1 l Hs Hz Hw Hn; [by rewrite add_partitions_nil|].
  assert (entry_at (flat_map (slot_image size) (slots1 ++ slot :: slots2)) (u32 (zlen slots1 * size))
          = slot_image size slot ++ flat_map (slot_image size) slots2) as Hat.
  { rewrite wrap_small.
    2:{ unfold in_width. rewrite length_app in Hn. cbn [length] in Hn. split; [lia|]. nia. }
    unfold entry_at. rewrite <- (app_nil_r (flat_map _ _)), (flat_map_drop (slot_image size) size).
    - rewrite app_nil_r, drop_app_length'; done.
    - lia.
    - eapply Forall_impl; [exact Hw|]. intros x Hx. apply slot_image_length; [done|lia].
    - rewrite length_app. lia. }
  assert (slot_wf size slot) as Hslot by (apply Forall_app in Hw as [_ Hw]; by inversion Hw).
  pose proof (slot_image_length size slot Hslot ltac:(lia)) as Hlen.
  set (image := flat_map (slot_image size) (slots1 ++ slot :: slots2)) in *.
  assert (forall l', gpt_loop (length slots2) (zlen slots1 + 1) size image s l'
          = Some (add_partitions (gpt_partitions s (zlen slots1 + 1) slots2) l')) as Hrest.
  { intros l'. rewrite (cons_middle slot), app_assoc in Hw, Hn.
    specialize (IH (slots1 ++ [slot]) l' Hs Hz Hw Hn).
    unfold image. rewrite (cons_middle slot), app_assoc.
    replace (zlen slots1 + 1) with (zlen (slots1 ++ [slot])) by len_solve. exact IH. }
  clearbody image. set (rest := flat_map (slot_image size) slots2) in *. clearbody rest.
  cbn [length gpt_loop gpt_partitions]. rewrite Hat.
  test_false (zlen (slot_image size slot ++ rest) <? 16). unfold GPT_ENTRY_FIXED in *.
  test_false (zlen (slot_image size slot ++ rest) <? 56).
  destruct slot as [[e name]|].
  - pose proof Hslot as (?&Hg&_). destruct (dec_slot_image size e name rest Hslot) as [He Hname].
    unfold GPT_ENTRY_FIXED in *. rewrite He, Hname. rewrite bool_decide_eq_false_2.
    2:{ cbn [slot_image]. rewrite <- !app_assoc. by rewrite sub_here. }
    cbn [mbind option_bind]. rewrite DetectPartitionContent_ok by done. cbn [mbind option_bind].
    rewrite Hrest. by rewrite add_partitions_cons.
  - rewrite bool_decide_eq_true_2; [apply Hrest|]. cbn [slot_image] in *.
    unfold zeros, sub. change (Z.to_nat 0) with 0%nat. rewrite drop_0, take_app_le by (rewrite length_replicate; lia).
    rewrite take_replicate. f_equal. lia.
Qed.
Lemma mbr_partitions_classified s i es : Forall classified (mbr_partitions s i es).
Proof.
  revert i. induction es as [|e es IH]; intros i; cbn; [constructor|].
  case_if; [apply IH|]. constructor; [apply detected_classified|apply IH].
Qed.

Lemma gpt_partitions_classified s i slots : Forall classified (gpt_partitions s i slots).
Proof.
  revert i. induction slots as [|[[e name]|] slots IH]; intros i; cbn; [constructor| |apply IH].
  constructor; [apply detected_classified|apply IH].
Qed.

(** An array of any bytes, whose entries have an even size that covers the
    fixed part, and which ends in a zero unit, is read without leaving it. *)
Definition array_ends (bytes : Z) (d : list Z) : Prop := bytes = 0 \/ sub (bytes - 2) 2 d = [0; 0].

Lemma gpt_loop_defined s size count d :
  s <= SECTOR_BUFFER -> 58 <= size -> Z.even size = true -> count * size < 2 ^ 32 ->
  zlen d = count * size -> array_ends (count * size) d -> forall n i l,
  0 <= i -> i + Z.of_nat n = count ->
  exists ps, gpt_loop n i size d s l = Some (add_partitions ps l) /\ Forall classified ps.
Proof.
  intros Hs Hz Hev Hb Hd Hend. induction n as [|n IH]; intros i l Hi Hn.
  { exists []. by rewrite add_partitions_nil. }
  assert (1 <= count - i) by lia.
  assert (exists b, drop (Z.to_nat (i * size)) d = b ++ [0; 0] /\ zlen b = (count - i) * size - 2) as (b & Hb' & Hlb).
  { destruct Hend as [?|Hend]; [nia|]. exists (drop (Z.to_nat (i * size)) (take (Z.to_nat (count * size - 2)) d)).
    assert (i * size <= count * size - 2) by nia. split; [|rewrite length_drop, length_take; nia].
    rewrite <- Hend. unfold sub. rewrite <- (take_drop (Z.to_nat (count * size - 2)) d) at 1.
    rewrite drop_app_le by (rewrite length_take; lia). f_equal.
    symmetry. apply firstn_all2. rewrite length_drop. lia. }
  cbn [gpt_loop]. rewrite wrap_small by (unfold in_width; nia). unfold entry_at. rewrite Hb'.
  assert (58 <= zlen (b ++ [0; 0])) by (rewrite length_app; cbn [length]; nia). unfold GPT_ENTRY_FIXED.
  test_false (zlen (b ++ [0; 0]) <? 16). test_false (zlen (b ++ [0; 0]) <? 56).
  case_bool_decide; [apply IH; lia|].
  destruct (wide_string (drop (Z.to_nat 56) (b ++ [0; 0]))) as [name|] eqn:Ename.
  2:{ exfalso. rewrite length_app in *. cbn [length] in *. rewrite drop_app_le in Ename by lia.
      apply Z.even_spec in Hev as [k ->].
      eapply (wide_string_ends (Z.to_nat ((count - i) * k - 29))); [|exact Ename].
      rewrite length_drop. nia. }
  cbn [mbind option_bind]. rewrite DetectPartitionContent_ok by done. cbn [mbind option_bind].
  edestruct (IH (i + 1)) as (ps & E & Hps); [lia|lia|]. rewrite E, add_partitions_cons.
  eexists. split; [done|]. constructor; [apply detected_classified|done].
Qed.

(** ** The whole parse *)

Definition sector_size : Z := default 512 dev_BytesPerSector.

(** The layout before the tables are read. *)
Definition start_layout (n : Z) (l : DiskLayout) : DiskLayout :=
  set_Disk {| d_DeviceNumber := n; d_Size := match dev_Length with Some b => u64 b | None => 0 end;
              d_SectorSize := sector_size; d_Style := StyleUnknown; d_GPT := GPTInfo_zero |} l.

Lemma Parse_unfold n l :
  Parse n l
  = (r ← ParseMBR (start_layout n l);
     match r with
     | (false, l) => Some (false, l)
     | (true, l) => match d_Style (Disk l) with GPT => ParseGPT l | _ => Some (true, CalculateFreeSpace l) end
     end).
Proof.
  unfold Parse, start_layout, sector_size, QueryDiskSize, QuerySectorSize.
  destruct dev_Length, dev_BytesPerSector; done.
Qed.

(** A table on the disk, and the sectors that hold it. *)
Inductive disk_table :=
  | TableMBR (entries : list MBRPartitionEntry)
  | TableGPT (h : GPTHeader) (slots : list gpt_slot).

(** LBA 0 holds these four entries. *)
Definition mbr_sector (entries : list MBRPartitionEntry) : Prop :=
  exists code raw rest, zlen code = MBR_ENTRIES /\ length raw = 4%nat /\ Forall mbr_entry_wf raw /\
    entries = map snd raw /\ Read 0 sector_size = Some (mbr_image code raw rest).

Definition table_bytes (h : GPTHeader) : Z := gh_NumberOfPartitionEntries h * gh_SizeOfPartitionEntry h.
Definition array_offset (h : GPTHeader) : Z := u64 (gh_PartitionEntryLBA h * sector_size).

Definition on_disk (t : disk_table) : Prop :=
  match t with
  | TableMBR entries => mbr_sector entries /\ (mbr_Type <$> head entries) <> Some 0xEE
  | TableGPT h slots =>
      (exists entries, mbr_sector entries /\ (mbr_Type <$> head entries) = Some 0xEE) /\
      (exists mid usable rest, zlen mid = 24 /\ zlen usable = 16 /\
         Read sector_size sector_size = Some (gpt_header_image h mid usable rest)) /\
      header_wf h /\ gh_NumberOfPartitionEntries h = zlen slots /\ 56 < gh_SizeOfPartitionEntry h /\
      table_bytes h < 2 ^ 32 /\ Forall (slot_wf (gh_SizeOfPartitionEntry h)) slots /\
      Read (array_offset h) (table_bytes h)
      = Some (flat_map (slot_image (gh_SizeOfPartitionEntry h)) slots)
  end.

Definition table_partitions (t : disk_table) : list PartitionInfo :=
  match t with
  | TableMBR entries => mbr_partitions sector_size 0 entries
  | TableGPT h slots => gpt_partitions sector_size 0 slots
  end.
Definition table_places (t : disk_table) : list Place :=
  match t with
  | TableMBR entries => omap (mbr_place sector_size) (indexed 0 entries)
  | TableGPT h slots => omap (gpt_place sector_size) (indexed 0 slots)
  end.
Definition table_style (t : disk_table) : PartitionStyle :=
  match t with TableMBR _ => MBR | TableGPT _ _ => GPT end.

Definition range (off size : Z) : DiskRange := {| r_Offset := off; r_Size := size |}.
Definition table_metadata (t : disk_table) : list DiskRange :=
  range 0 sector_size ::
  match t with
  | TableMBR _ => []
  | TableGPT h _ =>
      [range 0 sector_size; range sector_size sector_size; range (array_offset h) (table_bytes h);
       range (u64 (gh_BackupLBA h * sector_size - table_bytes h)) (table_bytes h);
       range (u64 (gh_BackupLBA h * sector_size)) sector_size]
  end.

Lemma mbr_image_entry code raw rest z j x :
  zlen code = MBR_ENTRIES -> Forall mbr_entry_wf raw -> raw !! j = Some x ->
  mbr_entry (mbr_image code raw rest ++ z) (Z.of_nat j) = x.2.
Proof.
  intros Hc Hw Hj. unfold mbr_entry, mbr_image, MBR_ENTRIES in *. unfold sub.
  change (Z.to_nat 16) with 16%nat. rewrite dec_MBR_prefix.
  set (f := fun '(boot, chs, e) => enc_MBRPartitionEntry boot chs e).
  replace (Z.to_nat (446 + 16 * Z.of_nat j)) with (length code + Z.to_nat (Z.of_nat j * 16))%nat by lia.
  rewrite <- drop_drop, <- !app_assoc, drop_app_length.
  pose proof (lookup_lt_Some _ _ _ Hj) as Hlt.
  rewrite (flat_map_drop f 16); [|lia| |lia].
  2:{ eapply Forall_impl; [exact Hw|]. intros y Hy. by apply enc_MBR_length. }
  rewrite (drop_S _ x) by done. rewrite Forall_forall in Hw.
  assert (mbr_entry_wf x) as Hx by (apply Hw; by eapply list_elem_of_lookup_2).
  destruct x as [[boot chs] e]. cbn [flat_map f]. rewrite <- app_assoc. by apply dec_MBR_enc.
Qed.

Lemma mbr_image_signature code raw rest z :
  zlen code = MBR_ENTRIES -> length raw = 4%nat -> Forall mbr_entry_wf raw ->
  rd_le 510 1 (mbr_image code raw rest ++ z) = 0x55 /\ rd_le 511 1 (mbr_image code raw rest ++ z) = 0xAA.
Proof.
  intros Hc Hr Hw. unfold mbr_image, MBR_ENTRIES in *.
  set (f := fun '(boot, chs, e) => enc_MBRPartitionEntry boot chs e).
  assert (zlen (flat_map f raw) = 64) as Hl.
  { assert (zlen (flat_map f raw) = zlen raw * 16) as ->; [|rewrite Hr; lia]. clear -Hw.
    induction Hw as [|x raw Hx Hw IH]; [done|]. cbn [flat_map length]. rewrite length_app.
    pose proof (enc_MBR_length x Hx). unfold f in *. lia. }
  rewrite <- !app_assoc. split.
  - rewrite !rd_le_skip by lia. by replace (510 - _ - _) with 0 by lia.
  - rewrite !rd_le_skip by lia. by replace (511 - _ - _) with 1 by lia.
Qed.
Lemma ParseMBR_ok entries l :
  sector_size <= SECTOR_BUFFER -> d_SectorSize (Disk l) = sector_size -> mbr_sector entries ->
  ParseMBR l
  = Some (true, if bool_decide ((mbr_Type <$> head entries) = Some 0xEE)
                then add_metadata 0 sector_size (set_Style GPT l)
                else add_partitions (mbr_partitions sector_size 0 entries)
                       (add_metadata 0 sector_size (set_Style MBR l))).
Proof.
  intros Hs Hl (code & raw & rest & Hc & Hr & Hw & -> & Hread). unfold ParseMBR.
  rewrite Hl, read_sector_ok, Hread by done. cbn [mbind option_bind].
  set (buffer := mbr_image code raw rest ++ _).
  destruct (mbr_image_signature code raw rest (zeros (SECTOR_BUFFER - zlen (mbr_image code raw rest)))
              Hc Hr Hw) as [H1 H2]. fold buffer in H1, H2. rewrite H1, H2. cbn [negb orb Z.eqb Pos.eqb].
  assert (forall j e, map snd raw !! j = Some e -> mbr_entry buffer (0 + Z.of_nat j) = e) as He.
  { intros j e Hj. change (map snd raw) with (snd <$> raw) in Hj. rewrite list_lookup_fmap in Hj.
    destruct (raw !! j) as [x|] eqn:Ej; [|done]. cbn in Hj. injection Hj as <-.
    by apply mbr_image_entry. }
  destruct raw as [|x0 raw]; [done|]. pose proof (He 0%nat x0.2 eq_refl) as He0.
  change (0 + Z.of_nat 0) with 0 in He0. rewrite He0. cbn [map head fmap option_fmap option_map].
  destruct (mbr_Type x0.2 =? 238) eqn:E; reflect_Z.
  - rewrite bool_decide_eq_true_2; [done|]. by rewrite E.
  - rewrite bool_decide_eq_false_2 by congruence.
    replace 4%nat with (length (map snd (x0 :: raw))) by (by rewrite length_map).
    by rewrite (mbr_loop_ok sector_size buffer (map snd (x0 :: raw)) 0).
Qed.

Lemma ParseGPT_ok h slots l :
  sector_size <= SECTOR_BUFFER -> d_SectorSize (Disk l) = sector_size -> on_disk (TableGPT h slots) ->
  ParseGPT l
  = Some (true, CalculateFreeSpace (gpt_metadata h sector_size (table_bytes h)
       (add_partitions (gpt_partitions sector_size 0 slots) (set_GPT (gpt_info h sector_size) l)))).
Proof.
  intros Hs Hl (_ & (mid & usable & rest & Hm & Hu & Hread) & Hwf & Hn & Hsz & Hb & Hslots & Harr).
  unfold ParseGPT. rewrite Hl, read_sector_ok, Hread by done. cbn [mbind option_bind]. cbn zeta.
  rewrite gpt_header_image_app, dec_GPTHeader_image by done.
  rewrite bool_decide_eq_true_2 by apply Hwf. cbn [negb].
  fold (table_bytes h) (array_offset h). replace (VECTOR_MAX <? table_bytes h) with false by (unfold VECTOR_MAX; lia).
  cbn [set_GPT set_Disk Disk d_GPT gpt_info PrimaryEntryOffset]. fold (array_offset h).
  assert (0 <= table_bytes h) by (unfold table_bytes; rewrite Hn; lia).
  rewrite (wrap_small 32), Harr by done. pose proof (Read_length _ _ _ Harr) as ->.
  rewrite Z.sub_diag. change (zeros 0) with (@nil Z). rewrite app_nil_r, Hn, Nat2Z.id.
  rewrite (gpt_loop_ok sector_size (gh_SizeOfPartitionEntry h) slots []); try done.
  cbn [app]. rewrite <- Hn. exact Hb.
Qed.

(** The GPT of a readable disk stays in its buffer: what the parser needs and
    does not check. *)
Definition gpt_fits : Prop := forall sector,
  Read sector_size sector_size = Some sector ->
  let h := dec_GPTHeader (sector ++ zeros (SECTOR_BUFFER - zlen sector)) in
  0 <= gh_NumberOfPartitionEntries h /\ 58 <= gh_SizeOfPartitionEntry h /\
  Z.even (gh_SizeOfPartitionEntry h) = true /\ table_bytes h < 2 ^ 32 /\
  forall d, Read (array_offset h) (table_bytes h) = Some d -> array_ends (table_bytes h) d.

(** A parser step that only appends classified partitions. *)
Definition grows (l : DiskLayout) (res : option (bool * DiskLayout)) : Prop :=
  exists r l' ps, res = Some (r, l') /\ Partitions l' = Partitions l ++ ps /\ Forall classified ps /\
    d_SectorSize (Disk l') = d_SectorSize (Disk l).

Lemma grows_same r l l' :
  Partitions l' = Partitions l -> d_SectorSize (Disk l') = d_SectorSize (Disk l) -> grows l (Some (r, l')).
Proof. intros E1 E2. exists r, l', []. by rewrite app_nil_r. Qed.

Lemma grows_free r l l' ps :
  Partitions l' = Partitions l ++ ps -> Forall classified ps ->
  d_SectorSize (Disk l') = d_SectorSize (Disk l) -> grows l (Some (r, CalculateFreeSpace l')).
Proof. intros. rewrite CalculateFreeSpace_scan. by exists r, (set_free (scan_free (d_Size (Disk l')) 0 (merge_sort offset_le (Partitions l'))) l'), ps. Qed.

Lemma ParseMBR_grows l :
  sector_size <= SECTOR_BUFFER -> d_SectorSize (Disk l) = sector_size -> grows l (ParseMBR l).
Proof.
  intros Hs Hl. unfold ParseMBR. rewrite Hl, read_sector_ok by done. cbn [mbind option_bind].
  destruct (Read 0 sector_size) as [d|]; [|by apply grows_same].
  set (buffer := d ++ _). case_if; [by apply grows_same|]. case_if; [by apply grows_same|].
  rewrite (mbr_loop_ok sector_size buffer (map (mbr_entry buffer) [0; 1; 2; 3]) 0); [|done|].
  - cbn [mbind option_bind]. eexists _, _, _. split; [done|]. split; [done|].
    split; [apply mbr_partitions_classified|done].
  - intros j e. do 4 (destruct j as [|j]; [by intros [= <-]|]). done.
Qed.

Lemma ParseGPT_grows l :
  sector_size <= SECTOR_BUFFER -> gpt_fits -> d_SectorSize (Disk l) = sector_size -> grows l (ParseGPT l).
Proof.
  intros Hs Hfit Hl. unfold ParseGPT. rewrite Hl, read_sector_ok by done. cbn [mbind option_bind].
  destruct (Read sector_size sector_size) as [sector|] eqn:E; [|by apply grows_same].
  specialize (Hfit sector E). cbn zeta in Hfit |- *.
  set (h := dec_GPTHeader _) in *. clearbody h. destruct Hfit as (Hn & Hz & Hev & Hb & Hend).
  case_if; [by apply grows_same|]. fold (table_bytes h).
  replace (VECTOR_MAX <? table_bytes h) with false by (unfold VECTOR_MAX; lia).
  cbn [set_GPT set_Disk Disk d_GPT gpt_info PrimaryEntryOffset]. fold (array_offset h).
  rewrite (wrap_small 32) by (unfold in_width, table_bytes in *; nia).
  destruct (Read (array_offset h) (table_bytes h)) as [d|] eqn:Ed; [|by apply grows_same].
  pose proof (Read_length _ _ _ Ed) as Hd. rewrite Hd, Z.sub_diag. change (zeros 0) with (@nil Z).
  rewrite app_nil_r.
  edestruct (gpt_loop_defined sector_size (gh_SizeOfPartitionEntry h) (gh_NumberOfPartitionEntries h) d
    Hs Hz Hev Hb Hd (Hend d eq_refl) (Z.to_nat (gh_NumberOfPartitionEntries h)) 0) as (ps & -> & Hps);
    [lia|lia|].
  cbn [mbind option_bind]. by eapply grows_free.
Qed.

End parsed.

(** C30: For any set of partitions whose ends are 64-bit numbers, in any order and overlapping or not,
    the free ranges are the gaps: a byte of the disk is in a free range exactly
    when no partition covers it, the ranges are not empty, ascend and do not
    overlap.  A byte behind the disk's end counts as free only in front of a
    partition that lies there. *)
Theorem free_space_is_complement l x :
  Forall partition_wf (Partitions l) -> 0 <= x ->
  let l' := CalculateFreeSpace l in
  (Exists (in_range x) (FreeRanges l') <->
     ~ Exists (in_partition x) (Partitions l) /\
     (x < d_Size (Disk l) \/ Exists (fun p => x < p_Offset p) (Partitions l))) /\
  StronglySorted before (FreeRanges l') /\ Forall (fun r => 0 < r_Size r) (FreeRanges l') /\
  Partitions l' = Partitions l /\ Disk l' = Disk l.
Proof.
  intros Hw Hx. cbn zeta. rewrite CalculateFreeSpace_scan. cbn [set_free FreeRanges Partitions Disk].
  pose proof (merge_sort_Permutation offset_le (Partitions l)) as Hp.
  assert (Forall partition_wf (merge_sort offset_le (Partitions l))) as Hw' by by rewrite Hp.
  rewrite scan_free_spec; [|by apply (StronglySorted_merge_sort offset_le)|done|done].
  destruct (scan_free_sorted (d_Size (Disk l)) _ 0 Hw') as [Hs Hf]; [done|].
  assert (forall P, Exists P (merge_sort offset_le (Partitions l)) <-> Exists P (Partitions l)) as He.
  { intros P. split; apply Permutation_Exists; [done|by symmetry]. }
  rewrite !He. split; [tauto|]. split; [done|]. split; [|done].
  eapply Forall_impl; [exact Hf|]. by intros r [??].
Qed.

(** C29: On a disk that holds an MBR, or a protective MBR and a GPT with
    terminated names in its entries, [Parse] succeeds and appends one partition
    per entry that is in use, in table order, with its place in bytes modulo 2^64, its name
    and the content its first sector shows; it records the style, the GPT's own
    ranges and the free ranges of these partitions. *)
Theorem Parse_reads_tables `{DiskDevice} n l t :
  sector_size <= SECTOR_BUFFER -> on_disk t ->
  exists l', Parse n l = Some (true, l') /\
    Partitions l' = Partitions l ++ table_partitions t /\
    map place (table_partitions t) = table_places t /\
    d_DeviceNumber (Disk l') = n /\ d_SectorSize (Disk l') = sector_size /\
    d_Style (Disk l') = table_style t /\
    (forall h slots, t = TableGPT h slots -> d_GPT (Disk l') = gpt_info h sector_size) /\
    MetadataRanges l' = MetadataRanges l ++ table_metadata t /\
    FreeRanges l' = FreeRanges (CalculateFreeSpace l').
Proof.
  intros Hs Ht. rewrite Parse_unfold.
  assert (map place (table_partitions t) = table_places t) as Hplaces.
  { destruct t; [apply mbr_places|apply gpt_places]. }
  destruct t as [entries|h slots].
  - destruct Ht as [Hm Hne]. rewrite (ParseMBR_ok entries) by done. rewrite bool_decide_eq_false_2 by done.
    cbn [mbind option_bind]. cbn [add_partitions add_metadata set_Style set_Disk Disk d_Style].
    rewrite CalculateFreeSpace_scan. eexists. split; [done|].
    rewrite CalculateFreeSpace_scan. by repeat split.
  - pose proof Ht as ((entries & Hm & He) & _). rewrite (ParseMBR_ok entries) by done.
    rewrite bool_decide_eq_true_2 by done. cbn [mbind option_bind].
    cbn [add_metadata set_Style set_Disk Disk d_Style]. erewrite ParseGPT_ok by done.
    rewrite CalculateFreeSpace_scan. eexists. split; [done|]. rewrite CalculateFreeSpace_scan.
    repeat split; try done.
    + intros ?? [= <- <-]. done.
    + cbn. rewrite <- !app_assoc. unfold array_offset. done.
Qed.

(** C31: Whatever a disk with sectors of at most 4096 bytes holds, [Parse] stays
    in its buffers when the entries of its GPT have an even size of 58 bytes or
    more, fit 32 bits together and end in a zero unit; every partition it
    reports is then classified as a file system's or raw, never left unknown,
    and never [Reserved] either.  Sectors of more than 4096 bytes overflow the
    buffer of the very first read. *)
Theorem Parse_bounds `{DiskDevice} n l :
  (sector_size <= SECTOR_BUFFER -> gpt_fits ->
   exists r l' ps, Parse n l = Some (r, l') /\ Partitions l' = Partitions l ++ ps /\ Forall classified ps) /\
  (SECTOR_BUFFER < sector_size -> Read 0 sector_size <> None -> Parse n l = None).
Proof.
  rewrite Parse_unfold. split.
  - intros Hs Hfit. destruct (ParseMBR_grows (start_layout n l) Hs eq_refl) as (r & l1 & ps1 & -> & H1 & Hc1 & Hd1).
    cbn [mbind option_bind]. destruct r; [|by exists false, l1, ps1].
    assert (exists r l' ps, Some (true, CalculateFreeSpace l1) = Some (r, l') /\
              Partitions l' = Partitions l ++ ps /\ Forall classified ps) as Hmbr.
    { exists true, (CalculateFreeSpace l1), ps1. by rewrite CalculateFreeSpace_Partitions. }
    destruct (d_Style (Disk l1)); [exact Hmbr|exact Hmbr|].
    destruct (ParseGPT_grows l1 Hs Hfit Hd1) as (r & l2 & ps2 & -> & H2 & Hc2 & _).
    exists r, l2, (ps1 ++ ps2). split; [done|]. split; [|by apply Forall_app].
    rewrite H2, H1. by rewrite <- app_assoc.
  - intros Hs Hread. unfold ParseMBR. destruct (Read 0 sector_size) as [d|] eqn:E; [|done].
    change (d_SectorSize (Disk (start_layout n l))) with sector_size. by erewrite read_sector_large.
Qed.

(** ** A disk *)

Definition disk_of (sector : Z) (disk : list Z) : DiskDevice :=
  {| dev_Length := Some (zlen disk); dev_BytesPerSector := Some sector;
     dev_Seek := fun off => 0 <=? off; dev_Read := fun off n => Some (sub off n disk) |}.

Definition entry_of (guid : list Z) (first last : Z) : GPTEntry :=
  {| ge_TypeGuid := guid; ge_PartitionGuid := repeat 7 16; ge_FirstLBA := first; ge_LastLBA := last;
     ge_Attributes := 0 |}.

(** An EFI system partition, a free slot, the reserved partition and another
    free slot. *)
Definition sample_slots : list gpt_slot :=
  [Some (entry_of ESP_GUID 4 5, [69; 70; 73]); None; Some (entry_of MSR_GUID 8 9, [77; 83; 82]); None].
Definition sample_header : GPTHeader :=
  {| gh_Signature := SIG_EFI; gh_BackupLBA := 15; gh_DiskGuid := repeat 9 16; gh_PartitionEntryLBA := 2;
     gh_NumberOfPartitionEntries := 4; gh_SizeOfPartitionEntry := 128 |}.
Definition protective : list Z * list Z * MBRPartitionEntry :=
  (zeros 4, zeros 3, {| mbr_Type := 0xEE; mbr_StartLBA := 1; mbr_SectorCount := 15 |}).
Definition unused : list Z * list Z * MBRPartitionEntry :=
  (zeros 4, zeros 3, {| mbr_Type := 0; mbr_StartLBA := 0; mbr_SectorCount := 0 |}).

Definition gpt_image (array : list Z) : list Z :=
  mbr_image (zeros 446) [protective; unused; unused; unused] []
  ++ gpt_header_image sample_header (zeros 24) (zeros 16) (zeros 424) ++ array
  ++ zeros 512 ++ (zeros 0x52 ++ SIG_FAT32 ++ zeros 422) ++ zeros 5632.
Definition sample_disk : list Z := gpt_image (flat_map (slot_image 128) sample_slots).
Definition no_layout : DiskLayout :=
  {| Disk := {| d_DeviceNumber := 0; d_Size := 0; d_SectorSize := 0; d_Style := StyleUnknown; d_GPT := GPTInfo_zero |};
     Partitions := []; FreeRanges := []; MetadataRanges := [] |}.

Lemma sample_on_disk : @on_disk (disk_of 512 sample_disk) (TableGPT sample_header sample_slots).
Proof.
  split.
  { exists (map snd [protective; unused; unused; unused]). split; [|done].
    exists (zeros 446), [protective; unused; unused; unused], []. do 2 (split; [done|]).
    split; [evaluate|]. split; [done|]. by vm_compute. }
  split.
  { exists (zeros 24), (zeros 16), (zeros 424). do 2 (split; [done|]). by vm_compute. }
  split; [evaluate|]. do 3 (split; [done|]). split.
  { repeat constructor; first [done | vm_compute; lia | idtac]. }
  by vm_compute.
Qed.

Lemma sample_fits : @gpt_fits (disk_of 512 sample_disk).
Proof.
  intros sector E. apply (f_equal (fun o => default [] o)) in E. cbn [default from_option id] in E.
  rewrite <- E. cbn zeta. repeat (split; [by vm_compute|]). intros d Ed. right.
  apply (f_equal (fun o => default [] o)) in Ed. cbn [default from_option id] in Ed.
  rewrite <- Ed. by vm_compute.
Qed.

(** The reserved partition is reported as raw, with the label [MSR]. *)
Example reserved_partition_is_raw :
  map (fun p => (p_Offset p, p_Size p, p_Content p, p_FsName p))
    (@table_partitions (disk_of 512 sample_disk) (TableGPT sample_header sample_slots))
  = [(2048, 1024, FilesystemFAT32, FsESP); (4096, 1024, RawPartition, FsMSR)].
Proof. by vm_compute. Qed.

(** A name of 36 characters has no terminator in its entry: in the last entry
    the parser reads on behind the array. *)
Example unterminated_name_overruns :
  let name := repeat 65 36 in
  let last := slot_image 56 (Some (entry_of MSR_GUID 8 9, [])) ++ enc_wide name in
  @Parse (disk_of 512 (gpt_image (zeros 384 ++ last))) 1 no_layout = None.
Proof. by vm_compute. Qed.

(** ** Witnesses *)

Lemma free_space_is_complement_witness :
  let part off size := set_content RawPartition false FsRaw
    (mbr_partition 0 {| mbr_Type := 7; mbr_StartLBA := off; mbr_SectorCount := size |} 512) in
  let l := add_partition (part 2 2) (add_partition (part 8 4) (set_Disk
    {| d_DeviceNumber := 0; d_Size := 8192; d_SectorSize := 512; d_Style := MBR; d_GPT := GPTInfo_zero |}
    no_layout)) in
  Forall partition_wf (Partitions l) /\ Exists (in_range 6150) (FreeRanges (CalculateFreeSpace l)) /\
  FreeRanges (CalculateFreeSpace l) = [range 0 1024; range 2048 2048; range 6144 2048].
Proof.
  cbn zeta. split; [repeat constructor; by vm_compute|]. split; [|by vm_compute].
  refine (proj2 (proj1 (free_space_is_complement _ 6150 _ _)) _).
  - repeat constructor; by vm_compute.
  - by vm_compute.
  - split; [|left; by vm_compute]. intros He. apply Exists_exists in He as (p & Hp & Hin).
    unfold in_partition in Hin. cbn [add_partition set_Disk Partitions no_layout app] in Hp.
    apply elem_of_cons in Hp as [->|Hp]; [|apply list_elem_of_singleton in Hp as ->];
      vm_compute in Hin; intuition congruence.
Defined.

Lemma Parse_reads_tables_witness :
  let dev := disk_of 512 sample_disk in
  exists l', @Parse dev 1 no_layout = Some (true, l') /\
    map (fun p => (p_Index p, p_Offset p, p_Name p)) (Partitions l')
    = [(0, 2048, [69; 70; 73]); (2, 4096, [77; 83; 82])] /\
    length (MetadataRanges l') = 6%nat.
Proof.
  cbn zeta.
  destruct (@Parse_reads_tables (disk_of 512 sample_disk) 1 no_layout (TableGPT sample_header sample_slots))
    as (l' & E & Hp & _ & _ & _ & _ & _ & Hm & _); [by vm_compute|apply sample_on_disk|].
  exists l'. split; [exact E|]. rewrite Hp, Hm. split; by vm_compute.
Defined.

Lemma Parse_bounds_witness :
  (exists r l' ps, @Parse (disk_of 512 sample_disk) 1 no_layout = Some (r, l') /\
     Partitions l' = Partitions no_layout ++ ps /\ Forall classified ps) /\
  @Parse (disk_of 8192 (zeros 8192)) 1 no_layout = None.
Proof.
  split.
  - apply (@Parse_bounds (disk_of 512 sample_disk)); [by vm_compute|apply sample_fits].
  - apply (@Parse_bounds (disk_of 8192 (zeros 8192))); by vm_compute.
Defined.
