(* ===== verification/VolumeMapper.v ===== *)
(** * Volumes and partitions

    [client/VolumeMapper.{h,cpp}]: the volumes of the system with the place of
    their first extent, matched by offset with the partitions of a disk.  The
    volume functions of the system are the class [VolumeApi]. *)

From S2P Require Import Prelude.
From S2P Require Import DiskParser.

(** ** The system *)

(** One extent of a volume ([DISK_EXTENT]). *)
Record DiskExtent := { x_DiskNumber : Z; x_StartingOffset : Z; x_ExtentLength : Z }.

Class VolumeApi := {
  (* FindFirstVolumeW and the names FindNextVolumeW gives after it *)
  api_Volumes : option (list Z * list (list Z));
  (* GetVolumePathNamesForVolumeNameW: the buffer it fills *)
  api_PathNames : list Z -> option (list Z);
  (* CreateFileW of a volume for queries *)
  api_Open : list Z -> bool;
  (* IOCTL_VOLUME_GET_VOLUME_DISK_EXTENTS *)
  api_Extents : list Z -> option (list DiskExtent);
}.

(** ** Data *)

Record VolumeInfo := {
  v_VolumeGuid : list Z; v_DriveLetter : list Z; v_DiskNumber : Z; v_DiskOffset : Z; v_Size : Z }.

Record MappedPartition := {
  mp_Partition : PartitionInfo; mp_VolumeGuid : list Z; mp_DriveLetter : list Z }.

Record VolumeMapper := { m_volumes : list VolumeInfo; m_mapped : list MappedPartition }.

Definition VolumeMapper_new : VolumeMapper := {| m_volumes := []; m_mapped := [] |}.

(** [if (!s.empty() && s.back() == '\\') s.pop_back()]. *)
Definition BACKSLASH : Z := 0x5C.
Definition pop_backslash (s : list Z) : list Z :=
  if bool_decide (last s = Some BACKSLASH) then removelast s else s.

Section mapper.
Context `{VolumeApi}.

(** ** Operations *)

Definition EnumerateVolumes : list (list Z) :=
  match api_Volumes with None => [] | Some (first, next) => first :: next end.

Definition GetDriveLetter (volumeGuid : list Z) : list Z :=
  match api_PathNames volumeGuid with
  | None => []
  | Some pathNames => pop_backslash (c_str pathNames)
  end.

(** The query of an open volume: the first of its extents. *)
Definition query_extents (devicePath : list Z) (info : VolumeInfo) : bool * VolumeInfo :=
  match api_Extents devicePath with
  | None | Some [] => (false, info)
  | Some (extent :: _) =>
      (true, {| v_VolumeGuid := v_VolumeGuid info; v_DriveLetter := v_DriveLetter info;
                v_DiskNumber := s32 (x_DiskNumber extent);
                v_DiskOffset := u64 (x_StartingOffset extent);
                v_Size := u64 (x_ExtentLength extent) |})
  end.

Definition GetVolumeDiskExtents (volumeGuid : list Z) : bool * VolumeInfo :=
  let letter := GetDriveLetter volumeGuid in
  let info := {| v_VolumeGuid := volumeGuid; v_DriveLetter := letter; v_DiskNumber := -1;
                 v_DiskOffset := 0; v_Size := 0 |} in
  let devicePath := pop_backslash volumeGuid in
  match letter with
  | [] => (false, info)
  | _ => if negb (api_Open devicePath) then (false, info) else query_extents devicePath info
  end.

(** The first partition at an offset. *)
Fixpoint partition_at (off : Z) (ps : list PartitionInfo) : option PartitionInfo :=
  match ps with
  | [] => None
  | p :: ps' => if off =? p_Offset p then Some p else partition_at off ps'
  end.

Fixpoint volumes_loop (guids : list (list Z)) (vs : list VolumeInfo) : list VolumeInfo :=
  match guids with
  | [] => vs
  | g :: guids' =>
      let '(ok, info) := GetVolumeDiskExtents g in
      volumes_loop guids' (if ok then vs ++ [info] else vs)
  end.

Fixpoint match_loop (vs : list VolumeInfo) (l : DiskLayout) (mapped : list MappedPartition)
    : list MappedPartition :=
  match vs with
  | [] => mapped
  | v :: vs' =>
      if negb (v_DiskNumber v =? d_DeviceNumber (Disk l)) then match_loop vs' l mapped
      else match partition_at (v_DiskOffset v) (Partitions l) with
           | Some part =>
               match_loop vs' l (mapped ++ [{| mp_Partition := part; mp_VolumeGuid := v_VolumeGuid v;
                                               mp_DriveLetter := v_DriveLetter v |}])
           | None => match_loop vs' l mapped
           end
  end.

(** [Map] clears the two lists first. *)
Definition Map (l : DiskLayout) : bool * VolumeMapper :=
  match EnumerateVolumes with
  | [] => (false, VolumeMapper_new)
  | guids =>
      let vs := volumes_loop guids [] in
      let mapped := match_loop vs l [] in
      (negb (bool_decide (mapped = [])), {| m_volumes := vs; m_mapped := mapped |})
  end.
End mapper.

Definition FindVolumeGuid (offset : Z) (m : VolumeMapper) : list Z :=
  match list_find (fun mp => p_Offset (mp_Partition mp) = offset) (m_mapped m) with
  | Some (_, mp) => mp_VolumeGuid mp
  | None => []
  end.

(** ** Lemmas *)

Section spec.
Context `{VolumeApi}.

Definition volume_of (g : list Z) : option VolumeInfo :=
  let '(ok, info) := GetVolumeDiskExtents g in if ok : bool then Some info else None.

Definition mapped_of (l : DiskLayout) (v : VolumeInfo) : option MappedPartition :=
  if v_DiskNumber v =? d_DeviceNumber (Disk l) then
    part ← partition_at (v_DiskOffset v) (Partitions l);
    Some {| mp_Partition := part; mp_VolumeGuid := v_VolumeGuid v; mp_DriveLetter := v_DriveLetter v |}
  else None.

Lemma partition_at_Some off ps p :
  partition_at off ps = Some p -> p ∈ ps /\ p_Offset p = off.
Proof.
  induction ps as [|q ps IH]; cbn; [done|]. case_if.
  - intros [= ->]. split; [by left|done].
  - intros Hp. destruct (IH Hp). split; [by right|done].
Qed.

Lemma partition_at_is_Some off ps : off ∈ map p_Offset ps -> is_Some (partition_at off ps).
Proof.
  induction ps as [|q ps IH]; cbn; intros Hin; [by apply not_elem_of_nil in Hin|].
  case_if; [by eexists|]. apply elem_of_cons in Hin as [->|Hin]; [done|by apply IH].
Qed.

Lemma volumes_loop_omap guids vs : volumes_loop guids vs = vs ++ omap volume_of guids.
Proof.
  revert vs. induction guids as [|g guids IH]; intros vs; cbn; [by rewrite app_nil_r|].
  unfold volume_of at 1. destruct (GetVolumeDiskExtents g) as [[] info]; rewrite IH; [|done].
  by rewrite <- app_assoc.
Qed.

Lemma match_loop_omap vs l mapped : match_loop vs l mapped = mapped ++ omap (mapped_of l) vs.
Proof.
  revert mapped. induction vs as [|v vs IH]; intros mapped; cbn; [by rewrite app_nil_r|].
  unfold mapped_of at 1. destruct (v_DiskNumber v =? _); cbn [negb]; [|apply IH].
  destruct (partition_at _ _); cbn [mbind option_bind]; rewrite IH; [by rewrite <- app_assoc|done].
Qed.

Lemma GetVolumeDiskExtents_true g info :
  GetVolumeDiskExtents g = (true, info) -> v_VolumeGuid info = g /\ v_DriveLetter info <> [].
Proof.
  unfold GetVolumeDiskExtents, query_extents. destruct (GetDriveLetter g); [done|]. case_if; [done|].
  destruct (api_Extents _) as [[|x xs]|]; [done| |done]. by intros [= <-].
Qed.

(** What [mp] records of volume [g]. *)
Definition maps_volume (l : DiskLayout) (g : list Z) (mp : MappedPartition) : Prop :=
  exists info, GetVolumeDiskExtents g = (true, info) /\ mp_VolumeGuid mp = g /\
    mp_DriveLetter mp = v_DriveLetter info /\ mp_DriveLetter mp <> [] /\
    v_DiskNumber info = d_DeviceNumber (Disk l) /\
    mp_Partition mp ∈ Partitions l /\ p_Offset (mp_Partition mp) = v_DiskOffset info.

Lemma mapped_of_volume l g v mp :
  volume_of g = Some v -> mapped_of l v = Some mp -> maps_volume l g mp.
Proof.
  unfold volume_of. destruct (GetVolumeDiskExtents g) as [[] info] eqn:E; [|done]. intros [= ->].
  unfold mapped_of. case_if; [|done]. destruct (partition_at _ _) as [part|] eqn:Ep; [|done].
  cbn. intros [= <-]. apply partition_at_Some in Ep as [??].
  destruct (GetVolumeDiskExtents_true g v E) as [Hg ?]. by exists v.
Qed.
End spec.

(** C33: [Map] keeps, in the order of the system, the volumes it can query that
    have a drive letter, and maps exactly those whose first extent starts where
    a partition of this disk starts, each to that partition; it succeeds when
    there is one.  [FindVolumeGuid] gives a volume mapped to a partition at the
    offset, or the empty string when there is none. *)
Theorem Map_correct `{VolumeApi} l :
  let '(ok, m) := Map l in
  ok = negb (bool_decide (m_mapped m = [])) /\
  m_volumes m = omap volume_of EnumerateVolumes /\
  (forall mp, mp ∈ m_mapped m -> exists g, g ∈ EnumerateVolumes /\ maps_volume l g mp) /\
  (forall g info, g ∈ EnumerateVolumes -> GetVolumeDiskExtents g = (true, info) ->
     v_DiskNumber info = d_DeviceNumber (Disk l) -> v_DiskOffset info ∈ map p_Offset (Partitions l) ->
     exists mp, mp ∈ m_mapped m /\ maps_volume l g mp) /\
  (forall off, (exists mp, mp ∈ m_mapped m /\ p_Offset (mp_Partition mp) = off /\
                  FindVolumeGuid off m = mp_VolumeGuid mp) \/
               (FindVolumeGuid off m = [] /\ off ∉ map (fun mp => p_Offset (mp_Partition mp)) (m_mapped m))).
Proof.
  assert (Map l = (let mapped := omap (mapped_of l) (omap volume_of EnumerateVolumes) in
                   (negb (bool_decide (mapped = [])),
                    {| m_volumes := omap volume_of EnumerateVolumes; m_mapped := mapped |}))) as ->.
  { unfold Map. destruct EnumerateVolumes as [|g gs]; [done|].
    by rewrite volumes_loop_omap, match_loop_omap. }
  cbn zeta beta iota. cbn [m_volumes m_mapped]. split; [done|]. split; [done|]. split_and!.
  - intros mp (v & (g & Hg & Hv)%list_elem_of_omap & Hm)%list_elem_of_omap. exists g. split; [done|].
    by eapply mapped_of_volume.
  - intros g info Hg Hi Hd Ho. assert (volume_of g = Some info) as Hv by (unfold volume_of; by rewrite Hi).
    destruct (partition_at_is_Some _ _ Ho) as [part Hp].
    assert (exists mp, mapped_of l info = Some mp) as [mp Hmp].
    { unfold mapped_of. rewrite Hd, Z.eqb_refl, Hp. by eexists. }
    exists mp. split; [|by eapply mapped_of_volume].
    apply list_elem_of_omap. exists info. split; [|done]. apply list_elem_of_omap. by exists g.
  - intros off. unfold FindVolumeGuid. cbn [m_mapped]. destruct (list_find _ _) as [[i mp]|] eqn:E.
    + left. apply list_find_Some in E as (Hi & Ho & _). exists mp. split; [|done].
      by eapply list_elem_of_lookup_2.
    + right. apply list_find_None in E. split; [done|]. intros (mp & -> & Hin)%list_elem_of_fmap.
      rewrite Forall_forall in E. by apply (E mp).
Qed.

(** ** A system with two volumes *)

(** Volume [A\] is drive [C:] at offset 1024 of disk 0, volume [B\] has no
    letter. *)
Definition sample_volumes : VolumeApi := {|
  api_Volumes := Some ([65; BACKSLASH], [[66; BACKSLASH]]);
  api_PathNames := fun g => if bool_decide (g = [65; BACKSLASH]) then Some [67; 58; BACKSLASH; 0; 0] else Some [0; 0];
  api_Open := fun _ => true;
  api_Extents := fun d => Some [{| x_DiskNumber := 0; x_StartingOffset := 1024; x_ExtentLength := 512 |}] |}.

Definition sample_partition : PartitionInfo :=
  set_content FilesystemNTFS false FsNTFS
    (mbr_partition 0 {| mbr_Type := 7; mbr_StartLBA := 2; mbr_SectorCount := 1 |} 512).
Definition sample_layout : DiskLayout :=
  {| Disk := {| d_DeviceNumber := 0; d_Size := 2048; d_SectorSize := 512; d_Style := MBR; d_GPT := GPTInfo_zero |};
     Partitions := [sample_partition]; FreeRanges := []; MetadataRanges := [] |}.

Lemma Map_correct_witness :
  let m := snd (@Map sample_volumes sample_layout) in
  @Map sample_volumes sample_layout = (true, m) /\
  map mp_DriveLetter (m_mapped m) = [[67; 58]] /\ FindVolumeGuid 1024 m = [65; BACKSLASH] /\
  (exists mp, mp ∈ m_mapped m /\ @maps_volume sample_volumes sample_layout [65; BACKSLASH] mp).
Proof.
  cbn zeta. do 3 (split; [by vm_compute|]).
  destruct (@Map_correct sample_volumes sample_layout) as (_ & _ & _ & Hc & _).
  eapply (Hc [65; BACKSLASH]); [left|by vm_compute|done|]. vm_compute. left.
Defined.
