(* ===== verification/VssManager.v ===== *)
(** * Shadow copies

    [client/VssManager.{h,cpp}]: the snapshot set of a backup.  The service is
    the class [VssApi], which answers each call from the whole history of calls;
    the history is part of the state, so that what the module asks of the
    service can be stated.  [m_lastError], a text for an accessor no code calls, is left out. *)

From S2P Require Import Prelude.

(** ** The service *)

Inductive VssCall :=
  | CoInitializeEx | CoUninitialize
  | CreateVssBackupComponents
  | InitializeForBackup | SetBackupState_call | GatherWriterMetadata | GetWriterMetadataCount
  | StartSnapshotSet_call | AddToSnapshotSet (volPath : list Z)
  | PrepareForBackup | DoSnapshotSet_call
  | GetSnapshotProperties_call (snapshotId : list Z)
  | BackupComplete | DeleteSnapshots (snapshotSetId : list Z) | Release
  | QueryStatus | Async_Release | Async_Cancel | Sleep (ms : Z)
  | Query_snapshots | Enum_Next | Enum_Release
  | GetWriterMetadata (i : Z) | GetIdentity | Metadata_Release.

(** The result of a call and its out-parameters: an identifier, whether a
    pointer is not null (an object was fetched), the status of an asynchronous
    operation (the type of an object, a count of deletions or writers), a device name
    ([None]: a null pointer). *)
Record VssReply := {
  r_hr : Z; r_id : list Z; r_async : bool; r_status : Z; r_device : option (list Z) }.

Abbreviation history := (list (VssCall * VssReply)).

Class VssApi := { answer : history -> VssCall -> VssReply }.

(** An [HRESULT] is a 32-bit pattern; a failure has its top bit set. *)
Definition FAILED (hr : Z) : bool := s32 hr <? 0.
Definition SUCCEEDED (hr : Z) : bool := 0 <=? s32 hr.
Definition VSS_S_ASYNC_FINISHED : Z := 0x0004230A.
Definition VSS_S_ASYNC_CANCELLED : Z := 0x0004230B.

(** ** Ordered maps ([std::map] with strings as keys) *)

Fixpoint lex_lt (a b : list Z) : bool :=
  match a, b with
  | [], [] => false
  | [], _ => true
  | _, [] => false
  | x :: a', y :: b' => if x <? y then true else if y <? x then false else lex_lt a' b'
  end.

Fixpoint map_find {A} (k : list Z) (m : list (list Z * A)) : option A :=
  match m with
  | [] => None
  | (k', v) :: m' => if decide (k = k') then Some v else map_find k m'
  end.

Fixpoint map_insert {A} (k : list Z) (v : A) (m : list (list Z * A)) : list (list Z * A) :=
  match m with
  | [] => [(k, v)]
  | (k', v') :: m' =>
      if decide (k = k') then (k, v) :: m'
      else if lex_lt k k' then (k, v) :: (k', v') :: m'
      else (k', v') :: map_insert k v m'
  end.

(** ** The manager *)

Record SnapshotVolumeInfo := {
  OriginalVolumeGuid : list Z; SnapshotDevicePath : list Z; SnapshotId : list Z; SnapshotSetId : list Z }.

Definition GUID_NULL : list Z := zeros 16.

Record VssManager := {
  m_initialized : bool; m_snapshotCreated : bool; m_pVss : bool; m_snapshotSetId : list Z;
  m_snapshotMap : list (list Z * SnapshotVolumeInfo); m_volumeToSnapshotId : list (list Z * list Z);
  m_calls : history }.

Definition VssManager_new (h : history) : VssManager :=
  {| m_initialized := false; m_snapshotCreated := false; m_pVss := false; m_snapshotSetId := GUID_NULL;
     m_snapshotMap := []; m_volumeToSnapshotId := []; m_calls := h |}.

Definition set_initialized (b : bool) (s : VssManager) : VssManager :=
  {| m_initialized := b; m_snapshotCreated := m_snapshotCreated s; m_pVss := m_pVss s;
     m_snapshotSetId := m_snapshotSetId s; m_snapshotMap := m_snapshotMap s;
     m_volumeToSnapshotId := m_volumeToSnapshotId s; m_calls := m_calls s |}.
Definition set_snapshotCreated (b : bool) (s : VssManager) : VssManager :=
  {| m_initialized := m_initialized s; m_snapshotCreated := b; m_pVss := m_pVss s;
     m_snapshotSetId := m_snapshotSetId s; m_snapshotMap := m_snapshotMap s;
     m_volumeToSnapshotId := m_volumeToSnapshotId s; m_calls := m_calls s |}.
Definition set_pVss (b : bool) (s : VssManager) : VssManager :=
  {| m_initialized := m_initialized s; m_snapshotCreated := m_snapshotCreated s; m_pVss := b;
     m_snapshotSetId := m_snapshotSetId s; m_snapshotMap := m_snapshotMap s;
     m_volumeToSnapshotId := m_volumeToSnapshotId s; m_calls := m_calls s |}.
Definition set_snapshotSetId (g : list Z) (s : VssManager) : VssManager :=
  {| m_initialized := m_initialized s; m_snapshotCreated := m_snapshotCreated s; m_pVss := m_pVss s;
     m_snapshotSetId := g; m_snapshotMap := m_snapshotMap s;
     m_volumeToSnapshotId := m_volumeToSnapshotId s; m_calls := m_calls s |}.
Definition set_snapshotMap (m : list (list Z * SnapshotVolumeInfo)) (s : VssManager) : VssManager :=
  {| m_initialized := m_initialized s; m_snapshotCreated := m_snapshotCreated s; m_pVss := m_pVss s;
     m_snapshotSetId := m_snapshotSetId s; m_snapshotMap := m;
     m_volumeToSnapshotId := m_volumeToSnapshotId s; m_calls := m_calls s |}.
Definition set_volumeToSnapshotId (m : list (list Z * list Z)) (s : VssManager) : VssManager :=
  {| m_initialized := m_initialized s; m_snapshotCreated := m_snapshotCreated s; m_pVss := m_pVss s;
     m_snapshotSetId := m_snapshotSetId s; m_snapshotMap := m_snapshotMap s;
     m_volumeToSnapshotId := m; m_calls := m_calls s |}.
Definition set_calls (h : history) (s : VssManager) : VssManager :=
  {| m_initialized := m_initialized s; m_snapshotCreated := m_snapshotCreated s; m_pVss := m_pVss s;
     m_snapshotSetId := m_snapshotSetId s; m_snapshotMap := m_snapshotMap s;
     m_volumeToSnapshotId := m_volumeToSnapshotId s; m_calls := h |}.

Section manager.
Context `{VssApi}.

Definition ask (c : VssCall) (s : VssManager) : VssReply * VssManager :=
  let r := answer (m_calls s) c in (r, set_calls (m_calls s ++ [(c, r)]) s).
Definition tell (c : VssCall) (s : VssManager) : VssManager := snd (ask c s).

(** *** Waiting for an asynchronous operation *)

(** One poll a second, [elapsed] a [DWORD]: [None] when the fuel does not
    reach the end of the loop. *)
Definition pollInterval : Z := 1000.

Fixpoint wait_loop (fuel : nat) (elapsed timeoutMs : Z) (s : VssManager) : option (bool * VssManager) :=
  if elapsed <? timeoutMs then
    match fuel with
    | O => None
    | S fuel' =>
        let '(q, s) := ask QueryStatus s in
        let finished := (r_hr q =? VSS_S_ASYNC_FINISHED) || (r_status q =? VSS_S_ASYNC_FINISHED) in
        let cancelled := (r_hr q =? VSS_S_ASYNC_CANCELLED) || (r_status q =? VSS_S_ASYNC_CANCELLED) in
        if FAILED (r_hr q) then Some (false, tell Async_Release s)
        else if finished then Some (negb (FAILED (r_status q)), tell Async_Release s)
        else if cancelled then Some (false, tell Async_Release s)
        else wait_loop fuel' (u32 (elapsed + pollInterval)) timeoutMs (tell (Sleep pollInterval) s)
    end
  else Some (false, tell Async_Release (tell Async_Cancel s)).

(** The fuel covers the polls that fit the limit. *)
Definition WaitForAsyncOperation (pAsync : bool) (timeoutMs : Z) (s : VssManager)
    : option (bool * VssManager) :=
  if negb pAsync then Some (false, s)
  else wait_loop (Z.to_nat (timeoutMs / pollInterval + 2)) 0 timeoutMs s.

Definition DEFAULT_TIMEOUT : Z := 600000.

(** [if (SUCCEEDED(hr) && pAsync)] wait, and log what came out. *)
Definition wait_if (r : VssReply) (timeoutMs : Z) (s : VssManager) : option VssManager :=
  if SUCCEEDED (r_hr r) && r_async r then w ← WaitForAsyncOperation true timeoutMs s; Some (snd w)
  else Some s.

(** *** Operations *)

(** The names of the writers, for the log. *)
Fixpoint writers_loop (n : nat) (i : Z) (s : VssManager) : VssManager :=
  match n with
  | O => s
  | S n' =>
      let '(r, s) := ask (GetWriterMetadata i) s in
      writers_loop n' (i + 1) (if SUCCEEDED (r_hr r) then tell Metadata_Release (tell GetIdentity s) else s)
  end.
Definition list_writers (s : VssManager) : VssManager :=
  let '(r, s) := ask GetWriterMetadataCount s in
  if SUCCEEDED (r_hr r) then writers_loop (Z.to_nat (u32 (r_status r))) 0 s else s.

Definition Initialize (s : VssManager) : option (bool * VssManager) :=
  if m_initialized s then Some (true, s)
  else
    let s := tell CoInitializeEx s in
    let '(r, s) := ask CreateVssBackupComponents s in
    if FAILED (r_hr r) then Some (false, s)
    else
      let s := set_pVss true s in
      let '(r, s) := ask InitializeForBackup s in
      if FAILED (r_hr r) then Some (false, set_pVss false (tell Release s))
      else
        let '(r, s) := ask SetBackupState_call s in
        if FAILED (r_hr r) then Some (false, set_pVss false (tell Release s))
        else
          let '(r, s) := ask GatherWriterMetadata s in
          s ← wait_if r 300000 s;
          Some (true, set_initialized true (list_writers s)).

Definition StartSnapshotSet (s : VssManager) : bool * VssManager :=
  if negb (m_initialized s) || negb (m_pVss s) then (false, s)
  else
    let '(r, s) := ask StartSnapshotSet_call s in
    if FAILED (r_hr r) then (false, s) else (true, set_snapshotSetId (r_id r) s).

(** [if (!p.empty() && p.back() != '\\') p += '\\']. *)
Definition push_backslash (p : list Z) : list Z :=
  match last p with None => p | Some c => if c =? 0x5C then p else p ++ [0x5C] end.

(** The identifier the out-parameter receives, where the call succeeds. *)
Definition AddVolumeToSnapshotSet (volumeGuid : list Z) (s : VssManager) : option (list Z) * VssManager :=
  if negb (m_initialized s) || negb (m_pVss s) then (None, s)
  else
    let '(r, s) := ask (AddToSnapshotSet (push_backslash volumeGuid)) s in
    if FAILED (r_hr r) then (None, s)
    else
      let s := set_volumeToSnapshotId (map_insert volumeGuid (r_id r) (m_volumeToSnapshotId s)) s in
      let s := match m_snapshotMap s with [] => set_snapshotSetId (r_id r) s | _ => s end in
      (Some (r_id r), s).

Definition SetBackupState (s : VssManager) : bool * VssManager :=
  if negb (m_initialized s) || negb (m_pVss s) then (false, s)
  else (true, tell SetBackupState_call s).

Definition AddSnapshotInfo (snapshotId snapshotSetId originalVolume snapshotDevice : list Z)
    (s : VssManager) : VssManager :=
  set_snapshotMap
    (map_insert originalVolume
       {| OriginalVolumeGuid := originalVolume; SnapshotDevicePath := snapshotDevice;
          SnapshotId := snapshotId; SnapshotSetId := snapshotSetId |} (m_snapshotMap s)) s.

Fixpoint properties_loop (l : list (list Z * list Z)) (s : VssManager) : VssManager :=
  match l with
  | [] => s
  | (volumeGuid, snapshotId) :: l' =>
      let '(r, s) := ask (GetSnapshotProperties_call snapshotId) s in
      if FAILED (r_hr r) then properties_loop l' s
      else properties_loop l'
             (AddSnapshotInfo snapshotId (m_snapshotSetId s) volumeGuid (default [] (r_device r)) s)
  end.

Definition GetSnapshotProperties (s : VssManager) : bool * VssManager :=
  if negb (m_pVss s) then (false, s)
  else
    let s := properties_loop (m_volumeToSnapshotId s) s in
    (match m_snapshotMap s with [] => false | _ => true end, s).

Definition DoSnapshotSet (s : VssManager) : option (bool * VssManager) :=
  if negb (m_initialized s) || negb (m_pVss s) then Some (false, s)
  else
    match m_volumeToSnapshotId s with
    | [] => Some (false, s)
    | _ =>
        let '(r, s) := ask PrepareForBackup s in
        s ← wait_if r DEFAULT_TIMEOUT s;
        let '(r, s) := ask DoSnapshotSet_call s in
        if FAILED (r_hr r) then Some (false, s)
        else
          w ← WaitForAsyncOperation (r_async r) DEFAULT_TIMEOUT s;
          let '(ok, s) := w in
          if negb ok then Some (false, s)
          else
            let '(ok, s) := GetSnapshotProperties s in
            if negb ok then Some (false, s) else Some (true, set_snapshotCreated true s)
    end.

Definition GetSnapshotDevicePath (volumeGuid : list Z) (s : VssManager) : option (list Z) :=
  SnapshotDevicePath <$> map_find volumeGuid (m_snapshotMap s).

Definition QuerySnapshotProperties (volumeGuid : list Z) (s : VssManager) : bool * VssManager :=
  if negb (m_pVss s) then (false, s)
  else match map_find volumeGuid (m_volumeToSnapshotId s) with
       | None => (false, s)
       | Some snapshotId =>
           let '(r, s) := ask (GetSnapshotProperties_call snapshotId) s in (negb (FAILED (r_hr r)), s)
       end.

Definition Cleanup (s : VssManager) : option VssManager :=
  s ← (if m_pVss s && m_snapshotCreated s then
         let '(r, s) := ask BackupComplete s in
         s ← wait_if r 300000 s;
         Some (set_snapshotCreated false (tell (DeleteSnapshots (m_snapshotSetId s)) s))
       else Some s);
  let s := if m_pVss s then set_pVss false (tell Release s) else s in
  let s := tell CoUninitialize s in
  Some (set_volumeToSnapshotId [] (set_snapshotMap [] (set_initialized false s))).

(** *** The static functions *)

Definition IsVssAvailable (s : VssManager) : bool * VssManager :=
  let '(r, s) := ask CreateVssBackupComponents s in
  if FAILED (r_hr r) then (false, s) else (true, tell Release s).

Definition VSS_OBJECT_SNAPSHOT : Z := 3.

Fixpoint orphans_loop (fuel : nat) (deletedCount : Z) (s : VssManager) : option (Z * VssManager) :=
  match fuel with
  | O => None
  | S fuel' =>
      let '(r, s) := ask Enum_Next s in
      if SUCCEEDED (r_hr r) && r_async r then
        if r_status r =? VSS_OBJECT_SNAPSHOT then
          let '(d, s) := ask (DeleteSnapshots (r_id r)) s in
          orphans_loop fuel'
            (if SUCCEEDED (r_hr d) && (0 <? r_status d) then s32 (deletedCount + r_status d)
             else deletedCount) s
        else orphans_loop fuel' deletedCount s
      else Some (deletedCount, s)
  end.

(** The local pointer is the [m_pVss] of the state; [fuel] bounds the objects
    of the enumeration. *)
Definition DeleteOrphanedSnapshots (fuel : nat) (s : VssManager) : option (Z * VssManager) :=
  let s := tell CoInitializeEx s in
  let '(r, s) := ask CreateVssBackupComponents s in
  if FAILED (r_hr r) then Some (-1, tell CoUninitialize s)
  else
    let '(r, s) := ask InitializeForBackup s in
    if FAILED (r_hr r) then Some (-1, tell CoUninitialize (tell Release s))
    else
      let '(r, s) := ask Query_snapshots s in
      if FAILED (r_hr r) || negb (r_async r) then Some (0, tell CoUninitialize (tell Release s))
      else
        w ← orphans_loop fuel 0 s;
        let '(n, s) := w in
        Some (n, tell CoUninitialize (tell Release (tell Enum_Release s))).

(** [~VssManager]. *)
Definition VssManager_delete (s : VssManager) : option VssManager :=
  if m_initialized s then Cleanup s else Some s.
End manager.

(** ** The protocol of the service

    Which component object is held and whether an asynchronous operation is
    pending, from the history: [None] is a call on an object that is not held,
    a second object, an operation started while one is pending, or an object
    released with one pending. *)

Definition vss_next (st : bool * bool) (e : VssCall * VssReply) : option (bool * bool) :=
  let '(held, pending) := st in
  match e.1 with
  | CoInitializeEx | CoUninitialize | Sleep _ => Some st
  | CreateVssBackupComponents => if held then None else Some (negb (FAILED (r_hr e.2)), pending)
  | Release => if held && negb pending then Some (false, pending) else None
  | QueryStatus | Async_Cancel => if pending then Some st else None
  | Async_Release => if pending then Some (held, false) else None
  | GatherWriterMetadata | PrepareForBackup | DoSnapshotSet_call | BackupComplete =>
      if held && negb pending then Some (held, SUCCEEDED (r_hr e.2) && r_async e.2) else None
  | _ => if held then Some st else None
  end.

Definition vss_run (h : history) : option (bool * bool) :=
  fold_left (fun st e => st ← st; vss_next st e) h (Some (false, false)).

(** The history is one the service allows, and it left the object the manager
    points to, with [p] for a pending operation. *)
Definition safe (p : bool) (s : VssManager) : Prop := vss_run (m_calls s) = Some (m_pVss s, p).

Lemma FAILED_SUCCEEDED hr : SUCCEEDED hr = negb (FAILED hr).
Proof. unfold SUCCEEDED, FAILED. lia. Qed.

Section protocol.
Context `{VssApi}.

Lemma ask_run c s r s' :
  ask c s = (r, s') ->
  s' = set_calls (m_calls s ++ [(c, r)]) s /\
  vss_run (m_calls s') = (st ← vss_run (m_calls s); vss_next st (c, r)).
Proof.
  unfold ask. intros [= <- <-]. split; [done|]. unfold vss_run at 1. cbn. by rewrite fold_left_app.
Qed.

(** A call the protocol allows here. *)
Lemma ask_safe c s r s' p st :
  safe p s -> ask c s = (r, s') -> vss_next (m_pVss s, p) (c, r) = Some st ->
  vss_run (m_calls s') = Some st /\ s' = set_calls (m_calls s ++ [(c, r)]) s.
Proof.
  intros Hs Ha Hn. apply ask_run in Ha as [E Hr]. split; [|done]. rewrite Hr, Hs. exact Hn.
Qed.

Lemma tell_safe c s p q :
  safe p s -> (forall r, vss_next (m_pVss s, p) (c, r) = Some (m_pVss s, q)) -> safe q (tell c s).
Proof.
  intros Hs Hn. unfold tell. destruct (ask c s) as [r s'] eqn:E. cbn.
  destruct (ask_safe _ _ _ _ _ _ Hs E (Hn r)) as [Hr ->]. exact Hr.
Qed.

(** The fields apart from the history. *)
Definition same_fields (s s' : VssManager) : Prop := s' = set_calls (m_calls s') s.

Lemma same_fields_refl s : same_fields s s.
Proof. by destruct s. Qed.
Lemma same_fields_trans s1 s2 s3 : same_fields s1 s2 -> same_fields s2 s3 -> same_fields s1 s3.
Proof.
  unfold same_fields. intros E1 E2. transitivity (set_calls (m_calls s3) s2); [exact E2|]. by rewrite E1.
Qed.
Lemma ask_fields c s r s' : ask c s = (r, s') -> same_fields s s'.
Proof. unfold ask. by intros [= <- <-]. Qed.
Lemma tell_fields c s : same_fields s (tell c s).
Proof. done. Qed.

(** *** Waiting *)

(** What a poll decides: the result of the wait, or nothing yet. *)
Definition verdict (q : VssReply) : option bool :=
  if FAILED (r_hr q) then Some false
  else if (r_hr q =? VSS_S_ASYNC_FINISHED) || (r_status q =? VSS_S_ASYNC_FINISHED)
  then Some (negb (FAILED (r_status q)))
  else if (r_hr q =? VSS_S_ASYNC_CANCELLED) || (r_status q =? VSS_S_ASYNC_CANCELLED) then Some false
  else None.

(** The polls that leave the wait undecided, with the pauses after them. *)
Definition idle_polls (qs : list (VssReply * VssReply)) : history :=
  flat_map (fun '(q, z) => [(QueryStatus, q); (Sleep pollInterval, z)]) qs.

(** How a wait ends: by the poll that decides it, or by the limit after [n]
    polls. *)
Inductive wait_end (n : nat) (k : nat) : bool -> history -> Prop :=
  | wait_decided b q z : verdict q = Some b -> (k < n)%nat ->
      wait_end n k b [(QueryStatus, q); (Async_Release, z)]
  | wait_timed_out c z : k = n -> wait_end n k false [(Async_Cancel, c); (Async_Release, z)].

(** Polls that fit the limit. *)
Definition poll_limit (timeoutMs : Z) : nat := Z.to_nat ((timeoutMs + 999) / 1000).

Lemma wait_loop_spec fuel : forall elapsed timeoutMs s,
  0 <= elapsed -> elapsed <= timeoutMs + 999 -> timeoutMs + 999 < 2 ^ 32 ->
  (poll_limit (timeoutMs - elapsed) < fuel)%nat ->
  exists b s' qs e, wait_loop fuel elapsed timeoutMs s = Some (b, s') /\ same_fields s s' /\
    m_calls s' = m_calls s ++ idle_polls qs ++ e /\ Forall (fun x => verdict x.1 = None) qs /\
    wait_end (poll_limit (timeoutMs - elapsed)) (length qs) b e.
Proof.
  induction fuel as [|fuel IH]; intros elapsed timeoutMs s H0 Hle Hb Hf; [lia|].
  cbn [wait_loop]. case_if.
  2:{ unfold tell, ask. cbn. eexists _, _, [], _. split; [done|]. split; [done|].
      split; [by rewrite <- app_assoc|]. split; [done|].
      apply wait_timed_out. unfold poll_limit. cbn [length].
      assert ((timeoutMs - elapsed + 999) / 1000 <= 0) by (apply Z.lt_succ_r, Z.div_lt_upper_bound; lia). lia. }
  assert (1 <= poll_limit (timeoutMs - elapsed))%nat as Hpos.
  { unfold poll_limit. assert (1 <= (timeoutMs - elapsed + 999) / 1000) by (apply Z.div_le_lower_bound; lia). lia. }
  destruct (ask QueryStatus s) as [q s1] eqn:Eq.
  assert (s1 = set_calls (m_calls s ++ [(QueryStatus, q)]) s) as E1 by (by apply ask_run in Eq as [? _]).
  assert (forall b, verdict q = Some b -> exists b' s' qs e,
    Some (b, tell Async_Release s1) = Some (b', s') /\ same_fields s s' /\
    m_calls s' = m_calls s ++ idle_polls qs ++ e /\ Forall (fun x => verdict x.1 = None) qs /\
    wait_end (poll_limit (timeoutMs - elapsed)) (length qs) b' e) as Hdone.
  { intros b Hv. subst s1. unfold tell, ask. cbn. eexists _, _, [], _. split; [done|]. split; [done|].
    split; [by rewrite <- app_assoc|]. split; [done|]. apply wait_decided; [done|cbn; lia]. }
  destruct (FAILED (r_hr q)) eqn:Ef; [apply Hdone; unfold verdict; by rewrite Ef|].
  destruct ((r_hr q =? VSS_S_ASYNC_FINISHED) || _) eqn:Efin.
  { apply Hdone. unfold verdict. by rewrite Ef, Efin. }
  destruct ((r_hr q =? VSS_S_ASYNC_CANCELLED) || _) eqn:Ecan.
  { apply Hdone. unfold verdict. by rewrite Ef, Efin, Ecan. }
  assert (verdict q = None) as Hv by (unfold verdict; by rewrite Ef, Efin, Ecan).
  unfold pollInterval in *. rewrite (wrap_small 32) by (unfold in_width; lia).
  assert (poll_limit (timeoutMs - elapsed) = S (poll_limit (timeoutMs - (elapsed + 1000)))) as Hstep.
  { unfold poll_limit in *. replace (timeoutMs - elapsed + 999) with (timeoutMs - (elapsed + 1000) + 999 + 1 * 1000) by lia.
    rewrite Z.div_add by lia.
    assert (0 <= (timeoutMs - (elapsed + 1000) + 999) / 1000) by (apply Z.div_pos; lia). lia. }
  destruct (IH (elapsed + 1000) timeoutMs (tell (Sleep 1000) s1)) as (b & s' & qs & e & -> & Hs' & Hc & Hq & He); [lia..|].
  eexists b, s', ((q, _) :: qs), e. split; [done|]. split.
  { eapply same_fields_trans; [by eapply ask_fields|]. eapply same_fields_trans; [|exact Hs']. done. }
  split; [rewrite Hc; subst s1; cbn; by rewrite <- !app_assoc|]. split; [by constructor|].
  rewrite Hstep. inversion He; subst; cbn [length]; [apply wait_decided; [done|lia]|by apply wait_timed_out; f_equal].
Qed.
Lemma WaitForAsyncOperation_spec timeoutMs s :
  0 <= timeoutMs -> timeoutMs + 999 < 2 ^ 32 ->
  exists b s' qs e, WaitForAsyncOperation true timeoutMs s = Some (b, s') /\ same_fields s s' /\
    m_calls s' = m_calls s ++ idle_polls qs ++ e /\ Forall (fun x => verdict x.1 = None) qs /\
    wait_end (poll_limit timeoutMs) (length qs) b e.
Proof.
  intros H0 Hb. pose proof (wait_loop_spec (Z.to_nat (timeoutMs / pollInterval + 2)) 0 timeoutMs s) as Hw.
  rewrite Z.sub_0_r in Hw. apply Hw; try lia. unfold poll_limit, pollInterval.
  assert ((timeoutMs + 999) / 1000 <= timeoutMs / 1000 + 1).
  { replace (timeoutMs / 1000 + 1) with ((timeoutMs + 1 * 1000) / 1000) by (rewrite Z.div_add; lia).
    apply Z.div_le_mono; lia. }
  assert (0 <= timeoutMs / 1000) by (apply Z.div_pos; lia). lia.
Qed.

Lemma vss_run_app h1 h2 :
  vss_run (h1 ++ h2) = fold_left (fun st e => st ← st; vss_next st e) h2 (vss_run h1).
Proof. unfold vss_run. apply fold_left_app. Qed.

Lemma wait_run held qs n k b e :
  wait_end n k b e ->
  fold_left (fun st e => st ← st; vss_next st e) (idle_polls qs ++ e) (Some (held, true)) = Some (held, false).
Proof. intros He. induction qs as [|[q z] qs IH]; [by inversion He|exact IH]. Qed.

(** *** The operations *)

(** Between operations nothing is pending, the object is held exactly while
    the manager is initialised, and so it is while there is a snapshot. *)
Definition Inv (s : VssManager) : Prop :=
  safe false s /\ m_initialized s = m_pVss s /\ (m_snapshotCreated s = true -> m_pVss s = true).

(** What an operation in progress knows of its state. *)
Definition state_is (run : bool * bool) (pVss init created : bool) (s : VssManager) : Prop :=
  vss_run (m_calls s) = Some run /\ m_pVss s = pVss /\ m_initialized s = init /\ m_snapshotCreated s = created.

Lemma Inv_is s : Inv s <-> exists b c, (c = true -> b = true) /\ state_is (b, false) b b c s.
Proof.
  split.
  - intros (Hs & Hi & Hc). exists (m_pVss s), (m_snapshotCreated s). by repeat split.
  - intros (b & c & Hc & Hr & Hp & Hi & Hsc). unfold Inv, safe. by rewrite Hp, Hi, Hsc.
Qed.

Lemma Inv_of_is b c s : state_is (b, false) b b c s -> (c = true -> b = true) -> Inv s.
Proof. intros. apply Inv_is. by exists b, c. Qed.

Lemma ask_is c s h q p i sc :
  state_is (h, q) p i sc s ->
  exists r s', ask c s = (r, s') /\ same_fields s s' /\
    (forall st, vss_next (h, q) (c, r) = Some st -> state_is st p i sc s').
Proof.
  intros (Hr & Hp & Hi & Hc). destruct (ask c s) as [r s'] eqn:E. exists r, s'. split; [done|].
  apply ask_run in E as [-> Hrun]. split; [done|]. intros st Hst. rewrite Hr in Hrun.
  cbn [mbind option_bind] in Hrun. rewrite Hst in Hrun. by repeat split.
Qed.

Lemma tell_is c s h q p i sc st :
  state_is (h, q) p i sc s -> (forall r, vss_next (h, q) (c, r) = Some st) -> state_is st p i sc (tell c s).
Proof.
  intros Hs Hn. unfold tell. destruct (ask_is c s h q p i sc Hs) as (r & s' & -> & _ & Hst). by apply Hst.
Qed.

(** A wait consumes the operation that is pending, if there is one. *)
Lemma wait_is async timeoutMs s h p i sc :
  0 <= timeoutMs -> timeoutMs + 999 < 2 ^ 32 -> state_is (h, async) p i sc s ->
  exists b s', WaitForAsyncOperation async timeoutMs s = Some (b, s') /\ same_fields s s' /\
    state_is (h, false) p i sc s'.
Proof.
  intros H0 Hb (Hr & Hp & Hi & Hc). destruct async.
  2:{ exists false, s. split; [done|]. split; [apply same_fields_refl|by repeat split]. }
  destruct (WaitForAsyncOperation_spec timeoutMs s H0 Hb) as (b & s' & qs & e & Hw & Hf & Hcl & _ & He).
  exists b, s'. split; [done|]. split; [done|]. split; [|by rewrite Hf].
  rewrite Hcl, vss_run_app, Hr. by eapply wait_run.
Qed.

Lemma wait_if_is r timeoutMs s h p i sc :
  0 <= timeoutMs -> timeoutMs + 999 < 2 ^ 32 -> state_is (h, SUCCEEDED (r_hr r) && r_async r) p i sc s ->
  exists s', wait_if r timeoutMs s = Some s' /\ same_fields s s' /\ state_is (h, false) p i sc s'.
Proof.
  intros H0 Hb Hs. unfold wait_if. destruct (_ && _).
  - destruct (wait_is true timeoutMs s _ _ _ _ H0 Hb Hs) as (b & s' & -> & ? & ?). by exists s'.
  - exists s. split; [done|]. split; [apply same_fields_refl|done].
Qed.

(** Runs the next call of an operation in a known state; on a failing [HRESULT]
    the case is left to the caller. *)
Ltac next_call H :=
  match goal with
  | |- context [ask ?call ?st] =>
      let r := fresh "r" in let s' := fresh "s" in let E := fresh "E" in let Hst := fresh "Hst" in
      destruct (ask_is call st _ _ _ _ _ H) as (r & s' & E & _ & Hst);
      rewrite E; clear H E; cbn in Hst;
      match type of Hst with
      | forall st, Some ?x = Some st -> _ => specialize (Hst x eq_refl)
      end; rename Hst into H
  end.
Ltac case_failed H :=
  match goal with
  | |- context [if FAILED ?hr then _ else _] =>
      let F := fresh "F" in destruct (FAILED hr) eqn:F; rewrite ?FAILED_SUCCEEDED, ?F in H; cbn [negb] in H
  end.

Lemma release_is s i c b :
  state_is (true, false) b i c s -> state_is (false, false) false i c (set_pVss false (tell Release s)).
Proof. intros H'. destruct (tell_is Release _ _ _ _ _ _ (false, false) H') as (?&?&?&?); [done|by repeat split]. Qed.

Lemma list_writers_is s i c :
  state_is (true, false) true i c s -> state_is (true, false) true i c (list_writers s).
Proof.
  intros H1. unfold list_writers. next_call H1. destruct (SUCCEEDED _); [|done].
  generalize (Z.to_nat (u32 (r_status r))). intros n. generalize 0. revert s0 H1. clear.
  induction n as [|n IH]; intros s H1 k; [done|]. cbn [writers_loop]. next_call H1.
  destruct (SUCCEEDED _); apply IH; [|done].
  do 2 (apply (tell_is _ _ true false true i c (true, false)); [|done]). exact H1.
Qed.

Lemma Initialize_Inv s : Inv s -> exists b s', Initialize s = Some (b, s') /\ Inv s' /\ m_initialized s' = b.
Proof.
  rewrite Inv_is. intros (b & c & Hc & H1). unfold Initialize.
  pose proof H1 as (_ & _ & Hi & _). rewrite Hi. destruct b.
  { exists true, s. split; [done|]. split; [by eapply Inv_of_is|done]. }
  destruct c; [by specialize (Hc eq_refl)|]. clear Hc Hi.
  apply (tell_is CoInitializeEx _ _ _ _ _ _ (false, false)) in H1; [|done].
  set (s1 := tell CoInitializeEx s) in *. clearbody s1.
  assert (forall s', state_is (false, false) false false false s' ->
    exists b s'', Some (false, s') = Some (b, s'') /\ Inv s'' /\ m_initialized s'' = b) as Hno.
  { intros s' H'. exists false, s'. split; [done|]. split; [by eapply Inv_of_is|apply H']. }
  next_call H1. case_failed H1; [by apply Hno|].
  assert (state_is (true, false) true false false (set_pVss true s0)) as H2 by (by destruct H1 as (?&?&?&?)).
  clear H1. next_call H2. case_failed H2; [by eapply Hno, release_is|].
  next_call H2. case_failed H2; [by eapply Hno, release_is|]. next_call H2.
  edestruct wait_if_is as (s5 & -> & _ & H3); [| |exact H2|]; [done..|]. cbn [mbind option_bind].
  apply list_writers_is in H3.
  eexists true, _. split; [done|]. split; [|done]. eapply (Inv_of_is true false); [|done].
  by destruct H3 as (?&?&?&?).
Qed.

Lemma StartSnapshotSet_Inv s : Inv s -> Inv (snd (StartSnapshotSet s)).
Proof.
  intros HI. pose proof HI as (b & c & Hc & H1)%Inv_is. unfold StartSnapshotSet.
  pose proof H1 as (_ & -> & -> & _). destruct b; [|done]. cbn [negb orb].
  next_call H1. destruct (FAILED _); by eapply Inv_of_is.
Qed.

Lemma AddVolumeToSnapshotSet_Inv g s : Inv s -> Inv (snd (AddVolumeToSnapshotSet g s)).
Proof.
  intros HI. pose proof HI as (b & c & Hc & H1)%Inv_is. unfold AddVolumeToSnapshotSet.
  pose proof H1 as (_ & -> & -> & _). destruct b; [|done]. cbn [negb orb].
  next_call H1. destruct (FAILED _); [by eapply Inv_of_is|]. cbn. destruct (m_snapshotMap _); by eapply Inv_of_is.
Qed.

Lemma SetBackupState_Inv s : Inv s -> Inv (snd (SetBackupState s)).
Proof.
  intros HI. pose proof HI as (b & c & Hc & H1)%Inv_is. unfold SetBackupState.
  pose proof H1 as (_ & -> & -> & _). destruct b; [|done]. cbn [negb orb snd].
  apply (tell_is SetBackupState_call _ _ _ _ _ _ (true, false)) in H1; [|done]. by eapply Inv_of_is.
Qed.

Lemma QuerySnapshotProperties_Inv g s : Inv s -> Inv (snd (QuerySnapshotProperties g s)).
Proof.
  intros HI. pose proof HI as (b & c & Hc & H1)%Inv_is. unfold QuerySnapshotProperties.
  pose proof H1 as (_ & -> & _). destruct b; [|done]. cbn [negb].
  destruct (map_find _ _); [|done]. next_call H1. by eapply Inv_of_is.
Qed.

Lemma properties_loop_is l : forall s i c,
  state_is (true, false) true i c s -> state_is (true, false) true i c (properties_loop l s).
Proof.
  induction l as [|[g id] l IH]; intros s i c H1; [done|]. cbn [properties_loop].
  next_call H1. destruct (FAILED _); apply IH; [done|]. by destruct H1 as (?&?&?&?).
Qed.

Lemma DoSnapshotSet_Inv s : Inv s -> exists b s', DoSnapshotSet s = Some (b, s') /\ Inv s'.
Proof.
  intros HI. pose proof HI as (b & c & Hc & H1)%Inv_is. unfold DoSnapshotSet.
  pose proof H1 as (_ & -> & -> & _). destruct b; [|by exists false, s]. cbn [negb orb].
  destruct (m_volumeToSnapshotId s) as [|v vs]; [by exists false, s|].
  next_call H1. edestruct wait_if_is as (s2 & -> & _ & H2); [| |exact H1|]; [done..|]. cbn [mbind option_bind].
  next_call H2. case_failed H2; [by exists false, s1; split; [|by eapply Inv_of_is]|].
  edestruct wait_is as (ok & s4 & -> & _ & H3); [| |exact H2|]; [done..|]. cbn [mbind option_bind].
  destruct ok; cbn [negb]; [|by exists false, s4; split; [|by eapply Inv_of_is]].
  unfold GetSnapshotProperties. pose proof H3 as (_ & -> & _). cbn [negb].
  pose proof (properties_loop_is (m_volumeToSnapshotId s4) _ _ _ H3) as H4.
  set (s5 := properties_loop _ _) in *. clearbody s5. destruct (m_snapshotMap s5); cbn [negb].
  - exists false, s5. split; [done|]. by eapply Inv_of_is.
  - eexists true, _. split; [done|]. eapply (Inv_of_is true true); [|done]. by destruct H4 as (?&?&?&?).
Qed.

(** After [Cleanup] nothing is held. *)
Lemma Cleanup_Inv s :
  Inv s -> exists s', Cleanup s = Some s' /\ Inv s' /\ m_pVss s' = false /\
    m_snapshotMap s' = [] /\ m_volumeToSnapshotId s' = [].
Proof.
  rewrite Inv_is. intros (b & c & Hc & H1). unfold Cleanup.
  assert (exists s1, (if m_pVss s && m_snapshotCreated s
    then let '(r, s0) := ask BackupComplete s in
         s2 ← wait_if r 300000 s0;
         Some (set_snapshotCreated false (tell (DeleteSnapshots (m_snapshotSetId s2)) s2))
    else Some s) = Some s1 /\ state_is (b, false) b b false s1) as (s1 & -> & H2).
  { pose proof H1 as (_ & -> & _ & ->). destruct b; cbn [andb].
    2:{ exists s. split; [done|]. by destruct c; [specialize (Hc eq_refl)|]. }
    destruct c; [|by exists s]. next_call H1.
    edestruct wait_if_is as (s2 & -> & _ & H2); [| |exact H1|]; [done..|]. cbn [mbind option_bind].
    apply (tell_is (DeleteSnapshots (m_snapshotSetId s2)) _ _ _ _ _ _ (true, false)) in H2; [|done].
    eexists. split; [done|]. by destruct H2 as (?&?&?&?). }
  cbn [mbind option_bind]. pose proof H2 as (_ & Hp & _).
  assert (state_is (false, false) false b false (if m_pVss s1 then set_pVss false (tell Release s1) else s1)) as H3.
  { rewrite Hp. destruct b; [by eapply release_is|done]. }
  set (s2 := if m_pVss s1 then _ else _) in *. clearbody s2.
  apply (tell_is CoUninitialize _ _ _ _ _ _ (false, false)) in H3; [|done].
  eexists. split; [done|]. split; [|by destruct H3 as (?&?&?&?)].
  eapply (Inv_of_is false false); [|done]. by destruct H3 as (?&?&?&?).
Qed.
End protocol.

(** ** Runs of the manager *)

Inductive VssOp :=
  | OpInitialize | OpStartSnapshotSet | OpAddVolume (g : list Z) | OpSetBackupState | OpDoSnapshotSet
  | OpQueryProperties (g : list Z) | OpCleanup.

Definition vss_op `{VssApi} (o : VssOp) (s : VssManager) : option VssManager :=
  match o with
  | OpInitialize => snd <$> Initialize s
  | OpStartSnapshotSet => Some (snd (StartSnapshotSet s))
  | OpAddVolume g => Some (snd (AddVolumeToSnapshotSet g s))
  | OpSetBackupState => Some (snd (SetBackupState s))
  | OpDoSnapshotSet => snd <$> DoSnapshotSet s
  | OpQueryProperties g => Some (snd (QuerySnapshotProperties g s))
  | OpCleanup => Cleanup s
  end.

Fixpoint vss_ops `{VssApi} (os : list VssOp) (s : VssManager) : option VssManager :=
  match os with
  | [] => Some s
  | o :: os' => s ← vss_op o s; vss_ops os' s
  end.

(** C32: Whatever the service answers and in whatever order the operations are
    called, every one of them ends, and the service sees a history it allows:
    one component object at a time, no call on an object that is not held, no
    operation started while another is pending, every asynchronous operation
    released exactly once, before the object is.  The object is held exactly
    while the manager is initialised; the destructor leaves none behind. *)
Theorem vss_protocol `{VssApi} os :
  exists s s', vss_ops os (VssManager_new []) = Some s /\
    vss_run (m_calls s) = Some (m_pVss s, false) /\ m_initialized s = m_pVss s /\
    VssManager_delete s = Some s' /\ vss_run (m_calls s') = Some (false, false).
Proof.
  assert (forall s, Inv s -> exists s', vss_ops os s = Some s' /\ Inv s') as Hops.
  { induction os as [|o os IH]; intros s Hs; [by exists s|].
    assert (exists s', vss_op o s = Some s' /\ Inv s') as (s' & E & Hs').
    { destruct o; cbn.
      - destruct (Initialize_Inv s Hs) as (?&?&->&?&_). by eexists.
      - eexists. split; [done|by apply StartSnapshotSet_Inv].
      - eexists. split; [done|by apply AddVolumeToSnapshotSet_Inv].
      - eexists. split; [done|by apply SetBackupState_Inv].
      - destruct (DoSnapshotSet_Inv s Hs) as (?&?&->&?). by eexists.
      - eexists. split; [done|by apply QuerySnapshotProperties_Inv].
      - destruct (Cleanup_Inv s Hs) as (?&->&?&_). by eexists. }
    destruct (IH s' Hs') as (s2 & E2 & ?). exists s2. cbn. by rewrite E. }
  destruct (Hops (VssManager_new [])) as (s & E & Hs); [done|]. pose proof Hs as (Hr & Hi & _).
  destruct (Cleanup_Inv s Hs) as (s' & Ec & (Hr' & _) & Hp & _). exists s.
  unfold VssManager_delete, safe in *. destruct (m_initialized s) eqn:Ei.
  - exists s'. rewrite Hp in Hr'. by rewrite <- Hi in Hr |- *.
  - exists s. by rewrite <- Hi in Hr |- *.
Qed.

(** ** Which identifier the clean-up uses *)

Section cleanup.
Context `{VssApi}.

(** [AddVolumeToSnapshotSet] of one volume after the other, failures ignored. *)
Definition add_volumes (gs : list (list Z)) (s : VssManager) : VssManager :=
  fold_left (fun s g => snd (AddVolumeToSnapshotSet g s)) gs s.

(** Calls that neither add a volume nor delete snapshots. *)
Definition quiet (e : VssCall * VssReply) : Prop :=
  match e.1 with AddToSnapshotSet _ | DeleteSnapshots _ => False | _ => True end.

(** Only quiet calls, the identifiers untouched. *)
Definition quietly (s s' : VssManager) : Prop :=
  (exists h, m_calls s' = m_calls s ++ h /\ Forall quiet h) /\
  m_snapshotSetId s' = m_snapshotSetId s /\ m_volumeToSnapshotId s' = m_volumeToSnapshotId s /\
  m_pVss s' = m_pVss s.

Lemma quietly_refl s : quietly s s.
Proof. split; [|done]. exists []. by rewrite app_nil_r. Qed.
Lemma quietly_trans s1 s2 s3 : quietly s1 s2 -> quietly s2 s3 -> quietly s1 s3.
Proof.
  intros ((h1 & E1 & Q1) & Hi1 & Hv1 & Hp1) ((h2 & E2 & Q2) & Hi2 & Hv2 & Hp2). split; [|split_and!; congruence].
  exists (h1 ++ h2). rewrite E2, E1. split; [by rewrite <- app_assoc|by apply Forall_app].
Qed.
Lemma ask_quietly c s r s' : (forall r, quiet (c, r)) -> ask c s = (r, s') -> quietly s s'.
Proof.
  intros Hq E. apply ask_run in E as [-> _]. split; [|done]. eexists. split; [done|]. by repeat constructor.
Qed.
Lemma wait_quietly async timeoutMs s b s' :
  0 <= timeoutMs -> timeoutMs + 999 < 2 ^ 32 ->
  WaitForAsyncOperation async timeoutMs s = Some (b, s') -> quietly s s'.
Proof.
  intros H0 Hb E. destruct async.
  2:{ injection E as <- <-. apply quietly_refl. }
  destruct (WaitForAsyncOperation_spec timeoutMs s H0 Hb) as (b' & s1 & qs & e & E' & Hf & Hc & _ & He).
  rewrite E in E'. injection E' as <- <-. split; [|by rewrite Hf]. eexists. split; [exact Hc|].
  apply Forall_app. split; [|by inversion He; repeat constructor].
  clear. induction qs as [|[q z] qs IH]; [constructor|]. by repeat constructor.
Qed.
Lemma wait_if_quietly r timeoutMs s s' :
  0 <= timeoutMs -> timeoutMs + 999 < 2 ^ 32 -> wait_if r timeoutMs s = Some s' -> quietly s s'.
Proof.
  intros H0 Hb. unfold wait_if. destruct (_ && _); [|intros [= <-]; apply quietly_refl].
  destruct (WaitForAsyncOperation _ _ _) as [[b s1]|] eqn:E; [|done]. cbn. intros [= <-].
  by eapply wait_quietly.
Qed.

Lemma properties_loop_quietly l : forall s, quietly s (properties_loop l s).
Proof.
  induction l as [|[g id] l IH]; intros s; [apply quietly_refl|]. cbn [properties_loop].
  destruct (ask _ s) as [r s1] eqn:E. apply ask_quietly in E; [|done].
  destruct (FAILED _); (eapply quietly_trans; [|apply IH]); exact E.
Qed.

Lemma DoSnapshotSet_true s s' :
  DoSnapshotSet s = Some (true, s') ->
  quietly s s' /\ m_volumeToSnapshotId s <> [] /\ m_pVss s' = true /\ m_snapshotCreated s' = true.
Proof.
  unfold DoSnapshotSet. destruct (_ || _); [done|]. destruct (m_volumeToSnapshotId s) as [|v vs] eqn:Ev; [done|].
  destruct (ask PrepareForBackup s) as [r s1] eqn:E1. apply ask_quietly in E1; [|done].
  destruct (wait_if _ _ s1) as [s2|] eqn:E2; [|done]. apply wait_if_quietly in E2; [|done..].
  cbn [mbind option_bind]. destruct (ask DoSnapshotSet_call s2) as [r' s3] eqn:E3. apply ask_quietly in E3; [|done].
  destruct (FAILED _); [done|]. destruct (WaitForAsyncOperation _ _ s3) as [[b s4]|] eqn:E4; [|done].
  apply wait_quietly in E4; [|done..]. cbn [mbind option_bind]. destruct b; [|done]. cbn [negb].
  unfold GetSnapshotProperties. destruct (m_pVss s4) eqn:Ep; [|done]. cbn [negb].
  set (s5 := properties_loop _ _). destruct (m_snapshotMap s5); [done|]. cbn [negb]. intros [= <-].
  split; [|split; [done|split; [|done]]].
  - do 3 (eapply quietly_trans; [eassumption|]). eapply quietly_trans; [exact E4|].
    apply (properties_loop_quietly (m_volumeToSnapshotId s4) s4).
  - destruct (properties_loop_quietly (m_volumeToSnapshotId s4) s4) as (_ & _ & _ & Hp). by rewrite <- Ep.
Qed.

(** The last identifier a successful call for one of the volumes gave out. *)
Definition given (gs : list (list Z)) (h : history) (id : list Z) : Prop :=
  exists g rep, g ∈ gs /\ (AddToSnapshotSet (push_backslash g), rep) ∈ h /\ FAILED (r_hr rep) = false /\
    id = r_id rep.

(** While no snapshot is recorded, each volume overwrites the set's identifier. *)
Lemma add_volumes_set_id gs : forall s, m_snapshotMap s = [] ->
  let s' := add_volumes gs s in
  exists h, m_calls s' = m_calls s ++ h /\ Forall (fun e => exists p, e.1 = AddToSnapshotSet p) h /\
    (m_volumeToSnapshotId s' = m_volumeToSnapshotId s /\ m_snapshotSetId s' = m_snapshotSetId s \/
     given gs h (m_snapshotSetId s')).
Proof.
  induction gs as [|g gs IH]; intros s Hm; cbn zeta; [by exists []; rewrite app_nil_r; split; [|split; [|left]]|].
  cbn [add_volumes fold_left]. change (fold_left _ gs ?x) with (add_volumes gs x).
  assert (exists h0, m_calls (snd (AddVolumeToSnapshotSet g s)) = m_calls s ++ h0 /\
    Forall (fun e => exists p, e.1 = AddToSnapshotSet p) h0 /\
    m_snapshotMap (snd (AddVolumeToSnapshotSet g s)) = [] /\
    (m_volumeToSnapshotId (snd (AddVolumeToSnapshotSet g s)) = m_volumeToSnapshotId s /\
     m_snapshotSetId (snd (AddVolumeToSnapshotSet g s)) = m_snapshotSetId s \/
     given [g] h0 (m_snapshotSetId (snd (AddVolumeToSnapshotSet g s))))) as (h0 & E0 & Q0 & Hm0 & Hc0).
  { unfold AddVolumeToSnapshotSet. destruct (_ || _); [by exists []; rewrite app_nil_r; split_and!; [..|left]|].
    destruct (ask _ s) as [r s1] eqn:E. apply ask_run in E as [-> _].
    destruct (FAILED (r_hr r)) eqn:F; cbn; rewrite ?Hm; cbn.
    - eexists. split; [done|]. split; [by repeat econstructor|]. split; [done|]. by left.
    - eexists. split; [done|]. split; [by repeat econstructor|]. split; [done|]. right.
      exists g, r. split; [by left|]. split; [by left|done]. }
  destruct (IH _ Hm0) as (h1 & E1 & Q1 & Hc1). exists (h0 ++ h1). rewrite E1, E0.
  split; [by rewrite app_assoc|]. split; [by apply Forall_app|].
  assert (forall gs1 h id, given gs1 h id -> (forall x, x ∈ gs1 -> x ∈ g :: gs) ->
    (forall e, e ∈ h -> e ∈ h0 ++ h1) -> given (g :: gs) (h0 ++ h1) id) as Hmono.
  { intros gs1 h id (g' & rep & ?&?&?) Hg Hh. exists g', rep. split; [by apply Hg|]. by split; [apply Hh|]. }
  destruct Hc1 as [[Hv1 Hi1]|Hg1].
  - destruct Hc0 as [[Hv0 Hi0]|Hg0]; [left; by rewrite Hv1, Hi1|]. right. rewrite Hi1.
    eapply Hmono; [exact Hg0| |]; intros x Hx; [apply list_elem_of_singleton in Hx as ->; by left|].
    apply elem_of_app. by left.
  - right. eapply Hmono; [exact Hg1| |]; intros x Hx; [by right|]. apply elem_of_app. by right.
Qed.

(** What [Cleanup] asks for while a snapshot exists. *)
Lemma Cleanup_calls s s' :
  m_pVss s = true -> m_snapshotCreated s = true -> Cleanup s = Some s' ->
  exists h1 r h2, m_calls s' = m_calls s ++ h1 ++ (DeleteSnapshots (m_snapshotSetId s), r) :: h2 /\
    Forall quiet h1 /\ Forall quiet h2.
Proof.
  intros Hp Hc. unfold Cleanup. rewrite Hp, Hc. cbn [andb].
  destruct (ask BackupComplete s) as [r s1] eqn:E1. apply ask_quietly in E1; [|done].
  destruct (wait_if r 300000 s1) as [s2|] eqn:E2; [|done]. apply wait_if_quietly in E2; [|done..].
  destruct (quietly_trans _ _ _ E1 E2) as ((h1 & Eh1 & Q1) & Hi & _ & Hp2). cbn [mbind option_bind].
  cbn [m_pVss set_snapshotCreated tell ask snd set_calls]. rewrite Hp2, Hp. intros [= <-]. cbn.
  rewrite Eh1, Hi. exists h1. eexists _, _. rewrite <- !app_assoc. cbn [app].
  split; [done|]. split; [done|]. by repeat constructor.
Qed.
End cleanup.

(** After the documented sequence, [StartSnapshotSet], one
    [AddVolumeToSnapshotSet] per volume, a successful [DoSnapshotSet] and
    [Cleanup], the one deletion that was asked for names the identifier of a
    volume's snapshot, as a set: not the identifier [StartSnapshotSet] received,
    which the first added volume overwrote. *)
Theorem Cleanup_deletes_a_snapshot_id `{VssApi} gs s s2 s3 :
  m_snapshotMap s = [] -> m_volumeToSnapshotId s = [] ->
  DoSnapshotSet (add_volumes gs (snd (StartSnapshotSet s))) = Some (true, s2) -> Cleanup s2 = Some s3 ->
  exists h id, m_calls s3 = m_calls s ++ h /\ (exists r, (DeleteSnapshots id, r) ∈ h) /\
    (forall id' r, (DeleteSnapshots id', r) ∈ h -> id' = id) /\ given gs h id.
Proof.
  intros Hm Hv Hd Hcl.
  destruct (DoSnapshotSet_true _ _ Hd) as (((hd & Ed & Qd) & Hid & _) & Hne & Hp & Hcr).
  destruct (Cleanup_calls _ _ Hp Hcr Hcl) as (h1 & r & h2 & Ec & Q1 & Q2).
  assert (exists hs, m_calls (snd (StartSnapshotSet s)) = m_calls s ++ hs /\ Forall quiet hs /\
    m_snapshotMap (snd (StartSnapshotSet s)) = [] /\ m_volumeToSnapshotId (snd (StartSnapshotSet s)) = [])
    as (hs & Es & Qs & Hms & Hvs).
  { unfold StartSnapshotSet. destruct (_ || _); [by exists []; rewrite app_nil_r; split_and!|].
    destruct (ask _ s) as [r0 s0] eqn:E. apply ask_run in E as [-> _].
    exists [(StartSnapshotSet_call, r0)]. destruct (FAILED _); by split_and!; repeat constructor. }
  destruct (add_volumes_set_id gs _ Hms) as (ha & Ea & Qa & Hga). set (s1 := add_volumes gs _) in *.
  destruct Hga as [[Hva _]|Hga]; [by rewrite Hva, Hvs in Hne|].
  exists (hs ++ ha ++ hd ++ h1 ++ (DeleteSnapshots (m_snapshotSetId s2), r) :: h2), (m_snapshotSetId s1).
  split; [by rewrite Ec, Ed, Ea, Es, <- !app_assoc|]. rewrite <- Hid. split_and!.
  - exists r. rewrite !elem_of_app, elem_of_cons. tauto.
  - intros id' r'. rewrite !elem_of_app, elem_of_cons. rewrite Forall_forall in Qs, Qd, Q1, Q2.
    rewrite Forall_forall in Qa.
    intros [Hin|[Hin|[Hin|[Hin|[[= <- _]|Hin]]]]]; [|destruct (Qa _ Hin) as [? [=]]| | |done|].
    1: by destruct (Qs _ Hin). 1: by destruct (Qd _ Hin). 1: by destruct (Q1 _ Hin). by destruct (Q2 _ Hin).
  - rewrite Hid. destruct Hga as (g & rep & Hg & Hin & Hr & Hi). exists g, rep. split_and!; try done.
    rewrite !elem_of_app. tauto.
Qed.

(** A wait ends within the polls that fit its limit: it is decided by the
    first poll that reports an error of the query, a finished or a cancelled
    operation, and gives up, cancelling the operation, after the limit.  An
    operation that failed reports its own error code and decides nothing: it is
    waited for until the limit. *)
Theorem WaitForAsyncOperation_ends `{VssApi} timeoutMs s :
  0 <= timeoutMs -> timeoutMs + 999 < 2 ^ 32 ->
  (exists b s' qs e, WaitForAsyncOperation true timeoutMs s = Some (b, s') /\ same_fields s s' /\
    m_calls s' = m_calls s ++ idle_polls qs ++ e /\ Forall (fun x => verdict x.1 = None) qs /\
    (length qs <= poll_limit timeoutMs)%nat /\ wait_end (poll_limit timeoutMs) (length qs) b e) /\
  (forall q, r_hr q = 0 -> FAILED (r_status q) = true -> verdict q = None).
Proof.
  intros H0 Hb. split.
  - destruct (WaitForAsyncOperation_spec timeoutMs s H0 Hb) as (b & s' & qs & e & ?&?&?&?&He).
    exists b, s', qs, e. split_and!; try done. inversion He; lia.
  - intros q Hq Hs. unfold verdict. rewrite Hq. cbn.
    assert (r_status q <> VSS_S_ASYNC_FINISHED /\ r_status q <> VSS_S_ASYNC_CANCELLED) as [H1 H2].
    { split; intros E; by rewrite E in Hs. }
    apply Z.eqb_neq in H1, H2. by rewrite H1, H2.
Qed.

(** ** A service *)

(** Two writers; every call succeeds and every operation is finished at the first poll; the
    [n]-th call gives out the identifier [n]. *)
Definition sample_service : VssApi := {|
  answer := fun h c =>
    {| r_hr := 0; r_id := [Z.of_nat (length h)]; r_async := true;
       r_status := match c with GetWriterMetadataCount => 2 | _ => VSS_S_ASYNC_FINISHED end;
       r_device := Some [68; Z.of_nat (length h)] |} |}.
(** Operations end with an error. *)
Definition failing_service : VssApi := {|
  answer := fun h c =>
    {| r_hr := 0; r_id := []; r_async := true;
       r_status := match c with GetWriterMetadataCount => 0 | _ => 0x80042306 end; r_device := None |} |}.

Definition initialized_sample : VssManager :=
  default (VssManager_new []) (snd <$> @Initialize sample_service (VssManager_new [])).

(** An [Initialize] that fails leaves COM initialised: the destructor does
    nothing. *)
Example failed_Initialize_keeps_COM :
  let service := {| answer := fun h c => {| r_hr := 0x80004005; r_id := []; r_async := false; r_status := 0; r_device := None |} |} in
  match @Initialize service (VssManager_new []) with
  | Some (false, s) =>
      match @VssManager_delete service s with
      | Some s' => map fst (m_calls s') = [CoInitializeEx; CreateVssBackupComponents]
      | None => False
      end
  | _ => False
  end.
Proof. reflexivity. Qed.

(** ** Witnesses *)

Definition sample_started : VssManager := snd (@StartSnapshotSet sample_service initialized_sample).
Definition sample_done : VssManager :=
  default sample_started (snd <$> @DoSnapshotSet sample_service (@add_volumes sample_service [[65]; [66]] sample_started)).
Definition sample_clean : VssManager := default sample_done (@Cleanup sample_service sample_done).

(** The set is number 14, the snapshots of the two volumes are 15 and 16. *)
Lemma Cleanup_deletes_a_snapshot_id_witness :
  m_snapshotSetId sample_started = [14] /\ m_snapshotSetId sample_done = [16] /\
  exists h id, m_calls sample_clean = m_calls initialized_sample ++ h /\
    (exists r, (DeleteSnapshots id, r) ∈ h) /\ (forall id' r, (DeleteSnapshots id', r) ∈ h -> id' = id) /\
    @given [[65]; [66]] h id.
Proof.
  split; [by vm_compute|]. split; [by vm_compute|].
  apply (@Cleanup_deletes_a_snapshot_id sample_service [[65]; [66]] initialized_sample sample_done sample_clean);
    by vm_compute.
Defined.

Lemma WaitForAsyncOperation_ends_witness :
  exists b s' qs e, @WaitForAsyncOperation failing_service true 3500 (VssManager_new []) = Some (b, s') /\
    m_calls s' = idle_polls qs ++ e /\ wait_end 4 (length qs) b e /\
    b = false /\ length (m_calls s') = 10%nat.
Proof.
  destruct (proj1 (@WaitForAsyncOperation_ends failing_service 3500 (VssManager_new []) ltac:(lia) ltac:(lia)))
    as (b & s' & qs & e & E & _ & Hc & _ & _ & He).
  exists b, s', qs, e. split; [exact E|]. split; [exact Hc|]. split; [exact He|].
  vm_compute in E. injection E as <- <-. by split.
Defined.

(** A volume, its snapshot, then the destructor. *)
Lemma vss_protocol_witness :
  exists s s', @vss_ops sample_service [OpInitialize; OpStartSnapshotSet; OpAddVolume [65]; OpDoSnapshotSet]
      (VssManager_new []) = Some s /\ GetSnapshotDevicePath [65] s = Some [68; 22] /\
    @VssManager_delete sample_service s = Some s' /\ vss_run (m_calls s') = Some (false, false).
Proof.
  destruct (@vss_protocol sample_service [OpInitialize; OpStartSnapshotSet; OpAddVolume [65]; OpDoSnapshotSet])
    as (s & s' & E & _ & _ & Ed & Er).
  exists s, s'. split; [exact E|]. split; [|by split]. vm_compute in E. injection E as <-. by vm_compute.
Defined.
