(* ===== verification/BackupEngine.v ===== *)
(** * The backup engine

    [client/BackupEngine.{h,cpp}]: what a backup of one disk does with the
    shadow copies, the change-tracking driver, the state file, the connection
    and the transfer, and the run over several disks.  The machine is the class
    [Machine]; the run of the two threads of the pipelined transfer is an
    argument, [threads], whose runs [Pipeline] describes. *)

From Stdlib Require Import Ascii String.
From stdpp Require Import pretty.
From S2P Require Import Prelude.
From S2P Require Import Protocol.
From S2P Require Import BlockHasher.
From S2P Require Import DataCompressor.
From S2P Require Import NetworkClient.
From S2P Require Import CbtClient.
From S2P Require Import BlockStateManager.
From S2P Require Import StateFile.
From S2P Require Import Pipeline.
From S2P Require Import DiskParser.
From S2P Require Import VolumeMapper.
From S2P Require Import VssManager.

Local Open Scope list_scope.

(** ** The machine *)

(** What one [Save] meets: how much each [WriteFile] takes, whether the
    temporary file is created and moved, and the memory behind the record
    buffer. *)
Record SaveAnswers := {
  sa_accept : nat -> Z -> Z; sa_create : bool; sa_move : bool; sa_slack : list Z }.

(** How far a connection gets: [socket], [inet_pton], [connect]. *)
Inductive ConnectAnswer := NoSocket | BadAddress | Refused | Accepted.

Class Machine (Net Drv : Type) := {
  mc_disk : Z -> option DiskDevice;                 (* DiskParser::Open *)
  mc_source : list Z -> option Source;              (* CreateFileW of a data source *)
  mc_hasher : bool;                                 (* BlockHasher::Initialize *)
  mc_cbt_open1 : option Z; mc_cbt_open2 : option Z; mc_services : ServiceManager;
  mc_connect : Net -> ConnectAnswer * Net;
  mc_save : nat -> SaveAnswers;                     (* the n-th Save *)
  mc_max_blocks : Z; mc_max_entries : Z;            (* sizes a vector can have *)
  mc_systemTime : Z; mc_now : Z;
}.

(** ** Data *)

(** The part of [BackupConfig] the engine reads; the server's address is in
    [mc_connect], the directory in the state files of the world. *)
Record BackupConfig := {
  DryRun : bool; UseCbt : bool; RetryCount : Z; PipelineWindowSize : Z }.

(** [BackupStats]; the five counts the transfer fills are a record of their
    own. *)
Record DiskStats := {
  ds_DevNo : Z; ds_TotalBlocks : Z; ds_ChangedBlocks : Z; ds_TotalBytes : Z; ds_VssUsed : bool;
  ds_transfer : BackupStats }.

Definition no_transfer : BackupStats :=
  {| SentBlocks := 0; AckedBlocks := 0; FailedBlocks := 0; SkippedBlocks := 0; CompressedBytes := 0 |}.
Definition DiskStats_new (devNo : Z) : DiskStats :=
  {| ds_DevNo := devNo; ds_TotalBlocks := 0; ds_ChangedBlocks := 0; ds_TotalBytes := 0;
     ds_VssUsed := false; ds_transfer := no_transfer |}.
Definition set_VssUsed (b : bool) (s : DiskStats) : DiskStats :=
  {| ds_DevNo := ds_DevNo s; ds_TotalBlocks := ds_TotalBlocks s; ds_ChangedBlocks := ds_ChangedBlocks s;
     ds_TotalBytes := ds_TotalBytes s; ds_VssUsed := b; ds_transfer := ds_transfer s |}.
Definition set_totals (total changed bytes : Z) (s : DiskStats) : DiskStats :=
  {| ds_DevNo := ds_DevNo s; ds_TotalBlocks := total; ds_ChangedBlocks := changed;
     ds_TotalBytes := bytes; ds_VssUsed := ds_VssUsed s; ds_transfer := ds_transfer s |}.
Definition set_SentBlocks (n : Z) (s : DiskStats) : DiskStats :=
  let t := ds_transfer s in
  {| ds_DevNo := ds_DevNo s; ds_TotalBlocks := ds_TotalBlocks s; ds_ChangedBlocks := ds_ChangedBlocks s;
     ds_TotalBytes := ds_TotalBytes s; ds_VssUsed := ds_VssUsed s;
     ds_transfer := {| SentBlocks := n; AckedBlocks := AckedBlocks t; FailedBlocks := FailedBlocks t;
                       SkippedBlocks := SkippedBlocks t; CompressedBytes := CompressedBytes t |} |}.
Definition set_transfer (t : BackupStats) (s : DiskStats) : DiskStats :=
  {| ds_DevNo := ds_DevNo s; ds_TotalBlocks := ds_TotalBlocks s; ds_ChangedBlocks := ds_ChangedBlocks s;
     ds_TotalBytes := ds_TotalBytes s; ds_VssUsed := ds_VssUsed s; ds_transfer := t |}.

(** What a backup changes: the calls of the shadow copy service, the driver, the
    network, the state file of each disk and the number of saves so far. *)
Record World (Net Drv : Type) := {
  w_vss : history; w_cbt : Drv; w_net : Net; w_file : Z -> option (list Z); w_saves : nat }.
Arguments w_vss {Net Drv} _.
Arguments w_cbt {Net Drv} _.
Arguments w_net {Net Drv} _.
Arguments w_file {Net Drv} _.
Arguments w_saves {Net Drv} _.

(** A wide string literal. *)
Definition wide (s : string) : list Z := map (fun a => Z.of_nat (nat_of_ascii a)) (list_ascii_of_string s).

Definition physical_drive (devNo : Z) : list Z :=
  [BACKSLASH; BACKSLASH; 46; BACKSLASH] ++ wide "PhysicalDrive" ++ wide (pretty devNo).

Definition FULL : list Z := wide "FULL".
Definition INCREMENTAL : list Z := wide "INCREMENTAL".

Section engine.
Context {Net Drv : Type} `{Socket Net} `{IoControl Drv} `{VssApi} `{VolumeApi} `{CompressApi}
  `{!Machine Net Drv}.

Abbreviation World := (World Net Drv).
Abbreviation Client := (Client Net).

Definition set_vss (h : history) (w : World) : World :=
  {| w_vss := h; w_cbt := w_cbt w; w_net := w_net w; w_file := w_file w; w_saves := w_saves w |}.
Definition set_cbt (s : Drv) (w : World) : World :=
  {| w_vss := w_vss w; w_cbt := s; w_net := w_net w; w_file := w_file w; w_saves := w_saves w |}.
Definition set_network (n : Net) (w : World) : World :=
  {| w_vss := w_vss w; w_cbt := w_cbt w; w_net := n; w_file := w_file w; w_saves := w_saves w |}.
Definition saved (devNo : Z) (f : option (list Z)) (w : World) : World :=
  {| w_vss := w_vss w; w_cbt := w_cbt w; w_net := w_net w;
     w_file := fun d => if d =? devNo then f else w_file w d; w_saves := S (w_saves w) |}.

(** ** The state manager and its file *)

(** [BlockStateManager::Initialize]. *)
Definition open_state (devNo : Z) (w : World) : option Manager :=
  match StateFile.Initialize mc_max_blocks (sa_slack (mc_save (w_saves w))) devNo (w_file w devNo)
          Manager_new with
  | Loaded _ m => Some m
  | _ => None
  end.

(** [BlockStateManager::Save]. *)
Definition save_state (devNo : Z) (m : Manager) (w : World) : option (Manager * World) :=
  let a := mc_save (w_saves w) in
  r ← Save (sa_accept a) (sa_create a) (sa_move a) (sa_slack a) m (w_file w devNo);
  let '(_, m', f) := r in Some (m', saved devNo f w).

(** [~BlockStateManager]. *)
Definition delete_state (devNo : Z) (m : Manager) (w : World) : option World :=
  let a := mc_save (w_saves w) in
  f ← Destroy (sa_accept a) (sa_create a) (sa_move a) (sa_slack a) m (w_file w devNo);
  Some (saved devNo f w).

(** ** The connection *)

Definition NetworkClient_new (w : World) : Client :=
  {| net := w_net w; socket_open := false; NetworkClient.m_connected := false; m_ackReceiverRunning := false |}.

(** [NetworkClient::Connect]. *)
Definition NetConnect (c : Client) : bool * Client :=
  let '(a, n) := mc_connect (net c) in
  let closed := {| net := n; socket_open := false; NetworkClient.m_connected := NetworkClient.m_connected c;
                   m_ackReceiverRunning := m_ackReceiverRunning c |} in
  match a with
  | NoSocket | BadAddress | Refused => (false, closed)
  | Accepted => (true, {| net := n; socket_open := true; NetworkClient.m_connected := true;
                          m_ackReceiverRunning := m_ackReceiverRunning c |})
  end.

Definition CloseConnection (devNo : Z) (c : Client) : option Client :=
  if NetworkClient.m_connected c then
    r ← SendBye devNo c; let '(_, c) := r in Some (NetworkClient.Disconnect c)
  else Some c.

(** [Connect] and [SendHello]: the connection, and how far it got. *)
Inductive Handshake := NotConnected (c : Client) | Rejected (c : Client) | Welcome (c : Client).

Definition connect_hello (versionId devNo totalBlocks totalSize : Z) (type : list Z) (c : Client)
    : option Handshake :=
  let '(ok, c) := NetConnect c in
  if negb ok then Some (NotConnected c)
  else
    r ← SendHello (u32 versionId) (u32 devNo) totalBlocks totalSize type c;
    let '(ok, c) := r in
    if negb ok then Some (Rejected (NetworkClient.Disconnect c)) else Some (Welcome c).

(** ** The shadow copies of a backup *)

Definition is_filesystem (c : PartitionContent) : bool :=
  match c with
  | FilesystemNTFS | FilesystemFAT32 | FilesystemExFAT | FilesystemReFS => true
  | _ => false
  end.

(** The loop over the mapped partitions: how many volumes were added and how
    many were refused. *)
Fixpoint add_filesystems (mps : list MappedPartition) (fsAdded fsSkipped : nat) (s : VssManager)
    : nat * nat * VssManager :=
  match mps with
  | [] => (fsAdded, fsSkipped, s)
  | mp :: mps' =>
      if is_filesystem (p_Content (mp_Partition mp)) then
        let '(added, s) := AddVolumeToSnapshotSet (mp_VolumeGuid mp) s in
        match added with
        | Some _ => add_filesystems mps' (S fsAdded) fsSkipped s
        | None => add_filesystems mps' fsAdded (S fsSkipped) s
        end
      else add_filesystems mps' fsAdded fsSkipped s
  end.

(** From the loop to [DoSnapshotSet]: whether there is a snapshot, or [None] when
    the backup is abandoned. *)
Definition take_snapshot (mps : list MappedPartition) (s : VssManager) : option (option bool * VssManager) :=
  let '(fsAdded, fsSkipped, s) := add_filesystems mps 0 0 s in
  if (0 <? fsSkipped)%nat && (fsAdded =? 0)%nat then Some (None, s)
  else if (0 <? fsAdded)%nat then
    r ← DoSnapshotSet s;
    let '(ok, s) := r in
    if negb ok then Some (None, s) else Some (Some true, s)
  else Some (Some false, s).

(** The first mapped volume with a snapshot device, else the disk. *)
Fixpoint data_source (mps : list MappedPartition) (s : VssManager) (devNo : Z) : list Z :=
  match mps with
  | [] => physical_drive devNo
  | mp :: mps' =>
      match GetSnapshotDevicePath (mp_VolumeGuid mp) s with
      | Some (c :: path) => c :: path
      | _ => data_source mps' s devNo
      end
  end.

(** A return: the destructor of the manager of shadow copies runs. *)
Definition leave (b : bool) (stats : DiskStats) (s : VssManager) (w : World)
    : option (bool * DiskStats * World) :=
  s ← VssManager_delete s; Some (b, stats, set_vss (m_calls s) w).

(** [vss.Cleanup(); return b;]. *)
Definition cleanup_leave (b : bool) (stats : DiskStats) (s : VssManager) (w : World)
    : option (bool * DiskStats * World) :=
  s ← VssManager.Cleanup s; leave b stats s w.

(** ** The pipelined transfer *)

(** The run of the loop and the receiver over a source and a connection, with
    the saves of the loop; [None]: it does not end. *)
Variable threads : Source -> Job -> Z -> Manager -> Client -> World -> option (Run * Client * World).

(** The simulated loop over [blocks], a save after every hundred. *)
Fixpoint dry_loop (src : Source) (job : Job) (devNo : Z) (blocks : list Z) (acked failed sent : Z)
    (m : Manager) (w : World) : option (Z * Z * Z * Manager * World) :=
  match blocks with
  | [] => Some (acked, failed, sent, m, w)
  | i :: blocks' =>
      let '(acked, failed, sent', m) := @dry_block src _ job i (acked, failed, sent, m) in
      if negb (sent' =? sent) && (sent' mod 100 =? 0) && (0 <? sent') then
        r ← save_state devNo m w;
        let '(m, w) := r in dry_loop src job devNo blocks' acked failed sent' m w
      else dry_loop src job devNo blocks' acked failed sent' m w
  end.

(** The blocks sent, the statistics and what the transfer leaves. *)
Definition PipelineTransferBlocks (cfg : BackupConfig) (devNo : Z) (comp : Compressor) (c : Client)
    (m : Manager) (versionId totalBlocks totalSize : Z) (path : list Z) (stats : DiskStats) (w : World)
    : option (Z * DiskStats * Client * Manager * World) :=
  if PipelineWindowSize cfg <? 0 then None
  else
    match mc_source path with
    | None => Some (0, stats, c, m, w)
    | Some src =>
        let job := {| job_devNo := u32 devNo; job_versionId := versionId; job_totalBlocks := totalBlocks;
                      job_totalSize := totalSize; job_hasher := mc_hasher; job_compressor := comp |} in
        if DryRun cfg then
          r ← dry_loop src job devNo (seqZ 0 totalBlocks) 0 0 0 m w;
          let '(acked, failed, sent, m, w) := r in
          let t := {| SentBlocks := sent; AckedBlocks := acked;
                      FailedBlocks := u64 (FailedBlocks (ds_transfer stats) + failed);
                      SkippedBlocks := 0; CompressedBytes := 0 |} in
          Some (sent, set_transfer t stats, c, m, w)
        else
          r ← threads src job (PipelineWindowSize cfg) m (StartAckReceiver c) w;
          let '(run, c, w) := r in
          let t := transfer_stats run in
          let t := {| SentBlocks := SentBlocks t; AckedBlocks := AckedBlocks t;
                      FailedBlocks := u64 (FailedBlocks (ds_transfer stats) + FailedBlocks t);
                      SkippedBlocks := SkippedBlocks t; CompressedBytes := CompressedBytes t |} in
          Some (SentBlocks t, set_transfer t stats, StopAckReceiver c, blockState (shared run), w)
    end.

(** ** The block-by-block transfer *)

(** What a transfer changes: the connection, the block states, the counts
    [sentCount], [stats.AckedBlocks] and [totalCompressed], and the world. *)
Record Sync := {
  y_client : Client; y_states : Manager; y_sent : Z; y_acked : Z; y_compressed : Z; y_world : World }.

Definition SimulatedAck (blockIndex : Z) (m : Manager) : bool * Manager :=
  (true, snd (SetBlockAck blockIndex Acknowledged m)).

Definition sync_block_size (totalBlocks : Z) (b : BlockState) : Z :=
  if b_BlockIndex b =? u64 (totalBlocks - 1) then
    let remain := u64 (u64 (totalBlocks * BLOCK_SIZE) - b_Offset b) in
    if remain <? BLOCK_SIZE then u32 remain else BLOCK_SIZE
  else BLOCK_SIZE.

(** The read of a block into a zeroed vector: whether it is complete, and the
    vector. *)
Definition sync_read (src : option Source) (offset size : Z) : bool * list Z :=
  match src with
  | None => (false, zeros size)
  | Some s =>
      if negb (@SetFilePointerEx s (s64 offset)) then (false, zeros size)
      else match @ReadFile s (s64 offset) size with
           | None => (false, zeros size)
           | Some d => (zlen d =? size, overlay d (zeros size))
           end
  end.

(** The loop over the tries that are left. *)
Fixpoint retry_loop (tries : nat) (cfg : BackupConfig) (devNo versionId : Z) (b : BlockState)
    (size : Z) (compressed : list Z) (y : Sync) : option Sync :=
  match tries with
  | O => Some y
  | S tries' =>
      r ← (if DryRun cfg then
             let '(ok, m) := SimulatedAck (b_BlockIndex b) (y_states y) in Some (ok, y_client y, m)
           else
             r ← SendBlock (u32 devNo) (b_BlockIndex b) size compressed (u32 (zlen compressed)) (b_Hash b)
                   versionId (y_client y);
             let '(ok, c) := r in Some (ok, c, y_states y));
      let '(acked, c, m) := r in
      if (acked : bool) then
        Some {| y_client := c; y_states := snd (SetBlockAck (b_BlockIndex b) Acknowledged m);
                y_sent := u64 (y_sent y + 1); y_acked := u64 (y_acked y + 1);
                y_compressed := y_compressed y; y_world := y_world y |}
      else
        retry_loop tries' cfg devNo versionId b size compressed
          {| y_client := c; y_states := snd (SetBlockAck (b_BlockIndex b) Failed m);
             y_sent := y_sent y; y_acked := y_acked y; y_compressed := y_compressed y;
             y_world := y_world y |}
  end.

(** One block of the loop. *)
Definition sync_block (cfg : BackupConfig) (devNo versionId totalBlocks : Z) (comp : Compressor)
    (src : option Source) (b : BlockState) (y : Sync) : option Sync :=
  let size := sync_block_size totalBlocks b in
  let '(readOk, data) := sync_read src (b_Offset b) size in
  if negb readOk && negb (DryRun cfg) then Some y
  else
    r ← Compress comp data [];
    let '(ok, compressed) := r in
    if negb ok then Some y
    else
      y ← retry_loop (Z.to_nat (RetryCount cfg + 1)) cfg devNo versionId b size compressed
            {| y_client := y_client y; y_states := y_states y; y_sent := y_sent y; y_acked := y_acked y;
               y_compressed := u64 (y_compressed y + zlen compressed); y_world := y_world y |};
      if (y_sent y mod 100 =? 0) && (0 <? y_sent y) then
        r ← save_state devNo (y_states y) (y_world y);
        let '(m, w) := r in
        Some {| y_client := y_client y; y_states := m; y_sent := y_sent y; y_acked := y_acked y;
                y_compressed := y_compressed y; y_world := w |}
      else Some y.

Fixpoint sync_loop (cfg : BackupConfig) (devNo versionId totalBlocks : Z) (comp : Compressor)
    (src : option Source) (pending : list BlockState) (y : Sync) : option Sync :=
  match pending with
  | [] => Some y
  | b :: pending' =>
      y ← sync_block cfg devNo versionId totalBlocks comp src b y;
      sync_loop cfg devNo versionId totalBlocks comp src pending' y
  end.

Definition TransferBlocks (cfg : BackupConfig) (devNo : Z) (comp : Compressor) (c : Client) (m : Manager)
    (versionId totalBlocks : Z) (path : list Z) (stats : DiskStats) (w : World)
    : option (Z * DiskStats * Client * Manager * World) :=
  y ← sync_loop cfg devNo versionId totalBlocks comp (mc_source path) (GetPendingBlocks m)
        {| y_client := c; y_states := m; y_sent := 0; y_acked := AckedBlocks (ds_transfer stats);
           y_compressed := 0; y_world := w |};
  let t := ds_transfer stats in
  Some (y_sent y,
        set_transfer {| SentBlocks := SentBlocks t; AckedBlocks := y_acked y; FailedBlocks := FailedBlocks t;
                        SkippedBlocks := SkippedBlocks t; CompressedBytes := y_compressed y |} stats,
        y_client y, y_states y, y_world y).

(** ** A full backup *)

(** The version, the greeting and the transfer; the shadow copies are taken. *)
Definition full_transfer (cfg : BackupConfig) (devNo : Z) (layout : DiskLayout) (mapped : list MappedPartition)
    (vss : VssManager) (stats : DiskStats) (w : World) : option (bool * DiskStats * World) :=
  let totalSize := d_Size (Disk layout) in
  let totalBlocks := u64 (totalSize + BLOCK_SIZE - 1) / BLOCK_SIZE in
  let path := data_source mapped vss devNo in
  m ← open_state devNo w;
  let '(ver, m) := CreateVersion FULL mc_systemTime totalBlocks totalSize mc_now m in
  if mc_max_blocks <? totalBlocks then None
  else
    let '(_, m) := InitFullBlocksEmpty (v_VersionId ver) totalBlocks m in
    let comp := snd (DataCompressor.Initialize Compressor_new) in
    h ← (if DryRun cfg then Some (Welcome (NetworkClient_new w))
         else connect_hello (v_VersionId ver) devNo totalBlocks totalSize FULL (NetworkClient_new w));
    match h with
    | NotConnected c =>
        w ← delete_state devNo m (set_network (net c) w); cleanup_leave false stats vss w
    | Rejected c =>
        r ← save_state devNo m w;
        let '(m, w) := r in
        w ← delete_state devNo m (set_network (net c) w); cleanup_leave false stats vss w
    | Welcome c =>
        let stats := set_totals totalBlocks totalBlocks totalSize stats in
        r ← PipelineTransferBlocks cfg devNo comp c m (u32 (v_VersionId ver)) totalBlocks totalSize
              path stats w;
        let '(sent, stats, c, m, w) := r in
        let stats := set_SentBlocks sent stats in
        c ← CloseConnection (u32 devNo) c;
        r ← save_state devNo m w;
        let '(m, w) := r in
        w ← delete_state devNo m (set_network (net c) w); cleanup_leave true stats vss w
    end.

Definition FullBackup (cfg : BackupConfig) (devNo : Z) (layout : DiskLayout) (stats : DiskStats) (w : World)
    : option (bool * DiskStats * World) :=
  let stats := set_VssUsed true stats in
  let mapped := m_mapped (snd (Map layout)) in
  r ← VssManager.Initialize (VssManager_new (w_vss w));
  let '(ok, vss) := r in
  if negb ok then leave false stats vss w
  else
    let '(ok, vss) := StartSnapshotSet vss in
    if negb ok then cleanup_leave false stats vss w
    else
      r ← take_snapshot mapped vss;
      match r with
      | (None, vss) => cleanup_leave false stats vss w
      | (Some used, vss) => full_transfer cfg devNo layout mapped vss (set_VssUsed used stats) w
      end.

(** ** An incremental backup *)

(** The manifest the changed blocks are hashed with. *)
Definition dummy_manifest (totalBlocks totalSize : Z) : HashManifest :=
  {| m_BlockSize := BLOCK_SIZE; m_TotalBlocks := totalBlocks; m_TotalSize := totalSize;
     m_Entries := replicate (Z.to_nat totalBlocks) {| e_BlockIndex := 0; e_Offset := 0; e_Hash := zeros 32 |};
     m_Timestamp := 0; m_VolumePath := [] |}.

(** The hashes of the changed blocks, read from the disk; [None]: the vector of
    entries cannot be allocated. *)
Definition changed_hashes (devNo totalBlocks totalSize : Z) (changed : list Z) : option (list BlockHashEntry) :=
  match mc_source (physical_drive devNo) with
  | None => Some []
  | Some src =>
      if mc_max_entries <? totalBlocks then None
      else Some (snd (@ComputeBlockHashes src mc_hasher true (dummy_manifest totalBlocks totalSize) changed []))
  end.

(** The hashes, the transfer, the reset of the driver's bitmap. *)
Definition incremental_transfer (cfg : BackupConfig) (devNo : Z) (cbt : CbtClient) (mapped : list MappedPartition)
    (vss : VssManager) (cbtChanged : list Z) (ver : VersionRecord) (totalBlocks totalSize : Z) (comp : Compressor)
    (c : Client) (m : Manager) (stats : DiskStats) (w : World) : option (bool * DiskStats * World) :=
  hashes ← changed_hashes devNo totalBlocks totalSize cbtChanged;
  let '(_, m) := UpdateIncrementalBlocks (v_VersionId ver) cbtChanged hashes m in
  let stats := set_totals totalBlocks (zlen cbtChanged) totalSize stats in
  let path := data_source mapped vss devNo in
  r ← TransferBlocks cfg devNo comp c m (u32 (v_VersionId ver)) totalBlocks path stats w;
  let '(sent, stats, c, m, w) := r in
  let stats := set_SentBlocks sent stats in
  c ← CloseConnection (u32 devNo) c;
  let '(_, s) := Reset cbt (u32 devNo) (w_cbt w) in
  let w := set_cbt s w in
  r ← save_state devNo m w;
  let '(m, w) := r in
  w ← delete_state devNo m (set_network (net c) w); cleanup_leave true stats vss w.

(** The version and the greeting, before the hashes are computed. *)
Definition incremental_version (cfg : BackupConfig) (devNo : Z) (cbt : CbtClient) (mapped : list MappedPartition)
    (vss : VssManager) (cbtChanged : list Z) (stats : DiskStats) (w : World) : option (bool * DiskStats * World) :=
  m ← open_state devNo w;
  let totalBlocks := m_totalBlocks m in
  let totalSize := u64 (totalBlocks * BLOCK_SIZE) in
  let '(ver, m) := CreateVersion INCREMENTAL mc_systemTime totalBlocks totalSize mc_now m in
  let comp := snd (DataCompressor.Initialize Compressor_new) in
  h ← (if DryRun cfg then Some (Welcome (NetworkClient_new w))
       else connect_hello (v_VersionId ver) devNo totalBlocks totalSize INCREMENTAL
              (NetworkClient_new w));
  match h with
  | NotConnected c | Rejected c =>
      r ← save_state devNo m w;
      let '(m, w) := r in
      w ← delete_state devNo m (set_network (net c) w); cleanup_leave false stats vss w
  | Welcome c =>
      incremental_transfer cfg devNo cbt mapped vss cbtChanged ver totalBlocks totalSize comp c m stats w
  end.

Definition IncrementalBackup (cfg : BackupConfig) (devNo : Z) (layout : DiskLayout) (stats : DiskStats)
    (w : World) : option (bool * DiskStats * World) :=
  let stats := set_VssUsed true stats in
  let '(ok, cbt) := CbtClient.Connect mc_cbt_open1 mc_cbt_open2 mc_services CbtClient_new in
  if negb ok then Some (false, stats, w)
  else
    q ← Query cbt (u32 devNo) [] 0 (w_cbt w);
    let '(ok, bitmap, totalBits, s) := q in
    let w := set_cbt s w in
    if negb ok then Some (false, stats, w)
    else
      match ParseChangedBlocks bitmap totalBits with
      | [] => Some (true, stats, w)
      | cbtChanged =>
          r ← VssManager.Initialize (VssManager_new (w_vss w));
          let '(ok, vss) := r in
          if negb ok then leave false stats vss w
          else
            let '(ok, vss) := StartSnapshotSet vss in
            if negb ok then cleanup_leave false stats vss w
            else
              let mapped := m_mapped (snd (Map layout)) in
              r ← take_snapshot mapped vss;
              match r with
              | (None, vss) => cleanup_leave false stats vss w
              | (Some used, vss) =>
                  incremental_version cfg devNo cbt mapped vss cbtChanged (set_VssUsed used stats) w
              end
      end.

(** ** Disks *)

(** The layout [Parse] starts from. *)
Definition DiskLayout_new : DiskLayout :=
  {| Disk := {| d_DeviceNumber := 0; d_Size := 0; d_SectorSize := 0; d_Style := StyleUnknown;
                d_GPT := GPTInfo_zero |};
     Partitions := []; FreeRanges := []; MetadataRanges := [] |}.

Definition BackupDisk (cfg : BackupConfig) (devNo : Z) (stats : DiskStats) (w : World)
    : option (bool * DiskStats * World) :=
  match mc_disk devNo with
  | None => Some (false, stats, w)
  | Some dev =>
      r ← @Parse dev devNo DiskLayout_new;
      let '(ok, layout) := r in
      if negb ok then Some (false, stats, w)
      else if UseCbt cfg then IncrementalBackup cfg devNo layout stats w
      else FullBackup cfg devNo layout stats w
  end.

Fixpoint run_loop (cfg : BackupConfig) (devNos : list Z) (allOk : bool) (stats : list DiskStats) (w : World)
    : option (bool * list DiskStats * World) :=
  match devNos with
  | [] => Some (allOk, stats, w)
  | devNo :: devNos' =>
      r ← BackupDisk cfg devNo (DiskStats_new devNo) w;
      let '(ok, diskStats, w) := r in
      run_loop cfg devNos' (if ok : bool then allOk else false) (stats ++ [diskStats]) w
  end.

Definition Run (cfg : BackupConfig) (devNos : list Z) (stats : list DiskStats) (w : World)
    : option (bool * list DiskStats * World) := run_loop cfg devNos true stats w.
End engine.
