(* ===== verification/BackupEngineSpec.v ===== *)
(** * The backup engine: what its runs guarantee

    The shadow copy service after every return, the block-by-block transfer,
    and what an incremental backup does with the state an earlier one saved. *)

From S2P Require Import Prelude.
From S2P Require Import Protocol.
From S2P Require Import BlockHasher.
From S2P Require Import DataCompressor.
From S2P Require Import NetworkClient.
From S2P Require Import CbtDriver.
From S2P Require Import CbtClient.
From S2P Require Import BlockStateManager.
From S2P Require Import Crc32.
From S2P Require Import StateFile.
From S2P Require Import Pipeline.
From S2P Require Import DiskParser.
From S2P Require Import VolumeMapper.
From S2P Require Import VssManager.
From S2P Require Import BackupEngine.

Section engine.
Context {Net Drv : Type} `{Socket Net} `{IoControl Drv} `{VssApi} `{VolumeApi} `{CompressApi}
  `{!Machine Net Drv}.
Abbreviation World := (World Net Drv).
Abbreviation Sync := (@BackupEngine.Sync Net Drv).

(** ** The block-by-block transfer *)

Definition slot (b : BlockState) : nat := Z.to_nat (b_BlockIndex b).

Lemma SetBlockAck_insert i st m b :
  m_blocks m !! Z.to_nat i = Some b ->
  m_blocks (snd (SetBlockAck i st m)) = <[Z.to_nat i := set_Ack st b]> (m_blocks m).
Proof. intros E. rewrite SetBlockAck_blocks. by rewrite (list_insert_alter _ _ _ _ E). Qed.

Lemma save_state_blocks devNo m (w : World) m' w' :
  save_state devNo m w = Some (m', w') -> m_blocks m' = m_blocks m.
Proof.
  unfold save_state. destruct (Save _ _ _ _ _ _) as [[[ok m1] f]|] eqn:E; [|done]. cbn. intros [= <- <-].
  unfold Save in E. destruct (negb (BlockStateManager.m_initialized m)); [by injection E as _ <-|].
  destruct (negb _); [by injection E as _ <-|]. destruct (block_records _ _); [|done]. cbn in E.
  destruct (sa_move _); by injection E as _ <-.
Qed.

(** What the transfer does with a pending block, on its own: the status the block
    ends with and the connection afterwards. *)
Section one_block.
Context (cfg : BackupConfig) (devNo vid total : Z) (comp : Compressor) (src : option Source).

(** One call of [SendBlock] for the block, and [n] of them that return [false]. *)
Definition send_try (b : BlockState) (compressed : list Z) (c : Client Net) : option (bool * Client Net) :=
  SendBlock (u32 devNo) (b_BlockIndex b) (sync_block_size total b) compressed (u32 (zlen compressed)) (b_Hash b) vid c.
Fixpoint failed_tries (n : nat) (b : BlockState) (compressed : list Z) (c : Client Net) : option (Client Net) :=
  match n with
  | O => Some c
  | S n' => match send_try b compressed c with
            | Some (false, c') => failed_tries n' b compressed c'
            | _ => None
            end
  end.

(** The tries that are made: one, and [RetryCount] more. *)
Definition max_tries : nat := Z.to_nat (RetryCount cfg + 1).

Inductive block_done (b : BlockState) (c : Client Net) : Z -> Client Net -> Prop :=
| not_read data :
    DryRun cfg = false -> sync_read src (b_Offset b) (sync_block_size total b) = (false, data) ->
    block_done b c (b_Ack b) c
| not_compressed readOk data out :
    sync_read src (b_Offset b) (sync_block_size total b) = (readOk, data) -> readOk || DryRun cfg = true ->
    Compress comp data [] = Some (false, out) -> block_done b c (b_Ack b) c
| pretended readOk data compressed :
    DryRun cfg = true -> sync_read src (b_Offset b) (sync_block_size total b) = (readOk, data) ->
    Compress comp data [] = Some (true, compressed) -> (0 < max_tries)%nat -> block_done b c Acknowledged c
| delivered data compressed k c1 c2 :
    DryRun cfg = false -> sync_read src (b_Offset b) (sync_block_size total b) = (true, data) ->
    Compress comp data [] = Some (true, compressed) -> (k < max_tries)%nat ->
    failed_tries k b compressed c = Some c1 -> send_try b compressed c1 = Some (true, c2) ->
    block_done b c Acknowledged c2
| given_up data compressed c1 :
    DryRun cfg = false -> sync_read src (b_Offset b) (sync_block_size total b) = (true, data) ->
    Compress comp data [] = Some (true, compressed) -> (0 < max_tries)%nat ->
    failed_tries max_tries b compressed c = Some c1 -> block_done b c Failed c1
| never_tried readOk data compressed :
    sync_read src (b_Offset b) (sync_block_size total b) = (readOk, data) -> readOk || DryRun cfg = true ->
    Compress comp data [] = Some (true, compressed) -> max_tries = O -> block_done b c (b_Ack b) c.

(** The blocks one after the other. *)
Inductive blocks_done : list BlockState -> Client Net -> list Z -> Client Net -> Prop :=
| done_all c : blocks_done [] c [] c
| done_next b todo c a c1 st c' :
    block_done b c a c1 -> blocks_done todo c1 st c' -> blocks_done (b :: todo) c (a :: st) c'.
End one_block.

(** The state after a block, with the counts of the acknowledged ones. *)
Definition tried (b : BlockState) (a : Z) (y y' : Sync) : Prop :=
  m_blocks (y_states y') = <[slot b := set_Ack a b]> (m_blocks (y_states y)) /\
  if decide (a = Acknowledged) then y_sent y' = u64 (y_sent y + 1) /\ y_acked y' = u64 (y_acked y + 1)
  else y_sent y' = y_sent y /\ y_acked y' = y_acked y.

Lemma set_Ack_same b : set_Ack (b_Ack b) b = b.
Proof. by destruct b. Qed.

(** A try that fails leaves the block [Failed]. *)
Lemma fail_block (y : Sync) (b : BlockState) a0 c :
  m_blocks (y_states y) !! slot b = Some (set_Ack a0 b) ->
  let y1 := {| y_client := c; y_states := snd (SetBlockAck (b_BlockIndex b) Failed (y_states y)); y_sent := y_sent y;
               y_acked := y_acked y; y_compressed := y_compressed y; y_world := y_world y |} in
  m_blocks (y_states y1) !! slot b = Some (set_Ack Failed b) /\
  forall a y', tried b a y1 y' -> tried b a y y'.
Proof.
  intros Hb. cbn. split.
  - erewrite SetBlockAck_insert by exact Hb. apply list_lookup_insert_eq. by eapply lookup_lt_Some.
  - intros a y' [Hbs Hc]. split; [|done]. rewrite Hbs. cbn. erewrite SetBlockAck_insert by exact Hb.
    apply list_insert_insert_eq.
Qed.

(** Acknowledging it. *)
Lemma ack_tried (y : Sync) (b : BlockState) a0 c m :
  m_blocks (y_states y) !! slot b = Some (set_Ack a0 b) ->
  m = y_states y \/ m = snd (SetBlockAck (b_BlockIndex b) Acknowledged (y_states y)) ->
  tried b Acknowledged y
    {| y_client := c; y_states := snd (SetBlockAck (b_BlockIndex b) Acknowledged m); y_sent := u64 (y_sent y + 1);
       y_acked := u64 (y_acked y + 1); y_compressed := y_compressed y; y_world := y_world y |}.
Proof.
  intros Hb Hm. split; [|by rewrite decide_True]. cbn. destruct Hm as [->| ->].
  - by erewrite SetBlockAck_insert by exact Hb.
  - erewrite SetBlockAck_insert; [|erewrite SetBlockAck_insert by exact Hb; apply list_lookup_insert_eq;
      by eapply lookup_lt_Some]. erewrite SetBlockAck_insert by exact Hb. apply list_insert_insert_eq.
Qed.

(** The loop over the tries, in the simulation and on the network. *)
Lemma retry_loop_dry tries cfg devNo vid b size compressed (y y' : Sync) :
  DryRun cfg = true -> b_Ack b <> Acknowledged -> m_blocks (y_states y) !! slot b = Some b ->
  retry_loop tries cfg devNo vid b size compressed y = Some y' ->
  y_client y' = y_client y /\ tried b (if decide (tries = O) then b_Ack b else Acknowledged) y y'.
Proof.
  intros Hd Hna Hb. destruct tries as [|tries]; cbn [retry_loop].
  - intros [= <-]. split; [done|]. rewrite decide_True by done.
    split; [by rewrite set_Ack_same, list_insert_id|]. by rewrite decide_False.
  - rewrite Hd. rewrite decide_False by done. cbn [SimulatedAck mbind option_bind]. intros [= <-]. split; [done|].
    apply (ack_tried _ _ (b_Ack b)); [by rewrite set_Ack_same|by right].
Qed.

Lemma retry_loop_sends tries cfg devNo vid total b compressed : forall (y y' : Sync) a0,
  DryRun cfg = false -> a0 <> Acknowledged -> m_blocks (y_states y) !! slot b = Some (set_Ack a0 b) ->
  retry_loop tries cfg devNo vid b (sync_block_size total b) compressed y = Some y' ->
  (exists k c1, (k < tries)%nat /\ failed_tries devNo vid total k b compressed (y_client y) = Some c1 /\
     send_try devNo vid total b compressed c1 = Some (true, y_client y') /\ tried b Acknowledged y y') \/
  (failed_tries devNo vid total tries b compressed (y_client y) = Some (y_client y') /\
   tried b (if decide (tries = O) then a0 else Failed) y y').
Proof.
  induction tries as [|tries IH]; intros y y' a0 Hd Hna Hb; cbn [retry_loop].
  { intros [= <-]. right. split; [done|]. rewrite decide_True by done.
    split; [by rewrite list_insert_id|]. by rewrite decide_False. }
  rewrite Hd. cbn [failed_tries].
  destruct (SendBlock _ _ _ _ _ _ _ _) as [[ok c']|] eqn:E; [|done]. cbn [mbind option_bind].
  fold (send_try devNo vid total b compressed (y_client y)) in E. destruct ok.
  - intros [= <-]. left. exists O, (y_client y). split_and!; [lia|done|exact E|].
    apply (ack_tried _ _ a0); [done|by left].
  - destruct (fail_block y b a0 c' Hb) as [Hb1 Ht]. intros Hr.
    destruct (IH _ y' Failed Hd ltac:(done) Hb1 Hr) as [(k & c1 & Hk & Hf & Hs & Htr)|[Hf Htr]].
    + left. exists (S k), c1. split_and!; [lia| |done|by apply Ht]. cbn [failed_tries]. by rewrite E.
    + right. rewrite E. split; [exact Hf|]. apply Ht. revert Htr. by destruct (decide (tries = O)).
Qed.

Lemma sync_block_tried cfg devNo vid total comp src b (y y' : Sync) :
  m_blocks (y_states y) !! slot b = Some b -> b_Ack b <> Acknowledged ->
  sync_block cfg devNo vid total comp src b y = Some y' ->
  exists a, block_done cfg devNo vid total comp src b (y_client y) a (y_client y') /\ tried b a y y'.
Proof.
  intros Hb Hna. assert (tried b (b_Ack b) y y) as Hsame.
  { split; [by rewrite set_Ack_same, list_insert_id|]. by rewrite decide_False. }
  unfold sync_block. destruct (sync_read _ _ _) as [readOk data] eqn:Er.
  destruct (negb readOk && negb (DryRun cfg)) eqn:Eok.
  { intros [= <-]. apply andb_true_iff in Eok as [Eo Ed]. apply negb_true_iff in Eo as ->, Ed.
    exists (b_Ack b). split; [by eapply not_read|done]. }
  assert (readOk || DryRun cfg = true) as Hok by (by destruct readOk, (DryRun cfg)).
  destruct (Compress _ _ _) as [[[] compressed]|] eqn:Ec; [| |done]; cbn [mbind option_bind negb];
    [|intros [= <-]; exists (b_Ack b); split; [by eapply not_compressed|done]].
  set (y0 := {| y_client := y_client y |}). fold (max_tries cfg).
  destruct (retry_loop _ _ _ _ _ _ _ y0) as [y1|] eqn:E; [|done]. cbn [mbind option_bind]. intros Hsave.
  assert (exists a, block_done cfg devNo vid total comp src b (y_client y) a (y_client y1) /\ tried b a y y1)
    as (a & Hdone & Hbs & Hc).
  { destruct (DryRun cfg) eqn:Hd.
    - destruct (retry_loop_dry _ _ _ _ _ _ _ y0 y1 Hd Hna Hb E) as [Hcl Ht]. rewrite Hcl.
      eexists. split; [|exact Ht]. destruct (decide (max_tries cfg = O)) as [Hm|Hm];
        [by eapply never_tried; [exact Er|rewrite Hd|exact Ec|]|eapply pretended; [done|exact Er|exact Ec|lia]].
    - rewrite orb_false_r in Hok. subst readOk.
      destruct (retry_loop_sends (max_tries cfg) cfg devNo vid total b compressed y0 y1 (b_Ack b) Hd Hna
        ltac:(by rewrite set_Ack_same) E) as [(k & c1 & Hk & Hf & Hs & Ht)|[Hf Ht]].
      + exists Acknowledged. split; [|exact Ht]. by eapply delivered.
      + eexists. split; [|exact Ht]. destruct (decide (max_tries cfg = O)) as [Hm|Hm].
        * rewrite Hm in Hf. injection Hf as Hf. rewrite <- Hf. by eapply never_tried.
        * eapply given_up; [done..|lia|exact Hf]. }
  revert Hsave. destruct ((y_sent y1 mod 100 =? 0) && (0 <? y_sent y1)).
  - destruct (save_state _ _ _) as [[m w]|] eqn:Es; [|done]. apply save_state_blocks in Es as Em.
    cbn [mbind option_bind]. intros [= <-]. exists a. split; [done|]. split; [by cbn; rewrite Em|done].
  - intros [= <-]. by exists a.
Qed.

(** The blocks of [todo] tried one after the other. *)
Definition acked_in (m : Manager) (b : BlockState) : Prop :=
  m_blocks m !! slot b = Some (set_Ack Acknowledged b).
#[local] Instance BlockState_eq_dec : EqDecision BlockState.
Proof. solve_decision. Defined.
#[export] Instance acked_in_dec m b : Decision (acked_in m b).
Proof. unfold acked_in. apply _. Defined.

Lemma acked_count (y : Sync) a b todo :
  m_blocks (y_states y) !! slot b = Some (set_Ack a b) ->
  zlen (filter (acked_in (y_states y)) (b :: todo))
  = (if decide (a = Acknowledged) then 1 else 0) + zlen (filter (acked_in (y_states y)) todo).
Proof.
  intros Hb. rewrite filter_cons. destruct (decide (a = Acknowledged)) as [->|Hne].
  - rewrite decide_True by exact Hb. cbn [length]. lia.
  - rewrite decide_False; [lia|]. unfold acked_in. rewrite Hb. intros [= E]. by apply Hne.
Qed.

Lemma sync_loop_tried cfg devNo vid total comp src todo : forall y y' : Sync,
  NoDup (map slot todo) -> Forall (fun b => m_blocks (y_states y) !! slot b = Some b) todo ->
  Forall (fun b => b_Ack b <> Acknowledged) todo ->
  0 <= y_sent y -> y_sent y + zlen todo < 2 ^ 64 -> 0 <= y_acked y -> y_acked y + zlen todo < 2 ^ 64 ->
  sync_loop cfg devNo vid total comp src todo y = Some y' ->
  let m' := y_states y' in
  (forall k, k ∉ map slot todo -> m_blocks m' !! k = m_blocks (y_states y) !! k) /\
  (exists statuses, blocks_done cfg devNo vid total comp src todo (y_client y) statuses (y_client y') /\
     Forall2 (fun b a => m_blocks m' !! slot b = Some (set_Ack a b)) todo statuses) /\
  y_sent y' = y_sent y + zlen (filter (acked_in m') todo) /\
  y_acked y' = y_acked y + zlen (filter (acked_in m') todo).
Proof.
  induction todo as [|b todo IH]; intros y y' Hnd Hin Hna Hs0 Hs Ha0 Ha.
  { intros [= <-]. cbn. split_and!; [done|exists []; split; constructor|lia|lia]. }
  apply NoDup_cons in Hnd as [Hnb Hnd]. apply Forall_cons in Hin as [Hb Hin], Hna as [Hnab Hna].
  cbn [length] in Hs, Ha. cbn [sync_loop].
  destruct (sync_block _ _ _ _ _ _ _ _) as [y1|] eqn:E; [|done]. cbn [mbind option_bind].
  apply sync_block_tried in E as (a & Hdone & Hbs & Hc); [|done|done]. intros Hl. cbn zeta.
  assert (Forall (fun b' => m_blocks (y_states y1) !! slot b' = Some b') todo) as Hin1.
  { rewrite Forall_forall in Hin |- *. intros b' Hb'. rewrite Hbs, list_lookup_insert_ne; [by apply Hin|].
    intros Eq. apply Hnb. rewrite Eq. by apply list_elem_of_fmap_2. }
  assert (y_sent y1 = y_sent y + (if decide (a = Acknowledged) then 1 else 0) /\
          y_acked y1 = y_acked y + (if decide (a = Acknowledged) then 1 else 0)) as [Hs1 Ha1].
  { destruct (decide (a = Acknowledged)); destruct Hc as [-> ->]; [|lia]. rewrite !wrap_small by (unfold in_width; lia). lia. }
  assert (0 <= (if decide (a = Acknowledged) then 1 else 0) <= 1) as H01 by (destruct (decide _); lia).
  destruct (IH y1 y' Hnd Hin1 Hna ltac:(lia) ltac:(lia) ltac:(lia) ltac:(lia) Hl)
    as (Hk & (statuses & Hd & Hf) & Hsent & Hacked).
  assert (m_blocks (y_states y') !! slot b = Some (set_Ack a b)) as Hlook.
  { rewrite (Hk (slot b) Hnb), Hbs. apply list_lookup_insert_eq. by eapply lookup_lt_Some. }
  split_and!.
  - intros k Hnk. apply not_elem_of_cons in Hnk as [Hne Hnk]. rewrite (Hk k Hnk), Hbs. by apply list_lookup_insert_ne.
  - exists (a :: statuses). split; [by eapply done_next|by constructor].
  - rewrite Hsent, Hs1, (acked_count y' a b todo Hlook). lia.
  - rewrite Hacked, Ha1, (acked_count y' a b todo Hlook). lia.
Qed.

(** The pending blocks of a manager whose blocks carry their positions. *)
Lemma pending_facts m :
  (forall k b, m_blocks m !! k = Some b -> b_BlockIndex b = Z.of_nat k) ->
  zlen (GetPendingBlocks m) <= zlen (m_blocks m) /\ NoDup (map slot (GetPendingBlocks m)) /\
  Forall (fun b => m_blocks m !! slot b = Some b) (GetPendingBlocks m) /\
  Forall (fun b => b_Ack b <> Acknowledged) (GetPendingBlocks m).
Proof.
  intros Hix. unfold GetPendingBlocks.
  assert (forall k b, m_blocks m !! k = Some b -> slot b = k) as Hslot.
  { intros k b Hb. unfold slot. by rewrite (Hix k b Hb), Nat2Z.id. }
  assert (forall b, b ∈ m_blocks m -> m_blocks m !! slot b = Some b) as Hl.
  { intros b (k & Hb)%list_elem_of_lookup. by rewrite (Hslot k b Hb). }
  split; [|split; [|split]].
  - pose proof (length_filter (fun b => NeedsUpload b = true) (m_blocks m)). lia.
  - apply NoDup_fmap_2_strong.
    + intros b b' [_ Hb]%list_elem_of_filter [_ Hb']%list_elem_of_filter Heq.
      apply Hl in Hb, Hb'. rewrite Heq in Hb. congruence.
    + apply NoDup_filter, NoDup_alt. intros i j b Hi Hj. by rewrite <- (Hslot i b Hi), <- (Hslot j b Hj).
  - apply Forall_forall. intros b [_ Hb]%list_elem_of_filter. by apply Hl.
  - apply Forall_forall. intros b [Hn _]%list_elem_of_filter Ha. unfold NeedsUpload in Hn.
    by rewrite Ha, andb_false_r in Hn.
Qed.

(** In the simulation every block that compresses is acknowledged at once. *)
Lemma sync_loop_dry cfg devNo vid total comp src todo : forall y y' : Sync,
  DryRun cfg = true -> 0 <= RetryCount cfg ->
  (forall data, exists compressed, Compress comp data [] = Some (true, compressed)) ->
  0 <= y_sent y -> y_sent y + zlen todo < 2 ^ 64 ->
  sync_loop cfg devNo vid total comp src todo y = Some y' -> y_sent y' = y_sent y + zlen todo.
Proof.
  induction todo as [|b todo IH]; intros y y' Hd Hr Hc Hlo Hb; [intros [= <-]; cbn; lia|].
  cbn [length] in *. cbn [sync_loop].
  destruct (sync_block _ _ _ _ _ _ _ _) as [y1|] eqn:E; [|done]. cbn [mbind option_bind]. intros Hl.
  assert (y_sent y1 = y_sent y + 1) as E1.
  { revert E. unfold sync_block. destruct (sync_read _ _ _) as [readOk data]. rewrite Hd, andb_false_r.
    destruct (Hc data) as [compressed ->]. cbn [mbind option_bind negb].
    replace (Z.to_nat (RetryCount cfg + 1)) with (S (Z.to_nat (RetryCount cfg))) by lia.
    cbn [retry_loop]. rewrite Hd. cbn [SimulatedAck mbind option_bind].
    destruct (_ && _).
    - destruct (save_state _ _ _) as [[m w]|]; [|done]. intros [= <-]. cbn. apply wrap_small. unfold in_width. lia.
    - intros [= <-]. cbn. apply wrap_small. unfold in_width. lia. }
  rewrite (IH y1 y' Hd Hr Hc); [lia|lia|lia|done].
Qed.

(** ** The shadow copies of a backup *)

(** Nothing is held and nothing pending. *)
Definition idle (h : history) : Prop := vss_run h = Some (false, false).

Lemma new_Inv h : idle h -> Inv (VssManager_new h).
Proof. intros Hh. split; [exact Hh|done]. Qed.

Lemma leave_idle b stats s (w : World) :
  Inv s -> exists w', leave b stats s w = Some (b, stats, w') /\ idle (w_vss w') /\
    w' = set_vss (w_vss w') w.
Proof.
  intros Hs. unfold leave, VssManager_delete. destruct (m_initialized s) eqn:E.
  - destruct (Cleanup_Inv s Hs) as (s' & -> & (Hr & _) & Hp & _). cbn. eexists. split; [done|].
    split; [|done]. unfold idle, safe in *. cbn [w_vss set_vss]. by rewrite Hr, Hp.
  - cbn. eexists. split; [done|]. split; [|done]. destruct Hs as (Hr & Hi & _). unfold idle, safe in *. cbn [w_vss set_vss].
    by rewrite Hr, <- Hi, E.
Qed.

Lemma cleanup_leave_idle b stats s (w : World) :
  Inv s -> exists w', cleanup_leave b stats s w = Some (b, stats, w') /\ idle (w_vss w') /\
    w' = set_vss (w_vss w') w.
Proof.
  intros Hs. unfold cleanup_leave. destruct (Cleanup_Inv s Hs) as (s' & -> & Hs' & _).
  cbn [mbind option_bind]. by apply leave_idle.
Qed.

Lemma add_filesystems_Inv mps : forall a k s, Inv s -> Inv (snd (add_filesystems mps a k s)).
Proof.
  induction mps as [|mp mps IH]; intros a k s Hs; [done|]. cbn [add_filesystems].
  destruct (is_filesystem _); [|by apply IH].
  pose proof (AddVolumeToSnapshotSet_Inv (mp_VolumeGuid mp) s Hs).
  destruct (AddVolumeToSnapshotSet _ s) as [[id|] s']; by apply IH.
Qed.

Lemma take_snapshot_Inv mps s :
  Inv s -> exists r s', take_snapshot mps s = Some (r, s') /\ Inv s'.
Proof.
  intros Hs. unfold take_snapshot. pose proof (add_filesystems_Inv mps 0 0 s Hs) as Ha.
  destruct (add_filesystems mps 0 0 s) as [[fa fs] s1]. cbn [snd] in Ha.
  destruct (_ && _); [by eauto|]. destruct (0 <? fa)%nat; [|by eauto].
  destruct (DoSnapshotSet_Inv s1 Ha) as (b & s2 & -> & Hs2). cbn [mbind option_bind]. destruct b; cbn; eauto.
Qed.

Variable threads : Source -> Job -> Z -> Manager -> Client Net -> World -> option (Pipeline.Run * Client Net * World).

(** *** The two kinds of backup *)

(** Every branch of a backup of disk [d] that returns has left the service idle
    and the number in the statistics. *)
Definition returns (d : Z) (r : option (bool * DiskStats * World)) : Prop :=
  forall b stats w', r = Some (b, stats, w') -> idle (w_vss w') /\ ds_DevNo stats = d.

Lemma leave_returns d b stats s w : Inv s -> ds_DevNo stats = d -> returns d (leave b stats s w).
Proof. intros Hs Hd b' st w' E. destruct (leave_idle b stats s w Hs) as (w1 & E1 & Hi & _). by simplify_eq. Qed.
Lemma cleanup_leave_returns d b stats s w :
  Inv s -> ds_DevNo stats = d -> returns d (cleanup_leave b stats s w).
Proof. intros Hs Hd b' st w' E. destruct (cleanup_leave_idle b stats s w Hs) as (w1 & E1 & Hi & _). by simplify_eq. Qed.
Lemma none_returns d : returns d None.
Proof. done. Qed.
Lemma some_returns d b stats w : idle (w_vss w) -> ds_DevNo stats = d -> returns d (Some (b, stats, w)).
Proof. by intros Hi Hd b' st w' [= <- <- <-]. Qed.
Lemma bind_returns {A} d (o : option A) (k : A -> option (bool * DiskStats * World)) :
  (forall a, o = Some a -> returns d (k a)) -> returns d (a ← o; k a).
Proof. intros Hk b st w' E. destruct o as [a|]; [|done]. by eapply Hk. Qed.

Lemma PipelineTransferBlocks_DevNo d cfg devNo comp c m vid total size path stats w n st c' m' w' :
  PipelineTransferBlocks threads cfg devNo comp c m vid total size path stats w = Some (n, st, c', m', w') ->
  ds_DevNo stats = d -> ds_DevNo st = d.
Proof.
  unfold PipelineTransferBlocks. destruct (_ <? _); [done|].
  destruct (mc_source path) as [src|]; [|by intros [= <- <-]]. destruct (DryRun cfg).
  - destruct (dry_loop _ _ _ _ _ _ _ _ _) as [[[[[a f] s] m1] w1]|]; [|done]. cbn. by intros [= <- <-].
  - destruct (threads _ _ _ _ _ _) as [[[run c1] w1]|]; [|done]. cbn. by intros [= <- <-].
Qed.

Lemma TransferBlocks_DevNo d cfg devNo comp c m vid total path stats (w : World) n st c' m' w' :
  TransferBlocks cfg devNo comp c m vid total path stats w = Some (n, st, c', m', w') ->
  ds_DevNo stats = d -> ds_DevNo st = d.
Proof.
  unfold TransferBlocks. destruct (sync_loop _ _ _ _ _ _ _ _) as [y|]; [|done]. cbn. by intros [= <- <-].
Qed.

Lemma set_SentBlocks_DevNo d n st : ds_DevNo st = d -> ds_DevNo (set_SentBlocks n st) = d.
Proof. done. Qed.
Lemma set_totals_DevNo d a b c st : ds_DevNo st = d -> ds_DevNo (set_totals a b c st) = d.
Proof. done. Qed.
Lemma set_VssUsed_DevNo d b st : ds_DevNo st = d -> ds_DevNo (set_VssUsed b st) = d.
Proof. done. Qed.
Hint Resolve leave_returns cleanup_leave_returns none_returns some_returns PipelineTransferBlocks_DevNo
  TransferBlocks_DevNo set_SentBlocks_DevNo set_totals_DevNo set_VssUsed_DevNo : cbt.

(** Walks through a backup: one bind, pair or test at a time. *)
Ltac walk :=
  repeat first
    [ solve [eauto 10 with cbt]
    | apply bind_returns; intros ? ?
    | case_match; simplify_eq ].

(** Starts the shadow copies of a backup: the initialisation, the set, the
    snapshot. *)
Ltac start_vss mapped :=
  match goal with
  | Hw : idle (w_vss ?w) |- _ =>
      let b := fresh "b" in let s := fresh "s" in let Hs := fresh "Hs" in
      destruct (Initialize_Inv _ (new_Inv _ Hw)) as (b & s & -> & Hs & _);
      cbn [mbind option_bind]; destruct b; cbn [negb]; [|by auto with cbt];
      let Hs1 := fresh "Hs1" in
      pose proof (StartSnapshotSet_Inv s Hs) as Hs1;
      destruct (StartSnapshotSet s) as [[] ?s]; cbn [snd negb] in *; [|by auto with cbt];
      let r := fresh "r" in
      destruct (take_snapshot_Inv mapped _ Hs1) as (r & ?s & -> & ?Hs2); cbn [mbind option_bind]
  end.

Lemma FullBackup_returns cfg devNo layout stats w :
  idle (w_vss w) -> ds_DevNo stats = devNo -> returns devNo (FullBackup threads cfg devNo layout stats w).
Proof. intros Hw Hd. unfold FullBackup, full_transfer. start_vss (m_mapped (snd (Map layout))). walk. Qed.

Lemma IncrementalBackup_returns cfg devNo layout stats w :
  idle (w_vss w) -> ds_DevNo stats = devNo -> returns devNo (IncrementalBackup cfg devNo layout stats w).
Proof.
  intros Hw Hd. unfold IncrementalBackup, incremental_version, incremental_transfer. destruct (CbtClient.Connect _ _ _ _) as [[] cbt]; cbn [negb]; [|auto with cbt].
  apply bind_returns. intros [[[ok bitmap] total] s] _. assert (idle (w_vss (set_cbt s w))) as Hw1 by done.
  destruct ok; cbn [negb]; [|auto with cbt]. destruct (ParseChangedBlocks bitmap total); [auto with cbt|].
  start_vss (m_mapped (snd (Map layout))). walk.
Qed.

Lemma BackupDisk_returns cfg devNo stats w :
  idle (w_vss w) -> ds_DevNo stats = devNo -> returns devNo (BackupDisk threads cfg devNo stats w).
Proof.
  intros Hw Hd. unfold BackupDisk. destruct (mc_disk devNo) as [dev|]; [|auto with cbt].
  apply bind_returns. intros [ok layout] _. destruct ok; cbn [negb]; [|auto with cbt].
  destruct (UseCbt cfg); [by apply IncrementalBackup_returns|by apply FullBackup_returns].
Qed.
(** The disks of a run one after the other, each in the world the one before
    left. *)
Inductive in_turn (cfg : BackupConfig) : list Z -> World -> list (bool * DiskStats) -> World -> Prop :=
  | in_turn_nil w : in_turn cfg [] w [] w
  | in_turn_cons d ds w b st w1 rs w2 :
      BackupDisk threads cfg d (DiskStats_new d) w = Some (b, st, w1) -> in_turn cfg ds w1 rs w2 ->
      in_turn cfg (d :: ds) w ((b, st) :: rs) w2.

Lemma run_loop_in_turn cfg devNos : forall ok stats w ok' stats' w',
  run_loop threads cfg devNos ok stats w = Some (ok', stats', w') ->
  exists rs, in_turn cfg devNos w rs w' /\ stats' = stats ++ map snd rs /\ ok' = ok && forallb fst rs.
Proof.
  induction devNos as [|d devNos IH]; intros ok stats w ok' stats' w'.
  - intros [= <- <- <-]. exists []. rewrite app_nil_r, andb_true_r. by repeat constructor.
  - cbn [run_loop]. destruct (BackupDisk _ _ _ _ _) as [[[b st] w1]|] eqn:E; [|done].
    cbn [mbind option_bind]. intros Hr. apply IH in Hr as (rs & Ht & -> & ->).
    exists ((b, st) :: rs). split; [by econstructor|]. split; [by rewrite <- app_assoc|]. by destruct b, ok.
Qed.

Lemma in_turn_idle cfg devNos w rs w' :
  in_turn cfg devNos w rs w' -> idle (w_vss w) -> idle (w_vss w') /\ map (fun r => ds_DevNo (snd r)) rs = devNos.
Proof.
  induction 1 as [|d ds w b st w1 rs w2 E _ IH]; intros Hw; [done|].
  destruct (BackupDisk_returns cfg d (DiskStats_new d) w Hw eq_refl b st w1 E) as [Hw1 <-].
  destruct (IH Hw1) as [? <-]. done.
Qed.

(** What the returns and the state file leave alone. *)
Lemma leave_same b stats s (w : World) b' stats' w' :
  leave b stats s w = Some (b', stats', w') ->
  b' = b /\ stats' = stats /\ w_cbt w' = w_cbt w /\ w_net w' = w_net w.
Proof. unfold leave. destruct (VssManager_delete s); [|done]. by intros [= <- <- <-]. Qed.
Lemma cleanup_leave_same b stats s (w : World) b' stats' w' :
  cleanup_leave b stats s w = Some (b', stats', w') ->
  b' = b /\ stats' = stats /\ w_cbt w' = w_cbt w /\ w_net w' = w_net w.
Proof. unfold cleanup_leave. destruct (VssManager.Cleanup s); [|done]. apply leave_same. Qed.
Lemma save_state_same devNo m (w : World) m' w' :
  save_state devNo m w = Some (m', w') -> w_cbt w' = w_cbt w /\ w_net w' = w_net w.
Proof. unfold save_state. destruct (Save _ _ _ _ _ _) as [[[ok m1] f]|]; [|done]. by intros [= <- <-]. Qed.
Lemma delete_state_same devNo m (w w' : World) :
  delete_state devNo m w = Some w' -> w_cbt w' = w_cbt w /\ w_net w' = w_net w.
Proof. unfold delete_state. destruct (Destroy _ _ _ _ _ _); [|done]. by intros [= <-]. Qed.

(** The end of a backup: the state is saved and destroyed, the shadow copies
    are cleaned up. *)
Lemma finish_same b stats vss devNo m n (w : World) b' stats' w' :
  (r ← save_state devNo m w;
   let '(m, w) := r in
   w ← delete_state devNo m (set_network n w); cleanup_leave b stats vss w) = Some (b', stats', w') ->
  b' = b /\ stats' = stats /\ w_cbt w' = w_cbt w /\ w_net w' = n.
Proof.
  destruct (save_state devNo m w) as [[m1 w1]|] eqn:E1; [|done]. cbn [mbind option_bind].
  destruct (delete_state _ _ _) as [w2|] eqn:E2; [|done]. cbn [mbind option_bind].
  apply save_state_same in E1 as [Hc1 _]. apply delete_state_same in E2 as [Hc2 Hn2]. cbn in Hc2, Hn2.
  intros (-> & -> & Hc & Hn)%cleanup_leave_same. split_and!; congruence.
Qed.

(** ** The state an incremental backup starts from *)

(** No state file, or one a healthy [Save] wrote whose header the two checksums
    tell apart. *)
Definition saved_or_missing (file : option (list Z)) : Prop :=
  file = None \/
  exists m slack old, BlockStateManager.m_initialized m = true /\ Forall block_wf (m_blocks m) /\
    in_width 64 (m_totalBlocks m) /\ 4 <= zlen slack /\
    crc_loop (crc_loop 0xFFFFFFFF (header_fields m)) (zeros 28) <> crc_loop 0xFFFFFFFF (header_fields m) /\
    Save (fun _ n => n) true true slack m old = Some (true, set_dirty false m, file).

Lemma open_state_empty devNo (w : World) m :
  saved_or_missing (w_file w devNo) -> open_state devNo w = Some m ->
  m_blocks m = [] /\ m_versions m = [] /\ in_width 64 (m_totalBlocks m).
Proof.
  unfold open_state. intros [->|(m0 & slack & old & Hi & Hb & Ht & Hs & Hc & Hsave)].
  - intros [= <-]. by split_and!.
  - destruct (saved_state_rejected slack (sa_slack (mc_save (w_saves w))) mc_max_blocks m0 Manager_new old devNo
      Hi Hb Ht Hs Hc) as (saved & E & El).
    rewrite E in Hsave. injection Hsave as <-. rewrite El. by intros [= <-].
Qed.

(** With no blocks there is nothing to update and nothing pending. *)
Lemma UpdateIncrementalBlocks_empty vid changed hashes m :
  m_blocks m = [] -> UpdateIncrementalBlocks vid changed hashes m = (false, m).
Proof. intros E. unfold UpdateIncrementalBlocks. rewrite E. by case_if. Qed.

Lemma TransferBlocks_empty cfg devNo comp c m vid total path stats (w : World) :
  m_blocks m = [] ->
  TransferBlocks cfg devNo comp c m vid total path stats w
  = Some (0, set_transfer {| SentBlocks := SentBlocks (ds_transfer stats);
                             AckedBlocks := AckedBlocks (ds_transfer stats);
                             FailedBlocks := FailedBlocks (ds_transfer stats);
                             SkippedBlocks := SkippedBlocks (ds_transfer stats); CompressedBytes := 0 |} stats,
          c, m, w).
Proof. intros E. unfold TransferBlocks, GetPendingBlocks. by rewrite E. Qed.

(** What the connection carries when nothing is transferred: the greeting and
    the farewell. *)
Definition only_greeting (cfg : BackupConfig) (devNo : Z) (w w' : World) : Prop :=
  exists vid total size c c', in_width 64 total /\ in_width 64 size /\
    (if DryRun cfg then Some (Welcome (NetworkClient_new w))
     else connect_hello vid devNo total size INCREMENTAL (NetworkClient_new w)) = Some (Welcome c) /\
    CloseConnection (u32 devNo) c = Some c' /\ w_net w' = net c'.
End engine.

(** C14: Every path a run takes through the disks and returns from - a disk that
    does not open, a snapshot that fails, a refused connection, a rejected
    greeting, a transfer that fails or succeeds, full or incremental - has
    released the shadow copies: no component object held, no operation pending.
    There is one entry of statistics per disk, in order, each backed up in the
    world the one before left, and the run reports success exactly when every
    disk did. *)
Theorem Run_leaves_nothing_held {Net Drv} `{Socket Net} `{IoControl Drv} `{VssApi} `{VolumeApi} `{CompressApi}
    `{!Machine Net Drv} threads cfg devNos stats (w : World Net Drv) ok stats' w' :
  idle (w_vss w) -> BackupEngine.Run threads cfg devNos stats w = Some (ok, stats', w') ->
  idle (w_vss w') /\
  exists rs, in_turn threads cfg devNos w rs w' /\ stats' = stats ++ map snd rs /\
    map (fun r => ds_DevNo (snd r)) rs = devNos /\ ok = forallb fst rs.
Proof.
  intros Hw Hr. unfold BackupEngine.Run in Hr. apply run_loop_in_turn in Hr as (rs & Ht & -> & ->).
  destruct (in_turn_idle _ _ _ _ _ _ Ht Hw) as [Hi Hd]. split; [done|]. by exists rs.
Qed.

(** C15: the block-by-block transfer.  It goes through the pending blocks, in
    order and once each, and touches no other.  Outside the simulation a block
    whose read is not complete, and any block that does not compress, stays as it
    was and nothing is sent for it; else it is sent until a [SendBlock] returns
    [true], at most [RetryCount + 1] times, and ends acknowledged if one did and
    failed if all of them returned [false].  In the simulation it ends
    acknowledged with nothing sent.  The result and the count of
    acknowledgements are the number of blocks that end acknowledged; in the
    simulation with a working compressor that is every pending block. *)
Theorem TransferBlocks_correct {Net Drv} `{Socket Net} `{CompressApi} `{!Machine Net Drv}
    cfg devNo comp c m vid total path stats (w : World Net Drv) sent stats' c' m' w' :
  (forall k b, m_blocks m !! k = Some b -> b_BlockIndex b = Z.of_nat k) ->
  zlen (m_blocks m) < 2 ^ 63 -> 0 <= AckedBlocks (ds_transfer stats) < 2 ^ 63 ->
  TransferBlocks cfg devNo comp c m vid total path stats w = Some (sent, stats', c', m', w') ->
  (forall k b, m_blocks m !! k = Some b -> NeedsUpload b = false -> m_blocks m' !! k = Some b) /\
  (exists statuses,
     blocks_done cfg devNo vid total comp (mc_source path) (GetPendingBlocks m) c statuses c' /\
     Forall2 (fun b a => m_blocks m' !! Z.to_nat (b_BlockIndex b) = Some (set_Ack a b)) (GetPendingBlocks m) statuses) /\
  sent = zlen (filter (acked_in m') (GetPendingBlocks m)) /\
  AckedBlocks (ds_transfer stats') = AckedBlocks (ds_transfer stats) + sent /\
  (DryRun cfg = true -> 0 <= RetryCount cfg ->
   (forall data, exists compressed, Compress comp data [] = Some (true, compressed)) ->
   sent = zlen (GetPendingBlocks m)).
Proof.
  intros Hix Hlen Hack. unfold TransferBlocks. set (y0 := {| y_client := c |}).
  destruct (sync_loop _ _ _ _ _ _ _ y0) as [y|] eqn:E; [|done]. cbn [mbind option_bind].
  intros [= <- <- <- <- <-].
  destruct (pending_facts m Hix) as (Hle & Hnd & Hin & Hna).
  destruct (sync_loop_tried _ _ _ _ _ _ _ y0 y Hnd Hin Hna ltac:(cbn; lia) ltac:(cbn; lia) ltac:(cbn; lia)
    ltac:(cbn; lia) E) as (Hk & Hf & Hs & Ha).
  cbn [y_client y_states y_sent y_acked y0] in *. split; [|split; [exact Hf|split; [exact Hs|split]]].
  - intros k b Hb En. rewrite Hk; [done|]. intros (b' & Hs' & Hb')%list_elem_of_fmap.
    apply list_elem_of_filter in Hb' as [Hn' (k' & Hb')%list_elem_of_lookup].
    pose proof (Hix k' b' Hb') as Hkb'. unfold slot in Hs'. rewrite Hkb', Nat2Z.id in Hs'. subst k'.
    rewrite Hb in Hb'. injection Hb' as <-. by rewrite En in Hn'.
  - cbn. rewrite Ha, Hs. lia.
  - intros Hd Hr Hc. assert (zlen (GetPendingBlocks m) < 2 ^ 64) as Hb by lia.
    by rewrite (sync_loop_dry _ _ _ _ _ _ _ y0 y Hd Hr Hc (Z.le_refl 0) Hb E).
Qed.

(** An incremental backup that finds changed blocks and succeeds has
    transferred none of them when the state it starts from is missing or was
    saved by an earlier backup: no block is sent or acknowledged, the
    connection, if there is one, carries the greeting and the farewell only,
    and the driver's bitmap is reset all the same, so the changes are forgotten.
    A failed backup leaves the bitmap as the query left it. *)
Theorem incremental_backup_loses_changes {Net Drv} `{Socket Net} `{IoControl Drv} `{VssApi} `{VolumeApi}
    `{CompressApi} `{!Machine Net Drv} cfg devNo layout (w : World Net Drv) ok stats' w' connected cbt :
  saved_or_missing (w_file w devNo) ->
  CbtClient.Connect mc_cbt_open1 mc_cbt_open2 mc_services CbtClient_new = (connected, cbt) ->
  IncrementalBackup cfg devNo layout (DiskStats_new devNo) w = Some (ok, stats', w') ->
  if negb connected then ok = false /\ w' = w
  else exists found bitmap total s, Query cbt (u32 devNo) [] 0 (w_cbt w) = Some (found, bitmap, total, s) /\
    SentBlocks (ds_transfer stats') = 0 /\ AckedBlocks (ds_transfer stats') = 0 /\
    (if ok then
       found = true /\
       (ParseChangedBlocks bitmap total = [] /\ w_cbt w' = s \/
        ParseChangedBlocks bitmap total <> [] /\ ds_ChangedBlocks stats' = zlen (ParseChangedBlocks bitmap total) /\
        w_cbt w' = snd (Reset cbt (u32 devNo) s) /\ only_greeting cfg devNo w w')
     else w_cbt w' = s).
Proof.
  intros Hfile Hconn. unfold IncrementalBackup, incremental_version, incremental_transfer. rewrite Hconn. destruct connected; cbn [negb];
    [|by intros [= <- <- <-]].
  destruct (Query _ _ _ _ _) as [[[[found bitmap] total] s]|] eqn:Eq; [|done]. cbn [mbind option_bind].
  intros Hrun. exists found, bitmap, total, s. split; [done|].
  destruct found; cbn [negb] in Hrun; [|by injection Hrun as <- <- <-].
  destruct (ParseChangedBlocks bitmap total) as [|i changed] eqn:Ep; [injection Hrun as <- <- <-; split_and!; [done..|by left]|].
  assert (ok = false /\ SentBlocks (ds_transfer stats') = 0 /\ AckedBlocks (ds_transfer stats') = 0 /\ w_cbt w' = s \/
    ok = true /\ SentBlocks (ds_transfer stats') = 0 /\ AckedBlocks (ds_transfer stats') = 0 /\
    ds_ChangedBlocks stats' = zlen (i :: changed) /\ w_cbt w' = snd (Reset cbt (u32 devNo) s) /\
    only_greeting cfg devNo w w') as [(-> & ? & ? & ?)|(-> & ? & ? & ? & ? & ?)];
    [|by auto|split_and!; [done..|]; right; by split_and!].
  destruct (VssManager.Initialize _) as [[[] vss]|]; cbn [mbind option_bind negb] in Hrun; [| |done].
  2:{ apply leave_same in Hrun as (-> & -> & -> & _). by left. }
  destruct (StartSnapshotSet vss) as [[] vss1]; cbn [negb] in Hrun.
  2:{ apply cleanup_leave_same in Hrun as (-> & -> & -> & _). by left. }
  destruct (take_snapshot _ vss1) as [[[used|] vss2]|]; cbn [mbind option_bind] in Hrun; [| |done].
  2:{ apply cleanup_leave_same in Hrun as (-> & -> & -> & _). by left. }
  destruct (open_state devNo _) as [m|] eqn:Em; cbn [mbind option_bind] in Hrun; [|done].
  destruct (open_state_empty devNo _ m Hfile Em) as (Hm & _ & Htotal).
  destruct (CreateVersion _ _ _ _ _ m) as [ver m1] eqn:Ev.
  assert (m_blocks m1 = []) as Hm1 by (injection Ev as _ <-; exact Hm).
  destruct (if DryRun cfg then _ else _) as [h|] eqn:Eh; [|done]. cbn [mbind option_bind] in Hrun.
  destruct h as [c|c|c]; [by apply finish_same in Hrun as (-> & -> & -> & _); left..|].
  destruct (changed_hashes _ _ _ _) as [hashes|]; cbn [mbind option_bind] in Hrun; [|done].
  rewrite UpdateIncrementalBlocks_empty, TransferBlocks_empty in Hrun by done. cbn [mbind option_bind] in Hrun.
  destruct (CloseConnection _ c) as [c'|] eqn:Ec; cbn [mbind option_bind] in Hrun; [|done].
  cbn [w_cbt set_cbt] in Hrun. destruct (Reset cbt (u32 devNo) s) as [reset s'] eqn:Er.
  apply finish_same in Hrun as (-> & -> & Hcbt & Hnet). right.
  split_and!; try done. eexists _, _, _, c, c'. split; [exact Htotal|].
  split; [apply wrap_range; lia|]. by split_and!.
Qed.

(** ** A machine *)

Definition ack_bytes : list Z :=
  enc_MsgHeader (client_header ACK 1)
  ++ enc_AckBody {| ack_BlockIndex := 0; ack_Status := 0; ack_DevNo := 1; ack_Hash := zeros 32 |}.

(** Disk 0 has an MBR with one NTFS partition at sector 2; no data source
    opens; saving works. *)
Definition engine_disk : list Z :=
  zeros 446 ++ (zeros 4 ++ [7] ++ zeros 3 ++ le_enc 4 2 ++ le_enc 4 1) ++ zeros 48 ++ [0x55; 0xAA]
  ++ zeros 512 ++ (zeros 3 ++ SIG_NTFS ++ zeros 501) ++ zeros 512.
Definition engine_device : DiskDevice :=
  {| dev_Length := Some (zlen engine_disk); dev_BytesPerSector := Some 512; dev_Seek := fun off => 0 <=? off;
     dev_Read := fun off n => Some (sub off n engine_disk) |}.
Definition demo_machine : Machine DemoNet Driver := {|
  mc_disk := fun d => if d =? 0 then Some engine_device else None;
  mc_source := fun _ => None; mc_hasher := true;
  mc_cbt_open1 := None; mc_cbt_open2 := None;
  mc_services := {| sm_open := false; sm_service := false; sm_state := None; sm_start := None; sm_polls := [] |};
  mc_connect := fun n => (Accepted, n);
  mc_save := fun _ => {| sa_accept := fun _ n => n; sa_create := true; sa_move := true; sa_slack := zeros 4 |};
  mc_max_blocks := 1000; mc_max_entries := 1000; mc_systemTime := 5; mc_now := 6 |}.

(** The file an earlier backup saved, and a driver that has seen a write. *)
Definition earlier_file : option (list Z) :=
  match Save (fun _ n => n) true true (zeros 4) demo_state None with Some (_, _, f) => f | None => None end.
Definition demo_world : World DemoNet Driver := {|
  w_vss := []; w_cbt := @run demo_rtl [demo_write] demo_loaded;
  w_net := {| d_in := ack_bytes ++ ack_bytes; d_out := [] |};
  w_file := fun d => if d =? 1 then earlier_file else None; w_saves := 0 |}.

Definition plain : BackupConfig := {| DryRun := false; UseCbt := true; RetryCount := 3; PipelineWindowSize := 6 |}.
Definition simulated : BackupConfig := {| DryRun := true; UseCbt := false; RetryCount := 3; PipelineWindowSize := 6 |}.

Abbreviation demo_incremental :=
  (@IncrementalBackup DemoNet Driver demo_socket demo_io sample_service sample_volumes demo_api demo_machine
    plain 1 sample_layout (DiskStats_new 1) demo_world).

Lemma earlier_file_saved : saved_or_missing earlier_file.
Proof.
  right. exists demo_state, (zeros 4), None. split; [done|]. split; [constructor; [exact state_block_wf|constructor]|].
  split; [evaluate|]. split; [by vm_compute|]. split; [by vm_compute|]. by vm_compute.
Qed.

(** ** Witnesses *)

(** One changed block is reported, nothing is sent, and the driver has
    forgotten the change. *)
Lemma incremental_backup_loses_changes_witness :
  exists stats w, demo_incremental = Some (true, stats, w) /\ ds_ChangedBlocks stats = 1 /\
    SentBlocks (ds_transfer stats) = 0 /\
    (exists s, w_cbt w = snd (@Reset Driver demo_io demo_client 1 s)) /\
    fst <$> Query (H := demo_io) demo_client 1 [] 0 (w_cbt w) = Some (true, zeros 4, 10).
Proof.
  assert ((fun r => (r.1.1, fst <$> Query (H := demo_io) demo_client 1 [] 0 (w_cbt r.2))) <$> demo_incremental
          = Some (true, Some (true, zeros 4, 10))) as Eb by (vm_compute; reflexivity).
  destruct demo_incremental as [[[b stats] w]|] eqn:E; [|done].
  cbn [fmap option_fmap option_map fst snd] in Eb. injection Eb as -> Hquery. exists stats, w. split; [done|].
  destruct (@incremental_backup_loses_changes DemoNet Driver demo_socket demo_io sample_service sample_volumes
    demo_api demo_machine plain 1 sample_layout demo_world true stats w true demo_client
    earlier_file_saved eq_refl E) as (found & bitmap & total & s & Hq & Hs & _ & _ & Hok).
  apply (f_equal (fun o => match o with Some (_, b, t, _) => Some (b, t) | None => None end)) in Hq.
  vm_compute in Hq. injection Hq as <- <-.
  destruct Hok as [[Hp _]|(_ & Hc & Hr & _)]; [by vm_compute in Hp|].
  split; [rewrite Hc; by vm_compute|]. split; [exact Hs|]. split; [by exists s|]. exact Hquery.
Defined.

(** Disk 0 is backed up in full, by simulation, with nothing to read; disk 5 does
    not open. *)
Definition demo_threads : Source -> @Job demo_api -> Z -> Manager -> Client DemoNet -> World DemoNet Driver ->
    option (Pipeline.Run * Client DemoNet * World DemoNet Driver) := fun _ _ _ _ _ _ => None.
Abbreviation demo_run :=
  (@BackupEngine.Run DemoNet Driver demo_socket demo_io sample_service sample_volumes demo_api demo_machine
    demo_threads simulated [0; 5] [] demo_world).

(** The full backup of disk 0 cannot open its source, sends nothing, and is
    reported as a success. *)
Example unread_backup_succeeds :
  (fun r => (r.1.1, map (fun s => (SentBlocks (ds_transfer s), FailedBlocks (ds_transfer s))) r.1.2)) <$>
    @BackupEngine.Run DemoNet Driver demo_socket demo_io sample_service sample_volumes demo_api demo_machine
      demo_threads simulated [0] [] demo_world
  = Some (true, [(0, 0)]).
Proof. by vm_compute. Qed.

Lemma Run_leaves_nothing_held_witness :
  exists ok stats' w', demo_run = Some (ok, stats', w') /\ idle (w_vss w') /\
    length (w_vss w') = 29%nat /\ ok = false /\ map ds_DevNo stats' = [0; 5].
Proof.
  assert ((fun r => (r.1.1, length (w_vss r.2))) <$> demo_run = Some (false, 29%nat)) as Eb
    by (vm_compute; reflexivity).
  destruct demo_run as [[[ok stats'] w']|] eqn:E; [|done].
  cbn [fmap option_fmap option_map fst snd] in Eb. injection Eb as -> Hl.
  destruct (@Run_leaves_nothing_held DemoNet Driver demo_socket demo_io sample_service sample_volumes demo_api
    demo_machine demo_threads simulated [0; 5] [] demo_world false stats' w' eq_refl E) as (Hi & rs & _ & Hst & Hd & _).
  exists false, stats', w'. split; [done|]. split; [exact Hi|]. split; [exact Hl|]. split; [done|].
  rewrite Hst. cbn [app]. by rewrite map_map, Hd.
Defined.

(** A pending block of four bytes and one that is acknowledged. *)
Definition demo_pending : Manager :=
  {| BlockStateManager.m_initialized := true; m_dirty := false; m_devNo := 1; m_totalBlocks := 1;
     m_blocks := [{| b_BlockIndex := 0; b_Offset := BLOCK_SIZE - 4; b_Hash := zeros 32; b_VersionId := 0;
                     b_Ack := Pending; b_Changed := true |};
                  {| b_BlockIndex := 1; b_Offset := BLOCK_SIZE; b_Hash := zeros 32; b_VersionId := 0;
                     b_Ack := Acknowledged; b_Changed := true |}];
     m_versions := []; m_nextVersionId := 0 |}.

(** A machine whose source reads zeros, and a server that answers the block: it
    is sent once and acknowledged. *)
Definition zero_source : Source := {|
  SetFilePointerEx := fun _ => true; ReadFile := fun _ n => Some (zeros n); HashHandle := unit;
  BCryptCreateHash := Some tt; BCryptHashData := fun h _ => Some h; BCryptFinishHash := fun _ => Some (zeros 32) |}.
Definition reading_machine : Machine DemoNet Driver := {|
  mc_disk := fun _ => None; mc_source := fun _ => Some zero_source; mc_hasher := true;
  mc_cbt_open1 := None; mc_cbt_open2 := None;
  mc_services := {| sm_open := false; sm_service := false; sm_state := None; sm_start := None; sm_polls := [] |};
  mc_connect := fun n => (Accepted, n);
  mc_save := fun _ => {| sa_accept := fun _ n => n; sa_create := true; sa_move := true; sa_slack := [] |};
  mc_max_blocks := 1000; mc_max_entries := 1000; mc_systemTime := 5; mc_now := 6 |}.
Abbreviation demo_transfer :=
  (@TransferBlocks DemoNet Driver demo_socket demo_api reading_machine plain 1 demo_compressor
     (NetworkClient.demo_client ack_bytes) demo_pending 0 1 [] (DiskStats_new 1) demo_world).

Lemma TransferBlocks_correct_witness :
  exists stats' c' m' w' statuses, demo_transfer = Some (1, stats', c', m', w') /\
    @blocks_done DemoNet demo_socket demo_api plain 1 0 1 demo_compressor (Some zero_source)
      (GetPendingBlocks demo_pending) (NetworkClient.demo_client ack_bytes) statuses c' /\
    map b_Ack (m_blocks m') = [Acknowledged; Acknowledged] /\ AckedBlocks (ds_transfer stats') = 1.
Proof.
  assert (0 <= AckedBlocks (ds_transfer (DiskStats_new 1)) < 2 ^ 63) as Ha0 by (by vm_compute).
  assert (zlen (m_blocks demo_pending) < 2 ^ 63) as Hl by (by vm_compute).
  assert (forall k b, m_blocks demo_pending !! k = Some b -> b_BlockIndex b = Z.of_nat k) as Hix.
  { intros k b. do 2 (destruct k as [|k]; [by intros [= <-]|]). done. }
  assert ((fun r => (r.1.1.1.1, map b_Ack (m_blocks r.1.2))) <$> demo_transfer = Some (1, [Acknowledged; Acknowledged]))
    as Eb by (vm_compute; reflexivity).
  destruct demo_transfer as [[[[[sent stats'] c'] m'] w']|] eqn:E; [|discriminate Eb].
  cbn [fmap option_fmap option_map fst snd] in Eb. injection Eb as -> Em.
  destruct (@TransferBlocks_correct DemoNet Driver demo_socket demo_api reading_machine plain 1 demo_compressor
    (NetworkClient.demo_client ack_bytes) demo_pending 0 1 [] (DiskStats_new 1) demo_world 1 stats' c' m' w' Hix
    Hl Ha0 E) as (_ & (statuses & Hd & _) & _ & Ha & _).
  exists stats', c', m', w', statuses. clear E. split; [reflexivity|]. split; [exact Hd|]. split; [exact Em|].
  rewrite Ha. reflexivity.
Defined.
