(* ===== verification/BackupEndToEnd.v ===== *)
(** * A full backup, from the engine to the server's file

    [BackupEngine::FullBackup] over a connection that a server reads: what the
    server has on its disk afterwards, in every run of the transfer's two
    threads. *)

From Stdlib Require Import Sorted.
From S2P Require Import Prelude.
From S2P Require Import Protocol.
From S2P Require Import MessageParser.
From S2P Require Import DiskMap.
From S2P Require Import BlockProcessor.
From S2P Require Import Server.
From S2P Require Import ServerSpec.
From S2P Require Import CbtClient.
From S2P Require Import NetworkClient.
From S2P Require Import EndToEnd.
From S2P Require Import BlockHasher.
From S2P Require Import DataCompressor.
From S2P Require Import BlockStateManager.
From S2P Require Import Pipeline.
From S2P Require Import PipelineSpec.
From S2P Require Import PipelineEndToEnd.
From S2P Require Import PipelineNetwork.
From S2P Require Import DiskParser.
From S2P Require Import VolumeMapper.
From S2P Require Import VssManager.
From S2P Require Import BackupEngine.
From S2P Require Import BackupEngineSpec.

(** The server reads whole messages and what is left of a lost one. *)
Lemma stream_broken ks part :
  Forall call_ok ks -> part = [] \/ broken_off part ->
  stream (concat (map msg_bytes (map call_msg ks)) ++ part) = (map call_msg ks, part, false).
Proof.
  intros Hks [->|(k & Hk & Hpre & Hlt)].
  - rewrite <- (firstn_all (map call_msg ks)). apply (on_wire_stream ks (length (map call_msg ks))); [done|by left].
  - assert (Forall call_ok (ks ++ [k])) as Hks' by (apply Forall_app; by split; [|repeat constructor]).
    rewrite <- (take_app_length (map call_msg ks) [call_msg k]).
    change [call_msg k] with (map call_msg [k]). rewrite <- map_app.
    apply (on_wire_stream (ks ++ [k]) (length (map call_msg ks))); [done|]. right. exists (call_msg k).
    split; [|done]. rewrite map_app, lookup_app_r by done. by rewrite Nat.sub_diag.
Qed.

Lemma serve_app `{Library} disks ms1 ms2 s :
  serve disks (ms1 ++ ms2) s =
    let '(s1, closed) := serve disks ms1 s in if closed then (s1, true) else serve disks ms2 s1.
Proof.
  revert s. induction ms1 as [|m ms1 IH]; intros s; cbn [app serve]; [done|].
  destruct (serve_one disks m s) as [s1 []]; [done|apply IH].
Qed.

Section network.
Context {Net : Type} `{SocketLaws Net}.

(** A greeting that is accepted was sent whole. *)
Lemma SendHello_sent v d n size u (c c' : Client Net) :
  call_ok (CallHello v d n size u) -> SendHello v d n size u c = Some (true, c') ->
  outgoing (net c') = outgoing (net c) ++ msg_bytes (call_msg (CallHello v d n size u)).
Proof.
  intros Hk E. destruct (exec_call_spec _ c Hk) as (b & c1 & Hrun & He). cbn [exec_call] in Hrun.
  rewrite E in Hrun. injection Hrun as <- <-. destruct (m_connected c); [|by destruct He].
  destruct He as (s & -> & [->|(_ & _ & ? & _)]); done.
Qed.

(** The farewell: nothing, a message, or part of one. *)
Lemma CloseConnection_sent d (c c' : Client Net) :
  in_width 32 d -> CloseConnection d c = Some c' ->
  outgoing (net c') = outgoing (net c) /\ (m_connected c = false -> c' = c) \/
  m_connected c = true /\ exists byes part, (byes = [] \/ byes = [CallBye d]) /\ (part = [] \/ broken_off part) /\
    outgoing (net c') = outgoing (net c) ++ concat (map msg_bytes (map call_msg byes)) ++ part.
Proof.
  unfold CloseConnection. intros Hd. destruct (m_connected c) eqn:Hc; [|intros [= <-]; by left].
  assert (call_ok (CallBye d)) as Hk by done. destruct (exec_call_spec _ c Hk) as (b & c1 & Hrun & He).
  cbn [exec_call] in Hrun. rewrite Hrun. cbn [mbind option_bind]. intros [= <-]. rewrite Hc in He. right.
  split; [done|]. destruct He as (s & Ho & [->|(Hpre & Hlt & _)]).
  - exists [CallBye d], []. cbn [NetworkClient.Disconnect net]. rewrite Ho, app_nil_r. cbn [map concat].
    rewrite app_nil_r. auto.
  - exists [], s. cbn [NetworkClient.Disconnect net map concat app]. rewrite Ho.
    split; [by left|]. split; [|done]. right. by exists (CallBye d).
Qed.
End network.

(** The transfer's argument runs the two threads over the client's
    connection, to the end. *)
Definition runs_threads {Net Drv} `{Socket Net} `{CompressApi}
    (threads : Source -> Job -> Z -> Manager -> Client Net -> World Net Drv ->
               option (Pipeline.Run * Client Net * World Net Drv)) : Prop :=
  forall src job windowSize m c w r c' w', threads src job windowSize m c w = Some (r, c', w') ->
    @over _ _ src _ job windowSize m c r c' /\ main r = Finished.

Section backup.
Context {Net Drv : Type} `{Socket Net} `{!SocketLaws Net} `{VssApi} `{VolumeApi}
  `{CompressApi} `{!Machine Net Drv} `{LibraryLaws} `{!BackupEnv}.
Variable threads : Source -> Job -> Z -> Manager -> Client Net -> World Net Drv ->
                   option (Pipeline.Run * Client Net * World Net Drv).
Hypothesis threads_ok : runs_threads threads.
Context (src : Source) (image : list Z) `{!Linked image comp}.
Hypothesis image_ok : bytes_ok image.
Hypothesis image_small : zlen image < 2 ^ 63.

(** The calls behind the bytes of a connection: the greeting, blocks of the
    image in order, each once, and perhaps the farewell. *)
Definition backup_stream (devno versionId size : Z) (ixs : list Z) (out : list Z) : Prop :=
  StronglySorted Z.lt ixs /\ Forall (fun i => 0 <= i < block_count image) ixs /\
  exists byes part, (byes = [] \/ byes = [CallBye devno]) /\ (part = [] \/ broken_off part) /\
    out = concat (map msg_bytes (map call_msg
            (CallHello versionId devno (block_count image) size FULL ::
             map (block_call devno versionId image) ixs ++ byes))) ++ part.

(** The server that reads them. *)
Lemma backup_stream_served devno versionId ixs out disks bf f files :
  in_width 32 devno -> in_width 32 versionId -> backup_stream devno versionId (zlen image) ixs out ->
  disks_match disks files -> disks !! devno = Some bf -> files !! bf_fd bf = Some f ->
  zlen image <= zlen f ->
  exists s closed f', serve disks (stream out).1.1 (fresh_session files) = (s, closed) /\
    s_files s = <[bf_fd bf := f']> files /\ stored image f ixs f'.
Proof.
  intros Hdev Hver (_ & Hr & byes & part & Hbyes & Hpart & ->) Hdm Hd Hf Hl.
  destruct (proj1 Hdm devno bf Hd) as (f0 & Hf0 & Hsz & Hmax). assert (f0 = f) as -> by congruence.
  pose proof (block_count_range image image_small) as Hcount.
  assert (call_ok (CallHello versionId devno (block_count image) (zlen image) FULL)) as Hh.
  { cbn. unfold in_width in *. split_and!; try lia. by repeat constructor. }
  assert (Forall (block_index_ok image) ixs) as Hix.
  { eapply Forall_impl; [exact Hr|]. intros i Hi. by apply block_index_bound. }
  rewrite stream_broken; [|constructor; [exact Hh|]; apply Forall_app; split|exact Hpart].
  2:{ apply Forall_map. eapply Forall_impl; [exact Hix|]. intros i Hi. by apply block_call_ok. }
  2:{ destruct Hbyes as [->| ->]; [constructor|by apply Forall_singleton]. }
  cbn [fst map serve]. rewrite serve_hello_ok with (bf := bf) by (unfold in_width in *; done || lia).
  rewrite map_app, serve_app, map_map.
  destruct (serve_blocks disks devno versionId image image_ok Hver ixs
    (greeted devno (fresh_session files)) bf f) as (s & f' & Hs & _ & Hfs & Hst); try done; try lia.
  rewrite Hs. exists (fst (serve disks (map call_msg byes) s)), (snd (serve disks (map call_msg byes) s)), f'.
  split; [by destruct (serve disks (map call_msg byes) s)|]. split; [|exact Hst].
  by destruct Hbyes as [->| ->].
Qed.

Hypothesis comp_is : comp = snd (DataCompressor.Initialize Compressor_new).
Hypothesis hashes : mc_hasher = true.

(** The pipelined transfer over a connection that carries the greeting. *)
Lemma transfer_stream cfg devNo c m versionId path stats (w : World Net Drv) sent stats' c' m' w' greeting :
  DryRun cfg = false -> 0 < PipelineWindowSize cfg < 2 ^ 31 - 1 -> mc_source path = Some src ->
  in_width 32 versionId -> outgoing (net c) = greeting ->
  PipelineTransferBlocks threads cfg devNo comp c m versionId (block_count image) (zlen image) path stats w
    = Some (sent, stats', c', m', w') ->
  ds_TotalBlocks stats' = ds_TotalBlocks stats /\
  exists ixs part, sent = zlen ixs /\ StronglySorted Z.lt ixs /\
    Forall (fun i => 0 <= i < block_count image) ixs /\ (part = [] \/ broken_off part) /\
    (part = [] \/ NetworkClient.m_connected c' = false) /\
    outgoing (net c') = greeting ++
      concat (map msg_bytes (map call_msg (map (block_call (u32 devNo) versionId image) ixs))) ++ part.
Proof.
  intros Hdry Hwin Hsrc Hver Hg. unfold PipelineTransferBlocks. rewrite Hsrc, Hdry.
  test_false (PipelineWindowSize cfg <? 0). rewrite hashes.
  assert (in_width 32 (u32 devNo)) as Hdev by (apply wrap_range; lia).
  set (job := {| job_devNo := u32 devNo |}).
  destruct (threads src job _ m _ w) as [[[r c1] w1]|] eqn:Et; [|done]. cbn [mbind option_bind].
  intros [= <- <- <- <- <-]. apply threads_ok in Et as [Ho Hm].
  change job with (image_job image (u32 devNo) versionId comp) in Ho. split; [done|].
  destruct (over_carried image (u32 devNo) versionId (PipelineWindowSize cfg) comp m (StartAckReceiver c)
    image_ok image_small Hdev Hver r c1 Ho) as (part & Hout & Hpart).
  destruct (wire_is_blocks image (u32 devNo) versionId (PipelineWindowSize cfg) comp m image_ok image_small r
    (over_reachable _ _ _ _ _ _ Ho)) as (Hwire & Hs & Hr).
  exists (wire_ix r), part. split_and!; [|done|done| | |].
  - by apply (over_sent image (u32 devNo) versionId (PipelineWindowSize cfg) comp m (StartAckReceiver c)
      image_small Hwin r c1).
  - destruct Hpart as [|(? & _)]; [by left|by right].
  - destruct Hpart as [|(_ & ? & _)]; [by left|by right].
  - cbn [net StopAckReceiver]. rewrite Hout, Hwire. cbn [net StartAckReceiver]. by rewrite Hg.
Qed.

Hypothesis fresh_connection : forall n n', mc_connect n = (Accepted, n') -> outgoing n' = [].

(** A full backup that returns true has greeted the server and sent blocks of
    the image. *)
Lemma FullBackup_stream cfg devNo layout (w : World Net Drv) stats' w' :
  DryRun cfg = false -> 0 < PipelineWindowSize cfg < 2 ^ 31 - 1 ->
  mc_source (physical_drive devNo) = Some src -> m_mapped (snd (Map layout)) = [] ->
  d_Size (Disk layout) = zlen image ->
  FullBackup threads cfg devNo layout (DiskStats_new devNo) w = Some (true, stats', w') ->
  ds_TotalBlocks stats' = block_count image /\
  exists versionId ixs, SentBlocks (ds_transfer stats') = zlen ixs /\ in_width 32 versionId /\
    backup_stream (u32 devNo) versionId (zlen image) ixs (outgoing (w_net w')).
Proof.
  intros Hdry Hwin Hsrc Hmap Hsize Hrun. unfold FullBackup, full_transfer in Hrun.
  destruct (VssManager.Initialize _) as [[[] vss]|]; cbn [mbind option_bind negb] in Hrun; [| |done].
  2:{ by apply leave_same in Hrun as (? & _). }
  destruct (StartSnapshotSet vss) as [[] vss1]; cbn [negb] in Hrun.
  2:{ by apply cleanup_leave_same in Hrun as (? & _). }
  rewrite Hmap in Hrun. cbn [take_snapshot add_filesystems Nat.ltb Nat.leb andb mbind option_bind data_source] in Hrun.
  destruct (open_state devNo w) as [m|]; cbn [mbind option_bind] in Hrun; [|done].
  pose proof (block_count_range image image_small) as Hcount.
  assert (u64 (d_Size (Disk layout) + BLOCK_SIZE - 1) / BLOCK_SIZE = block_count image) as Htotal.
  { rewrite Hsize. unfold block_count. rewrite wrap_small; [done|]. unfold in_width. sizes. lia. }
  rewrite Htotal, Hsize, Hdry in Hrun.
  destruct (CreateVersion _ _ _ _ _ m) as [ver m1].
  case_if_in Hrun; [done|].
  destruct (InitFullBlocksEmpty _ _ m1) as [ok2 m2]. unfold connect_hello in Hrun.
  destruct (NetConnect _) as [[] c] eqn:Ec; cbn [negb mbind option_bind] in Hrun.
  2:{ destruct (delete_state _ _ _); [|done]. by apply cleanup_leave_same in Hrun as (? & _). }
  set (vid := u32 (v_VersionId ver)) in *.
  assert (in_width 32 vid) as Hvid by (apply wrap_range; lia).
  assert (in_width 32 (u32 devNo)) as Hdev by (apply wrap_range; lia).
  destruct (SendHello vid _ _ _ _ c) as [[[] c1]|] eqn:Eh; cbn [negb mbind option_bind] in Hrun; [| |done].
  2:{ by apply finish_same in Hrun as (? & _). }
  apply SendHello_sent in Eh.
  2:{ cbn. unfold in_width in *. split_and!; try lia. by repeat constructor. }
  assert (outgoing (net c) = []) as Hnil.
  { unfold NetConnect in Ec. destruct (mc_connect _) as [[] n'] eqn:Emc; try done. injection Ec as <-.
    by apply (fresh_connection _ _ Emc). }
  rewrite Hnil in Eh. cbn [app] in Eh. rewrite <- comp_is in Hrun.
  destruct (PipelineTransferBlocks _ _ _ _ _ _ _ _ _ _ _ _) as [[[[[sent st] c2] m3] w2]|] eqn:Et; [|done].
  cbn [mbind option_bind] in Hrun.
  eapply transfer_stream in Et as (Hst & ixs & part & -> & Hs & Hr & Hpart & Hdead & Hout); try done.
  destruct (CloseConnection _ c2) as [c3|] eqn:Ecl; cbn [mbind option_bind] in Hrun; [|done].
  apply finish_same in Hrun as (_ & -> & _ & ->). split; [exact Hst|].
  exists vid, ixs. split; [done|]. split; [done|]. split; [done|]. split; [done|].
  apply CloseConnection_sent in Ecl; [|done].
  destruct Ecl as [[Hc3 _]|[Hconn (byes & rest & Hbyes & Hrest & Hc3)]].
  - exists [], part. split; [by left|]. split; [done|]. rewrite Hc3, Hout, app_nil_r. cbn [map concat].
    by rewrite <- app_assoc.
  - destruct Hdead as [->|]; [|congruence]. exists byes, rest. split; [done|]. split; [done|].
    rewrite Hc3, Hout, app_nil_r. cbn [map concat]. by rewrite !map_app, concat_app, <- !app_assoc.
Qed.
End backup.

(** C1: a full backup and the server that reads its connection.  For every
    machine, every run of the transfer's two threads over the connection - time
    limits and lost connections included - and a server whose file for the disk
    is as long as the disk: when the backup of a disk without mapped volumes
    returns true, the server, reading what the client put on the wire, has
    replaced exactly the blocks the statistics count as sent by those of the
    disk, and no other file changed.  In particular, a backup whose statistics
    count every block as sent has left the image of the disk on the server. *)
Theorem full_backup_on_server {Net Drv} `{Socket Net} `{!SocketLaws Net} `{VssApi}
    `{VolumeApi} `{CompressApi} `{!Machine Net Drv} `{LibraryLaws} `{!BackupEnv}
    threads (src : Source) image `{!Linked image (snd (DataCompressor.Initialize Compressor_new))}
    cfg devNo layout (w : World Net Drv) stats' w' disks bf f files :
  runs_threads threads -> bytes_ok image -> zlen image < 2 ^ 63 -> mc_hasher = true ->
  (forall n n', mc_connect n = (Accepted, n') -> outgoing n' = []) ->
  DryRun cfg = false -> 0 < PipelineWindowSize cfg < 2 ^ 31 - 1 ->
  mc_source (physical_drive devNo) = Some src -> m_mapped (snd (Map layout)) = [] ->
  d_Size (Disk layout) = zlen image ->
  disks_match disks files -> disks !! u32 devNo = Some bf -> files !! bf_fd bf = Some f ->
  length f = length image ->
  FullBackup threads cfg devNo layout (DiskStats_new devNo) w = Some (true, stats', w') ->
  exists ixs s closed f', serve disks (stream (outgoing (w_net w'))).1.1 (fresh_session files) = (s, closed) /\
    s_files s = <[bf_fd bf := f']> files /\ stored image f ixs f' /\
    StronglySorted Z.lt ixs /\ SentBlocks (ds_transfer stats') = zlen ixs /\
    ds_TotalBlocks stats' = block_count image /\
    (SentBlocks (ds_transfer stats') = ds_TotalBlocks stats' -> f' = image).
Proof.
  intros Hth Himg Hlen Hhash Hfresh Hdry Hwin Hsrc Hmap Hsize Hdm Hd Hf Hl Hrun.
  destruct (FullBackup_stream threads Hth src image Himg Hlen eq_refl Hhash Hfresh cfg devNo layout w stats' w'
    Hdry Hwin Hsrc Hmap Hsize Hrun) as (Htot & vid & ixs & Hsent & Hvid & Hstream).
  assert (in_width 32 (u32 devNo)) as Hdev by (apply wrap_range; lia).
  destruct (backup_stream_served image Himg Hlen _ _ _ _ disks bf f files Hdev Hvid Hstream Hdm Hd Hf ltac:(lia))
    as (s & closed & f' & Hs & Hfs & Hst).
  destruct Hstream as (Hsorted & Hrange & _).
  exists ixs, s, closed, f'. split_and!; try done. intros Hall.
  eapply stored_image; [exact Hl|exact Hst|]. intros i Hi Hn. exfalso. apply Hn.
  pose proof (block_count_range image Hlen) as Hcount.
  rewrite (sorted_all ixs 0 (block_count image)); [|done|done|congruence]. apply elem_of_seqZ.
  destruct Hi as [Hi0 Hi]. unfold block_count in *. sizes. Z.to_euclidean_division_equations. lia.
Qed.

(** ** A backup of four bytes

    The system has no volumes; the server's answers to the greeting, the block
    and the farewell are waiting. *)

Definition no_volumes : VolumeApi :=
  {| api_Volumes := None; api_PathNames := fun _ => None; api_Open := fun _ => false; api_Extents := fun _ => None |}.
Definition bare_layout : DiskLayout :=
  {| Disk := {| d_DeviceNumber := 7; d_Size := 4; d_SectorSize := 512; d_Style := MBR; d_GPT := GPTInfo_zero |};
     Partitions := []; FreeRanges := []; MetadataRanges := [] |}.
Definition waiting_answers : list Z :=
  ServerSpec.ack_bytes (plain_ack 7 OK)
  ++ ServerSpec.ack_bytes {| ack_BlockIndex := 0; ack_Status := 0; ack_DevNo := 7; ack_Hash := zeros 32 |}
  ++ ServerSpec.ack_bytes (plain_ack 7 OK).
Definition full_machine : Machine DemoNet CbtDriver.Driver := {|
  mc_disk := fun _ => None;
  mc_source := fun p => if bool_decide (p = physical_drive 7) then Some e2e_source else None;
  mc_hasher := true; mc_cbt_open1 := None; mc_cbt_open2 := None;
  mc_services := {| sm_open := false; sm_service := false; sm_state := None; sm_start := None; sm_polls := [] |};
  mc_connect := fun _ => (Accepted, {| d_in := waiting_answers; d_out := [] |});
  mc_save := fun _ => {| sa_accept := fun _ n => n; sa_create := true; sa_move := true; sa_slack := zeros 4 |};
  mc_max_blocks := 1000; mc_max_entries := 1000; mc_systemTime := 5; mc_now := 6 |}.
Definition full_config : BackupConfig :=
  {| DryRun := false; UseCbt := false; RetryCount := 3; PipelineWindowSize := 2 |}.
Definition full_world : World DemoNet CbtDriver.Driver :=
  {| w_vss := []; w_cbt := CbtDriver.demo_loaded; w_net := {| d_in := []; d_out := [] |};
     w_file := fun _ => None; w_saves := 0 |}.

Definition driven_threads (fuel : nat) (src : Source) (job : @Job stored_api) (windowSize : Z) (m : Manager)
    (c : Client DemoNet) (w : World DemoNet CbtDriver.Driver)
    : option (Pipeline.Run * Client DemoNet * World DemoNet CbtDriver.Driver) :=
  p ← @drive DemoNet demo_socket src stored_api job fuel (Run_start windowSize m) c;
  let '(r, c') := p in Some (r, c', w).

Lemma driven_threads_run fuel : @runs_threads DemoNet CbtDriver.Driver demo_socket stored_api (driven_threads fuel).
Proof.
  intros src job win m c w r c' w' E. unfold driven_threads in E.
  destruct (drive _ _ _ _) as [[r1 c1]|] eqn:Ed; [|done]. cbn in E. injection E as <- <- _.
  eapply drive_over; [|exact Ed]. constructor.
Qed.

Abbreviation full_run :=
  (@FullBackup DemoNet CbtDriver.Driver demo_socket sample_service no_volumes stored_api full_machine
    (driven_threads 100) full_config 7 bare_layout (DiskStats_new 7) full_world).

Lemma full_backup_on_server_witness :
  exists stats w' s closed,
    full_run = Some (true, stats, w') /\ SentBlocks (ds_transfer stats) = 1 /\
    @serve zlib_library demo_disks (stream (outgoing (w_net w'))).1.1 (fresh_session demo_files) = (s, closed) /\
    s_files s = <[3 := e2e_image]> demo_files.
Proof.
  assert ((fun r => (r.1.1, SentBlocks (ds_transfer r.1.2), ds_TotalBlocks r.1.2)) <$> full_run = Some (true, 1, 1)) as Eb
    by (vm_compute; reflexivity).
  destruct full_run as [[[b stats] w']|] eqn:E; [|done].
  cbn [fmap option_fmap option_map fst snd] in Eb. injection Eb as -> Hsent Htot.
  destruct (@full_backup_on_server DemoNet CbtDriver.Driver demo_socket demo_socket_laws sample_service no_volumes
    stored_api full_machine zlib_library zlib_library_laws zlib_env (driven_threads 100) e2e_source e2e_image e2e_linked
    full_config 7 bare_layout full_world stats w' demo_disks {| bf_fd := 3; bf_size_bytes := 4; bf_path := [] |}
    [1; 2; 3; 4] demo_files) as (ixs & s & closed & f' & Hs & Hf & _ & _ & _ & _ & Himg).
  - exact (driven_threads_run 100).
  - evaluate.
  - cbn. lia.
  - done.
  - by intros n n' [= <-].
  - done.
  - cbn. lia.
  - done.
  - done.
  - done.
  - apply demo_disks_match.
  - done.
  - done.
  - done.
  - exact E.
  - exists stats, w', s, closed. split_and!; [done|done|done|]. rewrite Hf, Himg by congruence. done.
Defined.
