(* ===== verification/InterruptedBackup.v ===== *)
(** * A client that stops in the middle of a full backup

    The client process may die, and the connection break, at any point of a
    backup.  Here the connection of a full backup is followed from its opening
    to the farewell, the server is given any prefix of the bytes the client has
    handed to the socket until then, and the theorem says what is on the
    server's disk. *)

From Stdlib Require Import Sorted.
From S2P Require Import Prelude.
From S2P Require Import Protocol.
From S2P Require Import MessageParser.
From S2P Require Import DiskMap.
From S2P Require Import BlockProcessor.
From S2P Require Import Server.
From S2P Require Import ServerSpec.
From S2P Require Import NetworkClient.
From S2P Require Import EndToEnd.
From S2P Require Import BlockHasher.
From S2P Require Import DataCompressor.
From S2P Require Import BlockStateManager.
From S2P Require Import Pipeline.
From S2P Require Import PipelineSpec.
From S2P Require Import PipelineEndToEnd.
From S2P Require Import PipelineNetwork.
From S2P Require Import VolumeMapper.
From S2P Require Import VssManager.
From S2P Require Import BackupEngine.
From S2P Require Import BackupEndToEnd.

(** ** The points of a backup *)

Section points.
Context {Net Drv : Type} `{Socket Net} `{Source} `{CompressApi} `{!Machine Net Drv} `{BackupEnv}.
Context (image : list Z) (devno versionId windowSize : Z) (comp : Compressor) (m0 : Manager).

(** The connection of a full backup ([connect_hello], [PipelineTransferBlocks]
    and [CloseConnection], as [FullBackup] runs them) between two calls: the
    client, and the blocks it has sent whole.  A call that fails leaves its
    part of a message on the wire. *)
Inductive backup_point (c0 : Client Net) : Client Net -> list Z -> Prop :=
| at_connect c :
    NetConnect c0 = (true, c) -> backup_point c0 c []
| at_greeting c b c' :
    NetConnect c0 = (true, c) ->
    SendHello versionId devno (block_count image) (zlen image) FULL c = Some (b, c') ->
    backup_point c0 c' []
| at_transfer c c1 r c' :
    NetConnect c0 = (true, c) ->
    SendHello versionId devno (block_count image) (zlen image) FULL c = Some (true, c1) ->
    over (image_job image devno versionId comp) windowSize m0 (StartAckReceiver c1) r c' ->
    backup_point c0 c' (wire_ix r)
| at_farewell c c1 r c2 c' :
    NetConnect c0 = (true, c) ->
    SendHello versionId devno (block_count image) (zlen image) FULL c = Some (true, c1) ->
    over (image_job image devno versionId comp) windowSize m0 (StartAckReceiver c1) r c2 ->
    main r = Finished -> CloseConnection devno (StopAckReceiver c2) = Some c' ->
    backup_point c0 c' (wire_ix r).
End points.

(** ** A prefix of a stream of messages *)

(** A prefix of the messages of calls, the last of them perhaps broken off. *)
Lemma stream_prefix ks part got :
  Forall call_ok ks -> part = [] \/ broken_off part ->
  got `prefix_of` concat (map msg_bytes (map call_msg ks)) ++ part ->
  exists n rest, stream got = (map call_msg (take n ks), rest, false).
Proof.
  intros Hks Hpart Hgot.
  assert (exists ks', Forall call_ok ks' /\ take (length ks) ks' = ks /\ (length ks' <= S (length ks))%nat /\
            got `prefix_of` concat (map msg_bytes (map call_msg ks')) /\
            (length ks' = length ks \/ zlen got < zlen (concat (map msg_bytes (map call_msg ks')))))
    as (ks' & Hks' & Htake & Hlen & Hgot' & Hshort).
  { destruct Hpart as [->|(k & Hk & Hpre & Hlt)].
    - exists ks. rewrite app_nil_r in Hgot. rewrite firstn_all. split_and!; try done; [lia|by left].
    - exists (ks ++ [k]). rewrite take_app_length, !length_app. split_and!.
      + apply Forall_app. by split; [|repeat constructor].
      + done.
      + cbn. lia.
      + etrans; [exact Hgot|]. rewrite !map_app, concat_app. apply prefix_app. cbn. by rewrite app_nil_r.
      + right. apply prefix_length in Hgot. rewrite !map_app, concat_app. rewrite !length_app in *.
        cbn [map concat]. rewrite app_nil_r. rewrite <- msg_bytes_length in Hlt. lia. }
  destruct (prefix_of_messages _ _ Hgot') as (n & rest & -> & Hp).
  rewrite on_wire_stream by done. exists n, rest. rewrite firstn_map. enough (take n ks' = take n ks) as -> by done.
  destruct (decide (n <= length ks)%nat) as [Hn|Hn].
  - rewrite <- Htake, take_take. f_equal. f_equal. lia.
  - destruct Hshort as [Hl|Hl].
    + assert (ks' = ks) as -> by (rewrite <- Htake; symmetry; apply take_ge; lia). done.
    + exfalso. rewrite take_ge in Hl by (rewrite length_map; lia). rewrite length_app in Hl. lia.
Qed.

(** ** What the server makes of it *)

Section served.
Context {Net Drv : Type} `{Socket Net} `{!SocketLaws Net} `{Source} `{CompressApi} `{!Machine Net Drv}
  `{LibraryLaws} `{!BackupEnv}.
Context (image : list Z) (devno versionId windowSize : Z) (comp : Compressor) (m0 : Manager) `{!Linked image comp}.
Hypothesis image_ok : bytes_ok image.
Hypothesis image_small : zlen image < 2 ^ 63.
Hypothesis devno_ok : in_width 32 devno.
Hypothesis version_ok : in_width 32 versionId.

Abbreviation greeting := (CallHello versionId devno (block_count image) (zlen image) FULL).
Abbreviation blocks := (map (block_call devno versionId image)).
Abbreviation point := (backup_point image devno versionId windowSize comp m0).

Lemma greeting_ok : call_ok greeting.
Proof.
  pose proof (block_count_range image image_small). cbn. unfold in_width in *.
  split_and!; try lia. by repeat constructor.
Qed.

Lemma blocks_ok ixs : Forall (fun i => 0 <= i < block_count image) ixs -> Forall call_ok (blocks ixs).
Proof.
  intros Hr. apply Forall_map. eapply Forall_impl; [exact Hr|]. intros i Hi.
  apply block_call_ok; try done. by apply block_index_bound.
Qed.

(** At every point the wire holds a prefix of the greeting, blocks of the image
    in order, and the farewell. *)
Lemma point_stream c0 c ixs :
  (forall n, mc_connect (net c0) = (Accepted, n) -> outgoing n = []) -> point c0 c ixs ->
  StronglySorted Z.lt ixs /\ Forall (fun i => 0 <= i < block_count image) ixs /\
  exists byes part, (byes = [] \/ byes = [CallBye devno]) /\ (part = [] \/ broken_off part) /\
    outgoing (net c) `prefix_of`
      concat (map msg_bytes (map call_msg (greeting :: blocks ixs ++ byes))) ++ part.
Proof.
  intros Hfresh Hp.
  assert (forall c1, NetConnect c0 = (true, c1) -> outgoing (net c1) = []) as Hopen.
  { intros c1 E. unfold NetConnect in E. destruct (mc_connect _) as [[] n] eqn:En; try done.
    injection E as <-. by apply Hfresh. }
  assert (forall c1 c2 r c3, NetConnect c0 = (true, c1) ->
            SendHello versionId devno (block_count image) (zlen image) FULL c1 = Some (true, c2) ->
            over (image_job image devno versionId comp) windowSize m0 (StartAckReceiver c2) r c3 ->
            StronglySorted Z.lt (wire_ix r) /\ Forall (fun i => 0 <= i < block_count image) (wire_ix r) /\
            exists part, (part = [] \/ broken_off part /\ m_connected c3 = false) /\
              outgoing (net c3) = concat (map msg_bytes (map call_msg (greeting :: blocks (wire_ix r)))) ++ part)
    as Hover.
  { intros c1 c2 r c3 E1 E2 Ho. apply SendHello_sent in E2; [|exact greeting_ok]. rewrite (Hopen _ E1) in E2.
    destruct (wire_is_blocks image devno versionId windowSize comp m0 image_ok image_small r
      (over_reachable _ _ _ _ _ _ Ho)) as (Hw & Hs & Hr).
    destruct (over_carried image devno versionId windowSize comp m0 (StartAckReceiver c2)
      image_ok image_small devno_ok version_ok r c3 Ho) as (part & Hout & Hpart).
    split; [done|]. split; [done|]. exists part. split; [destruct Hpart as [->|(? & ? & _)]; [by left|by right]|].
    rewrite Hout, Hw. cbn [net StartAckReceiver map concat]. rewrite E2. cbn [app]. by rewrite <- app_assoc. }
  destruct Hp as [c E1|c b c' E1 E2|c c1 r c' E1 E2 Ho|c c1 r c2 c' E1 E2 Ho Hm Ec].
  - split; [constructor|]. split; [constructor|]. exists [], []. rewrite (Hopen _ E1).
    split; [by left|]. split; [by left|]. apply prefix_nil.
  - split; [constructor|]. split; [constructor|]. exists [], []. split; [by left|]. split; [by left|].
    destruct (exec_call_spec greeting c greeting_ok) as (b1 & c1 & Hrun & He).
    cbn [exec_call] in Hrun. rewrite E2 in Hrun. injection Hrun as <- <-. cbn [blocks map app concat].
    rewrite !app_nil_r. destruct (m_connected c).
    + destruct He as (s & -> & Hs). rewrite (Hopen _ E1). cbn [app]. by destruct Hs as [->|(? & _)].
    + destruct He as [_ ->]. rewrite (Hopen _ E1). apply prefix_nil.
  - destruct (Hover _ _ _ _ E1 E2 Ho) as (Hs & Hr & part & Hpart & Hout). split; [done|]. split; [done|].
    exists [], part. split; [by left|]. split; [destruct Hpart as [|[? _]]; auto|]. by rewrite app_nil_r, Hout.
  - destruct (Hover _ _ _ _ E1 E2 Ho) as (Hs & Hr & part & Hpart & Hout). split; [done|]. split; [done|].
    apply CloseConnection_sent in Ec; [|done]. cbn [StopAckReceiver net m_connected] in Ec.
    destruct Ec as [[-> _]|(Hc & byes & rest & Hbyes & Hrest & ->)].
    + exists [], part. split; [by left|]. split; [destruct Hpart as [|[? _]]; auto|]. by rewrite app_nil_r, Hout.
    + destruct Hpart as [->|[_ Hd]]; [|congruence]. exists byes, rest. split; [done|]. split; [done|].
      rewrite Hout, app_nil_r, app_comm_cons, !map_app, concat_app, <- app_assoc. done.
Qed.

(** The session after the first messages of a backup. *)
Lemma serve_first n ixs byes disks bf f files :
  byes = [] \/ byes = [CallBye devno] -> Forall (fun i => 0 <= i < block_count image) ixs ->
  disks_match disks files -> disks !! devno = Some bf -> files !! bf_fd bf = Some f ->
  zlen image <= zlen f ->
  exists k s closed f',
    serve disks (map call_msg (take n (greeting :: blocks ixs ++ byes))) (fresh_session files) = (s, closed) /\
    s_acks s = take k (plain_ack devno OK :: map (ok_ack devno image) ixs ++ [plain_ack devno OK]) /\
    s_files s = <[bf_fd bf := f']> files /\ stored image f (take (pred k) ixs) f'.
Proof.
  intros Hbyes Hr Hdm Hd Hf Hl. destruct (proj1 Hdm devno bf Hd) as (f0 & Hf0 & Hsz & Hmax).
  assert (f0 = f) as -> by congruence. pose proof (block_count_range image image_small) as Hcount.
  destruct n as [|n].
  { exists 0%nat, (fresh_session files), false, f. cbn [take map serve pred]. split_and!; [done|done| |apply stored_nil].
    cbn. by rewrite insert_id. }
  cbn [take map serve]. rewrite serve_hello_ok with (bf := bf) by (unfold in_width in *; done || lia).
  rewrite take_app, map_app, serve_app, firstn_map, map_map.
  destruct (serve_blocks disks devno versionId image image_ok version_ok (take n ixs)
    (greeted devno (fresh_session files)) bf f) as (s & f' & Hs & Ha & Hfs & Hst); try done; try lia.
  { apply Forall_take. eapply Forall_impl; [exact Hr|]. intros i Hi. by apply block_index_bound. }
  rewrite Hs. cbn [greeted s_acks fresh_session s_files app] in Ha, Hfs.
  destruct (take (n - length (map (block_call devno versionId image) ixs)) byes) as [|k rest] eqn:Eb.
  - exists (S (min n (length ixs))), s, false, f'. cbn [map serve pred take]. rewrite Ha.
    split; [done|]. split; [|split; [done|]].
    + cbn [app]. f_equal. rewrite take_app_le by (rewrite length_map; lia). rewrite firstn_map.
      f_equal. by rewrite take_min_length.
    + by rewrite take_min_length.
  - destruct Hbyes as [->|Hb]; [by rewrite take_nil in Eb|].
    assert (k = CallBye devno /\ rest = [] /\ (length ixs < n)%nat) as (-> & -> & Hn).
    { rewrite Hb, length_map in Eb. destruct (n - length ixs)%nat as [|j] eqn:Ej; [done|]. cbn in Eb.
      rewrite take_nil in Eb. injection Eb as <- <-. split_and!; [done..|lia]. }
    exists (S (S (length ixs))), (add_ack (plain_ack devno OK) s), true, f'.
    rewrite (take_ge ixs) in Ha, Hst by lia. cbn [map serve pred]. split; [done|]. split; [|split; [done|]].
    + cbn [add_ack s_acks]. rewrite Ha. cbn [take app]. f_equal. rewrite take_ge; [done|].
      rewrite length_app, length_map. cbn. lia.
    + by rewrite take_ge by lia.
Qed.

(** The session of a complete backup. *)
Lemma serve_whole disks bf f files :
  disks_match disks files -> disks !! devno = Some bf -> files !! bf_fd bf = Some f ->
  length f = length image ->
  exists s, serve disks (map call_msg (greeting :: blocks (seqZ 0 (block_count image)))) (fresh_session files)
            = (s, false) /\
    s_files s = <[bf_fd bf := image]> files.
Proof.
  intros Hdm Hd Hf Hl. destruct (proj1 Hdm devno bf Hd) as (f0 & Hf0 & Hsz & Hmax).
  assert (f0 = f) as -> by congruence. pose proof (block_count_range image image_small) as Hcount.
  cbn [map serve]. rewrite serve_hello_ok with (bf := bf) by (unfold in_width in *; done || lia). rewrite map_map.
  destruct (serve_blocks disks devno versionId image image_ok version_ok (seqZ 0 (block_count image))
    (greeted devno (fresh_session files)) bf f) as (s & f' & Hs & _ & Hfs & Hst); try done; try lia.
  { apply Forall_forall. intros i Hi%elem_of_seqZ. apply block_index_bound. lia. }
  exists s. split; [exact Hs|]. rewrite Hfs. cbn [greeted s_files fresh_session]. f_equal.
  eapply stored_image; [exact Hl|exact Hst|]. intros i Hi Hn. exfalso. apply Hn. apply elem_of_seqZ.
  destruct Hi as [Hi0 Hi]. unfold block_count in *. sizes. Z.to_euclidean_division_equations. lia.
Qed.
End served.

(** C2: a full backup that stops anywhere.  For every connection of a full
    backup, at every point from its opening to the farewell - in every
    interleaving of the transfer's two threads, with time limits, lost
    connections and failed calls - and for every prefix [got] of the bytes
    handed to the socket so far: a server that has received [got] has served the
    first [k] messages of the backup (the greeting, the blocks in order, the
    farewell) and given the first [k] answers, all OK; the blocks of these
    messages, and nothing of a message cut off, are in its file, which keeps its
    length; no other file changed.  So every block it acknowledged is stored,
    the disk still matches its table, and a complete backup of the image that
    follows, under any version, leaves the image. *)
Theorem interrupted_backup_on_server {Net Drv} `{Socket Net} `{!SocketLaws Net} `{Source} `{CompressApi}
    `{!Machine Net Drv} `{LibraryLaws} `{!BackupEnv} image devno versionId windowSize comp m0
    `{!Linked image comp} disks bf f files (c0 c : Client Net) ixs got :
  bytes_ok image -> zlen image < 2 ^ 63 -> in_width 32 devno -> in_width 32 versionId ->
  (forall n, mc_connect (net c0) = (Accepted, n) -> outgoing n = []) ->
  disks_match disks files -> disks !! devno = Some bf -> files !! bf_fd bf = Some f ->
  length f = length image ->
  backup_point image devno versionId windowSize comp m0 c0 c ixs -> got `prefix_of` outgoing (net c) ->
  exists k s closed f',
    serve disks (stream got).1.1 (fresh_session files) = (s, closed) /\
    s_acks s = take k (plain_ack devno OK :: map (ok_ack devno image) ixs ++ [plain_ack devno OK]) /\
    s_files s = <[bf_fd bf := f']> files /\ stored image f (take (pred k) ixs) f' /\
    StronglySorted Z.lt ixs /\ Forall (fun i => 0 <= i < block_count image) ixs /\
    disks_match disks (s_files s) /\
    forall versionId', in_width 32 versionId' -> exists s',
      serve disks (map call_msg (CallHello versionId' devno (block_count image) (zlen image) FULL
                     :: map (block_call devno versionId' image) (seqZ 0 (block_count image))))
        (fresh_session (s_files s)) = (s', false) /\
      s_files s' = <[bf_fd bf := image]> files.
Proof.
  intros Himg Hlen Hdev Hver Hfresh Hdm Hd Hf Hl Hp Hgot.
  destruct (point_stream image devno versionId windowSize comp m0 Himg Hlen Hdev Hver c0 c ixs Hfresh Hp)
    as (Hs & Hr & byes & part & Hbyes & Hpart & Hout).
  apply (transitivity Hgot), stream_prefix in Hout as (n & rest & ->); [|clear Hout|exact Hpart].
  2:{ constructor; [by apply greeting_ok|]. apply Forall_app. split; [by apply blocks_ok|].
    destruct Hbyes as [->| ->]; [constructor|by apply Forall_singleton]. }
  destruct (serve_first image devno versionId Himg Hlen Hdev Hver n ixs byes disks bf f files)
    as (k & s & closed & f' & E & Ha & Hfs & Hst); try done; [lia|].
  assert (disks_match disks (s_files s)) as Hdm'.
  { rewrite Hfs. eapply disks_match_insert; [done..|]. apply Hst. }
  exists k, s, closed, f'. split_and!; [exact E|done..|]. intros v' Hv'.
  destruct (serve_whole image devno v' Himg Hlen Hdev Hv' disks bf f' (s_files s)) as (s' & E' & Hfs'); try done.
  { by rewrite Hfs, lookup_insert_eq. }
  { by rewrite (proj1 Hst). }
  exists s'. split; [exact E'|]. by rewrite Hfs', Hfs, insert_insert_eq.
Qed.

(** ** A backup of four bytes, cut off in its block *)

Definition unconnected : Client DemoNet :=
  {| net := {| d_in := []; d_out := [] |}; socket_open := false; m_connected := false; m_ackReceiverRunning := false |}.
Definition connected : Client DemoNet := snd (@NetConnect DemoNet CbtDriver.Driver full_machine unconnected).
Definition welcomed : Client DemoNet := default connected (snd <$> SendHello 1 7 1 4 FULL connected).
Definition stopped (fuel : nat) : option (Pipeline.Run * Client DemoNet) :=
  @drive DemoNet demo_socket e2e_source stored_api e2e_job fuel (Run_start 2 e2e_states) (StartAckReceiver welcomed).

Definition cut_off (c : Client DemoNet) : Session * bool :=
  @serve zlib_library demo_disks (stream (take 180 (outgoing (net c)))).1.1 (fresh_session demo_files).

Lemma stopped_runs :
  exists r c, stopped 100 = Some (r, c) /\ length (outgoing (net c)) = 187%nat /\
    disk_bytes demo_disks (s_files (cut_off c).1) 7 = Some [1; 2; 3; 4].
Proof.
  assert ((fun p => (length (outgoing (net p.2)), disk_bytes demo_disks (s_files (cut_off p.2).1) 7)) <$> stopped 100
          = Some (187%nat, Some [1; 2; 3; 4])) as Eb by (vm_compute; reflexivity).
  destruct (stopped 100) as [[r c]|]; [|discriminate Eb].
  apply (inj Some), pair_equal_spec in Eb as [Eo Eb]. by exists r, c.
Qed.

Lemma stopped_point fuel r c :
  stopped fuel = Some (r, c) ->
  @backup_point DemoNet CbtDriver.Driver demo_socket e2e_source stored_api full_machine
    e2e_image 7 1 2 stored_compressor e2e_states unconnected c (wire_ix r).
Proof.
  intros E. apply (at_transfer _ _ _ _ _ _ _ connected welcomed r c); [by vm_compute|by vm_compute|].
  unfold stopped in E. eapply drive_over; [constructor|exact E].
Qed.

(** The block lacks its last seven bytes: the file is as before, and a complete
    backup makes it the image. *)
Lemma interrupted_backup_on_server_witness :
  exists r c, stopped 100 = Some (r, c) /\ length (outgoing (net c)) = 187%nat /\
  exists s closed, cut_off c = (s, closed) /\ disk_bytes demo_disks (s_files s) 7 = Some [1; 2; 3; 4] /\
    exists s', @serve zlib_library demo_disks
      (map call_msg (CallHello 2 7 1 4 FULL :: map (@block_call zlib_library zlib_env 7 2 e2e_image) [0]))
      (fresh_session (s_files s)) = (s', false) /\ s_files s' = <[3 := e2e_image]> demo_files.
Proof.
  destruct stopped_runs as (r & c & E & Eo & Eb). exists r, c. split; [exact E|]. split; [exact Eo|].
  destruct (@interrupted_backup_on_server DemoNet CbtDriver.Driver demo_socket demo_socket_laws e2e_source stored_api
    full_machine zlib_library zlib_library_laws zlib_env e2e_image 7 1 2 stored_compressor e2e_states e2e_linked
    demo_disks {| bf_fd := 3; bf_size_bytes := 4; bf_path := [] |} [1; 2; 3; 4] demo_files unconnected c (wire_ix r)
    (take 180 (outgoing (net c)))) as (k & s & closed & f' & Hs & _ & _ & _ & _ & _ & _ & Hagain).
  - evaluate.
  - cbn. lia.
  - unfold in_width. lia.
  - unfold in_width. lia.
  - by intros n [= <-].
  - apply demo_disks_match.
  - done.
  - done.
  - done.
  - exact (stopped_point 100 r c E).
  - apply prefix_take.
  - change (cut_off c = (s, closed)) in Hs. rewrite Hs in Eb. exists s, closed.
    split; [exact Hs|]. split; [exact Eb|]. apply (Hagain 2). unfold in_width. lia.
Defined.
