(* ===== verification/CbtCtl.v ===== *)
(** * The control tool of the change-tracking driver

    [cbtctl/main.cpp]: the reset, the two requests of a query, the dump of the
    bitmap with its statistics, and the commands.  Printed text is a list of
    tokens; [CbtCtlConsole] has the characters. *)

From S2P Require Import Prelude.
From S2P Require Import CbtDriver.
From S2P Require Import CbtClient.

(** ** Definitions *)

(** [CBT_QUERY_OUTPUT] is the buffer itself; its header has sixteen bytes. *)
Definition out_TotalBits (output : list Z) : Z := rd_le 0 8 output.
Definition out_TotalBytes (output : list Z) : Z := rd_le 8 8 output.
Definition BitmapData (output : list Z) : list Z := drop 16 output.

Section requests.
Context {S : Type} `{IoControl S}.

Definition ResetCbtBitmap (diskNo : Z) (s : S) : bool * S :=
  let '(a, s) := DeviceIoControl IOCTL_RESET_CBT_DATA (ioctl_input diskNo) 0 s in (a_ok a, s).

(** [malloc]: whether a buffer of a size can be had. *)
Variable malloc : Z -> bool.

(** [*ppOutput] when the result is [TRUE]. *)
Definition QueryCbtData (diskNo : Z) (s : S) : option (list Z) * S :=
  let '(a1, s) := DeviceIoControl IOCTL_QUERY_CBT_DATA (ioctl_input diskNo) 16 s in
  if negb (a_ok a1) && negb (a_error a1 =? ERROR_MORE_DATA) then (None, s)
  else
    let metaBuf := overlay (a_data a1) (zeros 16) in
    if (out_TotalBytes metaBuf =? 0) || (out_TotalBits metaBuf =? 0) then (None, s)
    else
      let requiredSize := u32 (16 + out_TotalBytes metaBuf) in
      if negb (malloc requiredSize) then (None, s)
      else
        let '(a2, s) := DeviceIoControl IOCTL_QUERY_CBT_DATA (ioctl_input diskNo) requiredSize s in
        if negb (a_ok a2) then (None, s)
        else (Some (overlay (a_data a2) (zeros requiredSize)), s).
End requests.

(** A computation that reads behind its buffer, or does not end within the
    steps it is given. *)
Inductive Scan (A : Type) := Done (a : A) | Overrun | Endless.
Arguments Done {A} _.
Arguments Overrun {A}.
Arguments Endless {A}.

Definition sbind {A B} (m : Scan A) (f : A -> Scan B) : Scan B :=
  match m with Done a => f a | Overrun => Overrun | Endless => Endless end.

(** What a dump prints: the start of a row with its block and offset, a mark
    per block, the gaps between groups, the ends of lines. *)
Inductive Token := Row (block offset : Z) | Mark (changed : bool) | Gap | Newline.

Record Dump := {
  changedBlocks : Z; changedRanges : Z; maxRunLength : Z; currentRunStart : Z;
  inChangedRun : bool; printed : list Token }.
Definition Dump_new : Dump :=
  {| changedBlocks := 0; changedRanges := 0; maxRunLength := 0; currentRunStart := 0;
     inChangedRun := false; printed := [] |}.

Definition put_token (t : Token) (d : Dump) : Dump :=
  {| changedBlocks := changedBlocks d; changedRanges := changedRanges d; maxRunLength := maxRunLength d;
     currentRunStart := currentRunStart d; inChangedRun := inChangedRun d; printed := printed d ++ [t] |}.

(** The end of a run at block [i]. *)
Definition close_run (i : Z) (d : Dump) : Dump :=
  let runLen := u64 (i - currentRunStart d) in
  {| changedBlocks := changedBlocks d; changedRanges := u64 (changedRanges d + 1);
     maxRunLength := if maxRunLength d <? runLen then runLen else maxRunLength d;
     currentRunStart := currentRunStart d; inChangedRun := false; printed := printed d |}.

Definition dump_bit (isSet : bool) (i : Z) (d : Dump) : Dump :=
  let d := put_token (Mark isSet) d in
  if isSet then
    {| changedBlocks := u64 (changedBlocks d + 1); changedRanges := changedRanges d;
       maxRunLength := maxRunLength d;
       currentRunStart := if inChangedRun d then currentRunStart d else i;
       inChangedRun := true; printed := printed d |}
  else if inChangedRun d then close_run i d else d.

(** The bit of block [i], the first block in the highest bit of a byte. *)
Definition bit_of (byte i : Z) : bool := negb (Z.land (Z.shiftr byte (7 - i mod 8)) 1 =? 0).

Section dump.
Variables (totalBits totalBytes : Z) (data : list Z).

(** Up to [n] more blocks of a group. *)
Fixpoint bits_loop (n : nat) (i : Z) (d : Dump) : Scan (Z * Dump) :=
  match n with
  | O => Done (i, d)
  | S n' =>
      if negb (i <? totalBits) then Done (i, d)
      else
        let byteIndex := i / 8 in
        if totalBytes <=? byteIndex then Done (i, d)
        else match data !! Z.to_nat byteIndex with
             | None => Overrun
             | Some byte => bits_loop n' (i + 1) (dump_bit (bit_of byte i) i d)
             end
  end.

(** Up to [n] more groups of a row. *)
Fixpoint groups_loop (n : nat) (first : bool) (i : Z) (d : Dump) : Scan (Z * Dump) :=
  match n with
  | O => Done (i, d)
  | S n' =>
      if negb (i <? totalBits) then Done (i, d)
      else
        sbind (bits_loop 8 i (if first then d else put_token Gap d))
          (fun r => let '(i, d) := r in groups_loop n' false i d)
  end.

Fixpoint rows_loop (fuel : nat) (i : Z) (d : Dump) : Scan Dump :=
  if negb (i <? totalBits) then Done d
  else
    match fuel with
    | O => Endless
    | S fuel' =>
        sbind (groups_loop 8 true i (put_token (Row i (u64 (i * CBT_BLOCK_SIZE))) d))
          (fun r => let '(i, d) := r in rows_loop fuel' i (put_token Newline d))
    end.

(** The changed blocks of a segment, from block [j]. *)
Fixpoint count_segment (n : nat) (j segChanged : Z) : Scan Z :=
  match n with
  | O => Done segChanged
  | S n' =>
      if j / 8 <? totalBytes then
        match data !! Z.to_nat (j / 8) with
        | None => Overrun
        | Some byte => count_segment n' (j + 1) (if bit_of byte j then u64 (segChanged + 1) else segChanged)
        end
      else count_segment n' (j + 1) segChanged
  end.

Definition segSize : Z := u64 (totalBits + 63) / 64.

(** The counts of segment [seg] and the [n - 1] after it. *)
Fixpoint segments_loop (n : nat) (seg : Z) : Scan (list Z) :=
  match n with
  | O => Done []
  | S n' =>
      let segStart := u64 (seg * segSize) in
      let segEnd := u64 (segStart + segSize) in
      let segEnd := if totalBits <? segEnd then totalBits else segEnd in
      if totalBits <=? segStart then Done []
      else
        sbind (count_segment (Z.to_nat (segEnd - segStart)) segStart 0)
          (fun segChanged => sbind (segments_loop n' (seg + 1)) (fun l => Done (segChanged :: l)))
  end.
End dump.

(** The report and the counts of the density map. *)
Definition DumpCbtBitmap (fuel : nat) (output : list Z) : Scan (Dump * list Z) :=
  let totalBits := out_TotalBits output in
  let totalBytes := out_TotalBytes output in
  let data := BitmapData output in
  if zlen output <? 16 then Overrun
  else
  sbind (rows_loop totalBits totalBytes data fuel 0 Dump_new) (fun d =>
  let d := if inChangedRun d then close_run totalBits d else d in
  sbind (segments_loop totalBits totalBytes data 64 0) (fun l => Done (d, l))).

(** [quickChanged] and [scanBits] of a query. *)
Fixpoint quick_loop (data : list Z) (n : nat) (i quickChanged : Z) : Scan Z :=
  match n with
  | O => Done quickChanged
  | S n' =>
      match data !! Z.to_nat (i / 8) with
      | None => Overrun
      | Some byte => quick_loop data n' (i + 1) (if bit_of byte i then u64 (quickChanged + 1) else quickChanged)
      end
  end.
Definition quick_scan (output : list Z) : Scan (Z * Z) :=
  let scanBits := Z.min (out_TotalBits output) 10000 in
  sbind (quick_loop (BitmapData output) (Z.to_nat scanBits) 0 0) (fun n => Done (n, scanBits)).

(** ** The program *)

Inductive Command := CmdReset | CmdQuery | CmdDump (outfile : bool) | CmdUnknown.

(** What a run of the program reports on its standard output, or in the file of
    a dump; [CbtCtlConsole] has the text. *)
Inductive Report :=
| Usage | NoDevice | NoReport | ResetDone
| Summary (totalBits totalBytes changed scanned : Z)
| NoData
| Dumped (totalBits totalBytes : Z) (d : Dump) (density : list Z).

(** The exit code.  [args]: the command and the disk, when there are two
    arguments; [opened]: the device opens; [file_opens]: the output file does. *)
Definition main {S} `{IoControl S} (malloc : Z -> bool) (opened file_opens : bool) (fuel : nat)
    (args : option (Command * Z)) (s : S) : Scan (Z * Report * S) :=
  match args with
  | None => Done (1, Usage, s)
  | Some (cmd, diskNo) =>
      if negb opened then Done (1, NoDevice, s)
      else match cmd with
           | CmdReset =>
               let '(ok, s) := ResetCbtBitmap diskNo s in
               if ok : bool then Done (0, ResetDone, s) else Done (2, NoReport, s)
           | CmdQuery =>
               match QueryCbtData malloc diskNo s with
               | (None, s) => Done (3, NoReport, s)
               | (Some output, s) =>
                   if zlen output <? 16 then Overrun
                   else if 0 <? out_TotalBits output then
                     sbind (quick_scan output) (fun r =>
                       let '(n, k) := r in Done (0, Summary (out_TotalBits output) (out_TotalBytes output) n k, s))
                   else Done (0, NoData, s)
               end
           | CmdDump outfile =>
               match QueryCbtData malloc diskNo s with
               | (None, s) => Done (5, NoReport, s)
               | (Some output, s) =>
                   if outfile && negb file_opens then Done (4, NoReport, s)
                   else
                     sbind (DumpCbtBitmap fuel output) (fun r =>
                       let '(d, l) := r in Done (0, Dumped (out_TotalBits output) (out_TotalBytes output) d l, s))
               end
           | CmdUnknown => Done (6, Usage, s)
           end
  end.

(** ** What the statistics are *)

Definition changed_at (data : list Z) (i : Z) : bool := bit_of (nth (Z.to_nat (i / 8)) data 0) i.
Definition marks (data : list Z) (n : Z) : list bool := map (changed_at data) (seqZ 0 n).

(** The lengths of the maximal runs of changed blocks; [cur] of them precede
    the list. *)
Fixpoint runs (cur : Z) (l : list bool) : list Z :=
  match l with
  | [] => if 0 <? cur then [cur] else []
  | true :: l' => runs (cur + 1) l'
  | false :: l' => (if 0 <? cur then [cur] else []) ++ runs 0 l'
  end.

Definition maximum (l : list Z) : Z := foldr Z.max 0 l.
Definition total (l : list Z) : Z := foldr Z.add 0 l.

Definition marks_of (ts : list Token) : list bool :=
  omap (fun t => match t with Mark b => Some b | _ => None end) ts.
Definition rows_of (ts : list Token) : list (Z * Z) :=
  omap (fun t => match t with Row b o => Some (b, o) | _ => None end) ts.

(** The blocks with a mark, the first of the list being block [i]. *)
Fixpoint marked (i : Z) (l : list bool) : list Z :=
  match l with
  | [] => []
  | b :: l' => if b then i :: marked (i + 1) l' else marked (i + 1) l'
  end.

(** ** Lemmas *)

Lemma maximum_snoc l x : maximum (l ++ [x]) = Z.max (maximum l) x \/ x < 0.
Proof.
  destruct (Z.lt_ge_cases x 0); [by right|left]. unfold maximum.
  induction l as [|y l IH]; cbn [app foldr]; [lia|]. rewrite IH. lia.
Qed.

Lemma total_app l1 l2 : total (l1 ++ l2) = total l1 + total l2.
Proof. induction l1 as [|x l1 IH]; cbn [app total foldr] in *; [done|]. unfold total in *. lia. Qed.

Lemma total_nonneg l : Forall (fun x => 0 < x) l -> 0 <= total l.
Proof. induction 1 as [|x l Hx Hl IH]; cbn; [lia|]. unfold total in *. lia. Qed.

Lemma marks_succ data n : 0 <= n -> marks data (n + 1) = marks data n ++ [changed_at data n].
Proof. intros Hn. unfold marks. rewrite seqZ_app by lia. rewrite map_app. by rewrite Z.add_0_l. Qed.

(** The client's list of changed blocks. *)
Lemma parse_loop_filter n i bitmap :
  0 <= i -> i + Z.of_nat n <= 8 * zlen bitmap ->
  parse_loop n i bitmap = filter (fun j => changed_at bitmap j = true) (seqZ i (Z.of_nat n)).
Proof.
  revert i. induction n as [|n IH]; intros i Hi Hn; [done|]. cbn [parse_loop].
  assert (i / 8 < zlen bitmap) by (Z.to_euclidean_division_equations; lia).
  test_false (zlen bitmap <=? i / 8).
  rewrite seqZ_cons by lia. rewrite filter_cons. rewrite IH by lia.
  replace (Z.pred (Z.of_nat (S n))) with (Z.of_nat n) by lia. unfold Z.succ.
  assert ((Z.land (Z.shiftr (nth (Z.to_nat (i / 8)) bitmap 0) (7 - i mod 8)) 1 =? 0) = negb (changed_at bitmap i)) as ->
    by (unfold changed_at, bit_of; by rewrite negb_involutive).
  destruct (changed_at bitmap i); cbn [negb]; by case_decide.
Qed.

Lemma marked_parse data n :
  0 <= n <= 8 * zlen data -> marked 0 (marks data n) = ParseChangedBlocks data n.
Proof.
  intros Hn. unfold ParseChangedBlocks. rewrite parse_loop_filter by (rewrite ?Z2Nat.id; lia). rewrite Z2Nat.id by lia.
  unfold marks. generalize 0 as i. rewrite <- (Z2Nat.id n) by lia.
  induction (Z.to_nat n) as [|k IH]; intros i; [done|]. rewrite Nat2Z.inj_succ, !seqZ_cons by lia. rewrite Z.pred_succ.
  cbn [map marked]. rewrite filter_cons. unfold Z.succ. rewrite <- IH. by destruct (changed_at data i).
Qed.

Lemma length_filter_marks data i n :
  zlen (filter (fun j => changed_at data j = true) (seqZ i n)) = zlen (filter (fun b => b = true) (map (changed_at data) (seqZ i n))).
Proof.
  induction (seqZ i n) as [|j l IH]; [done|]. cbn [map]. rewrite !filter_cons.
  repeat case_decide; try done; cbn [length]; lia.
Qed.

Section dumped.
Context (totalBits totalBytes : Z) (data : list Z).
Hypothesis bits_small : 0 <= totalBits < 2 ^ 63.
Hypothesis bits_fit : totalBits <= 8 * totalBytes.
Hypothesis data_fits : totalBytes <= zlen data.

(** The state after the first [i] blocks: [closed] runs are over and [cur]
    blocks of another one have been seen. *)
Definition scanned (i : Z) (d : Dump) : Prop :=
  exists closed cur, changedRanges d = zlen closed /\ maxRunLength d = maximum closed /\
    inChangedRun d = (0 <? cur) /\ (0 < cur -> currentRunStart d = i - cur) /\ 0 <= cur /\
    Forall (fun x => 0 < x) closed /\
    total closed + cur <= i /\ changedBlocks d = total closed + cur /\ zlen closed <= i /\
    marks_of (printed d) = marks data i /\
    forall rest, runs 0 (marks data i ++ rest) = closed ++ runs cur rest.

Lemma scanned_start : scanned 0 Dump_new.
Proof. exists [], 0. by split_and!. Qed.

Lemma scanned_token i t d :
  (forall b, t <> Mark b) -> scanned i d -> scanned i (put_token t d).
Proof.
  intros Ht (closed & cur & H1 & H2 & H3 & H4 & H5 & H6 & H7 & H8 & H9 & H10 & H11).
  exists closed, cur. cbn [put_token changedBlocks changedRanges maxRunLength currentRunStart inChangedRun printed].
  split_and!; try done. unfold marks_of in *. rewrite omap_app, H10. cbn. destruct t; [by rewrite app_nil_r| |by rewrite app_nil_r..].
  by destruct (Ht changed).
Qed.

Lemma scanned_bit i d :
  0 <= i < totalBits -> scanned i d -> scanned (i + 1) (dump_bit (changed_at data i) i d).
Proof.
  intros Hi (closed & cur & H1 & H2 & H3 & H4 & H5 & H6 & H7 & H8 & H9 & H10 & H11).
  assert (forall b, marks_of (printed d ++ [Mark b]) = marks data i ++ [b]) as Hm.
  { intros b. unfold marks_of in *. by rewrite omap_app, H10. }
  pose proof (total_nonneg closed H6) as Htot.
  unfold dump_bit. destruct (changed_at data i) eqn:Eb.
  - exists closed, (cur + 1). cbn [put_token changedBlocks changedRanges maxRunLength currentRunStart inChangedRun printed].
    rewrite marks_succ, Eb by lia. split_and!; try done; try lia.
    + intros _. rewrite H3. destruct (0 <? cur) eqn:Ec; reflect_Z; [rewrite H4 by done; lia|lia].
    + rewrite wrap_small; unfold in_width; lia.
    + intros rest. rewrite <- app_assoc, H11. done.
  - cbn [put_token inChangedRun]. rewrite H3. destruct (0 <? cur) eqn:Ec; reflect_Z.
    + exists (closed ++ [cur]), 0.
      unfold close_run. cbn [put_token changedBlocks changedRanges maxRunLength currentRunStart inChangedRun printed].
      rewrite H4, marks_succ, Eb by lia. replace (i - (i - cur)) with cur by lia.
      rewrite (wrap_small 64 cur) by (unfold in_width; lia).
      rewrite total_app, length_app. cbn [total foldr length].
      destruct (maximum_snoc closed cur) as [->|]; [|lia].
      split_and!; try done; try lia.
      * rewrite wrap_small; unfold in_width; lia.
      * rewrite H2. case_if; lia.
      * apply Forall_app. split; [done|]. by constructor.
      * intros rest. rewrite <- app_assoc, H11. cbn [app runs]. test_true (0 <? cur). by rewrite <- app_assoc.
    + assert (cur = 0) as -> by lia. exists closed, 0.
      cbn [put_token changedBlocks changedRanges maxRunLength currentRunStart inChangedRun printed].
      rewrite marks_succ, Eb by lia. split_and!; try done; try lia.
      intros rest. rewrite <- app_assoc, H11. done.
Qed.

Lemma byte_read i :
  0 <= i < totalBits -> i / 8 < totalBytes /\
  data !! Z.to_nat (i / 8) = Some (nth (Z.to_nat (i / 8)) data 0).
Proof.
  intros Hi. assert (0 <= i / 8 < totalBytes) by (Z.to_euclidean_division_equations; lia).
  split; [lia|]. destruct (lookup_lt_is_Some_2 data (Z.to_nat (i / 8))) as [x Hx]; [lia|].
  rewrite Hx. f_equal. symmetry. by apply nth_lookup_Some.
Qed.

(** Only the rows are counted by [rows_of]. *)
Definition same_rows (d d' : Dump) : Prop := rows_of (printed d') = rows_of (printed d).

Lemma rows_of_snoc ts t : rows_of (ts ++ [t]) = rows_of ts ++ rows_of [t].
Proof. unfold rows_of. by rewrite omap_app. Qed.

Lemma dump_bit_rows b i d : same_rows d (dump_bit b i d).
Proof.
  unfold same_rows, dump_bit, close_run. destruct b; cbn; [by rewrite rows_of_snoc, app_nil_r|].
  destruct (inChangedRun d); cbn; by rewrite rows_of_snoc, app_nil_r.
Qed.

Lemma bits_loop_ok n : forall i d, 0 <= i <= totalBits -> scanned i d ->
  exists d', bits_loop totalBits totalBytes data n i d = Done (Z.min (i + Z.of_nat n) totalBits, d') /\
    scanned (Z.min (i + Z.of_nat n) totalBits) d' /\ same_rows d d'.
Proof.
  induction n as [|n IH]; intros i d Hi Hd; cbn [bits_loop].
  { exists d. rewrite Z.add_0_r, Z.min_l by lia. done. }
  destruct (i <? totalBits) eqn:E; reflect_Z; cbn [negb].
  - destruct (byte_read i ltac:(lia)) as [Hlt Hb]. test_false (totalBytes <=? i / 8). rewrite Hb.
    destruct (IH (i + 1) (dump_bit (changed_at data i) i d)) as (d' & Hrun & Hs & Hrow);
      [lia|by apply scanned_bit; [lia|]|].
    exists d'. replace (i + Z.of_nat (S n)) with (i + 1 + Z.of_nat n) by lia. split; [exact Hrun|]. split; [done|].
    unfold same_rows in *. rewrite Hrow. apply dump_bit_rows.
  - exists d. rewrite Z.min_r by lia. replace i with totalBits in Hd |- * by lia. done.
Qed.

Lemma groups_loop_ok n : forall first i d, 0 <= i <= totalBits -> scanned i d ->
  exists d', groups_loop totalBits totalBytes data n first i d = Done (Z.min (i + 8 * Z.of_nat n) totalBits, d') /\
    scanned (Z.min (i + 8 * Z.of_nat n) totalBits) d' /\ same_rows d d'.
Proof.
  induction n as [|n IH]; intros first i d Hi Hd; cbn [groups_loop].
  { exists d. rewrite Z.mul_0_r, Z.add_0_r, Z.min_l by lia. done. }
  destruct (i <? totalBits) eqn:E; reflect_Z; cbn [negb].
  - set (d1 := if first then d else put_token Gap d).
    assert (scanned i d1 /\ same_rows d d1) as [Hd1 Hr1].
    { unfold d1. destruct first; [done|]. split; [by apply scanned_token|].
      unfold same_rows. cbn. by rewrite rows_of_snoc, app_nil_r. }
    destruct (bits_loop_ok 8 i d1 Hi Hd1) as (d2 & -> & Hd2 & Hr2). cbn [sbind].
    destruct (IH false (Z.min (i + Z.of_nat 8) totalBits) d2) as (d' & -> & Hd' & Hr'); [lia|done|].
    exists d'. replace (Z.min (Z.min (i + Z.of_nat 8) totalBits + 8 * Z.of_nat n) totalBits)
      with (Z.min (i + 8 * Z.of_nat (S n)) totalBits) in * by lia.
    split; [done|]. split; [done|]. unfold same_rows in *. congruence.
  - exists d. rewrite Z.min_r by lia. replace i with totalBits in Hd |- * by lia. done.
Qed.

Definition row_at (k : Z) : Z * Z := (64 * k, u64 (64 * k * CBT_BLOCK_SIZE)).

Lemma rows_loop_ok fuel : forall k d,
  0 <= k -> scanned (Z.min (64 * k) totalBits) d -> rows_of (printed d) = map row_at (seqZ 0 k) ->
  64 * (k - 1) < totalBits -> totalBits <= 64 * (k + Z.of_nat fuel) ->
  exists d', rows_loop totalBits totalBytes data fuel (Z.min (64 * k) totalBits) d = Done d' /\
    scanned totalBits d' /\ rows_of (printed d') = map row_at (seqZ 0 ((totalBits + 63) / 64)).
Proof.
  induction fuel as [|fuel IH]; intros k d Hk Hd Hr Hlo Hf; cbn [rows_loop];
    (destruct (Z.min (64 * k) totalBits <? totalBits) eqn:E; reflect_Z; cbn [negb]; [|]).
  1: lia.
  1, 3: exists d; replace (Z.min (64 * k) totalBits) with totalBits in Hd by lia; split; [done|]; split; [done|];
    rewrite Hr; do 2 f_equal; Z.to_euclidean_division_equations; lia.
  replace (Z.min (64 * k) totalBits) with (64 * k) in * by lia.
  destruct (groups_loop_ok 8 true (64 * k) (put_token (Row (64 * k) (u64 (64 * k * CBT_BLOCK_SIZE))) d))
    as (d2 & -> & Hd2 & Hr2); [lia|by apply scanned_token|]. cbn [sbind].
  replace (64 * k + 8 * Z.of_nat 8) with (64 * (k + 1)) in * by lia.
  apply IH; [lia|by apply scanned_token| |lia|lia].
  cbn [put_token printed]. rewrite rows_of_snoc, app_nil_r, Hr2. cbn [put_token printed].
  rewrite rows_of_snoc, Hr. cbn. rewrite seqZ_app by lia. by rewrite map_app.
Qed.

(** The end of the scan: all runs are closed. *)
Lemma scanned_end d :
  scanned totalBits d ->
  let d' := if inChangedRun d then close_run totalBits d else d in
  changedBlocks d' = total (runs 0 (marks data totalBits)) /\
  changedRanges d' = zlen (runs 0 (marks data totalBits)) /\
  maxRunLength d' = maximum (runs 0 (marks data totalBits)) /\ printed d' = printed d.
Proof.
  intros (closed & cur & H1 & H2 & H3 & H4 & H5 & H6 & H7 & H8 & H9 & H10 & H11).
  pose proof (total_nonneg closed H6). specialize (H11 []). rewrite app_nil_r in H11. rewrite H11. cbn [runs]. rewrite H3.
  destruct (0 <? cur) eqn:Ec; reflect_Z; cbv zeta.
  - unfold close_run. cbn. rewrite H4 by done. replace (totalBits - (totalBits - cur)) with cur by lia.
    rewrite (wrap_small 64 cur) by (unfold in_width; lia). rewrite total_app, length_app. cbn.
    destruct (maximum_snoc closed cur) as [->|]; [|lia]. split_and!; [lia| | |done].
    + rewrite wrap_small; unfold in_width; lia.
    + rewrite H2. case_if; lia.
  - rewrite !app_nil_r. split_and!; [lia|lia|done|done].
Qed.

(** *** The density map *)

Definition changed_in (a n : Z) : Z := zlen (filter (fun j => changed_at data j = true) (seqZ a n)).

Lemma changed_in_app a m n : 0 <= m -> 0 <= n -> changed_in a (m + n) = changed_in a m + changed_in (a + m) n.
Proof. intros. unfold changed_in. rewrite seqZ_app by lia. rewrite filter_app, length_app. lia. Qed.

Lemma count_segment_ok n : forall j c, 0 <= j -> j + Z.of_nat n <= totalBits -> 0 <= c <= j ->
  count_segment totalBytes data n j c = Done (c + changed_in j (Z.of_nat n)).
Proof.
  induction n as [|n IH]; intros j c Hj Hn Hc; cbn [count_segment]; [by rewrite Z.add_0_r|].
  destruct (byte_read j ltac:(lia)) as [Hlt Hb]. test_true (j / 8 <? totalBytes). rewrite Hb.
  change (bit_of _ j) with (changed_at data j).
  replace (Z.of_nat (S n)) with (1 + Z.of_nat n) by lia. rewrite changed_in_app by lia.
  replace (changed_in j 1) with (if changed_at data j then 1 else 0).
  2:{ unfold changed_in. rewrite (seqZ_cons j 1), seqZ_nil, filter_cons, filter_nil by lia.
      destruct (changed_at data j); by case_decide. }
  destruct (changed_at data j); rewrite IH by (rewrite ?wrap_small; unfold in_width; lia); f_equal;
    rewrite ?wrap_small; unfold in_width; lia.
Qed.

Lemma segSize_ok : 0 <= segSize totalBits < 2 ^ 58 /\ totalBits <= 64 * segSize totalBits.
Proof.
  unfold segSize. rewrite wrap_small by (unfold in_width; lia). Z.to_euclidean_division_equations. lia.
Qed.

(** The counts of the segments that are left add up to the changed blocks that
    are left. *)
Lemma segments_ok n : forall seg, 0 <= seg -> seg + Z.of_nat n = 64 ->
  exists l, segments_loop totalBits totalBytes data n seg = Done l /\
    total l = changed_in (Z.min (seg * segSize totalBits) totalBits) (totalBits - Z.min (seg * segSize totalBits) totalBits).
Proof.
  destruct segSize_ok as [Hr Hge]. set (z := segSize totalBits) in *.
  induction n as [|n IH]; intros seg Hs Hn; cbn [segments_loop].
  { exists []. split; [done|]. rewrite Z.min_r by lia. by rewrite Z.sub_diag. }
  fold z. assert (0 <= seg * z < 2 ^ 64) by nia. rewrite (wrap_small 64 (seg * z)) by done.
  destruct (totalBits <=? seg * z) eqn:E; reflect_Z.
  { exists []. split; [done|]. rewrite Z.min_r by lia. by rewrite Z.sub_diag. }
  rewrite (wrap_small 64 (seg * z + z)) by (unfold in_width; lia).
  destruct (IH (seg + 1) ltac:(lia) ltac:(lia)) as (l & Hl & Ht).
  assert ((if totalBits <? seg * z + z then totalBits else seg * z + z) = Z.min ((seg + 1) * z) totalBits) as ->
    by (case_if; lia).
  set (e := Z.min ((seg + 1) * z) totalBits) in *.
  rewrite count_segment_ok by lia. cbn [sbind]. rewrite Hl. cbn [sbind]. eexists. split; [done|].
  cbn [total foldr]. unfold total in Ht. rewrite Ht, Z.add_0_l, Z2Nat.id, (Z.min_l (seg * z)) by lia.
  replace (totalBits - seg * z) with ((e - seg * z) + (totalBits - e)) by lia.
  rewrite changed_in_app by lia. do 2 f_equal. lia.
Qed.
End dumped.

Lemma total_runs l : forall cur, 0 <= cur -> total (runs cur l) = cur + zlen (filter (fun b => b = true) l).
Proof.
  induction l as [|[] l IH]; intros cur Hc; cbn [runs].
  - case_if; cbn; lia.
  - rewrite filter_cons_True, IH by (done || lia). cbn [length]. lia.
  - rewrite total_app, filter_cons_False, IH by (done || lia). case_if; cbn; lia.
Qed.

(** *** A bitmap that is too short *)

Section endless.
Context (totalBits totalBytes : Z) (data : list Z).
Hypothesis bytes_range : 0 <= totalBytes <= zlen data.
Hypothesis bits_missing : 8 * totalBytes < totalBits.

Lemma bits_loop_stuck n : forall i d, 0 <= i <= 8 * totalBytes ->
  exists i' d', bits_loop totalBits totalBytes data n i d = Done (i', d') /\ 0 <= i' <= 8 * totalBytes.
Proof.
  induction n as [|n IH]; intros i d Hi; cbn [bits_loop]; [by eauto|]. test_true (i <? totalBits). cbn [negb].
  destruct (totalBytes <=? i / 8) eqn:E; reflect_Z; [by eauto|].
  assert (0 <= i / 8 < zlen data) by (Z.to_euclidean_division_equations; lia).
  destruct (lookup_lt_is_Some_2 data (Z.to_nat (i / 8))) as [x ->]; [lia|].
  apply IH. Z.to_euclidean_division_equations. lia.
Qed.

Lemma groups_loop_stuck n : forall first i d, 0 <= i <= 8 * totalBytes ->
  exists i' d', groups_loop totalBits totalBytes data n first i d = Done (i', d') /\ 0 <= i' <= 8 * totalBytes.
Proof.
  induction n as [|n IH]; intros first i d Hi; cbn [groups_loop]; [by eauto|]. test_true (i <? totalBits). cbn [negb].
  destruct (bits_loop_stuck 8 i (if first then d else put_token Gap d) Hi) as (i1 & d1 & -> & Hi1).
  cbn [sbind]. by apply IH.
Qed.

Lemma rows_loop_stuck fuel : forall i d, 0 <= i <= 8 * totalBytes ->
  rows_loop totalBits totalBytes data fuel i d = Endless.
Proof.
  induction fuel as [|fuel IH]; intros i d Hi; cbn [rows_loop]; test_true (i <? totalBits); cbn [negb]; [done|].
  destruct (groups_loop_stuck 8 true i (put_token (Row i (u64 (i * CBT_BLOCK_SIZE))) d) Hi) as (i1 & d1 & -> & Hi1).
  cbn [sbind]. by apply IH.
Qed.
End endless.

(** The report of a dump of [totalBits] blocks with the bitmap [data]. *)
Definition report_ok (data : list Z) (totalBits : Z) (d : Dump) (density : list Z) : Prop :=
  marks_of (printed d) = marks data totalBits /\
  marked 0 (marks_of (printed d)) = ParseChangedBlocks data totalBits /\
  rows_of (printed d) = map row_at (seqZ 0 ((totalBits + 63) / 64)) /\
  changedBlocks d = zlen (ParseChangedBlocks data totalBits) /\
  changedRanges d = zlen (runs 0 (marks data totalBits)) /\
  maxRunLength d = maximum (runs 0 (marks data totalBits)) /\
  total density = changedBlocks d.

(** A dump with as many steps as it has rows. *)
Lemma dump_reports output fuel :
  let bits := out_TotalBits output in
  let bytes := out_TotalBytes output in
  0 <= bits < 2 ^ 63 -> 0 <= bytes -> 16 + bytes <= zlen output -> bits <= 8 * bytes ->
  (bits + 63) / 64 <= Z.of_nat fuel ->
  exists d l, DumpCbtBitmap fuel output = Done (d, l) /\ report_ok (BitmapData output) bits d l.
Proof.
  intros bits bytes Hb Hy Ho Hfit Hf. set (data := BitmapData output).
  assert (bytes <= zlen data) as Hd by (unfold data, BitmapData; rewrite length_drop; lia).
  unfold DumpCbtBitmap. fold bits bytes data. test_false (zlen output <? 16).
  destruct (rows_loop_ok bits bytes data Hb Hfit Hd fuel 0 Dump_new) as (d & Hrun & Hs & Hrow);
    [lia| |done|lia|Z.to_euclidean_division_equations; lia|].
  { rewrite Z.min_l by lia. apply scanned_start. }
  rewrite Z.mul_0_r, Z.min_l in Hrun by lia. rewrite Hrun. cbn [sbind].
  destruct (segments_ok bits bytes data Hb Hfit Hd 64 0) as (l & Hl & Ht); [lia|lia|].
  rewrite Hl. cbn [sbind]. destruct (scanned_end bits data Hb d Hs) as (H1 & H2 & H3 & H4).
  rewrite Z.mul_0_l, Z.min_l, Z.sub_0_r in Ht by lia.
  assert (changed_in data 0 bits = total (runs 0 (marks data bits))) as Hc.
  { rewrite total_runs by lia. unfold changed_in, marks. by rewrite length_filter_marks. }
  assert (changed_in data 0 bits = zlen (ParseChangedBlocks data bits)) as Hp.
  { unfold ParseChangedBlocks. rewrite parse_loop_filter by (rewrite ?Z2Nat.id; lia).
    rewrite Z2Nat.id by lia. done. }
  eexists _, l. split; [done|]. unfold report_ok. rewrite H1, H2, H3, H4.
  assert (marks_of (printed d) = marks data bits) as Hmarks by (destruct Hs as (closed & cur & Hs); apply Hs).
  split_and!; [done| |done|lia|done|done|lia]. rewrite Hmarks. apply marked_parse. lia.
Qed.

(** C36: the dump.  For a buffer that holds the bitmap its header announces, the
    dump ends exactly when the bitmap has a bit for every block: then it prints
    one mark per block in order, the marked blocks being those the client's
    [ParseChangedBlocks] lists, and a row for every 64 blocks with the row's
    offset; it counts these blocks, the maximal runs of them and the length of the
    longest run, and the counts of the density map add up to the changed blocks;
    otherwise it prints rows without end. *)
Theorem DumpCbtBitmap_correct output :
  let bits := out_TotalBits output in
  let bytes := out_TotalBytes output in
  0 <= bits < 2 ^ 63 -> 0 <= bytes -> 16 + bytes <= zlen output ->
  if bits <=? 8 * bytes then
    forall fuel, (bits + 63) / 64 <= Z.of_nat fuel ->
    exists d l, DumpCbtBitmap fuel output = Done (d, l) /\ report_ok (BitmapData output) bits d l
  else forall fuel, DumpCbtBitmap fuel output = Endless.
Proof.
  intros bits bytes Hb Hy Ho. case_if; [intros fuel Hf; by apply dump_reports|].
  intros fuel. unfold DumpCbtBitmap. fold bits bytes. test_false (zlen output <? 16).
  rewrite rows_loop_stuck; [done| |done|lia]. unfold BitmapData. rewrite length_drop. lia.
Qed.

(** C37: the tool on the driver.  For a disk the driver tracks, [cbtctl dump]
    succeeds without changing the driver; its report is of the bitmap and the
    number of blocks the client's [Query] reads, and the blocks it marks are the
    blocks [ParseChangedBlocks] takes from them; and [cbtctl reset] answers what
    the driver answers. *)
Theorem cbtctl_reads_the_driver `{IoManagerLaws} malloc c devNo w j e buf fuel :
  connected c -> in_width 32 devNo -> FindDiskMapEntryByNumber devNo w = Some (j, e) ->
  cbt_wf (dm_CbtState e) -> Buffer (dm_CbtState e) = Some buf -> malloc (16 + zlen buf) = true ->
  (TotalBits (dm_CbtState e) + 63) / 64 <= Z.of_nat fuel ->
  exists d l bitmap bits,
    main malloc true true fuel (Some (CmdDump true, devNo)) w = Done (0, Dumped bits (zlen bitmap) d l, w) /\
    Query c devNo [] 0 w = Some (true, bitmap, bits, w) /\ report_ok bitmap bits d l /\
    marked 0 (marks_of (printed d)) = ParseChangedBlocks bitmap bits /\
    main malloc true true fuel (Some (CmdReset, devNo)) w
    = (let '(ok, w') := Reset c devNo w in
       if ok : bool then Done (0, ResetDone, w') else Done (2, NoReport, w')).
Proof.
  intros Hc Hd Hf Hwf Hb Hm Hfuel. destruct (cbt_buffer_size _ _ Hwf Hb) as (Ht & Ey & Hl & Hfit).
  destruct (query_answers devNo w j e buf Hd Hf Hwf Hb) as [(a1 & E1 & Hok1 & Herr1 & Hd1) (a2 & E2 & Hok2 & Hd2)].
  set (bits := TotalBits (dm_CbtState e)) in *. set (header := query_header bits buf) in *.
  assert (forall rest, out_TotalBits (header ++ rest) = bits /\ out_TotalBytes (header ++ rest) = zlen buf) as Hhdr.
  { intros rest. destruct (query_header_fields bits buf rest) as (_ & ? & ?); [unfold in_width; lia|lia|done]. }
  destruct (query_header_fields bits buf []) as (Hhl & _ & _); [unfold in_width; lia|lia|]. fold header in Hhl.
  assert (QueryCbtData malloc devNo w = (Some (header ++ buf), w)) as Hq.
  { unfold QueryCbtData. rewrite E1, Hok1, Herr1.
    change (negb false && negb (ERROR_MORE_DATA =? ERROR_MORE_DATA)) with false. cbv iota. rewrite Hd1.
    destruct (Hhdr []) as [Hx Hy]. rewrite app_nil_r in Hx, Hy. rewrite Hx, Hy.
    test_false (zlen buf =? 0). test_false (bits =? 0). cbn [orb].
    rewrite wrap_small by (unfold in_width; lia). rewrite Hm. cbn [negb]. rewrite E2, Hok2, Hd2. done. }
  destruct (Hhdr buf) as [Hx Hy].
  assert (BitmapData (header ++ buf) = buf) as Hdata by (by apply drop_app_length'; lia).
  destruct (dump_reports (header ++ buf) fuel) as (d & l & Hrun & Hrep);
    rewrite ?Hx, ?Hy, ?length_app in *; try lia.
  rewrite Hdata in Hrep. exists d, l, buf, bits. unfold main. rewrite Hq. cbn [negb andb].
  rewrite Hrun. cbn [sbind]. rewrite Hx, Hy. split; [done|]. split; [by eapply Query_driver|]. split; [done|]. split; [apply Hrep|].
  destruct Hc as [Hc1 Hc2]. unfold Reset, ResetCbtBitmap. rewrite Hc1, Hc2. cbn [negb orb].
  by destruct (DeviceIoControl _ _ 0 w).
Qed.

(** ** Examples *)

(** Ten blocks in four bytes, blocks 1, 2 and 8 changed; ten blocks in one
    byte. *)
Definition sample_output : list Z := le_enc 8 10 ++ le_enc 8 4 ++ [0x60; 0x80; 0; 0].
Definition short_output : list Z := le_enc 8 10 ++ le_enc 8 1 ++ [0x60].

Lemma DumpCbtBitmap_correct_witness :
  (exists d l, DumpCbtBitmap 1 sample_output = Done (d, l) /\ report_ok [0x60; 0x80; 0; 0] 10 d l /\
     changedBlocks d = 3 /\ changedRanges d = 2 /\ maxRunLength d = 2) /\
  forall fuel, DumpCbtBitmap fuel short_output = Endless.
Proof.
  split; [|apply (DumpCbtBitmap_correct short_output); vm_compute; first [by split|done]].
  destruct (DumpCbtBitmap_correct sample_output) with (fuel := 1%nat) as (d & l & Hrun & Hrep);
    [by vm_compute..|].
  exists d, l. split; [done|]. split; [done|]. destruct Hrep as (_ & _ & _ & -> & -> & -> & _). by vm_compute.
Defined.

Lemma cbtctl_reads_the_driver_witness :
  exists d l bitmap bits,
    main (H := demo_io) (fun _ => true) true true 1 (Some (CmdDump true, 1)) demo_loaded
    = Done (0, Dumped bits (zlen bitmap) d l, demo_loaded) /\
    Query (H := demo_io) demo_client 1 [] 0 demo_loaded = Some (true, bitmap, bits, demo_loaded) /\
    marked 0 (marks_of (printed d)) = ParseChangedBlocks bitmap bits.
Proof.
  destruct (@cbtctl_reads_the_driver demo_rtl demo_io demo_io_laws (fun _ => true) demo_client 1 demo_loaded 1
    demo_entry (zeros 4) 1) as (d & l & bitmap & bits & Hrun & Hq & _ & Hmark & _).
  - done.
  - unfold in_width. lia.
  - vm_compute. reflexivity.
  - cbn. split; [lia|]. split; [done|]. split; [done|]. split; [done|]. evaluate.
  - reflexivity.
  - done.
  - cbn. Z.to_euclidean_division_equations. lia.
  - exists d, l, bitmap, bits. by split_and!.
Defined.
