(* ===== verification/CbtCtlConsole.v ===== *)
(** * The console of the control tool

    What [cbtctl/main.cpp] prints: sizes in readable form, the dump of a bitmap
    with its statistics and density map, the summary of a query, the usage.  The
    messages on the standard error stream are not modelled. *)

From Stdlib Require Import Ascii String SpecFloat.
From S2P Require Import Prelude.
From S2P Require Import ServerLogger.
From S2P Require Import ConsoleText.
From S2P Require Import CbtDriver.
From S2P Require Import CbtClient.
From S2P Require Import CbtCtl.

Local Open Scope list_scope.

(** ** Definitions *)

Definition units : list string := ["B"; "KB"; "MB"; "GB"; "TB"; "PB"]%string.

(** The divisions by 1024 while a unit is left. *)
Fixpoint scale (more : list string) (unit : string) (sz : spec_float) : spec_float * string :=
  match more with
  | [] => (sz, unit)
  | unit' :: more' =>
      if SFleb (of_u64 1024) sz then scale more' unit' (fdiv sz (of_u64 1024)) else (sz, unit)
  end.

(** [FormatByteSizeStr] into a buffer of 32 bytes, and [FormatByteSizeStatic]. *)
Definition FormatByteSizeStr (bytes : Z) : list Z :=
  let '(sz, unit) := scale (tail units) "B" (of_u64 bytes) in right 6 (fixed 2 sz) ++ text " " ++ text unit.

Definition token_text (t : Token) : list Z :=
  match t with
  | Row block offset => text "  [" ++ number 10 kHex 10 block ++ text "] 0x" ++ hex 16 offset ++ text ": "
  | Mark changed => text (if changed then "*" else "0")
  | Gap => text " "
  | Newline => [NEWLINE]
  end.

Definition dump_rule : list Z := ln "================================================================================".

Definition dump_heading (totalBits totalBytes : Z) : list Z :=
  dump_rule ++ ln "                    CBT BITMAP VISUALIZATION - Disk Report" ++ dump_rule ++ [NEWLINE]
    ++ text "  Total bits (blocks): " ++ dec totalBits ++ [NEWLINE]
    ++ text "  Block size:          " ++ dec (CBT_BLOCK_SIZE / 1024) ++ text " KB (" ++ dec CBT_BLOCK_SIZE ++ ln " bytes)"
    ++ text "  Bitmap data size:    " ++ dec totalBytes ++ ln " bytes"
    ++ text "  Disk approx size:    " ++ FormatByteSizeStr (u64 (totalBits * CBT_BLOCK_SIZE)) ++ [NEWLINE; NEWLINE]
    ++ ln "  Legend: '0' = unchanged    '*' = changed"
    ++ text "  Each row = 64 blocks (" ++ dec (64 * CBT_BLOCK_SIZE / 1024) ++ ln " KB)"
    ++ ln "  Each group of 8 chars = 8 blocks (8 KB for 1MB block size)" ++ [NEWLINE].

(** [(double)a / (double)b * 100.0] *)
Definition percent (a b : Z) : spec_float := fmul (fdiv (of_u64 a) (of_u64 b)) (of_u64 100).
Definition changePct (changed totalBits : Z) : spec_float :=
  if 0 <? totalBits then percent changed totalBits else S754_zero false.

Definition statistics (totalBits : Z) (d : Dump) : list Z :=
  let pct := changePct (changedBlocks d) totalBits in
  [NEWLINE] ++ dump_rule ++ ln "                              SUMMARY STATISTICS" ++ dump_rule ++ [NEWLINE]
    ++ text "  Changed Blocks:       " ++ right 12 (dec (changedBlocks d)) ++ text "  / " ++ dec totalBits
    ++ text "  (" ++ fixed 4 pct ++ ln "%)"
    ++ text "  Unchanged Blocks:     " ++ right 12 (dec (u64 (totalBits - changedBlocks d))) ++ text "  / " ++ dec totalBits
    ++ text "  (" ++ fixed 4 (fsub (of_u64 100) pct) ++ ln "%)"
    ++ text "  Changed Data Size:    " ++ left 20 (FormatByteSizeStr (u64 (changedBlocks d * CBT_BLOCK_SIZE))) ++ [NEWLINE]
    ++ text "  Changed Range Count:  " ++ right 12 (dec (changedRanges d)) ++ ln "  contiguous region(s)"
    ++ (if 0 <? changedRanges d then
          text "  Max Contiguous Run:   " ++ left 20 (FormatByteSizeStr (u64 (maxRunLength d * CBT_BLOCK_SIZE)))
            ++ text "  (" ++ dec (maxRunLength d) ++ ln " blocks)"
            ++ text "  Avg Run Length:       "
            ++ fixed 2 (fdiv (of_u64 (changedBlocks d)) (of_u64 (changedRanges d))) ++ ln " blocks"
        else ln "  Max Contiguous Run:   N/A (no changes)")
    ++ [NEWLINE]
    ++ text "  Total Rows Printed:    " ++ dec (u64 (totalBits + 63) / 64) ++ ln "  (each row = 64 blocks)" ++ dump_rule.

(** The character of a segment: the limits are 0.01, 0.05, 0.15, 0.30 and 0.50. *)
Definition density_char (density : spec_float) : list Z :=
  let below n := SFltb density (fdiv (of_u64 n) (of_u64 100)) in
  text (if SFeqb density (S754_zero false) then " "
        else if below 1 then "." else if below 5 then ":" else if below 15 then "o"
        else if below 30 then "O" else if below 50 then "#" else "@").

(** The segments from [seg] on. *)
Fixpoint density_chars (totalBits seg : Z) (counts : list Z) : list Z :=
  match counts with
  | [] => []
  | n :: counts' =>
      let segStart := u64 (seg * segSize totalBits) in
      let segEnd := u64 (segStart + segSize totalBits) in
      let segEnd := if totalBits <? segEnd then totalBits else segEnd in
      density_char (if segStart <? segEnd then fdiv (of_u64 n) (of_u64 (segEnd - segStart)) else S754_zero false)
        ++ density_chars totalBits (seg + 1) counts'
  end.

Definition density_map (totalBits : Z) (counts : list Z) : list Z :=
  [NEWLINE] ++ ln "  CHANGE DENSITY MAP (64 segments, each = 1.5625% of disk):"
    ++ text "  " ++ density_chars totalBits 0 counts ++ [NEWLINE]
    ++ text "  " ++ text "++++++++" ++ [NEWLINE]
    ++ ln "  Legend: .=<1%  :=<5%  o=<15%  O=<30%  #=<50%  @=>50%" ++ [NEWLINE].

Definition dump_text (totalBits totalBytes : Z) (d : Dump) (counts : list Z) : list Z :=
  dump_heading totalBits totalBytes ++ concat (map token_text (printed d)) ++ statistics totalBits d
    ++ density_map totalBits counts.

Definition PrintUsage (prog : list Z) : list Z :=
  ln "go2cbt CBT Control Tool" ++ [NEWLINE] ++ ln "Usage:"
    ++ text "  " ++ prog ++ ln " query  <diskno>              Query CBT bitmap summary"
    ++ text "  " ++ prog ++ ln " reset  <diskno>              Reset CBT bitmap (new snapshot cycle)"
    ++ text "  " ++ prog ++ ln " dump   <diskno> [outfile.txt] Visualize bitmap as ASCII art" ++ [NEWLINE]
    ++ ln "Examples:"
    ++ text "  " ++ prog ++ ln " query  0                     Show Harddisk0 CBT status"
    ++ text "  " ++ prog ++ ln " reset  0                     Reset Harddisk0 after backup"
    ++ text "  " ++ prog ++ ln " dump   0                     Print bitmap to screen"
    ++ text "  " ++ prog ++ ln " dump   0 changes.txt         Save to file".

Definition query_text (diskNo totalBits totalBytes changed scanned : Z) : list Z :=
  text "=== Disk" ++ dec diskNo ++ ln " CBT Summary ==="
    ++ text "  Total Bits (blocks):  " ++ dec totalBits ++ [NEWLINE]
    ++ text "  Bitmap Bytes:         " ++ dec totalBytes ++ [NEWLINE]
    ++ text "  Block Size:            " ++ dec (CBT_BLOCK_SIZE / 1024) ++ ln " KB"
    ++ text "  Disk Approx Size:      " ++ FormatByteSizeStr (u64 (totalBits * CBT_BLOCK_SIZE)) ++ [NEWLINE]
    ++ text "  Est. Change Rate:      " ++ fixed 2 (percent changed scanned) ++ text "% (sampled first " ++ dec scanned
    ++ ln " blocks)" ++ [NEWLINE]
    ++ ln "Use 'dump' command for full visualization and exact statistics.".

(** The standard output and the file of a dump. *)
Definition tool_console (prog : list Z) (diskNo : Z) (outfile : option (list Z)) (r : Report) : list Z * option (list Z) :=
  match r with
  | Usage => (PrintUsage prog, None)
  | NoDevice =>
      (text "ERROR: Cannot open device " ++ text "\\.\CbtMonitor" ++ [NEWLINE] ++ ln "  Make sure driver is loaded.", None)
  | NoReport => ([], None)
  | ResetDone => (text "OK: Disk" ++ dec diskNo ++ ln " CBT bitmap RESET successfully.", None)
  | Summary totalBits totalBytes changed scanned => (query_text diskNo totalBits totalBytes changed scanned, None)
  | NoData => (text "Disk" ++ dec diskNo ++ ln ": No CBT data available.", None)
  | Dumped totalBits totalBytes d counts =>
      let shown := dump_text totalBits totalBytes d counts in
      match outfile with
      | None => (shown, None)
      | Some name =>
          (text "Writing to '" ++ name ++ ln "'..." ++ text "Done. Output written to '" ++ name ++ ln "'.", Some shown)
      end
  end.

(** ** Reading a dump back *)

(** The marks of the rows: what stands behind the colon of a line. *)
Fixpoint read_marks (in_row : bool) (s : list Z) : list bool :=
  match s with
  | [] => []
  | c :: s' =>
      if c =? NEWLINE then read_marks false s'
      else if in_row then
        if c =? 42 then true :: read_marks true s' else if c =? 48 then false :: read_marks true s'
        else read_marks true s'
      else read_marks (c =? 58) s'
  end.

(** ** Lemmas *)

(** Whether the tokens are inside a row: a row starts with its position, and
    holds marks and gaps; [None]: out of place. *)
Definition row_step (o : option bool) (t : Token) : option bool :=
  match o, t with
  | Some false, Row b off => if (0 <=? b) && (0 <=? off) then Some true else None
  | Some true, (Mark _ | Gap) => Some true
  | Some true, Newline => Some false
  | _, _ => None
  end.
Definition row_state (ts : list Token) (o : option bool) : option bool := fold_left row_step ts o.

Lemma row_state_None ts : row_state ts None = None.
Proof. by induction ts. Qed.
Lemma row_state_app ts1 ts2 o : row_state (ts1 ++ ts2) o = row_state ts2 (row_state ts1 o).
Proof. apply fold_left_app. Qed.

Lemma read_heading w s : Forall (fun c => c <> NEWLINE /\ c <> 58) w -> read_marks false (w ++ s) = read_marks false s.
Proof.
  induction 1 as [|c w [H1 H2] _ IH]; [done|]. cbn [app read_marks]. test_false (c =? NEWLINE). by test_false (c =? 58).
Qed.

(** A numeral holds digits only. *)
Lemma number_digits b width z :
  2 <= b <= 16 -> 0 <= z -> Forall (fun c => c <> NEWLINE /\ c <> 58) (number b kHex width z).
Proof.
  intros Hb Hz. unfold number. apply Forall_app. split; [by apply Forall_replicate|].
  apply Forall_map. eapply Forall_impl; [apply (to_digits_range 64 b z); [apply Hb|done]|]. intros d Hd. cbv beta in *.
  apply (check_below (fun x => nth (Z.to_nat x) kHex 0 <> NEWLINE /\ nth (Z.to_nat x) kHex 0 <> 58) 16); [|lia].
  vm_compute. reflexivity.
Qed.

Lemma marks_read_back ts in_row :
  row_state ts (Some in_row) <> None -> read_marks in_row (concat (map token_text ts)) = marks_of ts.
Proof.
  revert in_row. induction ts as [|t ts IH]; intros in_row Hw; [done|]. cbn [map concat].
  change (row_state (t :: ts) (Some in_row)) with (row_state ts (row_step (Some in_row) t)) in Hw.
  destruct t as [b o|c| |]; destruct in_row; cbn [row_step token_text] in *; rewrite ?row_state_None in Hw; try done.
  - destruct ((0 <=? b) && (0 <=? o)) eqn:E; [reflect_Z|by rewrite row_state_None in Hw].
    rewrite (app_assoc (text "  [")), (app_assoc (_ ++ _)), (app_assoc ((_ ++ _) ++ _)).
    rewrite <- (app_assoc _ (text ": ")). rewrite read_heading.
    + change (text ": " ++ ?s) with (58 :: 32 :: s). cbn [read_marks]. by apply IH.
    + rewrite !Forall_app. split_and!; [evaluate|by apply number_digits|evaluate|by apply number_digits].
  - destruct c; cbn; f_equal; by apply IH.
  - cbn. by apply IH.
  - cbn. by apply IH.
Qed.

Section loops.
Context (totalBits totalBytes : Z) (data : list Z).

Lemma bits_rowed n i d i' d' :
  bits_loop totalBits totalBytes data n i d = Done (i', d') -> 0 <= i ->
  row_state (printed d) (Some false) = Some true -> 0 <= i' /\ row_state (printed d') (Some false) = Some true.
Proof.
  revert i d. induction n as [|n IH]; intros i d; cbn [bits_loop]; [by intros [= <- <-]|].
  case_if; [by intros [= <- <-]|]. case_if; [by intros [= <- <-]|].
  destruct (data !! _) as [byte|]; [|done]. intros Hr Hi Hs. apply IH in Hr; [done|lia|].
  assert (printed (dump_bit (bit_of byte i) i d) = printed d ++ [Mark (bit_of byte i)]) as ->.
  { unfold dump_bit, close_run. destruct (bit_of byte i); [done|]. cbn. by destruct (inChangedRun d). }
  by rewrite row_state_app, Hs.
Qed.

Lemma groups_rowed n first i d i' d' :
  groups_loop totalBits totalBytes data n first i d = Done (i', d') -> 0 <= i ->
  row_state (printed d) (Some false) = Some true -> 0 <= i' /\ row_state (printed d') (Some false) = Some true.
Proof.
  revert first i d. induction n as [|n IH]; intros first i d; cbn [groups_loop]; [by intros [= <- <-]|].
  case_if; [by intros [= <- <-]|].
  destruct (bits_loop _ _ _ _ _ _) as [[i1 d1]| |] eqn:E1; [|done..]. cbn [sbind]. intros Hr Hi Hs.
  apply bits_rowed in E1 as [Hi1 Hs1]; [by eapply IH|done|]. destruct first; [done|]. cbn [printed put_token].
  by rewrite row_state_app, Hs.
Qed.

Lemma rows_rowed fuel i d d' :
  rows_loop totalBits totalBytes data fuel i d = Done d' -> 0 <= i ->
  row_state (printed d) (Some false) = Some false -> row_state (printed d') (Some false) = Some false.
Proof.
  revert i d. induction fuel as [|fuel IH]; intros i d; cbn [rows_loop]; (case_if; [by intros [= <-]|]); [done|].
  destruct (groups_loop _ _ _ _ _ _ _) as [[i1 d1]| |] eqn:E1; [|done..]. cbn [sbind]. intros Hr Hi Hs.
  apply groups_rowed in E1 as [Hi1 Hs1]; [|done|].
  - eapply IH; [exact Hr|done|]. cbn [printed put_token]. by rewrite row_state_app, Hs1.
  - cbn [printed put_token]. rewrite row_state_app, Hs. cbn.
    pose proof (wrap_range 64 (i * CBT_BLOCK_SIZE)) as [? _]; [lia|]. by replace ((0 <=? i) && (0 <=? u64 (i * CBT_BLOCK_SIZE))) with true by lia.
Qed.
End loops.

(** the dump can be read back.  For a buffer that holds the bitmap its
    header announces, with a bit for every block, the rows [cbtctl dump] prints,
    read as text - the characters behind the colon of each line, a star for a
    changed block and a zero for another - are the bitmap, block for block, and
    list the blocks the client's [ParseChangedBlocks] transfers. *)
Theorem dump_reads_back output fuel :
  let bits := out_TotalBits output in
  let bytes := out_TotalBytes output in
  0 <= bits < 2 ^ 63 -> 16 + bytes <= zlen output -> bits <= 8 * bytes -> (bits + 63) / 64 <= Z.of_nat fuel ->
  exists d l, DumpCbtBitmap fuel output = Done (d, l) /\
    let shown := read_marks false (concat (map token_text (printed d))) in
    shown = marks (BitmapData output) bits /\
    map fst (filter (fun p => p.2 = true) (zip (seqZ 0 bits) shown)) = ParseChangedBlocks (BitmapData output) bits.
Proof.
  intros bits bytes Hb Ho Hfit Hf. destruct (dump_reports output fuel) as (d & l & Hrun & Hrep); try done; [fold bits bytes; lia|].
  exists d, l. split; [done|]. cbv zeta.
  assert (read_marks false (concat (map token_text (printed d))) = marks (BitmapData output) bits) as ->.
  { rewrite marks_read_back; [by destruct Hrep|].
    unfold DumpCbtBitmap in Hrun. fold bits bytes in Hrun. case_if_in Hrun; [done|].
    destruct (rows_loop _ _ _ _ _ _) as [d0| |] eqn:E0; [|done..]. cbn [sbind] in Hrun.
    destruct (segments_loop _ _ _ _ _) as [l0| |]; [|done..]. cbn [sbind] in Hrun. injection Hrun as <- _.
    apply rows_rowed in E0; [|lia|done]. by replace (printed (if inChangedRun d0 then close_run bits d0 else d0)) with (printed d0)
      by (by destruct (inChangedRun d0)); rewrite E0. }
  split; [done|]. unfold ParseChangedBlocks. rewrite parse_loop_filter.
  - rewrite Z2Nat.id by lia. unfold marks. clear. induction (seqZ 0 bits) as [|i s IH]; [done|].
    cbn [map zip zip_with]. rewrite !filter_cons. cbn [snd]. case_decide; cbn [map fst]; [f_equal|]; done.
  - lia.
  - unfold BitmapData. rewrite length_drop, Z2Nat.id by lia. lia.
Qed.

(** ** Example *)

Lemma dump_reads_back_witness :
  exists d l, DumpCbtBitmap 1 sample_output = Done (d, l) /\
    concat (map token_text (printed d)) = ln "  [0000000000] 0x0000000000000000: 0**00000 *0" /\
    map fst (filter (fun p => p.2 = true) (zip (seqZ 0 10) (read_marks false (concat (map token_text (printed d))))))
    = [1; 2; 8].
Proof.
  destruct (dump_reads_back sample_output 1) as (d & l & Hrun & _ & Hlist); [by vm_compute..|].
  exists d, l. split; [done|]. split; [|etrans; [exact Hlist|by vm_compute]].
  assert ((fun r => match r with Done (d, _) => concat (map token_text (printed d)) | _ => [] end)
            (DumpCbtBitmap 1 sample_output) = ln "  [0000000000] 0x0000000000000000: 0**00000 *0") as E by (by vm_compute).
  by rewrite Hrun in E.
Defined.

Example sample_statistics :
  (fun r => match r with Done (d, l) => density_chars 10 0 l | _ => [] end) (DumpCbtBitmap 1 sample_output) = text " @@     @ "
  /\ FormatByteSizeStr (10 * CBT_BLOCK_SIZE) = text " 10.00 MB" /\ fixed 4 (percent 3 10) = text "30.0000".
Proof. by vm_compute. Qed.
