(* ===== verification/DiskScanner.v ===== *)
(** * The disk scanner

    [client/DiskScanner.{h,cpp}]: the list of the system's disks with their
    size, strings, partitions and unallocated ranges, read through device
    control requests.  The answers of a device are a record; the structures of
    the requests have the layout of the Windows headers. *)

From Stdlib Require Import Sorted.
From stdpp Require Import sorting.
From S2P Require Import Prelude.
From S2P Require Import CbtClient.
From S2P Require Import DiskParser.
From S2P Require Import DiskParserSpec.

(** ** Definitions *)

Definition ERROR_INSUFFICIENT_BUFFER : Z := 122.
Definition PARTITION_STYLE_MBR : Z := 0.
Definition PARTITION_STYLE_GPT : Z := 1.

(** [sizeof] of [DRIVE_LAYOUT_INFORMATION_EX] with its one entry, the offset of
    the entries, and the size of one. *)
Definition LAYOUT_SIZE : Z := 192.
Definition LAYOUT_HEADER : Z := 48.
Definition ENTRY_SIZE : Z := 144.
Definition GPT_HEADER_SIZE : Z := 92.

Inductive LayoutAnswer := LayoutOk (data : list Z) | LayoutError (err : Z).

(** An open disk: the answers of its control requests, the layout request's
    by the size of the buffer, and its bytes. *)
Record ScanDevice := {
  sd_Length : option Z;                 (* IOCTL_DISK_GET_LENGTH_INFO *)
  sd_BytesPerSector : option Z;         (* IOCTL_DISK_GET_DRIVE_GEOMETRY_EX *)
  sd_Storage : option (list Z);         (* IOCTL_STORAGE_QUERY_PROPERTY *)
  sd_Layout : Z -> LayoutAnswer;        (* IOCTL_DISK_GET_DRIVE_LAYOUT_EX *)
  sd_Seek : Z -> bool;
  sd_Read : Z -> Z -> option (list Z) }.

Record GPTLayout := {
  g_PrimaryHeaderOffset : Z; g_BackupHeaderOffset : Z; g_PartitionEntryOffset : Z;
  g_PartitionEntryCount : Z; g_PartitionEntrySize : Z }.
Record PartitionInfo := { sp_Index : Z; sp_Offset : Z; sp_Size : Z }.
Record UnallocatedRange := { u_Offset : Z; u_Size : Z }.

Record DiskInfo := {
  di_DevNo : Z; di_Size : Z; di_BytesPerSector : Z; di_Vendor : list Z; di_Model : list Z;
  di_SerialNumber : list Z; di_IsGPT : bool; di_IsMBR : bool; di_GPT : GPTLayout; di_Signature : Z;
  di_Partitions : list PartitionInfo; di_Unallocated : list UnallocatedRange }.

Definition DiskInfo_new : DiskInfo :=
  {| di_DevNo := -1; di_Size := 0; di_BytesPerSector := 0; di_Vendor := []; di_Model := [];
     di_SerialNumber := []; di_IsGPT := false; di_IsMBR := false;
     di_GPT := {| g_PrimaryHeaderOffset := 0; g_BackupHeaderOffset := 0; g_PartitionEntryOffset := 0;
                  g_PartitionEntryCount := 0; g_PartitionEntrySize := 0 |};
     di_Signature := 0; di_Partitions := []; di_Unallocated := [] |}.

Definition set_DevNo (n : Z) (d : DiskInfo) : DiskInfo :=
  {| di_DevNo := n; di_Size := di_Size d; di_BytesPerSector := di_BytesPerSector d; di_Vendor := di_Vendor d;
     di_Model := di_Model d; di_SerialNumber := di_SerialNumber d; di_IsGPT := di_IsGPT d;
     di_IsMBR := di_IsMBR d; di_GPT := di_GPT d; di_Signature := di_Signature d;
     di_Partitions := di_Partitions d; di_Unallocated := di_Unallocated d |}.
Definition set_sizes (size sector : Z) (d : DiskInfo) : DiskInfo :=
  {| di_DevNo := di_DevNo d; di_Size := size; di_BytesPerSector := sector; di_Vendor := di_Vendor d;
     di_Model := di_Model d; di_SerialNumber := di_SerialNumber d; di_IsGPT := di_IsGPT d;
     di_IsMBR := di_IsMBR d; di_GPT := di_GPT d; di_Signature := di_Signature d;
     di_Partitions := di_Partitions d; di_Unallocated := di_Unallocated d |}.
Definition set_strings (vendor model serial : list Z) (d : DiskInfo) : DiskInfo :=
  {| di_DevNo := di_DevNo d; di_Size := di_Size d; di_BytesPerSector := di_BytesPerSector d;
     di_Vendor := vendor; di_Model := model; di_SerialNumber := serial; di_IsGPT := di_IsGPT d;
     di_IsMBR := di_IsMBR d; di_GPT := di_GPT d; di_Signature := di_Signature d;
     di_Partitions := di_Partitions d; di_Unallocated := di_Unallocated d |}.
Definition set_GPT (g : GPTLayout) (d : DiskInfo) : DiskInfo :=
  {| di_DevNo := di_DevNo d; di_Size := di_Size d; di_BytesPerSector := di_BytesPerSector d;
     di_Vendor := di_Vendor d; di_Model := di_Model d; di_SerialNumber := di_SerialNumber d;
     di_IsGPT := true; di_IsMBR := di_IsMBR d; di_GPT := g; di_Signature := di_Signature d;
     di_Partitions := di_Partitions d; di_Unallocated := di_Unallocated d |}.
Definition set_MBR (sig : Z) (d : DiskInfo) : DiskInfo :=
  {| di_DevNo := di_DevNo d; di_Size := di_Size d; di_BytesPerSector := di_BytesPerSector d;
     di_Vendor := di_Vendor d; di_Model := di_Model d; di_SerialNumber := di_SerialNumber d;
     di_IsGPT := di_IsGPT d; di_IsMBR := true; di_GPT := di_GPT d; di_Signature := sig;
     di_Partitions := di_Partitions d; di_Unallocated := di_Unallocated d |}.
Definition set_ranges (ps : list PartitionInfo) (us : list UnallocatedRange) (d : DiskInfo) : DiskInfo :=
  {| di_DevNo := di_DevNo d; di_Size := di_Size d; di_BytesPerSector := di_BytesPerSector d;
     di_Vendor := di_Vendor d; di_Model := di_Model d; di_SerialNumber := di_SerialNumber d;
     di_IsGPT := di_IsGPT d; di_IsMBR := di_IsMBR d; di_GPT := di_GPT d; di_Signature := di_Signature d;
     di_Partitions := ps; di_Unallocated := us |}.

(** *** The layout *)

(** The loop that grows the buffer: the buffer and the bytes returned, or a
    failure; [None]: more calls than [fuel]. *)
Fixpoint layout_loop (fuel : nat) (dev : ScanDevice) (size : Z) : option (option (list Z * Z)) :=
  match fuel with
  | O => None
  | S fuel' =>
      match sd_Layout dev size with
      | LayoutOk data => Some (Some (overlay data (zeros size), zlen data))
      | LayoutError err =>
          if err =? ERROR_INSUFFICIENT_BUFFER then
            let bufferSize := u32 (size * 2) in
            if 1024 * 1024 <? bufferSize then Some None else layout_loop fuel' dev bufferSize
          else Some None
      end
  end.

(** The loop over [n] entries from entry [i]; [None]: an entry lies behind the
    buffer. *)
Fixpoint entries_loop (n : nat) (i : Z) (buffer : list Z) (ps : list PartitionInfo)
    : option (list PartitionInfo) :=
  match n with
  | O => Some ps
  | S n' =>
      let at_ := LAYOUT_HEADER + ENTRY_SIZE * i in
      if zlen buffer <? at_ + 24 then None
      else
        let offset := rd_le (at_ + 8) 8 buffer in
        let len := s64 (rd_le (at_ + 16) 8 buffer) in
        entries_loop n' (i + 1) buffer
          (if len <=? 0 then ps else ps ++ [{| sp_Index := s32 i; sp_Offset := offset; sp_Size := len |}])
  end.

(** [None]: undefined behaviour; the number of calls is bounded by nine
    ([layout_loop_ends]). *)
Definition QueryLayout (dev : ScanDevice) (d : DiskInfo) : option (bool * DiskInfo) :=
  r ← layout_loop 9 dev 4096;
  match r with
  | None => Some (false, d)
  | Some (buffer, bytesReturned) =>
      if bytesReturned <? LAYOUT_SIZE then Some (false, d)
      else
        let style := rd_le 0 4 buffer in
        let d :=
          if style =? PARTITION_STYLE_GPT then
            set_GPT {| g_PrimaryHeaderOffset := di_BytesPerSector d;
                       g_BackupHeaderOffset := u64 (di_Size d - di_BytesPerSector d);
                       g_PartitionEntryOffset := u32 (di_BytesPerSector d * 2);
                       g_PartitionEntryCount := rd_le 40 4 buffer; g_PartitionEntrySize := 128 |} d
          else if style =? PARTITION_STYLE_MBR then set_MBR (rd_le 8 4 buffer) d
          else d in
        ps ← entries_loop (Z.to_nat (rd_le 4 4 buffer)) 0 buffer (di_Partitions d);
        Some (true, set_ranges ps (di_Unallocated d) d)
  end.

(** *** The strings *)

(** [MultiByteToWideChar] with the system's code page. *)
Class CodePage := { to_wide : list Z -> option (list Z) }.

(** The bytes in front of the first zero; [None]: there is none. *)
Fixpoint c_string (l : list Z) : option (list Z) :=
  match l with
  | [] => None
  | x :: l' => if x =? 0 then Some [] else cons x <$> c_string l'
  end.

(** A wide string up to its first zero. *)
Fixpoint wcs (l : list Z) : list Z :=
  match l with [] => [] | x :: l' => if x =? 0 then [] else x :: wcs l' end.

Section scan.
Context `{CodePage}.

Definition readString (buffer : list Z) (offset : Z) : option (list Z) :=
  if offset =? 0 then Some []
  else
    s ← c_string (drop (Z.to_nat offset) buffer);
    Some (match to_wide s with Some w => wcs w | None => [] end).

Definition QueryStorageInfo (dev : ScanDevice) (d : DiskInfo) : option (bool * DiskInfo) :=
  match sd_Storage dev with
  | None => Some (false, d)
  | Some data =>
      let buffer := overlay data (zeros 4096) in
      vendor ← readString buffer (rd_le 12 4 buffer);
      model ← readString buffer (rd_le 16 4 buffer);
      serial ← readString buffer (rd_le 24 4 buffer);
      Some (true, set_strings vendor model serial d)
  end.

(** *** Unallocated space *)

(** [std::sort] by the offset: a sorted permutation, no more is promised. *)
Class StdSort := {
  std_sort : list PartitionInfo -> list PartitionInfo;
  std_sort_perm l : std_sort l ≡ₚ l;
  std_sort_sorted l : StronglySorted (fun p q => sp_Offset p <= sp_Offset q) (std_sort l) }.
Context `{StdSort}.

Fixpoint unallocated_loop (size current : Z) (ps : list PartitionInfo) : list UnallocatedRange :=
  match ps with
  | [] => if current <? size then [{| u_Offset := current; u_Size := size - current |}] else []
  | p :: ps' =>
      (if current <? sp_Offset p then [{| u_Offset := current; u_Size := sp_Offset p - current |}] else [])
      ++ unallocated_loop size (u64 (sp_Offset p + sp_Size p)) ps'
  end.

Definition CalculateUnallocated (d : DiskInfo) : DiskInfo :=
  let ps := std_sort (di_Partitions d) in
  set_ranges ps (unallocated_loop (di_Size d) 0 ps) d.

(** *** Scanning *)

(** [OpenDisk]. *)
Variable open_disk : Z -> option ScanDevice.

Definition Enumerate (devno : Z) (d : DiskInfo) : option (bool * DiskInfo) :=
  match open_disk devno with
  | None => Some (false, d)
  | Some dev =>
      let d := set_DevNo devno d in
      let '(ok1, d) := match sd_Length dev with
                       | None => (false, d)
                       | Some n => (true, set_sizes (u64 n) (di_BytesPerSector d) d)
                       end in
      let '(ok2, d) := match sd_BytesPerSector dev with
                       | None => (false, d)
                       | Some n => (true, set_sizes (di_Size d) (u32 n) d)
                       end in
      r ← QueryStorageInfo dev d;
      let '(_, d) := r in
      r ← QueryLayout dev d;
      let '(ok3, d) := r in
      Some ((ok1 && ok2 && ok3)%bool, CalculateUnallocated d)
  end.

Fixpoint enumerate_loop (devnos : list Z) (disks : list DiskInfo) : option (list DiskInfo) :=
  match devnos with
  | [] => Some disks
  | i :: devnos' =>
      r ← Enumerate i DiskInfo_new;
      let '(ok, d) := r in enumerate_loop devnos' (if ok : bool then disks ++ [d] else disks)
  end.

Definition EnumerateAll (disks : list DiskInfo) : option (bool * list DiskInfo) :=
  disks ← enumerate_loop (seqZ 0 128) [];
  Some (negb (bool_decide (disks = [])), disks).

(** *** The GPT header *)

(** [None]: the header lies behind the buffer of one sector. *)
Definition ReadGPTHeader (dev : ScanDevice) (d : DiskInfo) : option (bool * DiskInfo) :=
  if negb (di_IsGPT d) then Some (false, d)
  else if di_BytesPerSector d =? 0 then Some (false, d)
  else if negb (sd_Seek dev (di_BytesPerSector d)) then Some (false, d)
  else
    match sd_Read dev (di_BytesPerSector d) (di_BytesPerSector d) with
    | None => Some (false, d)
    | Some data =>
        if zlen data <? GPT_HEADER_SIZE then Some (false, d)
        else
          let buffer := overlay data (zeros (di_BytesPerSector d)) in
          if zlen buffer <? GPT_HEADER_SIZE then None
          else if negb (bool_decide (sub 0 8 buffer = [69; 70; 73; 32; 80; 65; 82; 84])) then Some (false, d)
          else
            let bps := di_BytesPerSector d in
            Some (true, set_GPT {| g_PrimaryHeaderOffset := u64 (rd_le 24 8 buffer * bps);
                                   g_BackupHeaderOffset := u64 (rd_le 32 8 buffer * bps);
                                   g_PartitionEntryOffset := u64 (rd_le 72 8 buffer * bps);
                                   g_PartitionEntryCount := rd_le 80 4 buffer;
                                   g_PartitionEntrySize := rd_le 84 4 buffer |} d)
    end.
End scan.

(** ** The layout of a disk in bytes *)

Record LayoutEntry := { en_Style : Z; en_Offset : Z; en_Length : Z; en_rest : list Z }.

Definition enc_entry (e : LayoutEntry) : list Z :=
  le_enc 4 (en_Style e) ++ zeros 4 ++ le_enc 8 (en_Offset e) ++ le_enc 8 (u64 (en_Length e)) ++ en_rest e.

(** [fields]: the forty bytes that depend on the style. *)
Definition enc_layout (style : Z) (fields : list Z) (es : list LayoutEntry) : list Z :=
  le_enc 4 style ++ le_enc 4 (zlen es) ++ fields ++ concat (map enc_entry es).

Definition entry_wf (e : LayoutEntry) : Prop :=
  in_width 64 (en_Offset e) /\ - 2 ^ 63 <= en_Length e < 2 ^ 63 /\ zlen (en_rest e) = 120.

(** The partitions the scanner makes of the entries from number [i] on. *)
Fixpoint partitions_from (i : Z) (es : list LayoutEntry) : list PartitionInfo :=
  match es with
  | [] => []
  | e :: es' =>
      (if 0 <? en_Length e then [{| sp_Index := i; sp_Offset := en_Offset e; sp_Size := en_Length e |}] else [])
      ++ partitions_from (i + 1) es'
  end.

(** A device that gives its layout to a buffer that can hold it. *)
Definition has_layout (dev : ScanDevice) (bytes : list Z) : Prop :=
  forall n, sd_Layout dev n = if n <? zlen bytes then LayoutError ERROR_INSUFFICIENT_BUFFER else LayoutOk bytes.

(** ** Lemmas *)

Lemma enc_entry_length e : entry_wf e -> zlen (enc_entry e) = ENTRY_SIZE.
Proof.
  intros (_ & _ & Hr). unfold enc_entry, ENTRY_SIZE. rewrite !length_app, !le_enc_length.
  pose proof (zeros_length 4). lia.
Qed.

Lemma entries_length es : Forall entry_wf es -> zlen (concat (map enc_entry es)) = ENTRY_SIZE * zlen es.
Proof.
  induction 1 as [|e es He Hes IH]; cbn [map concat length]; [done|].
  rewrite length_app. pose proof (enc_entry_length e He). lia.
Qed.

Lemma layout_length style fields es :
  zlen fields = 40 -> Forall entry_wf es -> zlen (enc_layout style fields es) = LAYOUT_HEADER + ENTRY_SIZE * zlen es.
Proof.
  intros Hf Hes. unfold enc_layout, LAYOUT_HEADER. rewrite !length_app, !le_enc_length.
  pose proof (entries_length es Hes). lia.
Qed.

Lemma s64_of_u64 x : - 2 ^ 63 <= x < 2 ^ 63 -> s64 (u64 x) = x.
Proof.
  intros Hx. unfold signed, wrap. change (64 - 1) with 63. rewrite Zmod_mod.
  destruct (Z.lt_ge_cases x 0).
  - replace (x mod 2 ^ 64) with (x + 2 ^ 64) by (apply Z.mod_unique with (-1); lia).
    replace (x + 2 ^ 64 <? 2 ^ 63) with false by lia. lia.
  - rewrite Z.mod_small by lia. by replace (x <? 2 ^ 63) with true by lia.
Qed.

(** The loop over the entries of an encoded table. *)
Lemma entries_loop_reads es : forall i front rest ps,
  Forall entry_wf es -> 0 <= i -> i + zlen es < 2 ^ 31 -> zlen front = LAYOUT_HEADER + ENTRY_SIZE * i ->
  entries_loop (length es) i (front ++ concat (map enc_entry es) ++ rest) ps = Some (ps ++ partitions_from i es).
Proof.
  induction es as [|e es IH]; intros i front rest ps Hes Hi Hlen Hfront; cbn [entries_loop partitions_from length map concat].
  { by rewrite app_nil_r. }
  apply Forall_cons in Hes as [He Hes]. pose proof (enc_entry_length e He) as Hel. pose proof He as (Ho & Hl & Hr).
  cbn [length] in Hlen. set (at_ := LAYOUT_HEADER + ENTRY_SIZE * i) in *.
  assert (zlen (zeros 4) = 4) as Hz4 by (pose proof (zeros_length 4); lia).
  destruct (_ <? at_ + 24) eqn:E; reflect_Z; [rewrite !length_app in E; unfold ENTRY_SIZE in *; lia|clear E].
  assert (rd_le (at_ + 8) 8 (front ++ (enc_entry e ++ concat (map enc_entry es)) ++ rest) = en_Offset e) as ->.
  { rewrite rd_le_skip, <- app_assoc by lia. unfold enc_entry. rewrite <- !app_assoc.
    rewrite rd_le_skip, rd_le_skip by (rewrite ?le_enc_length; lia). rewrite le_enc_length, Hz4.
    replace (at_ + 8 - zlen front - Z.of_nat 4 - 4) with 0 by lia. by apply (rd_le_here 8). }
  assert (rd_le (at_ + 16) 8 (front ++ (enc_entry e ++ concat (map enc_entry es)) ++ rest) = u64 (en_Length e)) as ->.
  { rewrite rd_le_skip, <- app_assoc by lia. unfold enc_entry. rewrite <- !app_assoc.
    rewrite rd_le_skip, rd_le_skip, rd_le_skip by (rewrite ?le_enc_length; lia). rewrite !le_enc_length, Hz4.
    replace (at_ + 16 - zlen front - Z.of_nat 4 - 4 - Z.of_nat 8) with 0 by lia.
    apply (rd_le_here 8). apply wrap_range. lia. }
  rewrite s64_of_u64 by done.
  replace (front ++ (enc_entry e ++ concat (map enc_entry es)) ++ rest)
    with ((front ++ enc_entry e) ++ concat (map enc_entry es) ++ rest) by (by rewrite <- !app_assoc).
  rewrite IH; [|done|lia|lia|rewrite length_app; unfold at_ in *; lia].
  f_equal. replace (s32 i) with i.
  2:{ unfold signed. rewrite wrap_small by (unfold in_width; lia). by test_true (i <? 2 ^ (32 - 1)). }
  destruct (Z.lt_ge_cases 0 (en_Length e)).
  - test_false (en_Length e <=? 0). test_true (0 <? en_Length e). by rewrite <- app_assoc.
  - test_true (en_Length e <=? 0). test_false (0 <? en_Length e). done.
Qed.

(** The buffer grows from 4 KiB to 1 MiB; nine calls are enough for any
    device. *)
Lemma double_size k : 0 <= k < 21 -> u32 (2 ^ k * 2) = 2 ^ (k + 1) /\ (1024 * 1024 <? 2 ^ (k + 1)) = (20 <=? k).
Proof.
  intros Hk. assert (2 ^ k * 2 = 2 ^ (k + 1)) as -> by (rewrite Z.pow_add_r by lia; lia).
  split; [apply wrap_small; unfold in_width; split; [lia|apply Z.pow_lt_mono_r; lia]|].
  change (1024 * 1024) with (2 ^ 20). destruct (20 <=? k) eqn:E; reflect_Z.
  - apply Z.ltb_lt, Z.pow_lt_mono_r; lia.
  - apply Z.ltb_ge, Z.pow_le_mono_r; lia.
Qed.

Lemma layout_loop_total dev fuel : forall k,
  0 <= k -> k + Z.of_nat fuel = 21 -> (0 < fuel)%nat -> exists r, layout_loop fuel dev (2 ^ k) = Some r.
Proof.
  induction fuel as [|fuel IH]; intros k Hk Hf Hpos; [lia|]. cbn [layout_loop].
  destruct (sd_Layout dev _); [by eexists|]. case_if; [|by eexists].
  destruct (double_size k ltac:(lia)) as [-> ->]. case_if; [by eexists|]. apply IH; lia.
Qed.

Lemma layout_loop_finds dev bytes fuel : has_layout dev bytes -> forall k,
  0 <= k -> k + Z.of_nat fuel = 21 -> (0 < fuel)%nat ->
  if zlen bytes <=? 1024 * 1024 then
    exists size, zlen bytes <= size /\ layout_loop fuel dev (2 ^ k) = Some (Some (overlay bytes (zeros size), zlen bytes))
  else layout_loop fuel dev (2 ^ k) = Some None.
Proof.
  intros Hl. induction fuel as [|fuel IH]; intros k Hk Hf Hpos; [lia|]. cbn [layout_loop]. rewrite Hl.
  destruct (2 ^ k <? zlen bytes) eqn:E; reflect_Z.
  - cbn [Z.eqb]. rewrite Z.eqb_refl. destruct (double_size k ltac:(lia)) as [-> ->].
    destruct (20 <=? k) eqn:Ek; reflect_Z.
    + assert (k = 20) as -> by lia. by test_false (zlen bytes <=? 1024 * 1024).
    + apply IH; lia.
  - assert (2 ^ k <= 2 ^ 20) by (apply Z.pow_le_mono_r; lia). test_true (zlen bytes <=? 1024 * 1024). by exists (2 ^ k).
Qed.

Lemma overlay_app d buf : zlen d <= zlen buf -> overlay d buf = d ++ drop (length d) buf.
Proof. intros Hl. unfold overlay. by rewrite take_ge by lia. Qed.

(** What [QueryLayout] makes of a table. *)
Definition describes_layout (style : Z) (fields : list Z) (es : list LayoutEntry) (d d' : DiskInfo) : Prop :=
  di_Partitions d' = di_Partitions d ++ partitions_from 0 es /\
  di_DevNo d' = di_DevNo d /\ di_Size d' = di_Size d /\ di_BytesPerSector d' = di_BytesPerSector d /\
  di_Vendor d' = di_Vendor d /\ di_Model d' = di_Model d /\ di_SerialNumber d' = di_SerialNumber d /\
  (style = PARTITION_STYLE_GPT -> di_IsGPT d' = true /\ g_PartitionEntryCount (di_GPT d') = rd_le 32 4 fields) /\
  (style = PARTITION_STYLE_MBR -> di_IsMBR d' = true /\ di_Signature d' = rd_le 0 4 fields) /\
  (style <> PARTITION_STYLE_GPT -> di_IsGPT d' = di_IsGPT d) /\ (style <> PARTITION_STYLE_MBR -> di_IsMBR d' = di_IsMBR d).

Lemma QueryLayout_reads dev d style fields es :
  in_width 32 style -> zlen fields = 40 -> Forall entry_wf es -> zlen es < 2 ^ 31 ->
  has_layout dev (enc_layout style fields es) ->
  if (1 <=? zlen es) && (zlen es <=? 7281) then
    exists d', QueryLayout dev d = Some (true, d') /\ describes_layout style fields es d d'
  else QueryLayout dev d = Some (false, d).
Proof.
  intros Hs Hf Hes Hn Hl. pose proof (layout_length style fields es Hf Hes) as Hlen.
  pose proof (layout_loop_finds dev _ 9 Hl 12 ltac:(lia) ltac:(lia) ltac:(lia)) as Hloop.
  change (2 ^ 12) with 4096 in Hloop. unfold LAYOUT_HEADER, ENTRY_SIZE in Hlen.
  unfold QueryLayout. set (bytes := enc_layout style fields es) in *.
  destruct (zlen es <=? 7281) eqn:E2; reflect_Z; rewrite ?andb_true_r, ?andb_false_r.
  2:{ assert ((zlen bytes <=? 1024 * 1024) = false) as Hle by lia. rewrite Hle in Hloop. by rewrite Hloop. }
  assert ((zlen bytes <=? 1024 * 1024) = true) as Hle by lia. rewrite Hle in Hloop.
  destruct Hloop as (size & Hsize & ->). cbn [mbind option_bind]. unfold LAYOUT_SIZE.
  destruct (1 <=? zlen es) eqn:E1; reflect_Z.
  2:{ by test_true (zlen bytes <? 192). }
  test_false (zlen bytes <? 192).
  assert (zlen (zeros size) = size) as Hz by (pose proof (zeros_length size); lia).
  rewrite overlay_app by lia. set (rest := drop _ (zeros size)).
  assert (rd_le 0 4 (bytes ++ rest) = style) as ->.
  { unfold bytes, enc_layout. rewrite <- !app_assoc. by apply (rd_le_here 4). }
  assert (rd_le 4 4 (bytes ++ rest) = zlen es) as ->.
  { unfold bytes, enc_layout. rewrite <- !app_assoc. rewrite rd_le_skip by (rewrite le_enc_length; lia).
    rewrite le_enc_length. apply (rd_le_here 4). unfold in_width. lia. }
  assert (forall off n, 0 <= n -> 0 <= off -> off + n <= 40 -> rd_le (8 + off) n (bytes ++ rest) = rd_le off n fields) as Hfield.
  { intros off n H0 H1 H2. unfold bytes, enc_layout. rewrite <- !app_assoc.
    rewrite rd_le_skip, rd_le_skip by (rewrite !le_enc_length; lia). rewrite !le_enc_length.
    replace (8 + off - Z.of_nat 4 - Z.of_nat 4) with off by lia. unfold rd_le. f_equal.
    rewrite <- (sub_prefix off n (fields ++ _) 40) by lia. by rewrite take_app_length' by lia. }
  assert (forall ps, entries_loop (Z.to_nat (zlen es)) 0 (bytes ++ rest) ps = Some (ps ++ partitions_from 0 es)) as Hps.
  { intros ps. rewrite Nat2Z.id. unfold bytes, enc_layout.
    replace ((le_enc 4 style ++ le_enc 4 (zlen es) ++ fields ++ concat (map enc_entry es)) ++ rest)
      with ((le_enc 4 style ++ le_enc 4 (zlen es) ++ fields) ++ concat (map enc_entry es) ++ rest)
      by (by rewrite <- !app_assoc).
    apply entries_loop_reads; [done|lia|lia|]. rewrite !length_app, !le_enc_length. unfold LAYOUT_HEADER, ENTRY_SIZE. lia. }
  pose proof (Hfield 32 4 ltac:(lia) ltac:(lia) ltac:(lia)) as Hcount.
  pose proof (Hfield 0 4 ltac:(lia) ltac:(lia) ltac:(lia)) as Hsig.
  change (8 + 32) with 40 in Hcount. change (8 + 0) with 8 in Hsig. rewrite Hcount, Hsig.
  unfold PARTITION_STYLE_GPT, PARTITION_STYLE_MBR in *.
  destruct (style =? 1) eqn:Eg; [|destruct (style =? 0) eqn:Em]; reflect_Z; rewrite Hps; cbn [mbind option_bind];
    (eexists; split; [done|]); unfold describes_layout, PARTITION_STYLE_GPT, PARTITION_STYLE_MBR; cbn;
    split_and!; done || lia.
Qed.

(** *** The two scans for free space *)

Definition place (p : PartitionInfo) : Z * Z := (sp_Offset p, sp_Size p).
Definition parsed_place (p : DiskParser.PartitionInfo) : Z * Z := (p_Offset p, p_Size p).

(** Partitions of positive size whose ends are 64-bit numbers and that do not
    overlap. *)
Definition place_ok (p : Z * Z) : Prop := 0 <= p.1 /\ 0 < p.2 /\ p.1 + p.2 < 2 ^ 64.
Definition apart (p q : Z * Z) : Prop := p.1 + p.2 <= q.1 \/ q.1 + q.2 <= p.1.
Definition disjoint_places (ps : list (Z * Z)) : Prop := Forall place_ok ps /\ ForallOrdPairs apart ps.

#[export] Instance disjoint_places_perm : Proper ((≡ₚ) ==> iff) disjoint_places.
Proof.
  assert (forall l1 l2, l1 ≡ₚ l2 -> ForallOrdPairs apart l1 -> ForallOrdPairs apart l2) as Hp.
  { induction 1 as [|x l1 l2 Hl IH|x y l|l1 l2 l3 _ IH1 _ IH2]; intros Ha; [done| | |auto].
    - inversion_clear Ha. constructor; [by rewrite <- Hl|auto].
    - inversion_clear Ha as [|? ? Hx Hrest]. inversion_clear Hrest as [|? ? Hy Hl].
      apply Forall_cons in Hx as [Hxy Hx]. constructor; [constructor|by constructor]; [|done].
      unfold apart in *. tauto. }
  intros l1 l2 Hl. unfold disjoint_places. split; intros [? ?]; split.
  - by rewrite <- Hl.
  - by eapply Hp.
  - by rewrite Hl.
  - eapply Hp; [|done]. by symmetry.
Qed.

(** Sorted, such places follow each other. *)
Definition follows (p q : Z * Z) : Prop := p.1 + p.2 <= q.1.

Lemma disjoint_sorted ps :
  disjoint_places ps -> StronglySorted (fun p q => p.1 <= q.1) ps -> StronglySorted follows ps.
Proof.
  intros [Hok Ha] Hs. induction Hs as [|p ps Hs IH Hp]; [constructor|].
  apply Forall_cons in Hok as [Hp1 Hok]. inversion_clear Ha as [|? ? Hap Harest].
  constructor; [by apply IH|]. rewrite Forall_forall in *. intros q Hq.
  specialize (Hap q Hq). specialize (Hp q Hq). specialize (Hok q Hq).
  unfold apart, follows, place_ok in *. lia.
Qed.

Lemma sorted_unique ps qs :
  Forall place_ok ps -> StronglySorted follows ps -> StronglySorted follows qs -> ps ≡ₚ qs -> ps = qs.
Proof.
  intros Hok Hs. revert qs. induction Hs as [|p ps Hs IH Hp]; intros qs Hq Hperm.
  { symmetry. by apply Permutation_nil_l in Hperm. }
  destruct Hq as [|q qs Hq Hqq]; [by apply Permutation_nil_r in Hperm|].
  assert (Forall place_ok (q :: qs)) as Hok' by by rewrite <- Hperm.
  apply Forall_cons in Hok as [Hp1 Hok]. apply Forall_cons in Hok' as [Hq1 Hok'].
  rewrite Forall_forall in Hp, Hqq.
  assert (p ∈ q :: qs) as Hin by (rewrite <- Hperm; left).
  assert (q ∈ p :: ps) as Hin' by (rewrite Hperm; left).
  apply elem_of_cons in Hin as [->|Hin]; [|apply elem_of_cons in Hin' as [->|Hin']].
  - f_equal. apply IH; [done|done|]. by apply Permutation.Permutation_cons_inv in Hperm.
  - f_equal. apply IH; [done|done|]. by apply Permutation.Permutation_cons_inv in Hperm.
  - specialize (Hqq p Hin). specialize (Hp q Hin'). unfold follows, place_ok in *. lia.
Qed.

(** On places that follow each other both scans find the same gaps. *)
Lemma scans_agree size ps : forall qs current,
  map place ps = map parsed_place qs -> Forall place_ok (map place ps) -> StronglySorted follows (map place ps) ->
  0 <= current -> Forall (fun p => current <= p.1) (map place ps) -> 0 <= size ->
  map (fun u => (u_Offset u, u_Size u)) (unallocated_loop size current ps)
  = map (fun r => (r_Offset r, r_Size r)) (scan_free size current qs).
Proof.
  induction ps as [|p ps IH]; intros [|q qs] current Heq Hok Hs Hc Hle Hsize; try done.
  - cbn [unallocated_loop scan_free map]. destruct (current <? size) eqn:E; reflect_Z; rewrite ?andb_false_r; [|done].
    by test_true (0 <? size).
  - cbn [map] in *. unfold place at 1, parsed_place at 1 in Heq. injection Heq as Ho Hz Heq.
    apply Forall_cons in Hok as [Hp Hok]. apply StronglySorted_inv in Hs as [Hs Hf].
    apply Forall_cons in Hle as [Hle _]. unfold place_ok, place in Hp. cbn in Hp, Hle.
    cbn [unallocated_loop scan_free]. rewrite <- Ho, <- Hz, wrap_small by (unfold in_width; lia).
    rewrite !map_app. f_equal; [by case_if|].
    replace (if current <? sp_Offset p + sp_Size p then sp_Offset p + sp_Size p else current)
      with (sp_Offset p + sp_Size p) by (case_if; lia).
    apply IH; try done. lia.
Qed.

Lemma sorted_map {A B} (f : A -> B) (R : B -> B -> Prop) l :
  StronglySorted (fun x y => R (f x) (f y)) l -> StronglySorted R (map f l).
Proof.
  induction 1 as [|x l Hs IH Hx]; cbn [map]; constructor; [done|]. by apply Forall_map.
Qed.

(** On such places the scan reports the gaps. *)
Definition covers (x : Z) (p : Z * Z) : Prop := p.1 <= x < p.1 + p.2.
Definition range_place (u : UnallocatedRange) : Z * Z := (u_Offset u, u_Size u).

Lemma unallocated_gaps size ps : forall current,
  Forall place_ok (map place ps) -> StronglySorted follows (map place ps) ->
  0 <= current -> Forall (fun p => current <= p.1) (map place ps) ->
  let us := map range_place (unallocated_loop size current ps) in
  (forall x, current <= x ->
     Exists (covers x) us <->
     ~ Exists (covers x) (map place ps) /\ (x < size \/ Exists (fun p => x < p.1) (map place ps))) /\
  Forall (fun u => current <= u.1 /\ 0 < u.2) us /\ StronglySorted follows us.
Proof.
  induction ps as [|p ps IH]; intros current Hok Hs Hc Hle; cbn [map unallocated_loop].
  { case_if; cbn [map range_place u_Offset u_Size].
    - split_and!; [|repeat constructor; cbn; lia|by repeat constructor]. intros x Hx.
      rewrite Exists_cons, !Exists_nil. unfold covers; cbn. split; [intros [?|?]; [split; [tauto|left; lia]|done]|].
      intros [_ [?|?]]; [left; lia|done].
    - split_and!; [|constructor|constructor]. intros x Hx. rewrite !Exists_nil. split; [done|].
      intros [_ [?|?]]; [lia|done]. }
  cbn [map] in *. apply Forall_cons in Hok as [Hp Hok]. apply StronglySorted_inv in Hs as [Hs Hf].
  apply Forall_cons in Hle as [Hle _]. unfold place_ok in Hp. cbn in Hp, Hle.
  rewrite wrap_small by (unfold in_width; lia).
  destruct (IH (sp_Offset p + sp_Size p)) as (Hx & Hr & Hsort); [done|done|lia|done|].
  set (us := map range_place (unallocated_loop size _ ps)) in *. rewrite map_app. fold us.
  assert (forall x, ~ x < sp_Offset p + sp_Size p \/ (~ Exists (covers x) us /\ ~ Exists (covers x) (map place ps))) as Hfar.
  { intros x. destruct (Z.lt_ge_cases x (sp_Offset p + sp_Size p)); [right|by left; lia].
    rewrite !Exists_exists. rewrite Forall_forall in Hr, Hf.
    split; intros (q & Hq & Hcov); [specialize (Hr q Hq)|specialize (Hf q Hq)];
      unfold covers, follows, place in *; cbn in *; lia. }
  split_and!.
  - intros x Hcx. rewrite Exists_app, !Exists_cons.
    change (covers x (place p)) with (sp_Offset p <= x < sp_Offset p + sp_Size p). change (place p).1 with (sp_Offset p).
    assert (Exists (covers x) (map range_place (if current <? sp_Offset p
              then [{| u_Offset := current; u_Size := sp_Offset p - current |}] else [])) <-> x < sp_Offset p) as ->.
    { case_if; cbn [map range_place]; rewrite ?Exists_cons, Exists_nil; unfold covers; cbn; lia. }
    destruct (Z.lt_ge_cases x (sp_Offset p + sp_Size p)) as [Hlt|Hge].
    + destruct (Hfar x) as [|[Hn1 Hn2]]; [lia|]. split; [intros [?|?]; [split; [intros [?|?]; [lia|done]|right; by left]|done]|].
      intros [Hn Ho]. left. lia.
    + rewrite Hx by lia. split; [intros [?|[? ?]]; [lia|]|intros [Hn Ho]; right].
      * split; [intros [?|?]; [lia|done]|tauto].
      * split; [tauto|]. destruct Ho as [?|[?|?]]; [by left|lia|by right].
  - apply Forall_app. split; [case_if; constructor; cbn; [lia|constructor]|].
    eapply Forall_impl; [exact Hr|]. cbn. lia.
  - case_if; [|done]. constructor; [done|]. eapply Forall_impl; [exact Hr|]. unfold follows; cbn. lia.
Qed.

(** C35: the scanner and the parser.  For partitions that do not overlap, in any
    order the two lists have them, and whatever sort the library has, the
    unallocated ranges the scanner reports are the free ranges the parser
    reports, in the same order. *)
Theorem scanner_agrees_with_parser `{StdSort} d l :
  disjoint_places (map place (di_Partitions d)) -> 0 <= di_Size d ->
  map parsed_place (Partitions l) ≡ₚ map place (di_Partitions d) -> d_Size (Disk l) = di_Size d ->
  map (fun u => (u_Offset u, u_Size u)) (di_Unallocated (CalculateUnallocated d))
  = map (fun r => (r_Offset r, r_Size r)) (FreeRanges (CalculateFreeSpace l)).
Proof.
  intros Hd Hs Hp Hsize. rewrite CalculateFreeSpace_scan. cbn [set_free FreeRanges set_ranges CalculateUnallocated di_Unallocated].
  rewrite Hsize. pose proof (std_sort_perm (di_Partitions d)) as Hp1.
  pose proof (merge_sort_Permutation DiskParser.offset_le (Partitions l)) as Hp2.
  pose proof (std_sort_sorted (di_Partitions d)) as Hs1.
  pose proof (StronglySorted_merge_sort DiskParser.offset_le (Partitions l)) as Hs2.
  set (ps := std_sort (di_Partitions d)) in *. set (qs := merge_sort DiskParser.offset_le (Partitions l)) in *.
  assert (map place ps ≡ₚ map parsed_place qs) as Hpq.
  { etransitivity; [by apply Permutation_map|]. rewrite <- Hp. symmetry. by apply Permutation_map. }
  assert (disjoint_places (map place ps)) as Hd1.
  { eapply disjoint_places_perm; [|exact Hd]. by apply Permutation_map. }
  assert (disjoint_places (map parsed_place qs)) as Hd2 by by rewrite <- Hpq.
  assert (StronglySorted follows (map place ps)) as Hf1.
  { apply disjoint_sorted; [done|]. by apply (sorted_map place (fun p q => p.1 <= q.1)). }
  assert (StronglySorted follows (map parsed_place qs)) as Hf2.
  { apply disjoint_sorted; [done|]. by apply (sorted_map parsed_place (fun p q => p.1 <= q.1)). }
  apply scans_agree; try done; [|by destruct Hd1|].
  - apply sorted_unique; try done. by destruct Hd1.
  - destruct Hd1 as [Hok _]. eapply Forall_impl; [exact Hok|]. unfold place_ok. intros p ?. lia.
Qed.

(** The device's strings. *)
Definition has_strings `{CodePage} (dev : ScanDevice) (vendor model serial : list Z) : Prop :=
  match sd_Storage dev with
  | None => vendor = [] /\ model = [] /\ serial = []
  | Some data =>
      let buffer := overlay data (zeros 4096) in
      readString buffer (rd_le 12 4 buffer) = Some vendor /\ readString buffer (rd_le 16 4 buffer) = Some model /\
      readString buffer (rd_le 24 4 buffer) = Some serial
  end.

(** C34: scanning a disk.  A disk that reports its length and sector size, with
    terminated strings or none, and the table of its partitions as the system
    lays it out: [Enumerate] always returns, it succeeds exactly when the table
    has an entry and fits the largest buffer (7281 entries in 1 MiB), and then
    describes the disk: number, length, sector size, strings, style, one
    partition per entry of positive length, with its number, start and length,
    ordered by their starts; when these partitions do not overlap, the
    unallocated ranges are the gaps: not empty, ascending, disjoint, and they
    hold a byte of the disk exactly when no partition does. *)
Theorem Enumerate_describes_disk `{CodePage} `{StdSort} open_disk devno dev size sector vendor model serial style fields es :
  open_disk devno = Some dev -> sd_Length dev = Some size -> in_width 64 size ->
  sd_BytesPerSector dev = Some sector -> in_width 32 sector -> has_strings dev vendor model serial ->
  in_width 32 style -> zlen fields = 40 -> Forall entry_wf es -> zlen es < 2 ^ 31 ->
  has_layout dev (enc_layout style fields es) ->
  exists d, Enumerate open_disk devno DiskInfo_new = Some ((1 <=? zlen es) && (zlen es <=? 7281), d) /\
    di_DevNo d = devno /\ di_Size d = size /\ di_BytesPerSector d = sector /\
    di_Vendor d = vendor /\ di_Model d = model /\ di_SerialNumber d = serial /\
    if (1 <=? zlen es) && (zlen es <=? 7281) then
      di_Partitions d ≡ₚ partitions_from 0 es /\
      StronglySorted (fun p q => sp_Offset p <= sp_Offset q) (di_Partitions d) /\
      di_IsGPT d = (style =? PARTITION_STYLE_GPT) /\ di_IsMBR d = (style =? PARTITION_STYLE_MBR) /\
      (disjoint_places (map place (partitions_from 0 es)) ->
       let us := map range_place (di_Unallocated d) in
       StronglySorted follows us /\ Forall (fun u => 0 <= u.1 /\ 0 < u.2) us /\
       forall x, 0 <= x ->
         Exists (covers x) us <->
         ~ Exists (covers x) (map place (partitions_from 0 es)) /\
         (x < size \/ Exists (fun p => x < sp_Offset p) (partitions_from 0 es)))
    else di_Partitions d = [] /\ di_IsGPT d = false /\ di_IsMBR d = false /\
      di_Unallocated d = (if 0 <? size then [{| u_Offset := 0; u_Size := size |}] else []).
Proof.
  intros Hopen Hlen Hsz Hbps Hsec Hstr Hst Hf Hes Hn Hl. unfold Enumerate. rewrite Hopen, Hlen, Hbps.
  rewrite !wrap_small by done. cbn [set_sizes di_Size di_BytesPerSector set_DevNo].
  match goal with |- context [QueryStorageInfo dev ?x] => set (d0 := x) end.
  assert (exists b, QueryStorageInfo dev d0 = Some (b, set_strings vendor model serial d0)) as [b ->].
  { unfold QueryStorageInfo, has_strings in *. destruct (sd_Storage dev) as [data|].
    - destruct Hstr as (-> & -> & ->). by eexists.
    - destruct Hstr as (-> & -> & ->). by exists false. }
  cbn [mbind option_bind]. pose proof (QueryLayout_reads dev (set_strings vendor model serial d0) style fields es
    Hst Hf Hes Hn Hl) as Hq.
  destruct ((1 <=? zlen es) && (zlen es <=? 7281)).
  - destruct Hq as (d & -> & Hp & Hd1 & Hd2 & Hd3 & Hd4 & Hd5 & Hd6 & Hg & Hm & Hng & Hnm).
    cbn [mbind option_bind andb]. eexists. split; [done|]. cbn [CalculateUnallocated set_ranges di_DevNo di_Size
      di_BytesPerSector di_Vendor di_Model di_SerialNumber di_Partitions di_IsGPT di_IsMBR].
    split_and!; try done.
    + by rewrite std_sort_perm, Hp.
    + apply std_sort_sorted.
    + destruct (Z.eqb_spec style PARTITION_STYLE_GPT) as [->|Hne]; [by apply Hg|by rewrite Hng].
    + destruct (Z.eqb_spec style PARTITION_STYLE_MBR) as [->|Hne]; [by apply Hm|by rewrite Hnm].
    + intros Hdis. cbn [CalculateUnallocated set_ranges di_Unallocated].
      replace (di_Partitions d) with (partitions_from 0 es) by done.
      replace (di_Size d) with size by done.
      pose proof (std_sort_perm (partitions_from 0 es)) as Hperm.
      pose proof (std_sort_sorted (partitions_from 0 es)) as Hsort.
      set (ps := std_sort (partitions_from 0 es)) in *.
      assert (disjoint_places (map place ps)) as Hdis'.
      { eapply disjoint_places_perm; [|exact Hdis]. by apply Permutation_map. }
      destruct (unallocated_gaps size ps 0) as (Hx & Hr & Hus).
      * by destruct Hdis'.
      * apply disjoint_sorted; [done|]. by apply (sorted_map place (fun p q => p.1 <= q.1)).
      * done.
      * eapply Forall_impl; [apply (proj1 Hdis')|]. unfold place_ok. by intros p [? _].
      * split; [done|]. split; [done|]. intros x Hx0. rewrite Hx by done.
        assert (forall P, Exists P (map place ps) <-> Exists P (map place (partitions_from 0 es))) as He.
        { intros P. split; apply Permutation_Exists; apply Permutation_map; [done|by symmetry]. }
        rewrite !He. by rewrite (Exists_map place (fun p => x < p.1)).
  - rewrite Hq. cbn [mbind option_bind andb]. eexists. split; [done|]. cbn. split_and!; try done.
    + pose proof (std_sort_perm []) as Hnil. by apply Permutation_nil_r in Hnil.
    + pose proof (std_sort_perm []) as ->%Permutation_nil_r. cbn [unallocated_loop]. by rewrite Z.sub_0_r.
Qed.

(** ** Examples *)

#[export] Instance offset_order_dec (p q : PartitionInfo) : Decision (sp_Offset p <= sp_Offset q).
Proof. apply _. Defined.
Lemma offset_order_total : Total (fun p q : PartitionInfo => sp_Offset p <= sp_Offset q).
Proof. intros p q. lia. Qed.
Lemma offset_order_trans : Transitive (fun p q : PartitionInfo => sp_Offset p <= sp_Offset q).
Proof. intros p q r. lia. Qed.

Definition merge_sorted : StdSort.
Proof.
  refine {| std_sort := merge_sort (fun p q : PartitionInfo => sp_Offset p <= sp_Offset q) |}.
  - apply merge_sort_Permutation.
  - intros l. apply StronglySorted_merge_sort; [exact offset_order_trans|exact offset_order_total].
Defined.
Definition ascii_page : CodePage := {| to_wide := fun s => Some (s ++ [0]) |}.

(** An extended partition and a logical one inside it: the scan goes back to the
    end of the logical partition and reports the rest of the extended one as
    unallocated. *)
Example nested_partition_counted_free :
  let part i off len := {| sp_Index := i; sp_Offset := off; sp_Size := len |} in
  di_Unallocated (@CalculateUnallocated merge_sorted
    (set_ranges [part 0 100 800; part 1 200 100] [] (set_sizes 1000 1 DiskInfo_new)))
  = [{| u_Offset := 0; u_Size := 100 |}; {| u_Offset := 300; u_Size := 700 |}].
Proof. by vm_compute. Qed.

(** A disk of 1 MiB with two entries in use, the later one first. *)
Definition scan_entry (off len : Z) : LayoutEntry :=
  {| en_Style := 1; en_Offset := off; en_Length := len; en_rest := zeros 120 |}.
Definition scan_entries : list LayoutEntry := [scan_entry 8192 4096; scan_entry 0 0; scan_entry 2048 1024].
Definition scan_layout_bytes : list Z := enc_layout 1 (zeros 40) scan_entries.
Definition scan_device : ScanDevice := {|
  sd_Length := Some (1024 * 1024); sd_BytesPerSector := Some 512; sd_Storage := None;
  sd_Layout := fun n => if n <? zlen scan_layout_bytes then LayoutError ERROR_INSUFFICIENT_BUFFER
                        else LayoutOk scan_layout_bytes;
  sd_Seek := fun _ => true; sd_Read := fun _ _ => None |}.

Lemma Enumerate_describes_disk_witness :
  exists d, @Enumerate ascii_page merge_sorted (fun n => if n =? 3 then Some scan_device else None) 3 DiskInfo_new
            = Some (true, d) /\
    di_Partitions d ≡ₚ [{| sp_Index := 0; sp_Offset := 8192; sp_Size := 4096 |};
                        {| sp_Index := 2; sp_Offset := 2048; sp_Size := 1024 |}] /\ di_IsGPT d = true.
Proof.
  destruct (@Enumerate_describes_disk ascii_page merge_sorted (fun n => if n =? 3 then Some scan_device else None) 3
    scan_device (1024 * 1024) 512 [] [] [] 1 (zeros 40) scan_entries)
    as (d & Hrun & _ & _ & _ & _ & _ & _ & Hp & _ & Hg & _).
  - done.
  - done.
  - unfold in_width. lia.
  - done.
  - unfold in_width. lia.
  - by split_and!.
  - unfold in_width. lia.
  - done.
  - repeat constructor; unfold in_width; cbn; lia.
  - cbn. lia.
  - intros n. reflexivity.
  - exists d. by split_and!.
Defined.

Lemma scanner_agrees_with_parser_witness :
  let part i off len := {| sp_Index := i; sp_Offset := off; sp_Size := len |} in
  let mbr off len := DiskParser.mbr_partition 0 {| mbr_Type := 7; mbr_StartLBA := off; mbr_SectorCount := len |} 1 in
  let d := set_ranges [part 0 700 100; part 1 200 300] [] (set_sizes 1000 1 DiskInfo_new) in
  let l := add_partition (mbr 200 300) (add_partition (mbr 700 100) (set_Disk
    {| d_DeviceNumber := 0; d_Size := 1000; d_SectorSize := 1; d_Style := MBR; d_GPT := GPTInfo_zero |} DiskParserSpec.no_layout)) in
  map (fun u => (u_Offset u, u_Size u)) (di_Unallocated (@CalculateUnallocated merge_sorted d))
  = map (fun r => (r_Offset r, r_Size r)) (FreeRanges (CalculateFreeSpace l)) /\
  FreeRanges (CalculateFreeSpace l) = [range 0 200; range 500 200; range 800 200].
Proof.
  cbn zeta. split; [|by vm_compute]. apply (@scanner_agrees_with_parser merge_sorted).
  - split.
    + apply Forall_cons. split; [unfold place_ok; cbn; lia|]. apply Forall_singleton. unfold place_ok. cbn. lia.
    + apply FOP_cons; [apply Forall_singleton; unfold apart; cbn; lia|]. apply FOP_cons; [done|constructor].
  - cbn. lia.
  - by vm_compute.
  - done.
Defined.
