(* ===== verification/ClientMain.v ===== *)
(** * The client program

    [client/main.cpp]: the command line and the commands, over the scanner, the
    parser, the volume mapper, the backup engine and the shadow copies.  A
    command ends with a report; [ClientConsole] has its text. *)

From Stdlib Require Import Ascii String.
From S2P Require Import Prelude.
From S2P Require Import DataCompressor.
From S2P Require Import NetworkClient.
From S2P Require Import CbtClient.
From S2P Require Import BlockStateManager.
From S2P Require Import Pipeline.
From S2P Require Import BlockHasher.
From S2P Require Import DiskScanner.
From S2P Require Import DiskParser.
From S2P Require Import VolumeMapper.
From S2P Require Import VssManager.
From S2P Require Import BackupEngine.
From S2P Require Import BackupEngineSpec.

Local Open Scope list_scope.

(** ** Definitions *)

(** [_wtoi] and the conversion to UTF-8 of the C runtime and the system. *)
Class Runtime := { wtoi : list Z -> Z; to_utf8 : list Z -> list Z }.

(** [BackupConfig] with the fields only the program and the connection use. *)
Record ClientConfig := {
  ServerIp : list Z; Port : Z; StateDir : list Z; engine : BackupConfig }.

Definition DEFAULT_PIPELINE_WINDOW_SIZE : Z := 6.
Definition ClientConfig_new : ClientConfig :=
  {| ServerIp := []; Port := 0; StateDir := [46; BACKSLASH] ++ wide "backup_states" ++ [BACKSLASH];
     engine := {| DryRun := false; UseCbt := false; RetryCount := 3;
                  PipelineWindowSize := DEFAULT_PIPELINE_WINDOW_SIZE |} |}.

Definition set_engine (e : BackupConfig) (c : ClientConfig) : ClientConfig :=
  {| ServerIp := ServerIp c; Port := Port c; StateDir := StateDir c; engine := e |}.
Definition set_UseCbt (c : ClientConfig) : ClientConfig :=
  let e := engine c in
  set_engine {| DryRun := DryRun e; UseCbt := true; RetryCount := RetryCount e;
                PipelineWindowSize := PipelineWindowSize e |} c.
Definition set_DryRun (c : ClientConfig) : ClientConfig :=
  let e := engine c in
  set_engine {| DryRun := true; UseCbt := UseCbt e; RetryCount := RetryCount e;
                PipelineWindowSize := PipelineWindowSize e |} c.
Definition set_RetryCount (n : Z) (c : ClientConfig) : ClientConfig :=
  let e := engine c in
  set_engine {| DryRun := DryRun e; UseCbt := UseCbt e; RetryCount := n;
                PipelineWindowSize := PipelineWindowSize e |} c.
Definition set_PipelineWindowSize (n : Z) (c : ClientConfig) : ClientConfig :=
  let e := engine c in
  set_engine {| DryRun := DryRun e; UseCbt := UseCbt e; RetryCount := RetryCount e;
                PipelineWindowSize := n |} c.
Definition set_ServerIp (ip : list Z) (c : ClientConfig) : ClientConfig :=
  {| ServerIp := ip; Port := Port c; StateDir := StateDir c; engine := engine c |}.
Definition set_Port (p : Z) (c : ClientConfig) : ClientConfig :=
  {| ServerIp := ServerIp c; Port := p; StateDir := StateDir c; engine := engine c |}.
Definition set_StateDir (d : list Z) (c : ClientConfig) : ClientConfig :=
  {| ServerIp := ServerIp c; Port := Port c; StateDir := d; engine := engine c |}.

Section options.
Context `{Runtime}.

(** [ipBuf]: 64 bytes; a longer address leaves it without a terminator. *)
Definition ip_of (arg : list Z) : option (list Z) :=
  if 64 <? zlen (to_utf8 arg) + 1 then None else Some (to_utf8 arg).

(** The loop over the arguments after the target. *)
Fixpoint parse_options (args : list (list Z)) (c : ClientConfig) : option ClientConfig :=
  match args with
  | [] => Some c
  | a :: rest =>
      if bool_decide (a = wide "--cbt") then parse_options rest (set_UseCbt c)
      else if bool_decide (a = wide "--dryrun") then parse_options rest (set_DryRun c)
      else match rest with
           | [] => Some c
           | v :: rest' =>
               if bool_decide (a = wide "--serverip") then
                 ip ← ip_of v; parse_options rest' (set_ServerIp ip c)
               else if bool_decide (a = wide "--port") then parse_options rest' (set_Port (wrap 16 (wtoi v)) c)
               else if bool_decide (a = wide "--retry") then parse_options rest' (set_RetryCount (wtoi v) c)
               else if bool_decide (a = wide "--state-dir") then parse_options rest' (set_StateDir v c)
               else if bool_decide (a = wide "--window") then
                 parse_options rest' (set_PipelineWindowSize (wtoi v) c)
               else parse_options rest c
           end
  end.

Definition parse_target (arg : list Z) : list Z :=
  if bool_decide (arg = wide "all") then seqZ 0 8 else [wtoi arg].
End options.

(** *** The summary of a disk *)

Definition BackupStrategy (c : PartitionContent) : string :=
  match c with
  | FilesystemNTFS | FilesystemFAT32 | FilesystemExFAT | FilesystemReFS => "VSS Snapshot"
  | RawPartition => "Physical Read"
  | Reserved => "Metadata Backup"
  | ContentUnknown => "Skip"
  end.

Record Totals := {
  fsCount : Z; rawCount : Z; reservedCount : Z; unknownCount : Z; fsBytes : Z; rawBytes : Z }.

(** One partition of the loop. *)
Definition add_totals (t : Totals) (p : PartitionInfo) : Totals :=
  match p_Content p with
  | FilesystemNTFS | FilesystemFAT32 | FilesystemExFAT | FilesystemReFS =>
      {| fsCount := fsCount t + 1; rawCount := rawCount t; reservedCount := reservedCount t;
         unknownCount := unknownCount t; fsBytes := u64 (fsBytes t + p_Size p); rawBytes := rawBytes t |}
  | RawPartition =>
      {| fsCount := fsCount t; rawCount := rawCount t + 1; reservedCount := reservedCount t;
         unknownCount := unknownCount t; fsBytes := fsBytes t; rawBytes := u64 (rawBytes t + p_Size p) |}
  | Reserved =>
      {| fsCount := fsCount t; rawCount := rawCount t; reservedCount := reservedCount t + 1;
         unknownCount := unknownCount t; fsBytes := fsBytes t; rawBytes := rawBytes t |}
  | ContentUnknown =>
      {| fsCount := fsCount t; rawCount := rawCount t; reservedCount := reservedCount t;
         unknownCount := unknownCount t + 1; fsBytes := fsBytes t; rawBytes := rawBytes t |}
  end.
Definition summary (l : DiskLayout) : Totals :=
  fold_left add_totals (Partitions l)
    {| fsCount := 0; rawCount := 0; reservedCount := 0; unknownCount := 0; fsBytes := 0; rawBytes := 0 |}.

(** *** The privileges *)

(** What the system answers to [AllocateAndInitializeSid] and
    [CheckTokenMembership]; a failed call leaves the result at [FALSE], 0. *)
Record TokenAnswers := { ta_sid : bool; ta_member : Z }.

Definition IsAdministrator (t : TokenAnswers) : bool :=
  if negb (ta_sid t) then false else ta_member t =? 1.

(** What [PrintDiskLayout] found: the layout, whether [Map] succeeded, the mapped
    partitions and the summary. *)
Inductive LayoutResult :=
| CannotOpen
| ParseFailed
| Parsed (layout : DiskLayout) (any : bool) (mapped : list MappedPartition) (totals : Totals).

(** Why a command stops. *)
Inductive Problem :=
| NotAdministrator | NoDisks | NoDiskNumber | ScanFailed (devno : Z) | NoTarget | NoServerIp | NoPort
| CleanupFailed | UnknownCommand (cmd : list Z).

(** What a command reports; [ClientConsole] has the text. *)
Inductive Report :=
| Help
| Failure (p : Problem)
| DiskList (disks : list DiskScanner.DiskInfo)
| LayoutReport (devno : Z) (info : DiskScanner.DiskInfo) (layout : LayoutResult)
| BackupReport (config : ClientConfig) (targets : list Z) (complete : bool) (stats : list DiskStats)
| Deleted (n : Z).

(** *** The commands *)

Section commands.
Context {Net Drv : Type} `{Socket Net} `{IoControl Drv} `{VssApi} `{VolumeApi} `{CompressApi} `{Runtime}
  `{CodePage} `{StdSort}.
(** The machine depends on the server's address and the state directory. *)
Variable machine : ClientConfig -> Machine Net Drv.
Variable threads : ClientConfig -> Source -> Job -> Z -> Manager -> Client Net -> World Net Drv ->
                   option (Pipeline.Run * Client Net * World Net Drv).
Variable scan_disk : Z -> option ScanDevice.
Variable token : TokenAnswers.
(** A bound of the snapshots the service lists. *)
Variable orphans : nat.

Abbreviation World := (World Net Drv).

(** [PrintDiskLayout]. *)
Definition disk_layout (devno : Z) : option LayoutResult :=
  match @mc_disk _ _ (machine ClientConfig_new) devno with
  | None => Some CannotOpen
  | Some dev =>
      r ← @Parse dev devno DiskLayout_new;
      let '(ok, layout) := r in
      if negb ok then Some ParseFailed
      else let '(any, m) := Map layout in Some (Parsed layout any (m_mapped m) (summary layout))
  end.

(** [wmain]: the exit code, the report and the world; the first argument is the
    program's name. *)
Definition wmain (argv : list (list Z)) (w : World) : option (Z * Report * World) :=
  if negb (IsAdministrator token) then Some (-1, Failure NotAdministrator, w)
  else match argv with
  | [] | [_] => Some (0, Help, w)
  | _ :: cmd :: args =>
      if bool_decide (cmd = wide "query_disks") then
        r ← EnumerateAll scan_disk [];
        let '(ok, disks) := r in
        if negb ok then Some (-1, Failure NoDisks, w) else Some (0, DiskList disks, w)
      else if bool_decide (cmd = wide "query_disk") then
        match args with
        | [] => Some (-1, Failure NoDiskNumber, w)
        | a :: _ =>
            let devno := wtoi a in
            r ← Enumerate scan_disk devno DiskInfo_new;
            let '(ok, info) := r in
            if negb ok then Some (-1, Failure (ScanFailed devno), w)
            else l ← disk_layout devno; Some (0, LayoutReport devno info l, w)
        end
      else if bool_decide (cmd = wide "backup") then
        match args with
        | [] => Some (-1, Failure NoTarget, w)
        | target :: opts =>
            c ← parse_options opts ClientConfig_new;
            if negb (DryRun (engine c)) && bool_decide (ServerIp c = []) then Some (-1, Failure NoServerIp, w)
            else if negb (DryRun (engine c)) && (Port c =? 0) then Some (-1, Failure NoPort, w)
            else
              r ← @BackupEngine.Run Net Drv _ _ _ _ _ (machine c) (threads c) (engine c) (parse_target target) [] w;
              let '(ok, stats, w) := r in
              Some (0, BackupReport c (parse_target target) ok (if ok : bool then stats else []), w)
        end
      else if bool_decide (cmd = wide "cleanup-shadows") then
        r ← DeleteOrphanedSnapshots orphans (VssManager_new (w_vss w));
        let '(deleted, s) := r in
        let w := set_vss (m_calls s) w in
        if 0 <=? deleted then Some (0, Deleted deleted, w) else Some (-1, Failure CleanupFailed, w)
      else Some (-1, Failure (UnknownCommand cmd), w)
  end.
End commands.

(** ** The options as data *)

Inductive Opt :=
| OptCbt | OptDryRun | OptServerIp (v : list Z) | OptPort (v : list Z) | OptRetry (v : list Z)
| OptStateDir (v : list Z) | OptWindow (v : list Z).

Definition render (o : Opt) : list (list Z) :=
  match o with
  | OptCbt => [wide "--cbt"] | OptDryRun => [wide "--dryrun"]
  | OptServerIp v => [wide "--serverip"; v] | OptPort v => [wide "--port"; v]
  | OptRetry v => [wide "--retry"; v] | OptStateDir v => [wide "--state-dir"; v]
  | OptWindow v => [wide "--window"; v]
  end.

Definition apply_option `{Runtime} (c : ClientConfig) (o : Opt) : ClientConfig :=
  match o with
  | OptCbt => set_UseCbt c | OptDryRun => set_DryRun c
  | OptServerIp v => set_ServerIp (to_utf8 v) c | OptPort v => set_Port (wrap 16 (wtoi v)) c
  | OptRetry v => set_RetryCount (wtoi v) c | OptStateDir v => set_StateDir v c
  | OptWindow v => set_PipelineWindowSize (wtoi v) c
  end.

(** The address fits its buffer. *)
Definition option_fits `{Runtime} (o : Opt) : Prop :=
  match o with OptServerIp v => zlen (to_utf8 v) < 64 | _ => True end.

(** ** Lemmas *)

Lemma parse_options_render `{Runtime} os c :
  Forall option_fits os ->
  parse_options (concat (map render os)) c = Some (fold_left apply_option os c).
Proof.
  intros Hf. revert c. induction Hf as [|o os Ho Hf IH]; intros c; [done|].
  destruct o; cbn [map concat render app parse_options fold_left apply_option].
  all: repeat (rewrite bool_decide_false by (by vm_compute)); rewrite bool_decide_true by done; try apply IH.
  unfold ip_of. unfold option_fits in Ho. test_false (64 <? zlen (to_utf8 v) + 1). cbn [mbind option_bind]. apply IH.
Qed.

Section commands.
Context {Net Drv : Type} `{Socket Net} `{IoControl Drv} `{VssApi} `{VolumeApi} `{CompressApi} `{Runtime}
  `{CodePage} `{StdSort}.
Context (machine : ClientConfig -> Machine Net Drv).
Context (threads : ClientConfig -> Source -> Job -> Z -> Manager -> Client Net -> World Net Drv ->
                   option (Pipeline.Run * Client Net * World Net Drv)).

Lemma in_turn_fails c ds w rs w' d :
  @in_turn Net Drv _ _ _ _ _ (machine c) (threads c) (engine c) ds w rs w' ->
  d ∈ ds -> @mc_disk _ _ (machine c) d = None -> forallb fst rs = false.
Proof.
  induction 1 as [w|d' ds w b st w1 rs w2 E _ IH]; intros Hin Hd; [by apply elem_of_nil in Hin|].
  cbn [forallb fst]. apply elem_of_cons in Hin as [->|Hin]; [|rewrite IH by done; by rewrite andb_false_r].
  unfold BackupDisk in E. rewrite Hd in E. by injection E as <- _ _.
Qed.
End commands.

(** C38: the backup command.  The program applies its options from left to
    right, the last one of a kind counts; without administrator rights, or without
    an address or a port (and not simulated), it stops before anything happens.  Otherwise it backs up the
    disks named - [all] means the disks 0 to 7 - one after the other with that
    configuration and says that the backup is complete exactly when every disk
    succeeded, so never when one of them cannot be opened; but its exit code is
    0 either way. *)
Theorem backup_command {Net Drv} `{Socket Net} `{IoControl Drv} `{VssApi} `{VolumeApi} `{CompressApi} `{Runtime}
    `{CodePage} `{StdSort} (machine : ClientConfig -> Machine Net Drv) threads scan_disk token orphans prog target os w code report w' :
  Forall option_fits os ->
  wmain machine threads scan_disk token orphans (prog :: wide "backup" :: target :: concat (map render os)) w
    = Some (code, report, w') ->
  let c := fold_left apply_option os ClientConfig_new in
  if negb (IsAdministrator token) || negb (DryRun (engine c)) && (bool_decide (ServerIp c = []) || (Port c =? 0)) then
    code = -1 /\ w' = w /\
    report = Failure (if negb (IsAdministrator token) then NotAdministrator
                      else if bool_decide (ServerIp c = []) then NoServerIp else NoPort)
  else
    code = 0 /\
    exists rs, @in_turn Net Drv _ _ _ _ _ (machine c) (threads c) (engine c) (parse_target target) w rs w' /\
      report = BackupReport c (parse_target target) (forallb fst rs) (if forallb fst rs then map snd rs else []) /\
      (forall d, d ∈ parse_target target -> @mc_disk _ _ (machine c) d = None ->
       report = BackupReport c (parse_target target) false []).
Proof.
  intros Hos Hrun c. unfold wmain in Hrun.
  destruct (IsAdministrator token); cbn [negb orb] in Hrun |- *; [|by injection Hrun as <- <- <-].
  do 2 (rewrite bool_decide_false in Hrun by (by vm_compute)). rewrite bool_decide_true in Hrun by done.
  rewrite parse_options_render in Hrun by done. cbn [mbind option_bind] in Hrun. fold c in Hrun.
  destruct (DryRun (engine c)); cbn [negb andb] in Hrun |- *;
    [|destruct (bool_decide (ServerIp c = [])); cbn [orb]; [by injection Hrun as <- <- <-|];
      destruct (Port c =? 0); [by injection Hrun as <- <- <-|]];
    (destruct (@BackupEngine.Run _ _ _ _ _ _ _ _ _ _ _ _ _) as [[[ok stats] w1]|] eqn:E; [|done]);
    cbn [mbind option_bind] in Hrun; injection Hrun as <- <- <-; split; [done| |done|];
    unfold BackupEngine.Run in E; apply run_loop_in_turn in E as (rs & Ht & -> & ->); cbn [app andb];
    exists rs; (split; [done|]); (split; [done|]); intros d Hd Hm;
    by rewrite (in_turn_fails _ _ _ _ _ _ _ _ Ht Hd Hm).
Qed.

(** ** Example

    A simulated backup of all disks of a machine that has only the first. *)

Definition demo_runtime : Runtime := {| wtoi := fun _ => 0; to_utf8 := fun s => s |}.
Abbreviation demo_command :=
  (@wmain DemoNet CbtDriver.Driver demo_socket demo_io sample_service sample_volumes demo_api demo_runtime ascii_page
    merge_sorted (fun _ => demo_machine) (fun _ => demo_threads) (fun _ => None) {| ta_sid := true; ta_member := 1 |} 10
    (wide "client.exe" :: wide "backup" :: wide "all" :: concat (map render [OptWindow (wide "4"); OptDryRun])) demo_world).

Lemma backup_command_witness :
  exists c w', demo_command = Some (0, BackupReport c (seqZ 0 8) false [], w').
Proof.
  assert ((fun r => r.1.1) <$> demo_command = Some 0) as Eb by (vm_compute; reflexivity).
  destruct demo_command as [[[code report] w']|] eqn:E; [|done].
  cbn [fmap option_fmap option_map fst snd] in Eb. injection Eb as ->.
  pose proof (@backup_command DemoNet CbtDriver.Driver demo_socket demo_io sample_service sample_volumes demo_api
    demo_runtime ascii_page merge_sorted (fun _ => demo_machine) (fun _ => demo_threads) (fun _ => None) {| ta_sid := true; ta_member := 1 |} 10%nat
    (wide "client.exe") (wide "all") [OptWindow (wide "4"); OptDryRun] demo_world 0 report w'
    ltac:(by repeat constructor) E) as Hc.
  cbv zeta in Hc. cbn [fold_left apply_option set_DryRun set_PipelineWindowSize set_engine engine DryRun negb andb] in Hc.
  change (negb (IsAdministrator _) || false) with false in Hc. cbv iota in Hc.
  destruct Hc as [_ (rs & _ & _ & Hfail)]. eexists _, w'. rewrite (Hfail 1); [done| |done].
  unfold parse_target. rewrite bool_decide_true by done. apply elem_of_seqZ. lia.
Defined.
