(* ===== verification/ClientConsole.v ===== *)
(** * The console of the client program

    What [client/main.cpp] writes to its standard output: sizes, the layout of a
    disk, the list of disks, the help and the messages of the commands, as the
    text of the reports of [ClientMain].  The program's log, which goes to the
    same console, is [ClientLogger]; the encoding of the console is not
    modelled. *)

From Stdlib Require Import Ascii String SpecFloat.
From S2P Require Import Prelude.
From S2P Require Import ServerLogger.
From S2P Require Import ConsoleText.
From S2P Require Import DiskScanner.
From S2P Require Import DiskParser.
From S2P Require Import VolumeMapper.
From S2P Require Import Pipeline.
From S2P Require Import BackupEngine.
From S2P Require Import ClientMain.

Local Open Scope list_scope.

(** ** Definitions *)

Definition PartitionContentToStr (c : PartitionContent) : list Z :=
  text match c with
       | ContentUnknown => "Unknown" | FilesystemNTFS => "NTFS" | FilesystemFAT32 => "FAT32"
       | FilesystemExFAT => "exFAT" | FilesystemReFS => "ReFS" | RawPartition => "Raw" | Reserved => "Reserved"
       end.

(** The strings [DiskParser] assigns to [FsName]. *)
Definition FsName (l : FsLabel) : list Z :=
  text match l with
       | FsNone => "" | FsMSR => "MSR" | FsESP => "ESP" | FsUnreadable => "Unreadable"
       | FsBitLocker => "BitLocker-NTFS" | FsNTFS => "NTFS" | FsReFS => "ReFS" | FsExFAT => "exFAT"
       | FsFAT32 => "FAT32" | FsFAT16 => "FAT16" | FsRaw => "Raw"
       end.

(** [(double)size / (1024.0 * 1024.0 * 1024.0)], and with one factor less. *)
Definition gigabytes (size : Z) : spec_float := fdiv (of_u64 size) (of_u64 (2 ^ 30)).
Definition megabytes (size : Z) : spec_float := fdiv (of_u64 size) (of_u64 (2 ^ 20)).
Definition at_least_one (f : spec_float) : bool := SFleb (of_u64 1) f.

(** The text in front of the exact number. *)
Definition readable (size : Z) : list Z :=
  if at_least_one (gigabytes size) then fixed 2 (gigabytes size) ++ text " GB "
  else fixed 2 (megabytes size) ++ text " MB ".
Definition PrintSize (size : Z) : list Z := readable size ++ text "(" ++ dec size ++ text " bytes)".

(** *** The layout of a disk *)

(** A line of the metadata regions and of the unallocated ranges. *)
Definition range_line (i : Z) (r : DiskRange) : list Z :=
  text "    [" ++ dec i ++ text "] Offset=0x" ++ hex 10 (r_Offset r) ++ text "  Size=" ++ PrintSize (r_Size r)
    ++ [NEWLINE].
Fixpoint range_lines (i : Z) (rs : list DiskRange) : list Z :=
  match rs with [] => [] | r :: rs' => range_line i r ++ range_lines (i + 1) rs' end.

Definition guid_text (g : list Z) : list Z :=
  text "{" ++ HEX 8 (rd_le 0 4 g) ++ text "-" ++ HEX 4 (rd_le 4 2 g) ++ text "-" ++ HEX 4 (rd_le 6 2 g) ++ text "-"
    ++ concat (map (HEX 2) (sub 8 2 g)) ++ text "-" ++ concat (map (HEX 2) (sub 10 6 g)) ++ text "}".

Definition partition_size (size : Z) : list Z :=
  if at_least_one (gigabytes size) then fixed 2 (gigabytes size) ++ text " GB"
  else dec (size / (1024 * 1024)) ++ text " MB".

Definition partition_line (p : PartitionInfo) : list Z :=
  text "  " ++ left 6 (dec (p_Index p)) ++ text " 0x" ++ hex 10 (p_Offset p) ++ text "  "
    ++ left 14 (partition_size (p_Size p)) ++ text " "
    ++ left 12 (PartitionContentToStr (p_Content p)) ++ text " "
    ++ left 8 (text (if p_IsEncrypted p then "YES" else "no")) ++ text " "
    ++ match p_Content p with
       | FilesystemNTFS | FilesystemFAT32 | FilesystemExFAT | FilesystemReFS =>
           text "VSS  [" ++ FsName (p_FsName p) ++ text "]"
       | RawPartition => text "RAW  [" ++ FsName (p_FsName p) ++ text "]"
       | Reserved => text "SKIP [" ++ FsName (p_FsName p) ++ text "]"
       | ContentUnknown => text "???"
       end
    ++ match p_Name p with [] => [] | name => text "  " ++ [34] ++ c_str name ++ [34] end
    ++ [NEWLINE].

(** A table of columns: 6, 14, 14, 12, 8 characters and the rest. *)
Definition partition_columns (a b c d e f : string) : list Z :=
  text "  " ++ left 6 (text a) ++ text " " ++ left 14 (text b) ++ text " " ++ left 14 (text c) ++ text " "
    ++ left 12 (text d) ++ text " " ++ left 8 (text e) ++ text " " ++ ln f.

Definition mapped_line (mp : MappedPartition) : list Z :=
  text "    " ++ left 6 (dec (p_Index (mp_Partition mp))) ++ text " 0x" ++ hex 10 (p_Offset (mp_Partition mp))
    ++ text "  " ++ left 8 (match mp_DriveLetter mp with [] => text "(none)" | d => c_str d end) ++ text " "
    ++ c_str (mp_VolumeGuid mp) ++ [NEWLINE].
Definition mapped_columns (a b c d : string) : list Z :=
  text "    " ++ left 6 (text a) ++ text " " ++ left 14 (text b) ++ text " " ++ left 8 (text c) ++ text " " ++ ln d.

Definition count_line (label : string) (n : Z) (rest : string) : list Z :=
  text label ++ right 2 (dec_int n) ++ ln rest.

Definition layout_rule : list Z := ln "===============================================================================".

(** The end of the report. *)
Definition summary_text (l : DiskLayout) (t : Totals) : list Z :=
  [NEWLINE] ++ text "  " ++ layout_rule ++ ln "  BACKUP SUMMARY" ++ text "  " ++ layout_rule
    ++ count_line "    Filesystem partitions : " (fsCount t) "  (VSS backup)"
    ++ count_line "    Raw / bare partitions : " (rawCount t) "  (physical read)"
    ++ count_line "    Reserved partitions   : " (reservedCount t) "  (metadata backup)"
    ++ count_line "    Unknown / unreadable  : " (unknownCount t) ""
    ++ count_line "    Unallocated ranges    : " (zlen (FreeRanges l)) "  (skip)"
    ++ [NEWLINE]
    ++ text "    Filesystem data size  : " ++ PrintSize (fsBytes t) ++ [NEWLINE]
    ++ text "    Raw partition size    : " ++ PrintSize (rawBytes t) ++ [NEWLINE]
    ++ text "    Metadata size         : ~"
    ++ dec (u64 (zlen (MetadataRanges l) * d_SectorSize (Disk l)) / 1024) ++ ln " KB".

(** The disk, its regions and partitions.  [signature]: the contents of
    [layout.Disk.MBR.Signature], which no code assigns. *)
Definition disk_text (signature devno : Z) (l : DiskLayout) : list Z :=
  let d := Disk l in
  [NEWLINE] ++ layout_rule ++ text "  DISK LAYOUT REPORT - PhysicalDrive" ++ dec_int devno ++ [NEWLINE] ++ layout_rule ++ [NEWLINE]
    ++ ln "  [Disk Info]"
    ++ text "    Device Number : " ++ dec_int (d_DeviceNumber d) ++ [NEWLINE]
    ++ text "    Sector Size   : " ++ dec (d_SectorSize d) ++ ln " bytes"
    ++ text "    Total Size    : " ++ PrintSize (d_Size d) ++ [NEWLINE]
    ++ text "    Partition Style: "
    ++ ln (match d_Style d with GPT => "GPT" | MBR => "MBR" | StyleUnknown => "Unknown" end)
    ++ match d_Style d with
       | GPT => text "    GPT Disk GUID : " ++ guid_text (DiskGuid (d_GPT d)) ++ [NEWLINE]
       | MBR => text "    MBR Signature  : 0x" ++ HEX 8 signature ++ [NEWLINE]
       | StyleUnknown => []
       end
    ++ match MetadataRanges l with
       | [] => []
       | rs => [NEWLINE] ++ text "  [Metadata Regions] (" ++ dec (zlen rs) ++ ln " region(s))" ++ range_lines 0 rs
       end
    ++ match Partitions l with
       | [] => []
       | ps =>
           [NEWLINE] ++ text "  [Partitions] (" ++ dec (zlen ps) ++ ln " partition(s))"
             ++ partition_columns "Index" "Offset" "Size" "Content" "Encrypt" "Backup Strategy / FS Name"
             ++ partition_columns "-----" "--------------" "--------------" "------------" "--------"
                  "--------------------------"
             ++ concat (map partition_line ps)
       end
    ++ match FreeRanges l with
       | [] => []
       | rs =>
           [NEWLINE] ++ text "  [Unallocated Space] (" ++ dec (zlen rs) ++ ln " range(s)) - will NOT be backed up"
             ++ range_lines 0 rs
       end.

Definition mapping_text (any : bool) (mapped : list MappedPartition) : list Z :=
  [NEWLINE] ++ ln "  [Volume Mapping]"
    ++ if any then
         mapped_columns "Part#" "Offset" "Drive" "Volume GUID"
           ++ mapped_columns "-----" "--------------" "--------" "------------------------------------"
           ++ concat (map mapped_line mapped)
       else ln "    No volume mappings found (admin privileges required)".

Definition PrintDiskLayout (signature devno : Z) (r : LayoutResult) : list Z :=
  match r with
  | CannotOpen => text "[ERROR] Cannot open PhysicalDrive" ++ dec_int devno ++ [NEWLINE]
  | ParseFailed => text "[ERROR] DiskParser::Parse failed for PhysicalDrive" ++ dec_int devno ++ [NEWLINE]
  | Parsed l any mapped totals => disk_text signature devno l ++ mapping_text any mapped ++ summary_text l totals
  end.

(** *** The other commands *)

Definition PrintDiskInfoBrief (d : DiskScanner.DiskInfo) : list Z :=
  text "  Disk " ++ left 3 (dec_int (di_DevNo d)) ++ text "  " ++ PrintSize (di_Size d) ++ text "  "
    ++ text (if di_IsGPT d then "GPT" else if di_IsMBR d then "MBR" else "RAW") ++ text "  "
    ++ c_str (di_Vendor d) ++ text "  " ++ left 20 (c_str (di_Model d))
    ++ match di_SerialNumber d with [] => [] | s => text "  S/N:" ++ c_str s end ++ [NEWLINE].

Definition disk_columns (a b c d e : string) : list Z :=
  text "  " ++ left 6 (text a) ++ text " " ++ left 14 (text b) ++ text " " ++ left 5 (text c) ++ text " "
    ++ left 20 (text d) ++ text " " ++ ln e.

Definition disk_list_text (disks : list DiskScanner.DiskInfo) : list Z :=
  [NEWLINE] ++ layout_rule ++ text "  DISK LIST (" ++ dec (zlen disks) ++ ln " disk(s) found)" ++ layout_rule
    ++ disk_columns "Disk#" "Size" "Style" "Model" "Serial"
    ++ disk_columns "-----" "--------------" "-----" "--------------------" "------------------"
    ++ concat (map PrintDiskInfoBrief disks)
    ++ [NEWLINE] ++ ln "  Use 'query_disk <N>' for detailed layout of a specific disk." ++ [NEWLINE].

Definition PrintHelp : list Z :=
  [NEWLINE]
    ++ ln "Usage:"
    ++ ln "  client.exe query_disks              Enumerate all physical disks (fast scan)"
    ++ ln "  client.exe query_disk  <devno>      Detailed disk layout + volume mapping"
    ++ ln "  client.exe backup <all|devno>       Backup disk(s) to server"
    ++ ln "  client.exe cleanup-shadows          Delete orphaned VSS snapshots (admin)"
    ++ ln "         --cbt        Use CBT incremental tracking"
    ++ ln "         --serverip   Server IP address"
    ++ ln "         --port       Server port"
    ++ ln "         --dryrun     Simulated mode (no server)"
    ++ ln "         --retry N    Retry count (default 3)"
    ++ ln "         --state-dir  State file directory"
    ++ ln "         --window N   Pipeline window size (default 6)"
    ++ [NEWLINE]
    ++ ln "Examples:"
    ++ ln "  client.exe query_disks"
    ++ ln "  client.exe query_disk  0"
    ++ ln "  client.exe backup 0 --serverip 192.168.1.100 --port 9000"
    ++ ln "  client.exe backup all --cbt --dryrun"
    ++ [NEWLINE].

(** Before the backup, and after it. *)
Definition config_text (c : ClientConfig) (targets : list Z) : list Z :=
  let bar := ln "========================================================" in
  [NEWLINE] ++ bar
    ++ text "  BACKUP " ++ text (if UseCbt (engine c) then "INCREMENTAL (CBT)" else "FULL")
    ++ ln (if DryRun (engine c) then " [DRY RUN]" else "") ++ bar
    ++ text "  Targets : " ++ concat (map (fun d => text "Disk" ++ dec_int d ++ text " ") targets) ++ [NEWLINE]
    ++ (if DryRun (engine c) then []
        else text "  Server  : " ++ c_str (ServerIp c) ++ text ":" ++ dec (Port c) ++ [NEWLINE])
    ++ text "  Window  : " ++ dec_int (PipelineWindowSize (engine c)) ++ [NEWLINE]
    ++ text "  Retry   : " ++ dec_int (RetryCount (engine c)) ++ [NEWLINE]
    ++ text "  State   : " ++ c_str (StateDir c) ++ [NEWLINE; NEWLINE].

Definition stats_line (s : DiskStats) : list Z :=
  text "  Disk" ++ dec_int (ds_DevNo s) ++ text ": sent=" ++ dec (SentBlocks (ds_transfer s))
    ++ text " acked=" ++ dec (AckedBlocks (ds_transfer s)) ++ [NEWLINE].

Definition result_text (complete : bool) (stats : list DiskStats) : list Z :=
  [NEWLINE] ++ (if complete then ln "  BACKUP COMPLETE" ++ concat (map stats_line stats)
                else ln "  BACKUP FAILED") ++ [NEWLINE].

Definition problem_text (p : Problem) : list Z :=
  match p with
  | NotAdministrator => []
  | NoDisks => ln "[ERROR] Failed to enumerate disks"
  | NoDiskNumber => ln "[ERROR] Missing disk number" ++ PrintHelp
  | ScanFailed devno =>
      text "[ERROR] DiskScanner::Enumerate failed for PhysicalDrive" ++ dec_int devno ++ [NEWLINE]
        ++ ln "  Make sure the disk exists and you have administrator privileges."
  | NoTarget => ln "[ERROR] Missing target disk number" ++ PrintHelp
  | NoServerIp => ln "[ERROR] --serverip required (or use --dryrun)"
  | NoPort => ln "[ERROR] --port required (or use --dryrun)"
  | CleanupFailed =>
      [NEWLINE] ++ ln "Cleaning up orphaned VSS snapshots..."
        ++ ln "  Cleanup failed (check backup.log for details)" ++ [NEWLINE]
  | UnknownCommand cmd => text "[ERROR] Unknown command: " ++ c_str cmd ++ [NEWLINE] ++ PrintHelp
  end.

(** What [wmain] prints; [shadows]: what [vssadmin list shadows] does. *)
Definition client_console (signature : Z) (shadows : list Z) (r : Report) : list Z :=
  match r with
  | Help => PrintHelp
  | Failure p => problem_text p
  | DiskList disks => disk_list_text disks
  | LayoutReport devno info layout =>
      text "  Vendor : " ++ c_str (di_Vendor info) ++ [NEWLINE]
        ++ text "  Model  : " ++ c_str (di_Model info) ++ [NEWLINE]
        ++ text "  Serial : " ++ c_str (di_SerialNumber info) ++ [NEWLINE]
        ++ PrintDiskLayout signature devno layout
  | BackupReport c targets complete stats => config_text c targets ++ result_text complete stats
  | Deleted n =>
      [NEWLINE] ++ ln "Cleaning up orphaned VSS snapshots..."
        ++ text "  Deleted: " ++ dec_int n ++ ln " snapshot set(s)" ++ [NEWLINE]
        ++ ln "Verifying with vssadmin..." ++ shadows ++ [NEWLINE]
  end.

(** ** Reading the regions back *)

(** The text behind the first [c]. *)
Fixpoint skip_past (c : Z) (s : list Z) : option (list Z) :=
  match s with
  | [] => None
  | d :: s' => if d =? c then Some s' else skip_past c s'
  end.

(** The number of a line, the region it shows and the text behind it. *)
Definition read_range (s : list Z) : option (Z * DiskRange * list Z) :=
  s ← expect (text "    [") s;
  let '(i, s) := read_number 10 s in
  s ← expect (text "] Offset=0x") s;
  let '(offset, s) := read_number 16 s in
  s ← skip_past 40 s;
  let '(size, s) := read_number 10 s in
  s ← expect (text " bytes)" ++ [NEWLINE]) s;
  Some (i, {| r_Offset := offset; r_Size := size |}, s).

(** The regions of [n] lines, numbered from [i]. *)
Fixpoint read_ranges (n : nat) (i : Z) (s : list Z) : option (list DiskRange) :=
  match n with
  | O => match s with [] => Some [] | _ => None end
  | S n' =>
      r ← read_range s;
      let '(j, range, s) := r in
      if j =? i then cons range <$> read_ranges n' (i + 1) s else None
  end.

(** The offset and the size of a region are 64-bit integers. *)
Definition range_typed (r : DiskRange) : Prop := in_width 64 (r_Offset r) /\ in_width 64 (r_Size r).

(** ** Lemmas *)

Lemma skip_past_ok c w s : c ∉ w -> skip_past c (w ++ c :: s) = Some s.
Proof.
  induction w as [|d w IH]; intros Hw; cbn [app skip_past]; [by rewrite Z.eqb_refl|].
  apply not_elem_of_cons in Hw as [Hd Hw]. test_false (d =? c). by apply IH.
Qed.

(** The readable form holds no parenthesis. *)
Lemma readable_plain size : 40 ∉ readable size.
Proof.
  assert (forall f s, Forall plain (fixed 2 f) /\ 40 ∉ s -> 40 ∉ fixed 2 f ++ s) as Ha.
  { intros f s [Hf Hs] [Hin|Hin]%elem_of_app; [|done]. rewrite Forall_forall in Hf. apply Hf in Hin.
    unfold plain in Hin. lia. }
  unfold readable. destruct (at_least_one _); apply Ha; (split; [apply fixed_plain|evaluate]).
Qed.

Lemma read_range_ok i r s : in_width 64 i -> range_typed r -> read_range (range_line i r ++ s) = Some (i, r, s).
Proof.
  intros Hi [Ho Hs]. unfold range_line, PrintSize, read_range. rewrite <- !app_assoc, expect_ok.
  cbn [mbind option_bind]. unfold dec, hex. rewrite read_number_ok by (done || (by left) || lia).
  rewrite expect_ok. cbn [mbind option_bind]. rewrite read_number_ok by (done || (by left) || lia).
  change (text "(" ++ ?a) with (40 :: a). rewrite (app_assoc (text "  Size=")), skip_past_ok.
  2:{ intros [Hin|Hin]%elem_of_app; [|by apply readable_plain in Hin].
      assert (40 ∉ text "  Size=") as Hn by evaluate. by apply Hn. }
  cbn [mbind option_bind]. rewrite read_number_ok by (done || (by left) || lia).
  change (text " bytes)" ++ [NEWLINE] ++ s) with ((text " bytes)" ++ [NEWLINE]) ++ s).
  rewrite expect_ok. cbn [mbind option_bind]. by destruct r.
Qed.

(** the layout shows the disk's regions.  Whatever the sizes, the lines of
    the metadata regions and of the unallocated ranges number the regions from
    zero and can be read back: the readable form of a size is rounded, the
    number of bytes behind it is exact. *)
Theorem regions_read_back rs :
  Forall range_typed rs -> zlen rs < 2 ^ 64 -> read_ranges (length rs) 0 (range_lines 0 rs) = Some rs.
Proof.
  intros Hrs. assert (forall i, 0 <= i -> i + zlen rs < 2 ^ 64 ->
    read_ranges (length rs) i (range_lines i rs) = Some rs) as Hgo; [|intros Hl; by apply (Hgo 0)].
  induction Hrs as [|r rs Hr _ IH]; intros i Hi Hl; [done|]. cbn [length range_lines read_ranges] in *.
  rewrite read_range_ok by (done || unfold in_width; lia). cbn [mbind option_bind].
  rewrite Z.eqb_refl, IH by lia. done.
Qed.

(** ** Examples *)

Definition sample_regions : list DiskRange :=
  [{| r_Offset := 0; r_Size := 512 |}; {| r_Offset := 0x100000; r_Size := 1610612736 |}].

Example sample_lines :
  range_lines 0 sample_regions
  = ln "    [0] Offset=0x0000000000  Size=0.00 MB (512 bytes)"
    ++ ln "    [1] Offset=0x0000100000  Size=1.50 GB (1610612736 bytes)".
Proof. by vm_compute. Qed.

Lemma regions_read_back_witness :
  read_ranges 2 0 (range_lines 0 sample_regions) = Some sample_regions.
Proof. apply (regions_read_back sample_regions); [repeat constructor; cbn; unfold in_width; lia|cbn; lia]. Defined.

(** The size of the metadata is shown as that of so many sectors: the entries
    of a GPT disk take 32 of them. *)
Definition gpt_layout_shown : DiskLayout :=
  {| Disk := {| d_DeviceNumber := 0; d_Size := 2 ^ 30; d_SectorSize := 512; d_Style := GPT; d_GPT := GPTInfo_zero |};
     Partitions := []; FreeRanges := [];
     MetadataRanges := [{| r_Offset := 0; r_Size := 512 |}; {| r_Offset := 512; r_Size := 512 |};
                        {| r_Offset := 1024; r_Size := 16384 |}] |}.
Example metadata_size_shown :
  let shown := summary_text gpt_layout_shown (summary gpt_layout_shown) in
  let end_ := ln "    Metadata size         : ~1 KB" in
  drop (length shown - length end_) shown = end_.
Proof. by vm_compute. Qed.
