(* ===== verification/ServerMain.v ===== *)
(** * The server program

    [server/main.cpp] and the start of [server/Server.cpp]: the command line,
    the table of disks, the listening address, up to the event loop.  The
    options come from [getopt_long]; [std::stoul] and [std::stoi] are written
    out. *)

From Stdlib Require Import Ascii String.
From S2P Require Import Prelude.
From S2P Require Import DiskMap.

Local Open Scope list_scope.

(** ** Definitions *)

Definition str (s : string) : list Z := map (fun a => Z.of_nat (nat_of_ascii a)) (list_ascii_of_string s).

(** *** Numbers *)

Definition is_space (c : Z) : bool := (c =? 32) || ((9 <=? c) && (c <=? 13)).
Definition is_digit (c : Z) : bool := (48 <=? c) && (c <=? 57).

Fixpoint skip_spaces (s : list Z) : list Z :=
  match s with c :: s' => if is_space c then skip_spaces s' else s | [] => [] end.

(** The digits at the front: their number and their value after [acc]. *)
Fixpoint digits (s : list Z) (n : nat) (acc : Z) : nat * Z :=
  match s with
  | c :: s' => if is_digit c then digits s' (S n) (10 * acc + (c - 48)) else (n, acc)
  | [] => (n, acc)
  end.

(** An optional sign, then digits: the sign and the value; [None] without a
    digit. *)
Definition signed_digits (s : list Z) : option (bool * Z) :=
  let '(neg, s) := match skip_spaces s with
                   | 43 :: s' => (false, s')
                   | 45 :: s' => (true, s')
                   | s' => (false, s')
                   end in
  let '(n, v) := digits s 0 0 in
  if (n =? 0)%nat then None else Some (neg, v).

(** The exceptions are [None]: [std::invalid_argument], [std::out_of_range]. *)
Definition stoul (s : list Z) : option Z :=
  '(neg, v) ← signed_digits s;
  if 2 ^ 64 <=? v then None else Some (if (neg : bool) then u64 (- v) else v).
Definition stoi (s : list Z) : option Z :=
  '(neg, v) ← signed_digits s;
  let x := if (neg : bool) then - v else v in
  if (x <? - 2 ^ 31) || (2 ^ 31 <=? x) then None else Some x.

(** *** The options *)

Definition COLON : Z := 58.

(** The string in front of the first colon and the one behind it. *)
Fixpoint split_first (s : list Z) : option (list Z * list Z) :=
  match s with
  | [] => None
  | c :: s' =>
      if c =? COLON then Some ([], s')
      else '(a, b) ← split_first s'; Some (c :: a, b)
  end.
(** The same at the last colon. *)
Fixpoint split_last (s : list Z) : option (list Z * list Z) :=
  match s with
  | [] => None
  | c :: s' =>
      match split_last s' with
      | Some (a, b) => Some (c :: a, b)
      | None => if c =? COLON then Some ([], s') else None
      end
  end.

Definition ParseDisk (s : list Z) : option (Z * list Z) :=
  '(number, path) ← split_first s;
  v ← stoul number;
  if 0xFFFFFFFF <? v then None else match path with [] => None | _ => Some (v, path) end.

Inductive Opt := OptListen (arg : list Z) | OptDisk (arg : list Z) | OptVerbose | OptHelp | OptOther.

Record CliArgs := { listen : list Z; disks : list (Z * list Z); verbose : bool }.
Definition CliArgs_new : CliArgs := {| listen := []; disks := []; verbose := false |}.

(** The loop over the options: the arguments, or the exit code. *)
Fixpoint parse_args (opts : list Opt) (a : CliArgs) : CliArgs + Z :=
  match opts with
  | [] => inl a
  | OptListen arg :: opts' => parse_args opts' {| listen := arg; disks := disks a; verbose := verbose a |}
  | OptDisk arg :: opts' =>
      match ParseDisk arg with
      | None => inr 1
      | Some d => parse_args opts' {| listen := listen a; disks := disks a ++ [d]; verbose := verbose a |}
      end
  | OptVerbose :: opts' => parse_args opts' {| listen := listen a; disks := disks a; verbose := true |}
  | OptHelp :: _ => inr 0
  | OptOther :: _ => inr 1
  end.

(** *** The listening socket *)

(** The answers of the socket calls: descriptors, and the address [inet_pton]
    reads. *)
Record SocketAnswers := {
  sk_socket : option Z; sk_pton : list Z -> option Z; sk_bind : bool; sk_listen : bool;
  sk_epoll : option Z }.

(** [None] without a colon; [Some None]: the exception of [std::stoi]. *)
Definition ParseListenAddr (addr : list Z) : option (option (list Z * Z)) :=
  match split_last addr with
  | None => None
  | Some (ip, port) => Some (n ← stoi port; Some (ip, wrap 16 n))
  end.

(** The listening socket with its address and port; a failure leaves the socket
    open once [socket] has given it, and [listenFd_] holds it. *)
Inductive Setup := SetupFailed (sock : option Z) | SetupThrows | SetupDone (fd address port : Z).

Definition SetupListenSocket (k : SocketAnswers) (addr : list Z) : Setup :=
  match ParseListenAddr addr with
  | None => SetupFailed None
  | Some None => SetupThrows
  | Some (Some (ip, port)) =>
      match sk_socket k with
      | None => SetupFailed None
      | Some fd =>
          let address := if bool_decide (ip = []) || bool_decide (ip = str "0.0.0.0") then 0
                         else match sk_pton k ip with Some a => a | None => 0 end in
          if negb (sk_bind k) then SetupFailed (Some fd)
          else if negb (sk_listen k) then SetupFailed (Some fd)
          else SetupDone fd address port
      end
  end.

Inductive Started := NotStarted (sock : option Z) | Uncaught | Listening (fd epfd address port : Z).

Definition Start (k : SocketAnswers) (addr : list Z) : Started :=
  match SetupListenSocket k addr with
  | SetupFailed sock => NotStarted sock
  | SetupThrows => Uncaught
  | SetupDone fd address port =>
      match sk_epoll k with
      | None => NotStarted (Some fd)
      | Some epfd => Listening fd epfd address port
      end
  end.

(** [main] up to [server.Run()]: an exit code with the listening socket that is
    still open (the destructor's [Stop] returns at once while [running_] is
    false), an uncaught exception, or the server's table, descriptors and
    address. *)
Inductive MainResult := Exit (code : Z) (st : DiskState) (sock : option Z) | Terminated (st : DiskState)
| Serving (st : DiskState) (fd epfd address port : Z).

Definition main (os_open : gset Z -> list Z -> option Z) (os_fstat : Z -> option Stat) (k : SocketAnswers)
    (opts : list Opt) (st : DiskState) : MainResult :=
  match parse_args opts CliArgs_new with
  | inr code => Exit code st None
  | inl a =>
      if bool_decide (listen a = []) || bool_decide (disks a = []) then Exit 1 st None
      else
        let '(ok, st) := AddDisks os_open os_fstat (disks a) st in
        if negb ok then Exit 1 st None
        else match Start k (listen a) with
             | NotStarted sock => Exit 1 st sock
             | Uncaught => Terminated st
             | Listening fd epfd address port => Serving st fd epfd address port
             end
  end.

(** ** Lemmas *)

(** Decimal numbers as digits. *)
Definition digits_ok (ds : list Z) : Prop := ds <> [] /\ Forall (fun d => 0 <= d <= 9) ds.
Definition decimal (ds : list Z) : list Z := map (Z.add 48) ds.
Definition value (ds : list Z) : Z := fold_left (fun acc d => 10 * acc + d) ds 0.

Lemma digits_decimal ds rest n acc :
  Forall (fun d => 0 <= d <= 9) ds -> match rest with c :: _ => is_digit c = false | [] => True end ->
  digits (decimal ds ++ rest) n acc = ((n + length ds)%nat, fold_left (fun acc d => 10 * acc + d) ds acc).
Proof.
  intros Hd Hr. revert n acc. induction Hd as [|d ds Hd _ IH]; intros n acc; cbn [decimal map app digits fold_left length].
  - destruct rest as [|c rest]; [by rewrite Nat.add_0_r|]. cbn [digits]. by rewrite Hr, Nat.add_0_r.
  - assert (is_digit (48 + d) = true) as -> by (unfold is_digit; lia). change (map (Z.add 48) ds) with (decimal ds).
    rewrite IH. f_equal; [lia|]. do 2 f_equal. lia.
Qed.

Lemma value_nonneg ds : Forall (fun d => 0 <= d <= 9) ds -> 0 <= value ds.
Proof.
  unfold value. assert (forall acc, 0 <= acc -> Forall (fun d => 0 <= d <= 9) ds ->
    0 <= fold_left (fun acc d => 10 * acc + d) ds acc) as H; [|by apply H].
  induction ds as [|d ds IH]; intros acc Ha Hd; [done|]. apply Forall_cons in Hd as [? Hd].
  apply IH; [lia|done].
Qed.

Lemma signed_decimal ds rest :
  digits_ok ds -> match rest with c :: _ => is_digit c = false | [] => True end ->
  signed_digits (decimal ds ++ rest) = Some (false, value ds).
Proof.
  intros [Hne Hd] Hr. destruct ds as [|d ds]; [done|]. pose proof Hd as [Hd0 _]%Forall_cons.
  unfold signed_digits. replace (skip_spaces (decimal (d :: ds) ++ rest)) with (decimal (d :: ds) ++ rest).
  2:{ cbn. unfold is_space. replace ((48 + d =? 32) || ((9 <=? 48 + d) && (48 + d <=? 13))) with false by lia. done. }
  assert (forall (A : Type) (a b : list Z -> A) (c : list Z -> A),
    match decimal (d :: ds) ++ rest with 43 :: s' => a s' | 45 :: s' => b s' | s' => c s' end = c (decimal (d :: ds) ++ rest)) as Hm.
  { intros A a b c. cbn [decimal map app]. assert (d = 0 \/ d = 1 \/ d = 2 \/ d = 3 \/ d = 4 \/ d = 5 \/ d = 6 \/ d = 7 \/ d = 8 \/ d = 9)
      as [->|[->|[->|[->|[->|[->|[->|[->|[->| ->]]]]]]]]] by lia; done. }
  rewrite Hm. rewrite digits_decimal by done. done.
Qed.

Lemma split_first_digits ds path :
  Forall (fun d => 0 <= d <= 9) ds -> split_first (decimal ds ++ COLON :: path) = Some (decimal ds, path).
Proof.
  induction 1 as [|d ds Hd _ IH]; [done|].
  change (decimal (d :: ds)) with ((48 + d) :: decimal ds). cbn [app split_first].
  replace (48 + d =? COLON) with false by (unfold COLON; lia). by rewrite IH.
Qed.

Lemma split_last_none s : COLON ∉ s -> split_last s = None.
Proof.
  induction s as [|c s IH]; intros Hn; [done|]. cbn [split_last]. apply not_elem_of_cons in Hn as [Hc Hn].
  rewrite IH by done. by replace (c =? COLON) with false by lia.
Qed.

Lemma split_last_digits ip ds :
  Forall (fun d => 0 <= d <= 9) ds -> split_last (ip ++ COLON :: decimal ds) = Some (ip, decimal ds).
Proof.
  intros Hd. assert (COLON ∉ decimal ds) as Hn.
  { unfold decimal. intros (d & Heq & Hin)%list_elem_of_fmap. rewrite Forall_forall in Hd.
    specialize (Hd d Hin). unfold COLON in *. lia. }
  induction ip as [|c ip IH]; cbn [app split_last].
  - by rewrite split_last_none.
  - by rewrite IH.
Qed.

Lemma ParseDisk_decimal ds path :
  digits_ok ds -> ParseDisk (decimal ds ++ COLON :: path)
  = if (value ds <? 2 ^ 32) && negb (bool_decide (path = [])) then Some (value ds, path) else None.
Proof.
  intros Hd. pose proof Hd as [_ Hd']. unfold ParseDisk. rewrite split_first_digits by done. cbn [mbind option_bind].
  unfold stoul. rewrite <- (app_nil_r (decimal ds)), signed_decimal by done. cbn [mbind option_bind].
  destruct (Z.lt_ge_cases (value ds) (2 ^ 64)) as [H|H].
  - test_false (2 ^ 64 <=? value ds). cbn [mbind option_bind].
    destruct (Z.lt_ge_cases (value ds) (2 ^ 32)).
    + test_false (0xFFFFFFFF <? value ds). test_true (value ds <? 2 ^ 32). by destruct path.
    + test_true (0xFFFFFFFF <? value ds). by test_false (value ds <? 2 ^ 32).
  - test_true (2 ^ 64 <=? value ds). by test_false (value ds <? 2 ^ 32).
Qed.

(** A command line: the address and the disks. *)
Definition disk_arg (e : list Z * list Z) : Opt := OptDisk (decimal (e.1) ++ COLON :: e.2).
Definition disk_arg_ok (e : list Z * list Z) : Prop := digits_ok (e.1) /\ value (e.1) < 2 ^ 32 /\ e.2 <> [].

Lemma parse_args_disks es a :
  Forall disk_arg_ok es ->
  parse_args (map disk_arg es) a
  = inl {| listen := listen a; disks := disks a ++ map (fun e => (value (e.1), e.2)) es; verbose := verbose a |}.
Proof.
  intros He. revert a. induction He as [|[ds path] es (Hd & Hv & Hp) _ IH]; intros a; cbn [map parse_args disk_arg].
  - rewrite app_nil_r. by destruct a.
  - cbn [fst snd] in *. rewrite ParseDisk_decimal by done. test_true (value ds <? 2 ^ 32).
    rewrite bool_decide_false by done. cbn [negb andb]. rewrite IH. cbn. by rewrite <- app_assoc.
Qed.

(** Every socket call of [Start] succeeds. *)
Definition sockets_work (k : SocketAnswers) : bool :=
  bool_decide (is_Some (sk_socket k)) && sk_bind k && sk_listen k && bool_decide (is_Some (sk_epoll k)).

(** [main] on a well-formed command line, for the theorems about it. *)
Lemma main_command_line os_open os_fstat base k ip port es :
  os_open_ok os_open -> (forall fd s, os_fstat fd = Some s -> st_size s < 2 ^ 63) ->
  digits_ok port -> value port < 2 ^ 31 -> es <> [] -> Forall disk_arg_ok es ->
  NoDup (map (fun e => value (e.1)) es) ->
  let st0 := {| map_ := ∅; open_fds := base |} in
  let disks := map (fun e => (value (e.1), e.2)) es in
  let st := (AddDisks os_open os_fstat disks st0).2 in
  DiskMap_inv base ∅ st /\
  match main os_open os_fstat k (OptListen (ip ++ COLON :: decimal port) :: map disk_arg es) st0 with
  | Exit code st' sock => code = 1 /\ st' = st /\
      if (AddDisks os_open os_fstat disks st0).1 then sockets_work k = false /\ sock = sk_socket k
      else sock = None
  | Terminated _ => False
  | Serving st' fd epfd address p =>
      st' = st /\ (AddDisks os_open os_fstat disks st0).1 = true /\ sockets_work k = true /\
      sk_socket k = Some fd /\ sk_epoll k = Some epfd /\ p = value port mod 2 ^ 16 /\
      forall d path, (d, path) ∈ disks -> exists bf, Get d (map_ st) = Some bf /\ bf_path bf = path
  end.
Proof.
  intros Hopen Hstat Hport Hpv Hne Hes Hnd st0 ds. unfold main. cbn [parse_args].
  rewrite parse_args_disks by done. cbn [listen disks CliArgs_new app].
  rewrite (bool_decide_false (_ = [])) by (by destruct ip). fold ds.
  assert (ds <> []) as Hds by (by destruct es). rewrite (bool_decide_false (ds = [])) by done. cbn [orb].
  destruct (AddDisks os_open os_fstat ds st0) as [ok st] eqn:E. cbn [fst snd].
  apply (AddDisks_inv os_open os_fstat Hopen Hstat base) in E as (Hinv & _ & Hall);
    [|apply DiskMap_inv_empty|unfold ds; by rewrite map_map|intros; apply lookup_empty].
  split; [done|]. destruct ok; cbn [negb]; [|done].
  unfold Start, SetupListenSocket, ParseListenAddr, sockets_work. pose proof Hport as [_ Hport'].
  rewrite split_last_digits by done.
  unfold stoi. rewrite <- (app_nil_r (decimal port)), signed_decimal by done. cbn [mbind option_bind].
  pose proof (value_nonneg port Hport'). replace ((value port <? - 2 ^ 31) || (2 ^ 31 <=? value port)) with false by lia.
  cbn [mbind option_bind].
  destruct (sk_socket k); [|done].
  destruct (sk_bind k); cbn [negb]; [|done].
  destruct (sk_listen k); cbn [negb]; [|done].
  destruct (sk_epoll k); [|done].
  split_and!; try done. intros d path Hin. by apply Hall.
Qed.

(** C40: starting the server.  With a decimal port of 31 bits and, for every
    disk, a distinct decimal number of 32 bits and a path, the program never
    stops with an exception: it serves exactly when every file opens and the
    socket calls succeed, on the port modulo 2^16, with each disk's file under
    its number; otherwise it exits with code 1, and when the files did open, with
    the socket that [socket] returned, if any, still open. *)
Theorem server_command_line os_open os_fstat base k ip port es :
  os_open_ok os_open -> (forall fd s, os_fstat fd = Some s -> st_size s < 2 ^ 63) ->
  digits_ok port -> value port < 2 ^ 31 -> es <> [] -> Forall disk_arg_ok es ->
  NoDup (map (fun e => value (e.1)) es) ->
  let st0 := {| map_ := ∅; open_fds := base |} in
  let disks := map (fun e => (value (e.1), e.2)) es in
  match main os_open os_fstat k (OptListen (ip ++ COLON :: decimal port) :: map disk_arg es) st0 with
  | Exit code st sock => code = 1 /\
      if (AddDisks os_open os_fstat disks st0).1 then sockets_work k = false /\ sock = sk_socket k
      else sock = None
  | Terminated _ => False
  | Serving st _ _ address p =>
      (AddDisks os_open os_fstat disks st0).1 = true /\ sockets_work k = true /\ p = value port mod 2 ^ 16 /\
      DiskMap_inv base ∅ st /\ forall d path, (d, path) ∈ disks -> exists bf, Get d (map_ st) = Some bf /\ bf_path bf = path
  end.
Proof.
  intros Hopen Hstat Hport Hpv Hne Hes Hnd st0 ds.
  destruct (main_command_line os_open os_fstat base k ip port es Hopen Hstat Hport Hpv Hne Hes Hnd) as [Hinv Hm].
  fold st0 ds in Hinv, Hm. destruct (main _ _ _ _ _); [| |]; [|done|]; naive_solver.
Qed.

(** ** Examples *)

Definition willing : SocketAnswers :=
  {| sk_socket := Some 10; sk_pton := fun _ => None; sk_bind := true; sk_listen := true; sk_epoll := Some 11 |}.

(** An address without a port stops the program with an exception; a port is
    taken modulo 2^16, an address that cannot be read is every address; the
    number of a disk may be followed by anything. *)
Example missing_port_terminates :
  main demo_open demo_fstat willing [OptListen (str "0.0.0.0:"); OptDisk (str "0:a")] demo_start
  = Terminated (AddDisks demo_open demo_fstat [(0, str "a")] demo_start).2.
Proof. by vm_compute. Qed.
Example unreadable_address_listens_everywhere : Start willing (str "10.0.0.256:70000") = Listening 10 11 0 4464.
Proof. by vm_compute. Qed.
Example disk_number_with_rest : ParseDisk (str "1x:/disk") = Some (1, str "/disk").
Proof. by vm_compute. Qed.

Lemma server_command_line_witness :
  exists st, main demo_open demo_fstat willing
      [OptListen (str "0.0.0.0:9000"); OptDisk (str "0:a"); OptDisk (str "17:b")] demo_start = Serving st 10 11 0 9000 /\
    (exists bf, Get 17 (map_ st) = Some bf /\ bf_path bf = str "b").
Proof.
  pose proof (server_command_line demo_open demo_fstat {[0; 1; 2]} willing (str "0.0.0.0") [9; 0; 0; 0]
    [([0], str "a"); ([1; 7], str "b")] demo_open_ok demo_fstat_ok) as Hm.
  assert (main demo_open demo_fstat willing
    [OptListen (str "0.0.0.0:9000"); OptDisk (str "0:a"); OptDisk (str "17:b")] demo_start
    = Serving (AddDisks demo_open demo_fstat [(0, str "a"); (17, str "b")] demo_start).2 10 11 0 9000) as E by (by vm_compute).
  eexists. split; [exact E|].
  change (map disk_arg _) with [OptDisk (str "0:a"); OptDisk (str "17:b")] in Hm.
  change (str "0.0.0.0" ++ COLON :: decimal [9; 0; 0; 0]) with (str "0.0.0.0:9000") in Hm.
  change {| map_ := ∅; open_fds := {[0; 1; 2]} |} with demo_start in Hm.
  cbv zeta in Hm. rewrite E in Hm.
  destruct Hm as (_ & _ & _ & _ & Hall).
  - split; [done|]. repeat constructor; lia.
  - by vm_compute.
  - done.
  - repeat constructor; by vm_compute.
  - apply (bool_decide_unpack _). by vm_compute.
  - apply Hall. right. left.
Defined.
