(* ===== verification/ServerProgram.v ===== *)
(** * The server program

    [main] of [server/main.cpp] from the command line to the exit: the start of
    [ServerMain], the event loop of [Server], the signal handler's [Stop] and
    what the destructors close. *)

From Stdlib Require Import Ascii String.
From S2P Require Import Prelude.
From S2P Require Import Protocol.
From S2P Require Import RingBuffer.
From S2P Require Import MessageParser.
From S2P Require Import DiskMap.
From S2P Require Import BlockProcessor.
From S2P Require Import Server.
From S2P Require Import ServerSpec.
From S2P Require Import ServerInv.
From S2P Require Import ServerMain.

Local Open Scope list_scope.

(** ** Definitions *)

(** The server [Start] leaves: it listens, and no peer is connected. *)
Definition started (fd epfd : Z) (fs : Files) : World :=
  {| conns := ∅; files := fs; sent := []; epoll := {[fd := Z.lor EPOLLIN EPOLLRDHUP]}; sockets := ∅;
     clock := 0; running := true; listenFd := fd; epollFd := epfd |}.

(** The program ended with a code before it served, with the listening socket
    that is still open then; it ended with a code after serving; it is still
    serving, with [Busy] in a handler to which the kernel has given more
    connections or data than the model has fuel for; it used memory it does not
    own, or stopped with an exception. *)
Inductive Outcome :=
| Refused (code : Z) (st : DiskState) (sock : option Z)
| Ended (code : Z) (st : DiskState) (server : World)
| Waiting (st : DiskState) (server : World)
| Busy (st : DiskState) (server : World)
| Faulted (st : DiskState) (server : World)
| Thrown (st : DiskState).

Section program.
Context `{Kernel} `{Library}.
Context (os_open : gset Z -> list Z -> option Z) (os_fstat : Z -> option Stat) (k : SocketAnswers).

(** [main]: the batches are what [epoll_wait] reports one after the other, and
    [signalled] says whether [SIGINT] or [SIGTERM] arrives while it waits after
    the last of them.  [OnSignal] calls [Stop]; the destructors of the server
    and of the table run at every return.  [resumed] says what becomes of a
    handler that uses the connection it destroyed ([survive]). *)
Definition program (resumed : bool) (fuel : nat) (opts : list Opt) (st : DiskState) (fs : Files)
    (batches : list (option (list (Z * Z)))) (signalled : bool) : Outcome :=
  match ServerMain.main os_open os_fstat k opts st with
  | Exit code st sock => Refused code (CloseAll st) sock
  | Terminated st => Thrown st
  | Serving st fd epfd _ _ =>
      match Run (map_ st) resumed fuel batches (started fd epfd fs) with
      | (Ret _, w) =>
          if signalled || bool_decide (None ∈ batches) then Ended 0 (CloseAll st) (Stop w)
          else Waiting st w
      | (OutOfFuel, w) => Busy st w
      | (Undefined, w) => Faulted st w
      end
  end.
End program.

(** ** Lemmas *)

(** [Stop] closes the sockets of the table. *)
Lemma close_conns (m : gmap Z Conn) (s : gset Z) :
  (forall r c, m !! r = Some c -> c_fd c = r /\ 0 <= r) ->
  map_fold (fun _ c s => if 0 <=? c_fd c then s ∖ {[c_fd c]} else s) s m = s ∖ dom m.
Proof.
  induction m as [|r c m Hr Hfirst IH] using map_first_key_ind; intros Hm.
  - rewrite map_fold_empty, dom_empty_L. set_solver.
  - rewrite map_fold_insert_first_key by done. rewrite IH.
    + destruct (Hm r c) as [-> ?]; [by simpl_map|]. test_true (0 <=? r). rewrite dom_insert_L. set_solver.
    + intros r' c' Hc'. apply Hm. rewrite lookup_insert_ne; [done|]. intros ->. congruence.
Qed.

Lemma Stop_closes disks fs w :
  Server_ok disks fs w -> running w = true ->
  conns (Stop w) = ∅ /\ sockets (Stop w) = ∅ /\ listenFd (Stop w) = -1 /\ epollFd (Stop w) = -1 /\
  running (Stop w) = false /\ files (Stop w) = files w.
Proof.
  intros HS Hr. unfold Stop. rewrite Hr. cbn. split_and!; try done.
  rewrite close_conns; [rewrite (ok_sockets _ _ _ HS); set_solver|].
  intros r c Hc. split; [by apply (ok_conn _ _ _ HS)|]. apply (ok_fd _ _ _ HS). by apply elem_of_dom.
Qed.

(** A handler leaves the flag and the descriptors of the loop alone. *)
Definition shell (w : World) : bool * Z * Z := (running w, listenFd w, epollFd w).
Definition keeps {A} (m : M A) : Prop := forall w, shell (m w).2 = shell w.

Lemma keeps_bind {A B} (m : M A) (f : A -> M B) : keeps m -> (forall a, keeps (f a)) -> keeps (m ≫= f).
Proof.
  intros Hm Hf w. specialize (Hm w). unfold mbind, M_bind. destruct (m w) as [[a| |] w'] eqn:E; cbn in *; [|done..].
  by rewrite Hf.
Qed.
Lemma keeps_modify f : (forall w, shell (f w) = shell w) -> keeps (modify f).
Proof. intros Hf w. apply Hf. Qed.
Lemma keeps_get r : keeps (get_conn r).
Proof. intros w. unfold get_conn. by destruct (conns w !! r). Qed.
Lemma keeps_close fd : keeps (CloseConn fd).
Proof. intros w. unfold CloseConn. by destruct (conns w !! fd). Qed.

(** Peels the binds, branches and primitive operations off a handler. *)
Ltac keeps :=
  repeat match goal with
  | |- keeps (_ ≫= _) => apply keeps_bind; [|intros ?]
  | |- keeps (modify _) => by apply keeps_modify
  | |- keeps (get_conn _) => apply keeps_get
  | |- keeps (CloseConn _) => apply keeps_close
  | |- keeps (upd_conn _ _) => unfold upd_conn
  | |- keeps (CloseRef _) => unfold CloseRef
  | |- keeps (mret _) => by intros ?
  | |- keeps (conn_exists _) => by intros ?
  | |- keeps out_of_fuel => by intros ?
  | |- keeps (match ?x with _ => _ end) => destruct x
  | |- _ => solve [eauto]
  end.

Section keeps.
Context `{Kernel} `{Library} (disks : gmap Z BackingFile).

Lemma keeps_writable_loop fuel r : keeps (writable_loop fuel r).
Proof.
  induction fuel as [|fuel IH]; cbn [writable_loop]; keeps.
  intros w. unfold send_call. by destruct (os_send _ _ _).
Qed.
Lemma keeps_writable r : keeps (HandleConnWritable r).
Proof. pose proof keeps_writable_loop. unfold HandleConnWritable, EpollMod. keeps. Qed.
Lemma keeps_ack r a : keeps (EnqueueAck r a).
Proof. pose proof keeps_writable. unfold EnqueueAck, TryArmWrite, EpollMod. keeps. Qed.
Lemma keeps_dispatch r m : keeps (dispatch disks r m).
Proof.
  pose proof keeps_ack. unfold dispatch, HandleHello, HandleDataBlock, HandleBye. keeps.
  intros w. destruct (Process _ _ _ _ _) as [[[st ack] fs]|]; [|done].
  refine ((_ : keeps _) (set_files fs w)). keeps.
Qed.
Lemma keeps_process fuel r : keeps (process_loop disks fuel r).
Proof.
  pose proof keeps_dispatch. induction fuel as [|fuel IH]; cbn [process_loop]; unfold consume_recv; keeps.
Qed.
Lemma keeps_readable fuel r fd : keeps (readable_loop disks fuel r fd).
Proof.
  pose proof keeps_process. induction fuel as [|fuel IH]; cbn [readable_loop]; unfold ProcessMessages; keeps.
  unfold recv_call. keeps. intros w. unfold recv_on. by destruct (WriteFromFd _ _).
Qed.
Lemma keeps_accept fuel : keeps (HandleAccept fuel).
Proof.
  induction fuel as [|fuel IH]; cbn [HandleAccept]; keeps. intros w. destruct (os_accept (clock w)); [|done].
  refine ((_ : keeps _) _). unfold EpollAdd. keeps.
Qed.
Lemma keeps_event fuel fd e : keeps (handle_event disks fuel fd e).
Proof.
  pose proof keeps_readable. pose proof keeps_writable.
  intros w. unfold handle_event. case_if; [apply keeps_accept|]. refine ((_ : keeps _) w).
  unfold HandleConnError, HandleConnReadable. keeps.
Qed.
Lemma keeps_survive resumed fd (m : M unit) : keeps m -> keeps (survive resumed fd m).
Proof.
  intros Hm w. specialize (Hm w). unfold survive. destruct (m w) as [[[]| |] w']; try done. by case_if.
Qed.
Lemma keeps_events resumed fuel evs : keeps (handle_events disks resumed fuel evs).
Proof.
  pose proof keeps_event. pose proof keeps_survive. induction evs as [|[fd e] evs IH]; cbn [handle_events]; keeps.
Qed.
Lemma keeps_Run resumed fuel batches : keeps (Run disks resumed fuel batches).
Proof.
  pose proof keeps_events. induction batches as [|[evs|] batches IH]; intros w; cbn [Run]; [done| |];
    case_if; try done. refine ((_ : keeps _) w). keeps.
Qed.
End keeps.

(** [Stop] in the middle of a handler: what is left of the handler uses the
    destroyed connection. *)
Lemma signal_in_handler `{Kernel} `{Library} disks r w :
  running w = true ->
  (ProcessMessages disks r (Stop w)).1 = Undefined /\ (HandleConnWritable r (Stop w)).1 = Undefined.
Proof.
  intros Hr. assert (conns (Stop w) !! r = None) as Hn by (unfold Stop; rewrite Hr; apply lookup_empty).
  unfold ProcessMessages, HandleConnWritable. by rewrite !(bind_undefined _ _ _ _ (get_conn_dead _ _ Hn)).
Qed.

Section start.
Context `{KernelLaws} `{LibraryLaws}.
Context (os_open : gset Z -> list Z -> option Z) (os_fstat : Z -> option Stat) (base : gset Z) (fs : Files).
Hypothesis open_law : os_open_ok os_open.
(** [fstat] reads the length of a file. *)
Hypothesis fstat_law : forall fd s, os_fstat fd = Some s ->
  exists f, fs !! fd = Some f /\ zlen f = st_size s /\ st_size s < 2 ^ 63.

Lemma table_matches disks st :
  (AddDisks os_open os_fstat disks {| map_ := ∅; open_fds := base |}).2 = st ->
  DiskMap_inv base ∅ st -> disks_match (map_ st) fs.
Proof.
  intros <- Hinv. split; [|apply Hinv]. intros d bf Hbf.
  destruct (AddDisks_sizes os_open os_fstat open_law) with (disks := disks) (d := d) (bf := bf)
    (st := {| map_ := ∅; open_fds := base |}) as (s & Hs & ->).
  - intros fd s Hs. by apply fstat_law in Hs as (f & _ & _ & ?).
  - intros d' bf' Hd'. cbn in Hd'. by rewrite lookup_empty in Hd'.
  - done.
  - apply fstat_law in Hs as (f & ? & ? & ?). exists f. by split_and!; [|lia|lia].
Qed.

Lemma started_ok fd epfd disks : disks_match disks fs -> Server_ok disks fs (started fd epfd fs).
Proof. intros Hd. constructor; cbn; try done; set_solver. Qed.
End start.

(** C10: the server program, from the command line to the exit.  For a
    well-formed command line, whatever [open] and [fstat] answer, whatever the
    kernel reports and the peers send, and whenever the signal comes: the
    program throws no exception; while it serves, the connection table and the
    files are consistent ([Server_ok]: only files of the table change, none
    changes its length); it ends with code 0 after serving, with every descriptor
    closed: the files of the table, the sockets of the peers, the listening
    socket and the [epoll] instance.  It ends with code 1 if it never served: the
    files of the table are closed then, but when they had opened the socket that
    [socket] returned is still open, because [Stop] does nothing before the
    server runs.  It faults only in a handler that uses the connection it
    destroyed, with a consistent state; if the freed memory still holds what it
    held, it does not fault and ends as above. *)
Theorem server_program_safe `{KernelLaws} `{LibraryLaws} os_open os_fstat base k resumed fuel ip port es fs batches
    signalled :
  os_open_ok os_open ->
  (forall fd s, os_fstat fd = Some s -> exists f, fs !! fd = Some f /\ zlen f = st_size s /\ st_size s < 2 ^ 63) ->
  digits_ok port -> value port < 2 ^ 31 -> es <> [] -> Forall disk_arg_ok es ->
  NoDup (map (fun e => value (e.1)) es) ->
  let st0 := {| map_ := ∅; open_fds := base |} in
  let '(opened, st) := AddDisks os_open os_fstat (map (fun e => (value (e.1), e.2)) es) st0 in
  match program os_open os_fstat k resumed fuel (OptListen (ip ++ COLON :: decimal port) :: map disk_arg es) st0 fs
          batches signalled with
  | Refused code st' sock =>
      code = 1 /\ open_fds st' = base /\
      if opened : bool then sockets_work k = false /\ sock = sk_socket k else sock = None
  | Ended code st' w =>
      code = 0 /\ open_fds st' = base /\ sockets w = ∅ /\ conns w = ∅ /\ listenFd w = -1 /\ epollFd w = -1 /\
      Files_ok (map_ st) fs (files w)
  | Waiting st' w | Busy st' w => st' = st /\ Server_ok (map_ st) fs w /\ running w = true
  | Faulted st' w =>
      resumed = false /\ (exists r, own_fault (map_ st) fs r w) /\
      st' = st /\ Server_ok (map_ st) fs w /\ running w = true
  | Thrown _ => False
  end.
Proof.
  intros Hopen Hstat Hport Hpv Hne Hes Hnd st0.
  assert (forall fd s, os_fstat fd = Some s -> st_size s < 2 ^ 63) as Hsize.
  { intros fd s Hs. by apply Hstat in Hs as (f & _ & _ & ?). }
  destruct (main_command_line os_open os_fstat base k ip port es Hopen Hsize Hport Hpv Hne Hes Hnd) as [Hinv Hm].
  fold st0 in Hinv, Hm. destruct (CloseAll_inv _ _ _ Hinv) as [Hclosed _]. rewrite union_empty_r_L in Hclosed.
  destruct (AddDisks os_open os_fstat _ st0) as [opened st] eqn:Eadd. cbn [fst snd] in *.
  unfold program. destruct (ServerMain.main _ _ _ _ _) as [code st' sock|st'|st' fd epfd a p]; [|done|].
  { by destruct Hm as (-> & -> & ?). }
  destruct Hm as (-> & _).
  assert (Server_ok (map_ st) fs (started fd epfd fs)) as HS.
  { apply started_ok. apply (table_matches os_open os_fstat base fs Hopen Hstat
      (map (fun e => (value (e.1), e.2)) es)); [|done]. fold st0. by rewrite Eadd. }
  pose proof (Run_ok (map_ st) fs True resumed fuel batches I _ HS I) as Hr.
  pose proof (keeps_Run (map_ st) resumed fuel batches (started fd epfd fs)) as Hk.
  destruct (Run _ _ _ _ _) as [res w]. cbn [snd] in Hk. injection Hk as Hrun _ _.
  destruct res as [[]| |]; [|by destruct Hr as [? [? ?]]|by destruct Hr]. destruct Hr as [HS' _].
  destruct (signalled || bool_decide (None ∈ batches)); [|done].
  destruct (Stop_closes _ _ _ HS' Hrun) as (? & ? & ? & ? & _ & Hf). split_and!; try done.
  rewrite Hf. apply HS'.
Qed.

(** ** A run: a peer that says goodbye, then the signal *)

(** The peer connects as descriptor 12 and sends a greeting and a farewell. *)
Definition visit_kernel : Kernel := {|
  os_recv t _ len := if (t =? 2)%nat && (zlen leaving_input <=? len) then RecvData leaving_input else RecvError EAGAIN;
  os_send t _ d := SendN (zlen d);
  os_accept t := if (t =? 0)%nat then Some 12 else None |}.
Lemma visit_kernel_laws : @KernelLaws visit_kernel.
Proof.
  constructor; cbn [visit_kernel os_recv os_send os_accept].
  - intros t fd len d. destruct (_ && _) eqn:E; [|done]. apply andb_prop in E as [_ E%Z.leb_le]. intros [= <-].
    split; [by split|]. apply (bool_decide_unpack _). vm_compute. exact I.
  - intros t fd d n [= <-]. lia.
  - intros t fd. case_if; [|done]. by intros [= <-].
Qed.

Definition small_fstat (fd : Z) : option Stat :=
  if fd =? 3 then Some {| st_isreg := true; st_size := 4 |} else None.
Definition small_program (k : SocketAnswers) (resumed : bool) (batches : list (option (list (Z * Z)))) : Outcome :=
  @program visit_kernel demo_library demo_open small_fstat k resumed 5
    [OptListen (str "0.0.0.0:9000"); OptDisk (str "7:a")] demo_start demo_files batches true.
Definition unbound : SocketAnswers :=
  {| sk_socket := Some 10; sk_pton := fun _ => None; sk_bind := false; sk_listen := true; sk_epoll := Some 11 |}.
Definition visit : list (option (list (Z * Z))) := [Some [(10, EPOLLIN)]; Some [(12, EPOLLIN)]].
Definition is_ended (o : Outcome) : bool := match o with Ended _ _ _ => true | _ => false end.
Definition is_faulted (o : Outcome) : bool := match o with Faulted _ _ => true | _ => false end.
Definition is_refused (o : Outcome) : bool := match o with Refused _ _ (Some _) => true | _ => false end.

Lemma server_program_safe_witness :
  (exists st w, small_program willing true visit = Ended 0 st w /\
     open_fds st = {[0; 1; 2]} /\ sockets w = ∅ /\ conns w = ∅ /\ listenFd w = -1) /\
  (exists st w, small_program willing false visit = Faulted st w /\
     exists r, @own_fault visit_kernel demo_library (map_ st) demo_files r w) /\
  exists st, small_program unbound true [] = Refused 1 st (Some 10) /\ open_fds st = {[0; 1; 2]}.
Proof.
  assert (forall fd s, small_fstat fd = Some s ->
    exists f, demo_files !! fd = Some f /\ zlen f = st_size s /\ st_size s < 2 ^ 63) as Hstat.
  { intros fd s. unfold small_fstat. destruct (fd =? 3) eqn:E; [|done]. intros [= <-].
    apply Z.eqb_eq in E as ->. by exists [1; 2; 3; 4]. }
  assert (digits_ok [9; 0; 0; 0]) as Hport by (split; [done|]; repeat constructor; lia).
  assert (value [9; 0; 0; 0] < 2 ^ 31) as Hpv by (by vm_compute).
  assert (Forall disk_arg_ok [([7], str "a")]) as Hes by (repeat constructor; by vm_compute).
  assert (NoDup (map (fun e => value (e.1)) [([7], str "a")])) as Hnd by (apply (bool_decide_unpack _); by vm_compute).
  pose proof (fun k resumed b => @server_program_safe visit_kernel visit_kernel_laws demo_library demo_library_laws
    demo_open small_fstat {[0; 1; 2]} k resumed 5 (str "0.0.0.0") [9; 0; 0; 0] [([7], str "a")] demo_files b true
    demo_open_ok Hstat Hport Hpv ltac:(done) Hes Hnd) as Hp.
  change (str "0.0.0.0" ++ COLON :: decimal [9; 0; 0; 0]) with (str "0.0.0.0:9000") in Hp.
  change (map disk_arg [([7], str "a")]) with [OptDisk (str "7:a")] in Hp. cbv zeta in Hp.
  change {| map_ := ∅; open_fds := {[0; 1; 2]} |} with demo_start in Hp.
  fold small_program in Hp. split_and!.
  - specialize (Hp willing true visit). fold (small_program willing true visit) in Hp.
    assert (is_ended (small_program willing true visit) = true) as E by (vm_compute; reflexivity).
    destruct (AddDisks _ _ _ _), (small_program _ _ _) as [?|code st w|?|?|?|?]; try done.
    destruct Hp as (-> & ? & ? & ? & ? & _). by exists st, w.
  - specialize (Hp willing false visit). fold (small_program willing false visit) in Hp.
    assert (is_faulted (small_program willing false visit) = true) as E by (vm_compute; reflexivity).
    destruct (AddDisks _ _ _ _), (small_program _ _ _) as [?|?|?|?|st w|?]; try done.
    destruct Hp as (_ & Hr & -> & _). by exists d, w.
  - specialize (Hp unbound true []). fold (small_program unbound true []) in Hp.
    assert (is_refused (small_program unbound true []) = true) as E by (vm_compute; reflexivity).
    destruct (AddDisks _ _ _ _) as [[] ?], (small_program _ _ _) as [code st [sock|]|?|?|?|?|?]; try done.
    + destruct Hp as (-> & ? & _ & [= ->]). by exists st.
    + by destruct Hp as (_ & _ & ?).
Defined.
