(* ===== verification/IncrementalEndToEnd.v ===== *)
(** * An incremental backup, from a write to the server's file

    [BackupEngine::IncrementalBackup] between the driver that records the
    writes and the server that stores the blocks: what both hold after a backup
    that reports success. *)

From S2P Require Import Prelude.
From S2P Require Import Protocol.
From S2P Require Import MessageParser.
From S2P Require Import DiskMap.
From S2P Require Import BlockProcessor.
From S2P Require Import Server.
From S2P Require Import ServerSpec.
From S2P Require Import Pipeline.
From S2P Require Import PipelineNetwork.
From S2P Require Import CbtDriver.
From S2P Require Import CbtClient.
From S2P Require Import NetworkClient.
From S2P Require Import EndToEnd.
From S2P Require Import DataCompressor.
From S2P Require Import DiskParser.
From S2P Require Import VolumeMapper.
From S2P Require Import VssManager.
From S2P Require Import BackupEngine.
From S2P Require Import BackupEngineSpec.
From S2P Require Import BackupEndToEnd.

(** ** The driver *)

Section driver.
Context `{IoManagerLaws} `{!RtlBitmapLaws}.

(** Finding the disk of an entry. *)
Lemma find_by_number w j e :
  NoDup (map dm_DiskNumber (g_DiskMap w)) -> g_DiskMap w !! j = Some e ->
  FindDiskMapEntryByNumber (dm_DiskNumber e) w = Some (j, e).
Proof.
  intros Hn Hj. unfold FindDiskMapEntryByNumber. destruct (find_entry _ _) as [[i e']|] eqn:Ef.
  - apply find_entry_Some in Ef as [Hi Ea]. apply Z.eqb_eq in Ea.
    assert (i = j) as -> by (by eapply (unique_key dm_DiskNumber)). congruence.
  - pose proof (find_entry_None _ _ Ef _ _ Hj) as Hf. cbv beta in Hf. by rewrite Z.eqb_refl in Hf.
Qed.

(** [Reset] through the system is one reset event, which forgets the marks of
    the disk. *)
Lemma Reset_event c devNo w :
  connected c -> snd (Reset c devNo w) = step w (EControl IOCTL_RESET_CBT_DATA (ioctl_input devNo) 0).
Proof.
  intros [Hc Hh]. unfold Reset. rewrite Hc, Hh. cbn [negb orb step].
  pose proof (io_state IOCTL_RESET_CBT_DATA (ioctl_input devNo) 0 w) as Hs.
  by destruct (DeviceIoControl _ _ 0 w).
Qed.

Lemma Reset_unmarks c devNo w j e :
  connected c -> in_width 32 devNo -> driver_wf w -> g_DiskMap w !! j = Some e -> dm_DiskNumber e = devNo ->
  Buffer (dm_CbtState e) <> None ->
  exists e', g_DiskMap (snd (Reset c devNo w)) !! j = Some e' /\ same_entry e e' /\
    forall i, 0 <= i < TotalBits (dm_CbtState e) -> ~ marked (dm_CbtState e') i.
Proof.
  intros Hc Hd Hwf Hj Hn Hb. rewrite Reset_event by done.
  destruct (step_spec (EControl IOCTL_RESET_CBT_DATA (ioctl_input devNo) 0) w Hwf I) as [_ Hstep].
  destruct (Hstep j e Hj) as (e' & Hj' & Hs & Hi). exists e'. split; [done|]. split; [done|].
  intros i Hr Hm. destruct (Hi i Hr Hb) as [_ Hback]. destruct (Hback I Hm) as [[]|[_ Hno]].
  apply Hno. split; [done|]. unfold ioctl_input. split; [by rewrite le_enc_length|].
  rewrite <- (app_nil_r (le_enc 4 devNo)), (rd_le_here 4) by done. done.
Qed.
End driver.

(** ** The server *)

(** Without blocks a session changes no file. *)
Lemma serve_no_blocks `{Library} disks ms s :
  Forall (fun m => MessageType_of_Z (mh_Type (pm_header m)) <> Some DATA_BLOCK) ms ->
  s_files (serve disks ms s).1 = s_files s.
Proof.
  intros Hms. revert s. induction Hms as [|m ms Hm _ IH]; intros s; cbn [serve]; [done|].
  assert (s_files (serve_one disks m s).1 = s_files s) as Hone.
  { unfold serve_one. destruct (MessageType_of_Z _) as [[]|]; try done. unfold serve_hello.
    repeat first [case_if|case_match]; done. }
  destruct (serve_one disks m s) as [s1 []]; cbn [fst] in *; [done|]. by rewrite IH.
Qed.

Section network.
Context {Net Drv : Type} `{Socket Net} `{!SocketLaws Net} `{VssApi} `{VolumeApi} `{CompressApi} `{!Machine Net Drv}
  `{Library}.
Hypothesis fresh_connection : forall n n', mc_connect n = (Accepted, n') -> outgoing n' = [].

(** A connection that carries the greeting and the farewell, or part of it. *)
Lemma greeting_served cfg devNo (w w' : World Net Drv) disks files :
  DryRun cfg = false -> only_greeting cfg devNo w w' ->
  s_files (serve disks (stream (outgoing (w_net w'))).1.1 (fresh_session files)).1 = files.
Proof.
  intros Hdry (vid & total & size & c & c' & Ht & Hs & Hh & Hclose & Hnet). rewrite Hdry in Hh. rewrite Hnet.
  assert (in_width 32 (u32 devNo)) as Hdev by (apply wrap_range; lia).
  unfold connect_hello in Hh. destruct (NetConnect _) as [[] c0] eqn:Ec; cbn [negb] in Hh; [|done].
  destruct (SendHello _ _ _ _ _ c0) as [[[] c1]|] eqn:Eh; cbn [mbind option_bind negb] in Hh; [|done..].
  injection Hh as ->.
  assert (outgoing (net c0) = []) as Hnil.
  { unfold NetConnect in Ec. destruct (mc_connect _) as [[] n'] eqn:Emc; try done. injection Ec as <-.
    by apply (fresh_connection _ _ Emc). }
  set (hello := CallHello (u32 vid) (u32 devNo) total size INCREMENTAL) in *.
  assert (call_ok hello) as Hk.
  { split; [apply wrap_range; lia|]. split_and!; try done. by repeat constructor. }
  apply (SendHello_sent _ _ _ _ _ _ _ Hk) in Eh. rewrite Hnil in Eh. cbn [app] in Eh.
  assert (exists byes part, (byes = [] \/ byes = [CallBye (u32 devNo)]) /\ (part = [] \/ broken_off part) /\
    outgoing (net c') = concat (map msg_bytes (map call_msg (hello :: byes))) ++ part)
    as (byes & part & Hbyes & Hpart & ->).
  { apply CloseConnection_sent in Hclose as [[-> _]|(_ & byes & part & ? & ? & ->)]; [| |done].
    - exists [], []. rewrite Eh. cbn. rewrite !app_nil_r. auto.
    - exists byes, part. rewrite Eh. cbn [map concat]. by rewrite <- app_assoc. }
  rewrite stream_broken; [|constructor; [done|]; destruct Hbyes as [->| ->]; [constructor|by apply Forall_singleton]|done].
  apply serve_no_blocks. destruct Hbyes as [->| ->]; by repeat constructor.
Qed.
End network.

Lemma Connect_connected open1 open2 sm cbt :
  CbtClient.Connect open1 open2 sm CbtClient_new = (true, cbt) -> connected cbt.
Proof. unfold CbtClient.Connect. cbn. intros E. injection E as -> <-. done. Qed.

(** C9: the writes an incremental backup loses.  The driver was loaded and went
    through any writes and requests; a block of the disk has been written since
    the last reset, and the block of the mirrored bit lies on the disk as well.
    The state file is missing, or an earlier backup saved it.  Whenever the
    incremental backup of this disk then reports success, it counts the blocks
    it found but sent none of them; the server that reads the connection has all
    its files as before; and in the driver no block of the disk is marked any
    more, so the write is in no later backup either. *)
Theorem incremental_backup_on_server {Net} `{Socket Net} `{!SocketLaws Net} `{CbtDriver.KernelLaws} `{IoManagerLaws}
    `{!RtlBitmapLaws} `{VssApi} `{VolumeApi} `{CompressApi} `{!Machine Net Driver} `{Library} cfg devNo layout
    (w : World Net Driver) stats' w' tables evs j e b disks files :
  (forall n n', mc_connect n = (Accepted, n') -> outgoing n' = []) ->
  DryRun cfg = false -> saved_or_missing (w_file w devNo) ->
  routines_ok tables -> Forall length_ok evs -> w_cbt w = run evs (BuildDiskAndHookTables (unloaded tables)) ->
  g_DiskMap (BuildDiskAndHookTables (unloaded tables)) !! j = Some e -> dm_DiskNumber e = u32 devNo ->
  Buffer (dm_CbtState e) <> None -> 0 <= b < TotalBits (dm_CbtState e) -> mirror b < TotalBits (dm_CbtState e) ->
  dirty e b evs ->
  IncrementalBackup cfg devNo layout (DiskStats_new devNo) w = Some (true, stats', w') ->
  0 < ds_ChangedBlocks stats' /\ SentBlocks (ds_transfer stats') = 0 /\
  s_files (serve disks (stream (outgoing (w_net w'))).1.1 (fresh_session files)).1 = files /\
  exists e', g_DiskMap (w_cbt w') !! j = Some e' /\ same_entry e e' /\
    forall i, 0 <= i < TotalBits (dm_CbtState e) -> ~ marked (dm_CbtState e') i.
Proof.
  intros Hfresh Hdry Hfile Htab Hlen Hw Hj Hn Hb Hr Hmir Hdirty Hrun.
  destruct (CbtClient.Connect mc_cbt_open1 mc_cbt_open2 mc_services CbtClient_new) as [conn cbt] eqn:Ec.
  pose proof (incremental_backup_loses_changes cfg devNo layout w true stats' w' conn cbt Hfile Ec Hrun) as Hl.
  destruct conn; cbn [negb] in Hl; [|by destruct Hl]. apply Connect_connected in Ec.
  destruct Hl as (found & bitmap & total & s & Hq & Hsent & _ & _ & Hl).
  destruct (run_spec evs _ (load_inv_wf tables _ _ (loaded_inv tables Htab)) Hlen) as [Hwf Hent].
  destruct (Hent j e Hj) as (e1 & Hj1 & Hs1 & Hmark). rewrite <- Hw in Hwf, Hj1.
  destruct (Hmark b Hr Hb) as [(buf & Hbuf & Hbit) _]; [by left|]. pose proof Hs1 as (He1 & Ht1 & Hb1).
  assert (dm_DiskNumber e1 = u32 devNo) as Hn1 by (rewrite He1; exact Hn).
  assert (in_width 32 (u32 devNo)) as Hdev by (apply wrap_range; lia).
  pose proof Hwf as (_ & Hnd & Hall). rewrite Forall_lookup in Hall. destruct (Hall j e1 Hj1) as [Hcbt _].
  destruct (cbt_buffer_size _ _ Hcbt Hbuf) as (Hbits & _ & _ & Hfit).
  pose proof (find_by_number _ j e1 Hnd Hj1) as Hfind. rewrite Hn1 in Hfind.
  rewrite (Query_driver cbt (u32 devNo) [] 0 (w_cbt w) j e1 buf Ec Hdev Hfind Hcbt Hbuf) in Hq.
  injection Hq as <- <- <- <-.
  assert (mirror b ∈ ParseChangedBlocks buf (TotalBits (dm_CbtState e1))) as Hin.
  { unfold ParseChangedBlocks. pose proof (mirror_range b (zlen buf)). rewrite parse_loop_elem by lia.
    rewrite mirror_involutive. split; [lia|]. split; [lia|done]. }
  destruct Hl as [[Hnone _]|(Hsome & Hc & Hreset & Hgreet)]; [rewrite Hnone in Hin; destruct (not_elem_of_nil _ Hin)|].
  clear Hrun Hent Hmark.
  split; [rewrite Hc; destruct (ParseChangedBlocks _ _); [congruence|cbn [length]; lia]|]. split; [exact Hsent|].
  split; [by eapply greeting_served|]. rewrite Hreset.
  destruct (Reset_unmarks cbt (u32 devNo) (w_cbt w) j e1 Ec Hdev Hwf Hj1 Hn1) as (e2 & Hj2 & Hs2 & Hno); [congruence|].
  exists e2. split; [done|]. split; [by eapply same_entry_trans|]. intros i Hi. apply Hno. lia.
Qed.

(** ** A write to block 1 of a disk of ten blocks *)

Definition loss_machine : Machine DemoNet Driver := {|
  mc_disk := fun _ => None; mc_source := fun _ => None; mc_hasher := true;
  mc_cbt_open1 := None; mc_cbt_open2 := None;
  mc_services := {| sm_open := false; sm_service := false; sm_state := None; sm_start := None; sm_polls := [] |};
  mc_connect := fun _ => (Accepted, {| d_in := ack_bytes ++ ack_bytes; d_out := [] |});
  mc_save := fun _ => {| sa_accept := fun _ n => n; sa_create := true; sa_move := true; sa_slack := zeros 4 |};
  mc_max_blocks := 1000; mc_max_entries := 1000; mc_systemTime := 5; mc_now := 6 |}.

Abbreviation loss_run :=
  (@IncrementalBackup DemoNet Driver demo_socket demo_io sample_service sample_volumes demo_api loss_machine
    plain 1 sample_layout (DiskStats_new 1) demo_world).

Lemma incremental_backup_on_server_witness :
  exists stats w' e', loss_run = Some (true, stats, w') /\ SentBlocks (ds_transfer stats) = 0 /\
    s_files (@serve demo_library demo_disks (stream (outgoing (w_net w'))).1.1 (fresh_session demo_files)).1
    = demo_files /\
    g_DiskMap (w_cbt w') !! 1%nat = Some e' /\ ~ marked (dm_CbtState e') 1.
Proof.
  assert (Forall length_ok [demo_write]) as Hlen by (constructor; [by vm_compute|constructor]).
  assert (g_DiskMap demo_loaded !! 1%nat = Some demo_entry) as Hj by (vm_compute; reflexivity).
  assert (mirror 1 < TotalBits (dm_CbtState demo_entry)) as Hmir by (by vm_compute).
  assert (dirty demo_entry 1 [demo_write]) as Hdirty.
  { exists [], demo_write, []. split; [done|]. split; [|constructor].
    split; [done|]. split; [done|]. exists (CBT_BLOCK_SIZE + 5).
    split; [split; vm_compute; congruence|vm_compute; reflexivity]. }
  assert (forall n n' : DemoNet, @mc_connect _ _ loss_machine n = (Accepted, n') -> outgoing n' = []) as Hfresh
    by (by intros n n' [= <-]).
  assert ((fun r => r.1.1) <$> loss_run = Some true) as Eb by (vm_compute; reflexivity).
  destruct loss_run as [[[b stats] w']|] eqn:E; [|discriminate Eb]. injection Eb as ->.
  destruct (@incremental_backup_on_server DemoNet demo_socket demo_socket_laws CbtDriver.demo_kernel driver_kernel_laws
    demo_rtl demo_io demo_io_laws demo_rtl_laws sample_service sample_volumes demo_api loss_machine demo_library
    plain 1 sample_layout demo_world stats w' demo_tables [demo_write] 1 demo_entry 1 demo_disks demo_files
    Hfresh eq_refl earlier_file_saved demo_routines Hlen eq_refl Hj eq_refl ltac:(discriminate) ltac:(cbn; lia) Hmir
    Hdirty E) as (_ & Hsent & Hfiles & e' & Hj' & _ & Hno).
  exists stats, w', e'. split; [reflexivity|]. split; [exact Hsent|]. split; [exact Hfiles|]. split; [exact Hj'|].
  apply Hno. cbn. lia.
Defined.
