(* ===== verification/DriverProgram.v ===== *)
(** * The driver as a whole

    [go2cbt/go2cbt.c], [go2cbt/dispatch.c] and [QueryPartitionInfoEx] of
    [go2cbt/hook.c]: loading, the requests on the control device and unloading,
    around the tables and routines of [CbtDriver]. *)

From S2P Require Import Prelude.
From S2P Require Import CbtDriver.

(** ** Definitions *)

(** *** The place of a partition *)

(** What the system answers to [QueryPartitionInfoEx]: the interrupt level,
    whether a request can be built, whether the wait of 30 seconds elapses, and
    the status ([true]: success) and data the disk driver completes it with. *)
Record QueryAnswers := {
  qa_irql : Z; qa_irp : bool; qa_timeout : bool; qa_status : bool; qa_info : Z * Z }.

Definition PASSIVE_LEVEL : Z := 0.

Inductive QueryStatus :=
  QUERY_SUCCESS | QUERY_INVALID_DEVICE_STATE | QUERY_INSUFFICIENT_RESOURCES | QUERY_IO_TIMEOUT | QUERY_FAILED.

(** The status, the two results, and whether the request is still under way:
    its event, status block and buffer are on the stack of this call. *)
Definition QueryPartition (a : QueryAnswers) : QueryStatus * (Z * Z) * bool :=
  if negb (qa_irql a =? PASSIVE_LEVEL) then (QUERY_INVALID_DEVICE_STATE, (0, 0), false)
  else if negb (qa_irp a) then (QUERY_INSUFFICIENT_RESOURCES, (0, 0), false)
  else if qa_timeout a then (QUERY_IO_TIMEOUT, (0, 0), true)
  else if qa_status a then (QUERY_SUCCESS, qa_info a, false)
  else (QUERY_FAILED, (0, 0), false).

(** The kernel in terms of these answers. *)
Class IoSystem := {
  sys_pool : Z -> bool; sys_device : Z -> Z -> option Device; sys_query : Z -> QueryAnswers }.

#[export] Instance kernel_of `{IoSystem} : Kernel := {|
  ExAllocatePool2 := sys_pool; IoGetDeviceObjectPointer := sys_device;
  QueryPartitionInfoEx := fun a =>
    match QueryPartition (sys_query a) with (QUERY_SUCCESS, p, _) => Some p | _ => None end |}.

(** *** The driver object *)

Definition IRP_MJ_CREATE : Z := 0.
Definition IRP_MJ_CLOSE : Z := 2.
Definition IRP_MJ_DEVICE_CONTROL : Z := 14.

Inductive Routine := CbtDispatchCreateFn | CbtDispatchCloseFn | CbtDispatchDeviceControlFn.

(** The globals with the system's tables, the name of the control device, and
    the driver's own dispatch table. *)
Record System := { core : Driver; link : bool; own : gmap Z Routine }.

Definition set_core (w : Driver) (s : System) : System := {| core := w; link := link s; own := own s |}.

(** The driver is not loaded; [m] are the dispatch tables of the others. *)
Definition absent (m : gmap (Z * Z) Dispatch) : System :=
  {| core := {| g_HookList := []; g_DiskMap := []; MajorFunction := m; g_ControlDevice := false; pool := 0 |};
     link := false; own := ∅ |}.

Definition own_table : gmap Z Routine :=
  <[IRP_MJ_CREATE := CbtDispatchCreateFn]> (<[IRP_MJ_CLOSE := CbtDispatchCloseFn]>
    {[IRP_MJ_DEVICE_CONTROL := CbtDispatchDeviceControlFn]}).

(** [device], [name]: whether the two calls succeed. *)
Definition DriverEntry `{Kernel} (device name : bool) (s : System) : bool * System :=
  if negb device then (false, s)
  else if negb name then (false, s)
  else
    let w := core s in
    let w := {| g_HookList := g_HookList w; g_DiskMap := g_DiskMap w; MajorFunction := MajorFunction w;
                g_ControlDevice := true; pool := pool w |} in
    (true, {| core := BuildDiskAndHookTables w; link := true; own := own_table |}).

Definition CbtDispatchCreate : IoctlResult := io_fail STATUS_SUCCESS.
Definition CbtDispatchClose : IoctlResult := io_fail STATUS_SUCCESS.

(** A request on the control device; the system rejects the functions the
    driver has no routine for. *)
Definition request `{RtlBitmap} (major code : Z) (input : list Z) (outLen : Z) (s : System) : IoctlResult * System :=
  match own s !! major with
  | Some CbtDispatchCreateFn => (CbtDispatchCreate, s)
  | Some CbtDispatchCloseFn => (CbtDispatchClose, s)
  | Some CbtDispatchDeviceControlFn =>
      let '(r, w) := CbtDispatchDeviceControl code input outLen (core s) in (r, set_core w s)
  | None => (io_fail STATUS_INVALID_DEVICE_REQUEST, s)
  end.

(** [CbtUnload]; [deleted]: whether the name can be deleted. *)
Definition Unload (deleted : bool) (s : System) : System :=
  {| core := CbtUnload (core s); link := link s && negb deleted; own := own s |}.

(** What happens to a loaded driver: a write to some disk, or a request. *)
Inductive Call := Write (dev : Device) (irp : Irp) | Request (major code : Z) (input : list Z) (outLen : Z).

Definition call_step `{RtlBitmap} (s : System) (c : Call) : System :=
  match c with
  | Write dev irp => set_core (snd (HwReadWrite dev irp (core s))) s
  | Request major code input outLen => snd (request major code input outLen s)
  end.
Definition calls `{RtlBitmap} (cs : list Call) (s : System) : System := fold_left call_step cs s.

(** ** Lemmas *)

(** The events of the tables among the calls. *)
Definition call_events (c : Call) : list event :=
  match c with
  | Write dev irp => [EWrite dev irp]
  | Request major code input outLen =>
      if major =? IRP_MJ_DEVICE_CONTROL then [EControl code input outLen] else []
  end.

Lemma call_step_core `{RtlBitmapLaws} s c :
  own s = own_table -> call_step s c = set_core (run (call_events c) (core s)) s.
Proof.
  intros Ho. destruct c as [dev irp|major code input outLen]; cbn [call_step call_events]; [done|].
  unfold request. rewrite Ho. unfold own_table.
  destruct (major =? IRP_MJ_DEVICE_CONTROL) eqn:E; reflect_Z.
  - subst major. rewrite !lookup_insert_ne, lookup_singleton_eq by done. cbn [run fold_left step].
    by destruct (CbtDispatchDeviceControl _ _ _ _).
  - assert (forall r, (<[IRP_MJ_CREATE := CbtDispatchCreateFn]> (<[IRP_MJ_CLOSE := CbtDispatchCloseFn]>
      {[IRP_MJ_DEVICE_CONTROL := CbtDispatchDeviceControlFn]}) : gmap Z Routine) !! major = Some r ->
      r <> CbtDispatchDeviceControlFn) as Hr.
    { intros r. rewrite !lookup_insert_Some, lookup_singleton_Some. naive_solver. }
    destruct (_ !! major) as [[]|]; try (by destruct s); by destruct (Hr _ eq_refl).
Qed.

Lemma calls_core `{RtlBitmapLaws} cs s :
  own s = own_table -> calls cs s = set_core (run (concat (map call_events cs)) (core s)) s.
Proof.
  revert s. induction cs as [|c cs IH]; intros s Ho; [by destruct s|].
  change (calls (c :: cs) s) with (calls cs (call_step s c)). rewrite call_step_core, IH by done.
  cbn [map concat]. unfold run. by rewrite fold_left_app.
Qed.

(** The control device stays. *)
Lemma build_control `{Kernel} m : g_ControlDevice (BuildDiskAndHookTables (unloaded m)) = true.
Proof.
  unfold BuildDiskAndHookTables. change true with (g_ControlDevice (unloaded m)). generalize (unloaded m) 0.
  induction MAX_DISKS as [|n IH]; intros w k; cbn [build_disks]; [done|]. rewrite IH.
  destruct (IoGetDeviceObjectPointer k 0) as [d|]; [|done]. unfold add_disk, FindOrCreateHookEntry.
  repeat case_match; simplify_eq; done.
Qed.
Lemma run_control `{RtlBitmapLaws} evs w : g_ControlDevice (run evs w) = g_ControlDevice w.
Proof.
  revert w. induction evs as [|ev evs IH]; intros w; [done|]. change (run (ev :: evs) w) with (run evs (step w ev)).
  rewrite IH. destruct ev as [dev irp|code input outLen]; cbn [step].
  - unfold HwReadWrite. repeat case_match; done.
  - unfold CbtDispatchDeviceControl, HandleIoctlReset. repeat case_match; done.
Qed.

Definition call_length_ok (c : Call) : Prop :=
  match c with Write _ irp => 0 <= irp_Length irp < 2 ^ 32 | _ => True end.

Lemma call_events_ok cs : Forall call_length_ok cs -> Forall length_ok (concat (map call_events cs)).
Proof.
  induction 1 as [|c cs Hc _ IH]; cbn [map concat]; [done|]. apply Forall_app. split; [|done].
  destruct c; cbn [call_events]; [by constructor|]. case_if; by repeat constructor.
Qed.

(** C11: the driver's life.  [DriverEntry] that cannot create its device or its
    name fails and leaves nothing; otherwise it succeeds whatever the disks
    answer, with the tables built.  Then, after any writes and requests:
    opening and closing the control device succeed without effect, a function
    without a routine is rejected, every write is passed to the routine the
    disk's driver had before, and [CbtUnload] restores the system of before the
    load - all dispatch tables, no device, no tables, all pool memory of the
    bitmaps freed, and no name unless it cannot be deleted - so that the driver can
    be loaded again with the same result. *)
Theorem driver_lifecycle `{KernelLaws} `{RtlBitmapLaws} m device name cs dev irp :
  routines_ok m -> Forall call_length_ok cs ->
  (forall n d, IoGetDeviceObjectPointer n 0 = Some d -> d_addr d = d_addr dev -> d_driver d = d_driver dev) ->
  match DriverEntry device name (absent m) with
  | (false, s) => device && name = false /\ s = absent m
  | (true, s0) =>
      device && name = true /\ core s0 = BuildDiskAndHookTables (unloaded m) /\
      let s := calls cs s0 in
      g_ControlDevice (core s) = true /\ link s = true /\
      (forall code input outLen, request IRP_MJ_CREATE code input outLen s = (io_fail STATUS_SUCCESS, s) /\
         request IRP_MJ_CLOSE code input outLen s = (io_fail STATUS_SUCCESS, s) /\
         forall major, major ∉ [IRP_MJ_CREATE; IRP_MJ_CLOSE; IRP_MJ_DEVICE_CONTROL] ->
           request major code input outLen s = (io_fail STATUS_INVALID_DEVICE_REQUEST, s)) /\
      fst (HwReadWrite dev irp (core s)) = PassTo (m !! (d_driver dev, irp_MajorFunction irp)) /\
      core (Unload true s) = core (absent m) /\ link (Unload true s) = false /\
      DriverEntry device name (set_core (core (Unload true s)) (absent m)) = (true, s0)
  end.
Proof.
  intros Hm Hlen Hdev. unfold DriverEntry. destruct device; [|done]. destruct name; [|done]. cbn [negb].
  cbn [core absent g_HookList g_DiskMap MajorFunction pool]. fold (unloaded m).
  set (s0 := {| core := BuildDiskAndHookTables (unloaded m); link := true; own := own_table |}).
  split; [done|]. split; [done|]. cbv zeta. rewrite calls_core by done. cbn [core set_core link own s0].
  set (evs := concat (map call_events cs)). pose proof (call_events_ok cs Hlen) as Hevs. fold evs in Hevs.
  destruct (loaded_hooks_transparent m 32 _ evs dev irp (loaded_inv m Hm) Hevs Hdev) as [Hpass Hunload].
  assert (g_ControlDevice (run evs (BuildDiskAndHookTables (unloaded m))) = true) as Hc.
  { by rewrite run_control, build_control. }
  split; [done|]. split; [done|]. split; [|split; [exact Hpass|]].
  - intros code input outLen. split; [done|]. split; [done|]. intros major Hmaj. unfold request.
    assert (own (set_core (run evs (BuildDiskAndHookTables (unloaded m))) s0) !! major = None) as ->; [|done].
    change (own_table !! major = None). apply not_elem_of_dom. unfold own_table.
    rewrite !dom_insert_L, dom_singleton_L. set_solver.
  - unfold Unload. pose proof (unload_pool m evs Hm Hevs) as Hpool. rewrite CbtUnload_eq in Hunload, Hpool |- *.
    cbn [core link set_core MajorFunction pool] in *. by rewrite Hunload, Hpool.
Qed.

(** ** A query that takes too long *)

(** After the time limit the call has returned and the request still points to
    its stack. *)
Example late_query_outlives_call :
  QueryPartition {| qa_irql := 0; qa_irp := true; qa_timeout := true; qa_status := true; qa_info := (0, 512) |}
  = (QUERY_IO_TIMEOUT, (0, 0), true).
Proof. reflexivity. Qed.

(** ** Two disks, a write, a query and the unloading *)

Definition demo_system : IoSystem := {|
  sys_pool := fun _ => true;
  sys_device := fun n _ =>
    if n =? 0 then Some {| d_addr := 100; d_driver := 7 |}
    else if n =? 1 then Some {| d_addr := 200; d_driver := 7 |} else None;
  sys_query := fun a => {| qa_irql := 0; qa_irp := true; qa_timeout := false; qa_status := true;
    qa_info := (0, if a =? 100 then 3 * CBT_BLOCK_SIZE else 10 * CBT_BLOCK_SIZE) |} |}.

Lemma demo_system_laws : @KernelLaws (@kernel_of demo_system).
Proof.
  split; cbn.
  - intros n n' d d'. destruct (n =? 0) eqn:E, (n' =? 0) eqn:E', (n =? 1) eqn:E1, (n' =? 1) eqn:E1';
      reflect_Z; intros [= <-] [= <-]; cbn; lia.
  - intros a s l [= <- <-]. unfold CBT_BLOCK_SIZE. case_if; lia.
Qed.

Definition demo_calls : list Call :=
  [Request IRP_MJ_CREATE 0 [] 0;
   Write demo_disk {| irp_MajorFunction := IRP_MJ_WRITE; irp_ByteOffset := 5; irp_Length := 10 |};
   Request IRP_MJ_DEVICE_CONTROL IOCTL_QUERY_CBT_DATA (le_enc 4 1) 32; Request IRP_MJ_CLOSE 0 [] 0].

Lemma driver_lifecycle_witness :
  exists s, @DriverEntry (@kernel_of demo_system) true true (absent demo_tables) = (true, s) /\
    core (Unload true (@calls demo_rtl demo_calls s)) = core (absent demo_tables) /\
    MajorFunction (core s) <> demo_tables.
Proof.
  pose proof (@driver_lifecycle (@kernel_of demo_system) demo_system_laws demo_rtl demo_rtl_laws demo_tables true true
    demo_calls demo_disk {| irp_MajorFunction := IRP_MJ_WRITE; irp_ByteOffset := 0; irp_Length := 1 |}) as Hl.
  destruct (DriverEntry true true (absent demo_tables)) as [[] s] eqn:E.
  - exists s. destruct Hl as (_ & Hs & _ & _ & _ & _ & Hu & _).
    + intros n d. cbn. destruct (n =? 0); [|destruct (n =? 1); [|done]]; intros [= <-]; by exists 42.
    + repeat constructor; by vm_compute.
    + intros n d. cbn. destruct (n =? 0); [|destruct (n =? 1); [|done]]; intros [= <-]; done.
    + split; [done|]. split; [exact Hu|]. rewrite Hs. intros Hm.
      apply (f_equal (fun m => m !! (7, IRP_MJ_WRITE))) in Hm. by vm_compute in Hm.
  - by vm_compute in E.
Defined.
