(* ===== verification/ClientLogger.v ===== *)
(** * The client's logger

    [client/Logger.{h,cpp}] and [HashToHex] of [client/BlockHasher.cpp].  The
    character encoding of the log file is the stream library's; the model keeps
    the characters. *)

From Stdlib Require Import Ascii String.
From S2P Require Import Prelude.
From S2P Require Import ServerLogger.

Local Open Scope list_scope.

(** ** Definitions *)

Definition HashToHex (hash : list Z) : list Z := concat (map (hex_byte upperHex) hash).

Inductive LogLevel := Debug | Info | Warning | Error.
Definition level_Z (l : LogLevel) : Z := match l with Debug => 0 | Info => 1 | Warning => 2 | Error => 3 end.
Definition LevelToString (l : LogLevel) : list Z :=
  text match l with Debug => "DEBUG" | Info => "INFO " | Warning => "WARN " | Error => "ERROR" end.

(** [m_file] is the path of the open file with the stream's fail bit; [disk]
    and [console] are what the files and the console hold. *)
Record Logger := {
  m_file : option (list Z); m_fail : bool; m_console : bool; m_minLevel : LogLevel; m_initialized : bool;
  disk : gmap (list Z) (list Z); console : list Z }.

Definition Logger_new (d : gmap (list Z) (list Z)) : Logger :=
  {| m_file := None; m_fail := false; m_console := false; m_minLevel := Debug; m_initialized := false;
     disk := d; console := [] |}.

(** [open] on a stream that is open fails and leaves it as it is; [opens]:
    whether the system opens the file, for appending. *)
Definition Initialize (path : list Z) (con opens : bool) (s : Logger) : bool * Logger :=
  match m_file s with
  | Some p =>
      (true, {| m_file := Some p; m_fail := true; m_console := con; m_minLevel := m_minLevel s;
                m_initialized := true; disk := disk s; console := console s |})
  | None =>
      if opens then
        (true, {| m_file := Some path; m_fail := false; m_console := con; m_minLevel := m_minLevel s;
                  m_initialized := true; disk := <[path := default [] (disk s !! path)]> (disk s);
                  console := console s |})
      else
        (false, {| m_file := None; m_fail := true; m_console := con; m_minLevel := m_minLevel s;
                   m_initialized := m_initialized s; disk := disk s; console := console s |})
  end.

Definition SetMinLevel (l : LogLevel) (s : Logger) : Logger :=
  {| m_file := m_file s; m_fail := m_fail s; m_console := m_console s; m_minLevel := l;
     m_initialized := m_initialized s; disk := disk s; console := console s |}.

(** The line without its end; [time] is the answer of [GetTimeString]. *)
Definition line (level : LogLevel) (time message : list Z) : list Z :=
  text "[" ++ time ++ text "]" ++ text "[" ++ LevelToString level ++ text "] " ++ message.

Definition Write (level : LogLevel) (time message : list Z) (s : Logger) : Logger :=
  if level_Z level <? level_Z (m_minLevel s) then s
  else if negb (m_initialized s) then s
  else
    let t := line level time message ++ [NEWLINE] in
    {| m_file := m_file s;
       m_fail := match m_file s with Some _ => false | None => m_fail s end;
       m_console := m_console s; m_minLevel := m_minLevel s; m_initialized := m_initialized s;
       disk := match m_file s with
               | Some p => if m_fail s then disk s else <[p := default [] (disk s !! p) ++ t]> (disk s)
               | None => disk s
               end;
       console := if m_console s then console s ++ t else console s |}.

Definition Shutdown (s : Logger) : Logger :=
  {| m_file := None; m_fail := m_fail s; m_console := m_console s; m_minLevel := m_minLevel s;
     m_initialized := false; disk := disk s; console := console s |}.

(** [GetTimeString] from the fields of [SYSTEMTIME]. *)
Definition GetTimeString (year month day hour minute second : Z) : list Z :=
  ServerLogger.padded 4 year ++ text "-" ++ ServerLogger.padded 2 month ++ text "-" ++ ServerLogger.padded 2 day
  ++ text " " ++ ServerLogger.padded 2 hour ++ text ":" ++ ServerLogger.padded 2 minute ++ text ":"
  ++ ServerLogger.padded 2 second.

(** ** Theorems *)

(** the texts of the logs can be read back.  The hexadecimal forms of a
    hash, lower case on the server and upper case on the client, have two
    characters per byte and determine it.  The version type of a greeting is
    printed as UTF-8 of the characters in front of the first zero, as RFC 3629
    defines it, except that text with surrogates - characters beyond the basic
    plane - gives bytes that are no UTF-8 at all. *)
Theorem log_text_roundtrip hash data :
  bytes_ok hash -> Forall (in_width 16) data ->
  unhex (ServerLogger.HashToHex hash) = Some hash /\ unhex (HashToHex hash) = Some hash /\
  zlen (ServerLogger.HashToHex hash) = 2 * zlen hash /\ zlen (HashToHex hash) = 2 * zlen hash /\
  utf8_decode (Utf16leToUtf8 data) = if existsb surrogate (c_text data) then None else Some (c_text data).
Proof.
  intros Hh Hd. destruct (hash_text kHex hash) as [? ?]; [by left|done|].
  destruct (hash_text upperHex hash) as [? ?]; [by right|done|]. split_and!; try done.
  induction Hd as [|cp data Hc _ IH]; [done|]. cbn [Utf16leToUtf8 c_text].
  destruct (cp =? 0); [done|]. rewrite decode_unit, IH by done. cbn [existsb].
  destruct (surrogate cp); [done|]. by destruct (existsb surrogate (c_text data)).
Qed.

(** The calls between [Initialize] and [Shutdown]. *)
Inductive call := CallWrite (level : LogLevel) (time message : list Z) | CallSetMinLevel (level : LogLevel).
Definition run_call (s : Logger) (c : call) : Logger :=
  match c with
  | CallWrite level time message => Write level time message s
  | CallSetMinLevel level => SetMinLevel level s
  end.
(** The lines a log at a level keeps of these calls. *)
Fixpoint kept (min : LogLevel) (cs : list call) : list Z :=
  match cs with
  | [] => []
  | CallSetMinLevel level :: cs' => kept level cs'
  | CallWrite level time message :: cs' =>
      (if level_Z level <? level_Z min then [] else line level time message ++ [NEWLINE])
      ++ kept min cs'
  end.

(** A message for an open log. *)
Lemma Write_open level time message s p :
  m_file s = Some p -> m_fail s = false -> m_initialized s = true ->
  Write level time message s =
    if level_Z level <? level_Z (m_minLevel s) then s
    else
      let t := line level time message ++ [NEWLINE] in
      {| m_file := Some p; m_fail := false; m_console := m_console s; m_minLevel := m_minLevel s;
         m_initialized := true; disk := <[p := default [] (disk s !! p) ++ t]> (disk s);
         console := if m_console s then console s ++ t else console s |}.
Proof. intros Hf Hfail Hi. unfold Write. by rewrite Hf, Hfail, Hi. Qed.

(** What a run of calls does to an open log. *)
Lemma calls_append cs s p :
  m_file s = Some p -> m_fail s = false -> m_initialized s = true -> is_Some (disk s !! p) ->
  let s' := fold_left run_call cs s in
  m_file s' = Some p /\ m_fail s' = false /\ m_initialized s' = true /\
  disk s' = <[p := default [] (disk s !! p) ++ kept (m_minLevel s) cs]> (disk s) /\
  console s' = console s ++ (if m_console s then kept (m_minLevel s) cs else []).
Proof.
  revert s. induction cs as [|[level time message|level] cs IH]; intros s Hf Hfail Hi Hd; cbn [fold_left kept run_call].
  - destruct Hd as [f Hd]. rewrite Hd. cbn [from_option id]. rewrite app_nil_r, insert_id by done. split_and!; try done.
    destruct (m_console s); by rewrite app_nil_r.
  - rewrite (Write_open _ _ _ s p) by done. destruct (_ <? _); [by apply IH|]. cbv zeta.
    set (t := line level time message ++ [NEWLINE]).
    edestruct IH as (H1 & H2 & H3 & H4 & H5); cycle 4.
    + split; [exact H1|]. split; [exact H2|]. split; [exact H3|]. rewrite H4, H5. cbn [disk console m_console m_minLevel].
      rewrite lookup_insert_eq, insert_insert_eq. cbn [from_option id]. rewrite <- app_assoc. split; [done|].
      destruct (m_console s); [by rewrite <- app_assoc|done].
    + done.
    + done.
    + done.
    + cbn [disk]. rewrite lookup_insert_eq. eauto.
  - by apply (IH (SetMinLevel level s)).
Qed.

(** what the client's log holds.  From a new logger, once [Initialize] has
    opened the file, every message at or above the level then in force is
    appended to it as one line, in order, and to the console if that is on;
    other files do not change, and after [Shutdown] neither does this one.  A
    second [Initialize] reports success but keeps the first file, and the next
    message is missing from it. *)
Theorem client_log_contents d path con cs after path' con' opens level time message :
  let opened := (Initialize path con true (Logger_new d)).2 in
  let logged := fold_left run_call cs opened in
  let file := default [] (d !! path) ++ kept Debug cs in
  disk logged = <[path := file]> d /\ console logged = (if con then kept Debug cs else []) /\
  disk (fold_left run_call after (Shutdown logged)) = <[path := file]> d /\
  (let again := Initialize path' con' opens logged in
   again.1 = true /\
   (level_Z (m_minLevel logged) <= level_Z level ->
    disk (Write level time message again.2) = <[path := file]> d /\
    disk (Write level time message (Write level time message again.2))
    = <[path := file ++ line level time message ++ [NEWLINE]]> d)).
Proof.
  intros opened logged file.
  destruct (calls_append cs opened path) as (Hf & Hfail & Hi & Hd & Hc); try done.
  { cbn. rewrite lookup_insert_eq. eauto. }
  fold logged in Hf, Hfail, Hi, Hd, Hc. cbn [opened Initialize Logger_new m_file snd disk console m_console m_minLevel] in Hd, Hc.
  rewrite lookup_insert_eq, insert_insert_eq in Hd. cbn [from_option id] in Hd. fold file in Hd.
  split; [done|]. split; [by destruct con|]. split; [|].
  - assert (forall s, m_initialized s = false -> disk (fold_left run_call after s) = disk s) as Hs.
    { clear. induction after as [|[level time message|level] after IH]; intros s Hs; [done| |]; cbn [fold_left run_call].
      - unfold Write. destruct (_ <? _); [by apply IH|]. rewrite Hs. by apply IH.
      - by apply (IH (SetMinLevel level s)). }
    rewrite Hs by done. exact Hd.
  - unfold Initialize. rewrite Hf. split; [done|]. intros Hl. unfold Write. cbn [m_minLevel snd].
    test_false (level_Z level <? level_Z (m_minLevel logged)).
    cbn [negb m_initialized m_file m_fail disk console m_console m_minLevel].
    test_false (level_Z level <? level_Z (m_minLevel logged)).
    cbn [negb]. rewrite Hd. split; [done|]. by rewrite lookup_insert_eq, insert_insert_eq.
Qed.

(** ** Witnesses *)

Lemma log_text_roundtrip_witness :
  ServerLogger.HashToHex [0xAB; 0x01] = text "ab01" /\ unhex (HashToHex [0xAB; 0x01]) = Some [0xAB; 0x01] /\
  utf8_decode (Utf16leToUtf8 [0x46; 0x4E2D; 0xE9; 0; 0x46]) = Some [0x46; 0x4E2D; 0xE9].
Proof.
  destruct (log_text_roundtrip [0xAB; 0x01] [0x46; 0x4E2D; 0xE9; 0; 0x46]) as (_ & Hc & _ & _ & Hu); [evaluate..|].
  split; [by vm_compute|]. split; [exact Hc|exact Hu].
Defined.

Lemma client_log_contents_witness :
  let opened := (Initialize (text "backup.log") false true (Logger_new ∅)).2 in
  let log := line Warning (text "t") (text "lost") ++ [NEWLINE] in
  disk (Write Warning (text "t") (text "lost") opened) = {[text "backup.log" := log]} /\
  disk (Write Error (text "t") (text "no") (Initialize (text "other.log") false true
    (Write Warning (text "t") (text "lost") opened)).2) = {[text "backup.log" := log]}.
Proof.
  destruct (client_log_contents ∅ (text "backup.log") false [CallWrite Warning (text "t") (text "lost")] []
    (text "other.log") false true Error (text "t") (text "no")) as (Hd & _ & _ & _ & Hw).
  split; [exact Hd|]. apply Hw. by vm_compute.
Defined.
