(* ===== verification/TestSuite.v ===== *)
(** * The project's own tests, run on the model

    [src/tests/test_BlockStateManager.cpp], the tests of manifests and
    hexadecimal hashes in [src/tests/test_BlockHasher.cpp], those of
    [src/tests/test_DataCompressor.cpp] that fit every compression API (here the
    one of [DataCompressor], which stores) and the levels in
    [src/tests/test_Logger.cpp], each evaluated on the definitions.  The model gives the values the tests ask for, with two
    exceptions: a skipped block is still pending
    ([GetPendingBlocks_OnlyReturnsNeedsUpload]), and a saved state does not come
    back ([SaveLoad_RoundTrip_PreservesData], [SaveLoad_MultipleVersions]), which
    [StateFile] proves of every state. *)

From Stdlib Require Import Ascii String.
From S2P Require Import Prelude.
From S2P Require Import ServerLogger.
From S2P Require Import ClientLogger.
From S2P Require Import BlockHasher.
From S2P Require Import DataCompressor.
From S2P Require Import BlockStateManager.
From S2P Require Import StateFile.

Local Open Scope list_scope.

(** ** Set-up *)

(** [MakeTestManifest]. *)
Definition MakeTestManifest (numBlocks : Z) : HashManifest :=
  {| m_BlockSize := 1048576; m_TotalBlocks := numBlocks; m_TotalSize := numBlocks * 1048576;
     m_Entries := map (fun i => {| e_BlockIndex := i; e_Offset := i * 1048576; e_Hash := replicate 32 (Z.land i 0xFF) |})
                    (seqZ 0 numBlocks);
     m_Timestamp := 0; m_VolumePath := text "test" |}.

(** [Initialize] with the file the directory holds; a block's record reaches
    four bytes behind its buffer, which the allocator has. *)
Definition initialized (devNo : Z) (file : option (list Z)) : Manager :=
  match StateFile.Initialize (2 ^ 40) (zeros 16) devNo file Manager_new with
  | Loaded true m => m
  | _ => Manager_new
  end.
Definition saved (m : Manager) : option (list Z) :=
  '(ok, _, file) ← Save (fun _ n => n) true true (zeros 16) m None; if ok : bool then file else None.
Definition NOW : Z := 133000000000000000.

Definition create (type : string) (total : Z) (m : Manager) : VersionRecord * Manager :=
  CreateVersion (text type) NOW total (total * 1048576) NOW m.
(** A manager with one full version of some blocks. *)
Definition full (devNo total : Z) : Manager :=
  let '(ver, m) := create "FULL" total (initialized devNo None) in
  snd (InitFullBlocks (v_VersionId ver) (MakeTestManifest total) m).
Definition acks (l : list (Z * Z)) (m : Manager) : Manager :=
  fold_left (fun m '(i, st) => snd (SetBlockAck i st m)) l m.
Definition ack_of (i : Z) (m : Manager) : Z := b_Ack (GetBlockState i m).
Definition entry_of (idx : Z) : BlockHashEntry :=
  {| e_BlockIndex := idx; e_Offset := idx * 1048576; e_Hash := replicate 32 0xFF |}.

(** ** [BlockStateManager] *)

Example Construct_Defaults :
  (m_initialized Manager_new, m_devNo Manager_new, m_totalBlocks Manager_new) = (false, -1, 0).
Proof. reflexivity. Qed.
Example Initialize_NewState_Succeeds :
  let m := initialized 0 None in (m_initialized m, m_devNo m) = (true, 0).
Proof. by vm_compute. Qed.

Example CreateVersion_FirstVersion_ReturnsVersion0 :
  let v := fst (create "FULL" 100 (initialized 0 None)) in
  (v_VersionId v, v_DevNo v, v_TotalBlocks v, v_TotalSize v) = (0, 0, 100, 100 * 1048576) /\
  (v_VersionType v, v_ChangedBlocks v, v_AckedBlocks v) = (text "FULL", 0, 0).
Proof. by vm_compute. Qed.
Example CreateVersion_MultipleVersions_Increments :
  let '(v0, m) := create "FULL" 100 (initialized 0 None) in
  let '(v1, m) := create "INCREMENTAL" 100 m in
  let '(v2, m) := create "INCREMENTAL" 100 m in map v_VersionId [v0; v1; v2] = [0; 1; 2].
Proof. by vm_compute. Qed.
Example GetVersionHistory_ReturnsSorted :
  let m := snd (create "INCREMENTAL" 10 (snd (create "FULL" 10 (initialized 0 None)))) in
  map v_VersionId (GetVersionHistory m) = [0; 1].
Proof. by vm_compute. Qed.
Example GetVersion_Existing_ReturnsCorrect :
  let '(v, m) := create "FULL" 50 (initialized 0 None) in
  v_VersionType (GetVersion (v_VersionId v) m) = text "FULL" /\ v_VersionId (GetVersion (v_VersionId v) m) = v_VersionId v.
Proof. by vm_compute. Qed.
Example GetVersion_NonExisting_ReturnsEmpty :
  let v := GetVersion 999 (initialized 0 None) in (v_VersionId v, v_DevNo v) = (0, 0).
Proof. by vm_compute. Qed.

Example InitFullBlocks_InitializesAllBlocks :
  let '(v, m) := create "FULL" 10 (initialized 0 None) in
  let '(ok, m) := InitFullBlocks (v_VersionId v) (MakeTestManifest 10) m in
  (ok, m_totalBlocks m, length (GetPendingBlocks m)) = (true, 10, 10%nat) /\
  (b_Changed (GetBlockState 0 m), ack_of 0 m) = (true, Pending).
Proof. by vm_compute. Qed.
Example InitFullBlocks_WrongVersionId_Fails :
  fst (InitFullBlocks 999 (MakeTestManifest 5) (initialized 0 None)) = false.
Proof. by vm_compute. Qed.
Example InitFullBlocks_ZeroBlocks :
  let '(ok, m) := InitFullBlocks 0 (MakeTestManifest 0) (snd (create "FULL" 0 (initialized 0 None))) in
  (ok, m_totalBlocks m, GetPendingBlocks m) = (true, 0, []).
Proof. by vm_compute. Qed.

Example SetBlockAck_SingleBlock_Transitions :
  let m := acks [(0, Acknowledged); (1, Failed); (2, Skipped)] (full 0 5) in
  (ack_of 0 m, ack_of 1 m, ack_of 2 m, v_AckedBlocks (GetVersion 0 m)) = (Acknowledged, Failed, Skipped, 1).
Proof. by vm_compute. Qed.
Example SetBlockAck_OutOfRange_Fails : fst (SetBlockAck 100 Acknowledged (full 0 5)) = false.
Proof. by vm_compute. Qed.
Example SetBlockAckRange_BatchUpdate :
  let '(ok, m) := SetBlockAckRange 0 5 Acknowledged (full 0 10) in
  (ok, v_AckedBlocks (GetVersion 0 m)) = (true, 5) /\
  map (fun i => ack_of i m) (seqZ 0 10) = replicate 5 Acknowledged ++ replicate 5 Pending.
Proof. by vm_compute. Qed.
Example SetBlockAckList_NonContiguous :
  let '(ok, m) := SetBlockAckList [0; 2; 4; 6; 8] Acknowledged (full 0 10) in
  (ok, v_AckedBlocks (GetVersion 0 m)) = (true, 5).
Proof. by vm_compute. Qed.

Example GetBlockState_ValidIndex :
  let b := GetBlockState 3 (full 0 5) in (b_BlockIndex b, b_Offset b, b_Changed b) = (3, 3 * 1048576, true).
Proof. by vm_compute. Qed.
Example GetBlockState_OutOfRange_ReturnsEmpty :
  let b := GetBlockState 999 (initialized 0 None) in (b_BlockIndex b, b_Changed b) = (0, false).
Proof. by vm_compute. Qed.
Example GetBlocksByAck_FiltersCorrectly :
  let m := acks [(0, Acknowledged); (1, Failed); (2, Skipped)] (full 0 10) in
  map (fun st => length (GetBlocksByAck st m)) [Acknowledged; Failed; Skipped; Pending] = [1; 1; 1; 7]%nat.
Proof. by vm_compute. Qed.
(** The blocks the test expects to be left: the skipped one is still changed and
    not acknowledged, so it is pending and there are four; the test asks for
    three. *)
Example GetPendingBlocks_OnlyReturnsNeedsUpload :
  length (GetPendingBlocks (acks [(0, Acknowledged); (1, Skipped)] (full 0 5))) = 4%nat.
Proof. by vm_compute. Qed.
Example GetBlockHistory_SingleVersion :
  map b_BlockIndex (GetBlockHistory 0 (full 0 5)) = [0] /\ GetBlockHistory 999 (full 0 5) = [].
Proof. by vm_compute. Qed.
Example GetLastAcknowledgedBlock_Contiguous :
  GetLastAcknowledgedBlock (snd (SetBlockAckRange 0 5 Acknowledged (full 0 10))) = 5.
Proof. by vm_compute. Qed.
Example GetLastAcknowledgedBlock_Gap :
  GetLastAcknowledgedBlock
    (acks [(0, Acknowledged); (1, Acknowledged); (2, Acknowledged); (4, Acknowledged)] (full 0 10)) = 3.
Proof. by vm_compute. Qed.

(** The state is saved, but the next [Initialize] has only its number of blocks:
    the tests ask for the version, the acknowledgements and three pending
    blocks. *)
Example SaveLoad_RoundTrip_PreservesData :
  let m := acks [(0, Acknowledged); (1, Acknowledged); (2, Failed)] (full 99 5) in
  let m2 := initialized 99 (saved m) in
  (length (GetPendingBlocks m), length (GetVersionHistory m)) = (3, 1)%nat /\
  is_Some (saved m) /\ (m_totalBlocks m2, m_devNo m2) = (5, 99) /\
  GetVersionHistory m2 = [] /\ ack_of 0 m2 = Pending /\ GetPendingBlocks m2 = [].
Proof. vm_compute. repeat split. by eexists. Qed.
Example SaveLoad_MultipleVersions :
  let m := snd (create "INCREMENTAL" 3 (full 0 3)) in
  map v_VersionType (GetVersionHistory m) = [text "FULL"; text "INCREMENTAL"] /\
  is_Some (saved m) /\ GetVersionHistory (initialized 0 (saved m)) = [].
Proof. vm_compute. repeat split. by eexists. Qed.

Example UpdateIncrementalBlocks_SubsetChanged :
  let '(v1, m) := create "INCREMENTAL" 5 (full 0 5) in
  let '(ok, m) := UpdateIncrementalBlocks (v_VersionId v1) [1; 3] (map entry_of [1; 3]) m in
  (ok, v_ChangedBlocks (GetVersion (v_VersionId v1) m)) = (true, 2) /\
  map (fun i => (b_Changed (GetBlockState i m), ack_of i m)) [0; 1; 2; 3]
  = [(false, Skipped); (true, Pending); (false, Skipped); (true, Pending)].
Proof. by vm_compute. Qed.
Example UpdateIncrementalBlocks_CountMismatch_Fails :
  let '(v1, m) := create "INCREMENTAL" 5 (full 0 5) in fst (UpdateIncrementalBlocks (v_VersionId v1) [1; 2] [] m) = false.
Proof. by vm_compute. Qed.
Example UpdateIncrementalBlocks_EmptyBlocks_Fails :
  let '(v, m) := create "INCREMENTAL" 5 (initialized 0 None) in
  fst (UpdateIncrementalBlocks (v_VersionId v) [1] [entry_of 1] m) = false.
Proof. by vm_compute. Qed.

Example Save_WithoutInit_Fails : saved Manager_new = None.
Proof. by vm_compute. Qed.
Example Save_EmptyState_Succeeds : is_Some (saved (snd (create "FULL" 0 (initialized 0 None)))).
Proof. vm_compute. by eexists. Qed.
Example Destructor_AutoSave_DirtyState :
  match Destroy (fun _ n => n) true true (zeros 16) (full 5 3) None with
  | Some file => m_totalBlocks (initialized 5 file) = 3
  | None => False
  end.
Proof. by vm_compute. Qed.

(** ** [BlockHasher] *)

Definition manifest_of (hashes : list (list Z)) : HashManifest :=
  {| m_BlockSize := BlockHasher.BLOCK_SIZE; m_TotalBlocks := zlen hashes; m_TotalSize := zlen hashes * BlockHasher.BLOCK_SIZE;
     m_Entries := map (fun '(i, h) => {| e_BlockIndex := i; e_Offset := i * BlockHasher.BLOCK_SIZE; e_Hash := h |})
                    (zip (seqZ 0 (zlen hashes)) hashes);
     m_Timestamp := 0; m_VolumePath := [] |}.

Example HashToHex_AllZeros : ClientLogger.HashToHex (replicate 32 0) = replicate 64 48.
Proof. by vm_compute. Qed.
Example HashToHex_AllFFs : ClientLogger.HashToHex (replicate 32 0xFF) = replicate 64 70.
Proof. by vm_compute. Qed.
Example SerializeDeserialize_RoundTrip :
  let original := manifest_of [replicate 32 42] in
  match DeserializeManifest (2 ^ 40) (SerializeManifest original) with
  | Accepted restored =>
      (m_BlockSize restored, m_TotalBlocks restored, m_TotalSize restored, map e_Hash (m_Entries restored))
      = (m_BlockSize original, m_TotalBlocks original, m_TotalSize original, map e_Hash (m_Entries original))
  | _ => False
  end.
Proof. by vm_compute. Qed.
Example SerializeManifest_Empty :
  zlen (SerializeManifest (manifest_of [])) = 32 /\
  match DeserializeManifest (2 ^ 40) (SerializeManifest (manifest_of [])) with
  | Accepted restored => m_TotalBlocks restored = 0
  | _ => False
  end.
Proof. by vm_compute. Qed.
Example DeserializeManifest_InvalidData_Fails :
  DeserializeManifest (2 ^ 40) [0; 0; 0; 0] = Rejected /\ DeserializeManifest (2 ^ 40) [] = Rejected.
Proof. by vm_compute. Qed.
Example CompareManifests_Identical_NoChanges :
  CompareManifests (manifest_of [replicate 32 1]) (manifest_of [replicate 32 1]) = [].
Proof. by vm_compute. Qed.
Example CompareManifests_DifferentHash_DetectsChange :
  CompareManifests (manifest_of [replicate 32 1]) (manifest_of [replicate 32 2]) = [0].
Proof. by vm_compute. Qed.
Example CompareManifests_NewBlocks_Detected :
  CompareManifests (manifest_of [replicate 32 0xAA]) (manifest_of [replicate 32 0xAA; replicate 32 0xAA]) = [1].
Proof. by vm_compute. Qed.

(** ** [DataCompressor] *)

(** [MakeTestData] of [src/tests/test_framework.h]. *)
Definition MakeTestData (size seed : Z) : list Z := map (fun i => Z.land (i + seed) 0xFF) (seqZ 0 size).

Abbreviation ready := (@DataCompressor.Initialize demo_api (@Compressor_new demo_api)).
Abbreviation compressed size seed := (@Compress demo_api (snd ready) (MakeTestData size seed) []).

Example Initialize_Idempotent : fst ready = true /\ @DataCompressor.Initialize demo_api (snd ready) = (true, snd ready).
Proof. split; reflexivity. Qed.
Example Compress_WithoutInit_Fails : @Compress demo_api (@Compressor_new demo_api) [1; 2; 3] [] = Some (false, []).
Proof. by vm_compute. Qed.
Example CompressDecompress_RoundTrip_SmallData :
  match compressed 1024 13 with
  | Some (true, out) => 0 < zlen out /\ @Decompress demo_api out 1024 [] = (true, MakeTestData 1024 13)
  | _ => False
  end.
Proof. by vm_compute. Qed.
Example Compress_CompressedSize_LessThanMax :
  match compressed 1024 99 with Some (true, out) => zlen out <= GetMaxCompressedSize 1024 | _ => False end.
Proof. by vm_compute. Qed.
Example Decompress_InvalidData_Fails : fst (@Decompress demo_api [0xFF; 0xFF; 0xFF; 0xFF] 1024 []) = false.
Proof. by vm_compute. Qed.
Example Decompress_WrongOriginalSize_Fails :
  match compressed 512 42 with
  | Some (true, out) => fst (@Decompress demo_api out 99999 []) = false
  | _ => False
  end.
Proof. by vm_compute. Qed.
Example GetMaxCompressedSize_GreaterThanInput : 1048576 <= GetMaxCompressedSize 1048576.
Proof. by vm_compute. Qed.
Example Shutdown_NoCrash : let c := Shutdown (snd ready) in Shutdown c = c /\ m_hCompressor c = None.
Proof. split; reflexivity. Qed.

(** ** [Logger] *)

Example LogLevel_EnumValues :
  ClientLogger.level_Z Debug < ClientLogger.level_Z Info < ClientLogger.level_Z Warning /\
  ClientLogger.level_Z Warning < ClientLogger.level_Z Error.
Proof. by vm_compute. Qed.
Example SetMinLevel_And_GetMinLevel_RoundTrip :
  map (fun l => m_minLevel (SetMinLevel l (Logger_new ∅))) [Debug; Info; Warning; Error] = [Debug; Info; Warning; Error].
Proof. by vm_compute. Qed.
