(* ===== verification/Handles.v ===== *)
(** * Handles, sockets and the state file's path

    What the client's objects hold of the system: [DiskParser::Open] and
    [Close], [DiskScanner::OpenDisk], [BlockHasher::Initialize], the socket of
    [NetworkClient] with its options, their destructors, and
    [BlockStateManager::GetStateFilePath].  The handles of the process that are
    open are part of the state, so a leak is a statement about it. *)

From Stdlib Require Import Ascii String.
From stdpp Require Import pretty.
From S2P Require Import Prelude.
From S2P Require Import DiskMap.
From S2P Require Import DiskParser.
From S2P Require Import VolumeMapper.
From S2P Require Import BackupEngine.

Local Open Scope list_scope.

(** ** Definitions *)

(** [CreateFileW], [BCryptOpenAlgorithmProvider] and [socket] with the handles
    in use; the name tells the calls apart. *)
Section handles.
Context (os_open : gset Z -> list Z -> option Z).

(** *** Disks *)

Record DiskHandle := { m_hDisk : option Z; m_DeviceNumber : Z }.
Definition DiskHandle_new : DiskHandle := {| m_hDisk := None; m_DeviceNumber := -1 |}.

(** [Close], which is also the destructor. *)
Definition Close (p : DiskHandle) (hs : gset Z) : DiskHandle * gset Z :=
  match m_hDisk p with
  | Some h => ({| m_hDisk := None; m_DeviceNumber := m_DeviceNumber p |}, hs ∖ {[h]})
  | None => (p, hs)
  end.

Definition Open (deviceNumber : Z) (p : DiskHandle) (hs : gset Z) : bool * DiskHandle * gset Z :=
  let '(p, hs) := Close p hs in
  match os_open hs (physical_drive deviceNumber) with
  | None => (false, p, hs)
  | Some h => (true, {| m_hDisk := Some h; m_DeviceNumber := deviceNumber |}, {[h]} ∪ hs)
  end.

(** [DiskScanner::OpenDisk] and the [CloseHandle] at the end of [Enumerate]. *)
Definition OpenDisk (devno : Z) (hs : gset Z) : option Z * gset Z :=
  match os_open hs (physical_drive devno) with
  | None => (None, hs)
  | Some h => (Some h, {[h]} ∪ hs)
  end.
Definition CloseDisk (h : Z) (hs : gset Z) : gset Z := hs ∖ {[h]}.

(** *** The hash algorithm *)

Record Hasher := { m_initialized : bool; m_hAlg : option Z; m_buffer : Z }.
Definition Hasher_new : Hasher := {| m_initialized := false; m_hAlg := None; m_buffer := 0 |}.

Definition Initialize (a : Hasher) (hs : gset Z) : bool * Hasher * gset Z :=
  if m_initialized a then (true, a, hs)
  else
    match os_open hs (wide "SHA256") with
    | None => (false, a, hs)
    | Some h => (true, {| m_initialized := true; m_hAlg := Some h; m_buffer := BlockHasher.BLOCK_SIZE |}, {[h]} ∪ hs)
    end.
Definition Hasher_delete (a : Hasher) (hs : gset Z) : gset Z :=
  match m_hAlg a with Some h => hs ∖ {[h]} | None => hs end.

(** *** The socket *)

Inductive SocketOption := RCVTIMEO (ms : Z) | SNDTIMEO (ms : Z) | KEEPALIVE | KEEPALIVE_VALS (idle interval : Z).

(** The options that were set, in order; [sets]: whether a call succeeds. *)
Definition SetSocketTimeout (sets : SocketOption -> bool) (timeoutSec : Z) : bool * list SocketOption :=
  let timeout := u32 (timeoutSec * 1000) in
  if negb (sets (RCVTIMEO timeout)) then (false, [])
  else if negb (sets (SNDTIMEO timeout)) then (false, [RCVTIMEO timeout])
  else (true, [RCVTIMEO timeout; SNDTIMEO timeout]).
Definition SetTcpKeepAlive (sets : SocketOption -> bool) : bool * list SocketOption :=
  if negb (sets KEEPALIVE) then (false, [])
  else if negb (sets (KEEPALIVE_VALS 30000 5000)) then (false, [KEEPALIVE])
  else (true, [KEEPALIVE; KEEPALIVE_VALS 30000 5000]).

Record NetworkClient := {
  m_socket : option Z; m_connected : bool; m_serverIp : list Z; m_port : Z; m_timeoutSec : Z;
  m_options : list SocketOption }.
Definition NetworkClient_new : NetworkClient :=
  {| m_socket := None; m_connected := false; m_serverIp := []; m_port := 0; m_timeoutSec := 30; m_options := [] |}.

(** What the calls of [Connect] answer. *)
Record ConnectAnswers := { ca_sets : SocketOption -> bool; ca_pton : bool; ca_connect : bool }.

Definition Connect (a : ConnectAnswers) (serverIp : list Z) (port timeoutSec : Z) (c : NetworkClient) (hs : gset Z)
    : bool * NetworkClient * gset Z :=
  let with_socket s connected opts :=
    {| m_socket := s; m_connected := connected; m_serverIp := serverIp; m_port := port; m_timeoutSec := timeoutSec;
       m_options := opts |} in
  match os_open hs (wide "socket") with
  | None => (false, with_socket None (m_connected c) [], hs)
  | Some h =>
      let opened := {[h]} ∪ hs in
      let opts := snd (SetTcpKeepAlive (ca_sets a)) ++ snd (SetSocketTimeout (ca_sets a) timeoutSec)
                  ++ snd (SetSocketTimeout (ca_sets a) timeoutSec) in
      if negb (ca_pton a) then (false, with_socket None (m_connected c) [], opened ∖ {[h]})
      else if negb (ca_connect a) then (false, with_socket None (m_connected c) [], opened ∖ {[h]})
      else (true, with_socket (Some h) true opts, opened)
  end.

Definition Disconnect (c : NetworkClient) (hs : gset Z) : NetworkClient * gset Z :=
  let closed := {| m_socket := None; m_connected := false; m_serverIp := m_serverIp c; m_port := m_port c;
                   m_timeoutSec := m_timeoutSec c; m_options := [] |} in
  match m_socket c with
  | Some h => (closed, hs ∖ {[h]})
  | None => (closed, hs)
  end.
End handles.

(** *** The state file *)

Definition MAX_PATH : Z := 260.

(** [None]: the text does not fit and [swprintf_s] ends the program. *)
Definition GetStateFilePath (stateDir : list Z) (devNo : Z) : option (list Z) :=
  let path := stateDir ++ [BACKSLASH] ++ wide "block_state_" ++ wide (pretty devNo) ++ wide ".dat" in
  if MAX_PATH <=? zlen path then None else Some path.

(** ** Lemmas *)

Lemma wide_inj s s' : wide s = wide s' -> s = s'.
Proof.
  unfold wide. intros E. rewrite <- (string_of_list_ascii_of_string s), <- (string_of_list_ascii_of_string s'). f_equal.
  revert E. generalize (list_ascii_of_string s), (list_ascii_of_string s'). intros l.
  induction l as [|a l IH]; intros [|b l']; try done. cbn [map]. intros [= Ha Hl]. f_equal; [|by apply IH].
  apply Nat2Z.inj in Ha. rewrite <- (ascii_nat_embedding a), <- (ascii_nat_embedding b). by f_equal.
Qed.

(** Every disk has a state file and a device of its own. *)
Lemma state_files_distinct stateDir devNo devNo' path :
  GetStateFilePath stateDir devNo = Some path -> GetStateFilePath stateDir devNo' = Some path -> devNo = devNo'.
Proof.
  unfold GetStateFilePath. destruct (_ <=? _); [done|]. intros [= <-]. destruct (_ <=? _); [done|]. intros [= E].
  apply app_inv_head in E. injection E as E. apply app_inv_tail, wide_inj in E. by apply (inj pretty).
Qed.
Lemma physical_drives_distinct devNo devNo' : physical_drive devNo = physical_drive devNo' -> devNo = devNo'.
Proof. unfold physical_drive. intros E. injection E as E. by apply wide_inj, (inj pretty) in E. Qed.

(** Of the handles open beside [base], an object holds [slot]. *)
Definition held (base : gset Z) (slot : option Z) (hs : gset Z) : Prop :=
  match slot with
  | Some h => hs = {[h]} ∪ base /\ h ∉ base
  | None => hs = base
  end.

Lemma held_closed base h hs : held base (Some h) hs -> hs ∖ {[h]} = base.
Proof. intros [-> Hh]. set_solver. Qed.

Section held.
Context (os_open : gset Z -> list Z -> option Z).
Hypothesis open_law : os_open_ok os_open.

Lemma held_opened base hs name h : held base None hs -> os_open hs name = Some h -> held base (Some h) ({[h]} ∪ hs).
Proof. intros -> Ho. by apply open_law in Ho as [_ ?]. Qed.

(** The operations of the three objects. *)
Inductive disk_op := OpOpen (devno : Z) | OpClose.
Definition run_disk (s : DiskHandle * gset Z) (op : disk_op) : DiskHandle * gset Z :=
  match op with
  | OpOpen n => let '(_, p, hs) := Open os_open n (s.1) (s.2) in (p, hs)
  | OpClose => Close (s.1) (s.2)
  end.
Inductive net_op := OpConnect (a : ConnectAnswers) (ip : list Z) (port timeout : Z) | OpDisconnect.
Definition run_net (s : NetworkClient * gset Z) (op : net_op) : NetworkClient * gset Z :=
  match op with
  | OpConnect a ip port timeout => let '(_, c, hs) := Connect os_open a ip port timeout (s.1) (s.2) in (c, hs)
  | OpDisconnect => Disconnect (s.1) (s.2)
  end.
(** [Connect] is called on a closed socket only. *)
Fixpoint careful (ops : list net_op) (s : NetworkClient * gset Z) : Prop :=
  match ops with
  | [] => True
  | op :: ops' =>
      match op with OpConnect _ _ _ _ => m_socket (s.1) = None | OpDisconnect => True end /\ careful ops' (run_net s op)
  end.

Lemma Close_held base p hs :
  held base (m_hDisk p) hs -> m_hDisk (Close p hs).1 = None /\ (Close p hs).2 = base.
Proof.
  intros Hh. unfold Close. destruct (m_hDisk p) as [h|] eqn:E; [|done]. split; [done|]. by apply held_closed.
Qed.

Lemma disk_held base ops s :
  held base (m_hDisk s.1) (s.2) ->
  held base (m_hDisk (fold_left run_disk ops s).1) (fold_left run_disk ops s).2.
Proof.
  revert s. induction ops as [|op ops IH]; intros [p hs] Hh; [done|]. apply IH. cbn [fst snd] in *.
  destruct (Close_held base p hs Hh) as [Hn Hb]. destruct op as [n|]; cbn [run_disk fst snd]; [|by rewrite Hn, Hb].
  unfold Open. destruct (Close p hs) as [p1 hs1]. cbn [fst snd] in *. subst hs1.
  destruct (os_open base (physical_drive n)) as [h|] eqn:Eo; cbn [fst snd m_hDisk]; [|by rewrite Hn].
  by apply (held_opened base base (physical_drive n)).
Qed.

Lemma Disconnect_held base c hs :
  held base (m_socket c) hs -> m_socket (Disconnect c hs).1 = None /\ (Disconnect c hs).2 = base.
Proof.
  intros Hh. unfold Disconnect. destruct (m_socket c) as [h|] eqn:E; [|done]. split; [done|]. by apply held_closed.
Qed.

Lemma Connect_held base a ip port timeout c hs :
  held base None hs ->
  let '(ok, c', hs') := Connect os_open a ip port timeout c hs in
  held base (m_socket c') hs' /\ (ok = true <-> m_socket c' <> None).
Proof.
  intros Hh. unfold Connect. destruct (os_open hs _) as [h|] eqn:Eo; [|by split].
  pose proof (held_opened base hs _ h Hh Eo) as Ho.
  destruct (ca_pton a); cbn [negb]; [|split; [by apply held_closed|done]].
  destruct (ca_connect a); cbn [negb]; [|split; [by apply held_closed|done]]. by split.
Qed.

Lemma net_held base ops s :
  careful ops s -> held base (m_socket s.1) (s.2) ->
  held base (m_socket (fold_left run_net ops s).1) (fold_left run_net ops s).2.
Proof.
  revert s. induction ops as [|op ops IH]; intros [c hs] Hc Hh; [done|]. destruct Hc as [Hop Hc]. apply IH; [done|].
  cbn [fst snd] in *. destruct op as [a ip port timeout|]; cbn [run_net fst snd].
  - rewrite Hop in Hh. pose proof (Connect_held base a ip port timeout c hs Hh) as Hk.
    destruct (Connect _ _ _ _ _ _ _) as [[ok c'] hs']. apply Hk.
  - destruct (Disconnect_held base c hs Hh) as [-> ->]. done.
Qed.
End held.

(** C39: the client's objects give back what they take.  Whatever the system
    answers and in whatever order the operations are called: a disk parser has
    at most one device open and its destructor leaves none; the hash provider
    is opened at most once and released; a connection has at most one socket,
    none after a failed [Connect], and its destructor leaves none, if [Connect]
    is never called on an open one - a second [Connect] forgets the first
    socket, which stays open. *)
Theorem handles_released os_open base :
  os_open_ok os_open ->
  (forall ops, let s := fold_left (run_disk os_open) ops (DiskHandle_new, base) in
    held base (m_hDisk s.1) (s.2) /\ (Close s.1 s.2).2 = base) /\
  (forall ok1 ok2 a1 a2 hs1 hs2, Initialize os_open Hasher_new base = (ok1, a1, hs1) ->
    Initialize os_open a1 hs1 = (ok2, a2, hs2) ->
    (ok1 = true -> a2 = a1 /\ hs2 = hs1) /\ held base (m_hAlg a2) hs2 /\ Hasher_delete a2 hs2 = base) /\
  (forall ops, careful os_open ops (NetworkClient_new, base) ->
    let s := fold_left (run_net os_open) ops (NetworkClient_new, base) in
    held base (m_socket s.1) (s.2) /\ (Disconnect s.1 s.2).2 = base) /\
  (forall a ip port timeout c c' h hs hs', m_socket c = Some h -> held base (Some h) hs ->
    Connect os_open a ip port timeout c hs = (true, c', hs') ->
    h ∈ (Disconnect c' hs').2 /\ h ∉ base).
Proof.
  intros Ho. split_and!.
  - intros ops s. assert (held base (m_hDisk s.1) (s.2)) as Hs by (by apply disk_held). split; [done|]. by apply Close_held.
  - intros ok1 ok2 a1 a2 hs1 hs2 E1 E2. unfold Initialize in E1. cbn [m_initialized Hasher_new] in E1.
    assert (forall a hs, held base (m_hAlg a) hs -> Hasher_delete a hs = base) as Hdel.
    { intros a hs Hh. unfold Hasher_delete. destruct (m_hAlg a); [by apply held_closed|done]. }
    destruct (os_open base _) as [h|] eqn:Eo; injection E1 as <- <- <-.
    + injection E2 as <- <- <-. assert (held base (Some h) ({[h]} ∪ base)) as Hh by (by apply Ho in Eo as [_ ?]).
      split; [done|]. split; [done|]. by apply Hdel.
    + unfold Initialize in E2. cbn [m_initialized Hasher_new] in E2. rewrite Eo in E2. by injection E2 as <- <- <-.
  - intros ops Hc s. assert (held base (m_socket s.1) (s.2)) as Hs by (by apply net_held).
    split; [done|]. by apply Disconnect_held.
  - intros a ip port timeout c c' h hs hs' _ [-> Hb] E. split; [|done]. unfold Connect in E.
    destruct (os_open _ _) as [h'|] eqn:Eo; [|done]. apply Ho in Eo as [_ Hn].
    destruct (ca_pton a); cbn [negb] in E; [|done]. destruct (ca_connect a); cbn [negb] in E; [|done].
    injection E as <- <-. cbn. set_solver.
Qed.

Definition answering : ConnectAnswers := {| ca_sets := fun _ => true; ca_pton := true; ca_connect := true |}.

Lemma handles_released_witness :
  let s := fold_left (run_net demo_open) [OpConnect answering [] 9000 30; OpDisconnect; OpConnect answering [] 9000 30]
             (NetworkClient_new, {[0; 1; 2]}) in
  m_socket s.1 = Some 3 /\ (Disconnect s.1 s.2).2 = {[0; 1; 2]}.
Proof.
  destruct (handles_released demo_open {[0; 1; 2]} demo_open_ok) as (_ & _ & Hnet & _).
  split; [by vm_compute|].
  apply (Hnet [OpConnect answering [] 9000 30; OpDisconnect; OpConnect answering [] 9000 30]).
  cbn [careful]. split_and!; try done; by vm_compute.
Defined.
